(* ===== verification/_CoqProject ===== *)
-Q . S2P
Prelude.v
RustStr.v
Lexer.v
Parser.v
Include.v
NetAddr.v
BTree.v
Metrics.v
Uds.v
Crates.v
Headers.v
PluginApi.v
Ir.v
Values.v
LowerPlugins.v
LowerUpstreams.v
LowerLocations.v
Lowering.v
Types.v
HttpRoutes.v
Routing.v
Cache.v
Scp.v
CompileUpstreams.v
CompileRoutes.v
CompileRouter.v
Control.v
Cli.v
Proto.v
GrpcValues.v
GrpcDecode.v
GrpcEncode.v
GrpcRoutes.v
GrpcUpstreams.v
Grpc.v
ControlClient.v
Selection.v
DynamicProxy.v
ClientIp.v
Topology.v
Discovery.v
Health.v
RateLimit.v
HeadersPlugin.v
CorsPlugin.v
AuthPlugins.v
ScpRouting.v
Nrf.v
Groups.v
UpstreamGroup.v
ScpSystem.v
Registry.v
Background.v
Server.v
Assembly.v
TlsResolver.v
Acme.v
Admin.v
Boot.v
ServerSamples.v
GeoIp.v
Peer.v
ProxyState.v
Proxy.v
Lifecycle.v
Protected.v
ProtectedSamples.v
RequestLife.v
CacheFill.v
Tracing.v
Telemetry.v
ProxySamples.v
