(* ===== verification/Prelude.v ===== *)
(** * A verification development for ngxora

    ngxora is a reverse proxy on top of Pingora.  A configuration text (or a snapshot
    sent by a control plane) becomes a router; the router and what it needs at run
    time (plugins, certificates, upstream groups, counters) form a runtime snapshot
    that is swapped in atomically; every request captures the active snapshot, is
    routed to a location, checked, sent to a backend and possibly answered from a
    response cache.  The development follows that path, one file per component; paths
    below are under [crates/].

    ** Files and what they model

    - [Prelude]: Rust's [Result] and its [?] operator as a monad, machine-width
      arithmetic ([wrapping_], [checked_], [saturating_]), stable sorting, sums over
      maps, and [HashIter], the iteration order of a hash map as a class: theorems
      hold for every order.
    - [RustStr]: strings as byte strings with the [str] methods the code uses (UTF-8
      characters, [trim], [split], [strip_prefix], [parse]).
    - [Lexer], [Parser]: ngxora-config [lexer.rs], [parser.rs], [ast.rs].  [tokenize]
      keeps the byte positions of the source; the parser has fuel.
    - [Include]: ngxora-config [include.rs].  The file system is the class
      [FileSystem]; expansion stops at the nesting limit.
    - [NetAddr]: [IpAddr] and [SocketAddr] of the standard library with parsing and
      printing.
    - [Crates]: a record of the third-party functions the sources call ([url], [http],
      [regex], [ipnet]); everything that uses them is parametric in it, and the [Toy]
      instance runs the witnesses.
    - [Headers]: an [http::HeaderMap] as an association list.
    - [PluginApi]: ngxora-plugin-api [lib.rs]: the data plugins exchange with the proxy,
      header editors as the class [HeaderMapMut] with its laws, and hooks as a state and
      error monad.
    - [Ir], [Values]: ngxora-compile [ir.rs] and [transform/values.rs].
    - [LowerPlugins], [LowerUpstreams], [LowerLocations], [Lowering]: the rest of
      ngxora-compile [transform/], from AST blocks to the IR; [Lowering] ends with
      [Ir::from_ast] and the checks of the complete [http] block.
    - [Types], [HttpRoutes], [Routing]: ngxora-runtime [upstreams/types.rs],
      [http_routes.rs], [routing.rs].
    - [Cache]: [cache.rs].  The backend is a heap of location caches; a call is a
      thread whose critical sections are atomic steps ([sys_step]).
    - [Scp]: [upstreams/scp/request.rs], API roots and profile validation.
    - [CompileUpstreams], [CompileRoutes], [CompileRouter]:
      [upstreams/compile/upstream_groups.rs], [compile/routes.rs], [compile.rs].
    - [Control]: [control.rs], [runtime/tls.rs], the plugin registry and the TLS
      validation of [server.rs].  What builds plugins, loads certificates and starts
      groups is the class [RuntimeDeps]; [rt_step] is everything that can happen to
      the state.
    - [Registry]: ngxora-plugin-registry [lib.rs], the bundled plugins by name and the
      dispatch of their hooks.  [Assembly]: [RuntimeDeps] implemented by the registry,
      the certificates of [runtime/tls.rs], [Server], [Groups] and [Nrf].
    - [Cli]: ngxora-cli [main.rs] and [reload.rs], the command line, loading a
      configuration and reloading it: the parser, include expansion, lowering,
      validation, compilation and control composed.
    - [Proto], [GrpcValues], [GrpcDecode], [GrpcEncode], [GrpcRoutes], [GrpcUpstreams],
      [Grpc]: the messages of [control.proto], [grpc/decode.rs], [grpc/encode.rs] and
      their helpers, the round trips of routes and upstream groups, and the service
      ([grpc.rs]) beside file reloads.
    - [ControlClient]: the client programs [examples/apply_snapshot.rs] and
      [get_snapshot.rs], with tonic as the class [Tonic].
    - [Selection]: [runtime/selection.rs], [runtime/limits.rs].  [DynamicProxy]: the
      proxy object and its routing table.
    - [ClientIp]: ngxora-plugin-api [client_ip.rs].
    - [BTree]: ordered maps and sets of the standard library as sorted lists.
    - [Topology], [Discovery], [Health], [Nrf]: the arithmetic of
      [runtime/groups/topology.rs] and [runtime/groups/discovery.rs] (capacities, ids,
      retry, expiry), the probes of [upstreams/health.rs] and the registry client of
      [upstreams/nrf.rs].  Connectors, the HTTP exchange and JSON decoding are the
      classes [HealthDeps] and [NrfDeps].
    - [Groups], [UpstreamGroup]: [runtime/groups.rs] and [runtime/groups/].  [Groups]
      builds balancers and the tiers of a discovered topology and selects from them
      over the class [Balancers]; [UpstreamGroup] is the state of a running group with
      every operation, [group_exec] one event of its life and [group_run] a history of
      them.  [Background]: the loops of [control.rs] that drive them.
    - [Server], [TlsResolver]: [server.rs] and [server/openssl_listener_tls.rs], with
      OpenSSL as the class [OpenSsl]; a handshake is interleaved with certificate
      writes, also between its two file reads, and with applies ([tls_step]).
    - [Acme]: [le.rs], a computation over the files, the challenge answers and an
      environment that stands for the ACME server; [service_start] is the reconciler.
    - [Metrics], [Admin], [Telemetry]: [metrics.rs], [admin.rs], the observability half of
      [runtime/completion.rs] and the header carriers of [tracing.rs].  Scrapes interleave
      ([scrape_step]).  [Tracing]: the lazy set-up of the exporter by request threads
      ([trace_step]).
    - [Uds]: [grpc/uds.rs], processes that take and leave the control socket, one
      system call per step ([uds_step]), with crashes.
    - [Boot]: ngxora-cli [main.rs] from the command line to the running services,
      [grpc/transport.rs] with the TLS set-up of the control plane ([grpc_server]) and
      [server/client_timeouts.rs].  [ServerSamples]: a concrete
      OpenSSL, ACME server and start-up.
    - [RateLimit], [HeadersPlugin], [CorsPlugin], [AuthPlugins]: the bundled plugins
      ([extensions/]), with their construction and every hook.  The rate limiter is a
      system of threads whose atomic steps interleave.  Base64, JWT decoding and the
      client of the authorization service are classes.
    - [ScpRouting]: [upstreams/scp/request.rs] and [upstreams/scp.rs], from the headers
      of a request to an exchange with a producer; the groups that discovery makes are
      the class [ScpGroups] with [ScpGroupLaws].  [ScpSystem]: that class implemented
      by a heap of the groups of [UpstreamGroup], each with a log of the refreshes it
      ran; [scp_step] is what happens to them and to the cache of discoveries.
    - [GeoIp]: [geoip.rs], where each of the three calls of a poll may see another file.
      [Peer]: the options of an upstream connection
      ([runtime/tls.rs]).
    - [ProxyState], [Proxy]: [runtime/proxy.rs], [runtime/response.rs] and
      [runtime/completion.rs].  [PState] holds the downstream session, the request's
      context, the shared caches and counters and a ghost trace of hooks and headers;
      a callback is a computation [px] over it; plugins, sockets and the clock are the
      class [ProxyEnv].
    - [Lifecycle]: triples and frame relations over the callbacks.  [RequestLife]: the
      callbacks as a step relation ([life_step]).  [CacheFill]: what they leave in the
      cache.  [ProxySamples]: a concrete environment and run.
    - [Protected]: the callbacks with the bundled plugins, from a configuration to the
      request filter.  [ProtectedSamples]: a process with a protected route.

    ** What the theorems show

    - Text to AST: the lexer's index arithmetic refines an index-free lexer, the parser
      terminates and decides exactly the grammar, and printing then parsing is the
      identity.
    - Includes: files outside the configuration directory cannot change the result of
      an expansion, and no [include] is left at any depth.
    - Lowering: what it accepts has established what the later stages rely on
      (listeners, certificates, timeouts, upstream servers), and cache parameters are
      refused outside a cache block.
    - Command line: accepted arguments are safe, validation refuses nothing that
      compiles, and a process started from a file keeps serving through any sequence
      of reloads, a file that does not load changing nothing.
    - Values: duration literals mean the sum of their segments; one input panics.
    - Compilation: every compiled upstream group and every compiled router satisfies
      the invariant the runtime relies on ([group_ok], [router_wf]).
    - Control: applying is all or nothing, keeps what did not change, and in every
      reachable state every lookup a request makes succeeds; the restart fingerprint
      is exactly the configuration that cannot change live.
    - Routing: the documented location order, independence of hash order, and
      isolation of listeners, virtual servers and TLS authorities.
    - Selection: exact proportional choice of weighted backends, no internal errors on
      complete snapshots, first-match access rules, body limits without overflow.
    - Cache: for every interleaving, exact size accounting within the limit and
      isolation of configuration generations; store/lookup, admission, cacheability
      and key separation.
    - Client addresses: forged forwarding headers are ignored.
    - Control plane: routes and upstream groups survive export and import, under side
      conditions on the messages that the theorems name, and a process keeps serving through any mix of reloads and snapshots.
    - Plugins: the exact rate for a client whose requests are counted in the order of the
      clock; exactly which requests basic authentication passes; which requests a JWT
      under the configured key, or the configured authorization service, lets pass; what
      forwarding headers hold; CORS and header policies as specified.
    - SCP: routing stays in the configured domain and never returns to the SCP; with the
      running groups below it, every discovered producer is healthy, and a refresh
      of its own group found it listed by the registry for the request's own query and
      checked it.
    - Assembly: a group that a snapshot builds is the running group, and fails to build
      with the same message.
    - GeoIP and peers: only a verified database that did not change while it was
      read is in use, its headers cannot be forged;
      certificate verification is never silently dropped.
    - Request lifecycle: policy precedes cache, counters and upstream; over any run one
      response at most, response hooks at most once and in reverse order, the collected
      body bounded; every request can be completed with one response; the cache gets the
      final header with the complete body or nothing.
    - Protected routes: in every state of a process, a request that gets past the plugins
      of its route has satisfied each of them as it is configured there.
    - Discovery: capacity scaling, endpoint rotation, distinct ids, retry bounds and
      expiry; extraction gives exactly what the services of an answer yield; a group
      prefers what the registry prefers, passing a ready endpoint over only when the
      balancer of its pool finds nothing, and answers only a server that was configured,
      or discovered and checked.
    - TLS: the certificate of a handshake is the configured one and never older than the
      last activation; listeners are bound with the configured policy; a build without
      SNI serves the certificate that SNI would select.
    - Certificates: renewal is confined to files below the cache directory, never loses a key or leaves a
      challenge answer behind, and reaches the handshakes.
    - Start-up and control socket: a started process is what the command line says; one
      process owns the socket.
    - Observability: readiness is exact, metrics agree with each other; three theorems
      record what the metrics do not say; the exporter is set up once.
    - Clients: only authenticated channels are used, both programs read a target the
      same way, and what the control plane reads of a sent snapshot is exact.

    ** Bounds and fuel

    Machine integers are [N] with their width written out where the code depends on it
    (64-bit sizes, counters and generations, 16-bit ports and weights, 128-bit
    durations); time is [N] nanoseconds.  Fuel is used where the source loops: the
    parser (two more than the number of tokens per level, [parse_tokens_total]),
    include expansion (one more than the nesting limit of 16, at which the source
    itself fails), duration literals (the length of the literal, [parse_duration_literal_fuel]),
    [return] templates ([expand_return_total]), and eviction ([make_room], one more
    than the number of items, [make_room_spec]); each lemma shows it is never
    exhausted.

    ** Not modelled

    The inside of third-party code: sockets and HTTP of Pingora, tonic and reqwest,
    OpenSSL, the ACME client, JSON, the GeoIP file format, the OTLP exporter and the
    Prometheus text format are parameters with what the code relies on as laws.
    The messages logged, spans inside the OTLP library and serving the admin and gRPC
    sockets are left out, as are the branches for targets other than Unix.  Pingora's
    own part of a request is the order of callbacks in [life_step]; informational
    responses are left out of it. *)

From Stdlib Require Export Ascii.
From stdpp Require Export base tactics option countable numbers pretty strings sorting list gmap.

#[global] Set Default Goal Selector "!".

(** ** Rust's [Result] *)

Inductive result (E A : Type) : Type :=
| Ok (a : A)
| Err (e : E).
Arguments Ok {E A} a.
Arguments Err {E A} e.

#[global] Instance result_ret {E} : MRet (result E) := fun A a => Ok a.
#[global] Instance result_bind {E} : MBind (result E) := fun A B f m =>
  match m with Ok a => f a | Err e => Err e end.
#[global] Instance result_fmap {E} : FMap (result E) := fun A B f m =>
  match m with Ok a => Ok (f a) | Err e => Err e end.
#[global] Instance result_eq_dec {E A} `{EqDecision E} `{EqDecision A} : EqDecision (result E A).
Proof. solve_decision. Defined.

Definition is_ok {E A} (r : result E A) : bool := match r with Ok _ => true | Err _ => false end.

(** [Result::map_err], [Result::ok], [Option::ok_or]. *)
Definition map_err {E F A} (f : E -> F) (r : result E A) : result F A :=
  match r with Ok a => Ok a | Err e => Err (f e) end.
Definition ok {E A} (r : result E A) : option A :=
  match r with Ok a => Some a | Err _ => None end.
Definition ok_or {E A} (o : option A) (e : E) : result E A :=
  match o with Some a => Ok a | None => Err e end.
(** [if cond { return Err(e) }]. *)
Definition fail_if {E} (b : bool) (e : E) : result E unit := if b then Err e else Ok tt.
(** [Option<Result<_>>::transpose]. *)
Definition transpose {E A} (o : option (result E A)) : result E (option A) :=
  match o with None => Ok None | Some (Ok a) => Ok (Some a) | Some (Err e) => Err e end.

Definition is_some {A} (o : option A) : bool := match o with Some _ => true | None => false end.
Definition is_none {A} (o : option A) : bool := negb (is_some o).
Definition is_nil {A} (l : list A) : bool := match l with [] => true | _ => false end.
Definition unwrap_or {A} (o : option A) (d : A) : A := default d o.
(** [Option::or]. *)
Definition option_or {A} (o p : option A) : option A := match o with Some a => Some a | None => p end.
(** [cond.then_some(a)]. *)
Definition then_some {A} (b : bool) (a : A) : option A := if b then Some a else None.

(** A loop [for x in l { s = f(s, x)?; }]. *)
Fixpoint try_fold {E S A} (f : S -> A -> result E S) (s : S) (l : list A) : result E S :=
  match l with
  | [] => Ok s
  | x :: l' => s' ← f s x; try_fold f s' l'
  end.

Lemma fmap_Ok_inv {E A B} (f : A -> B) (r : result E A) b : f <$> r = Ok b -> exists a, r = Ok a /\ b = f a.
Proof. destruct r as [a|]; [intros [= <-]; by exists a|done]. Qed.
Lemma bind_Ok_inv {E A B} (m : result E A) (k : A -> result E B) b :
  (m ≫= k) = Ok b -> exists a, m = Ok a /\ k a = Ok b.
Proof. destruct m; simpl; [eauto|discriminate]. Qed.

Lemma fail_if_Ok {E} b (e : E) u : fail_if b e = Ok u -> b = false.
Proof. by destruct b. Qed.

Lemma ok_or_Ok {E A} (o : option A) (e : E) a : ok_or o e = Ok a -> o = Some a.
Proof. destruct o; simpl; congruence. Qed.

Lemma map_err_Ok {E F A} (f : E -> F) (r : result E A) a : map_err f r = Ok a -> r = Ok a.
Proof. destruct r; simpl; congruence. Qed.

Lemma transpose_Ok {E A B} (f : A -> result E B) (o : option A) r :
  transpose (f <$> o) = Ok r ->
  match o with None => r = None | Some a => exists b, f a = Ok b /\ r = Some b end.
Proof. destruct o as [a|]; simpl; [|congruence]. destruct (f a); naive_solver. Qed.

Lemma is_ok_default {E A} (r : result E A) d :
  is_ok r = true -> r = Ok (match r with Ok a => a | Err _ => d end).
Proof. by destruct r. Qed.
Lemma is_some_default {A} (o : option A) d : is_some o = true -> o = Some (default d o).
Proof. by destruct o. Qed.

(** Inverts hypotheses [m ≫= k = Ok _] and the guards of this file. *)
Ltac inv_ok :=
  repeat match goal with
  | H : (_ ≫= _) = Ok _ |- _ =>
      apply bind_Ok_inv in H; let a := fresh "a" in let Ha := fresh "Hok" in
      destruct H as (a & Ha & H)
  | H : fail_if _ _ = Ok _ |- _ => apply fail_if_Ok in H
  | H : ok_or _ _ = Ok _ |- _ => apply ok_or_Ok in H
  | H : map_err _ _ = Ok _ |- _ => apply map_err_Ok in H
  | H : Ok _ = Ok _ |- _ => injection H as H
  | H : Err _ = Ok _ |- _ => discriminate H
  | H : Ok _ = Err _ |- _ => discriminate H
  | H : mret _ = Ok _ |- _ => unfold mret, result_ret in H
  | x : unit |- _ => destruct x
  end; subst.

Lemma mapM_Ok {E A B} (f : A -> result E B) l k :
  mapM f l = Ok k <-> Forall2 (fun x y => f x = Ok y) l k.
Proof.
  revert k. induction l as [|x l IH]; intros k; simpl.
  - split; [intros [= <-]; constructor | by inversion 1].
  - split.
    + intros H. inv_ok. constructor; [done|]. by apply IH.
    + inversion 1 as [|? y ? k' Hf Hr]; subst. rewrite Hf. simpl.
      apply IH in Hr. by rewrite Hr.
Qed.

Lemma try_fold_app {E S A} (f : S -> A -> result E S) s l1 l2 :
  try_fold f s (l1 ++ l2) = (try_fold f s l1 ≫= fun s' => try_fold f s' l2).
Proof.
  revert s. induction l1 as [|x l1 IH]; intros s; simpl; [done|].
  destruct (f s x); simpl; [apply IH|done].
Qed.

(** Loop invariants of a fallible loop. *)
Lemma try_fold_inv {E S A} (P : S -> Prop) (f : S -> A -> result E S) l s s' :
  (forall s x s', x ∈ l -> P s -> f s x = Ok s' -> P s') ->
  P s -> try_fold f s l = Ok s' -> P s'.
Proof.
  revert s. induction l as [|x l IH]; intros s Hf Hs H; simpl in H; inv_ok; [done|].
  eapply (IH a); [|eapply Hf; eauto; set_solver|done].
  intros ????; apply Hf; set_solver.
Qed.

(** ** Machine integers

    An unsigned [w]-bit integer is an [N]; the operations below write out what
    Rust does at the bound. *)

Open Scope N_scope.

Definition u16_max : N := 65535.
Definition u32_max : N := 4294967295.
Definition i32_max : N := 2147483647.
Definition u64_max : N := 18446744073709551615.
Definition u128_max : N := 340282366920938463463374607431768211455.

Definition wrapping_add64 (a b : N) : N := (a + b) mod (u64_max + 1).
(** [a - b] in a release build: wraps when [b > a]. *)
Definition wrapping_sub64 (a b : N) : N := (a + (u64_max + 1) - b) mod (u64_max + 1).
Definition saturating_add64 (a b : N) : N := N.min u64_max (a + b).
Definition saturating_add (max a b : N) : N := N.min max (a + b).
Definition saturating_sub (a b : N) : N := a - b.
Definition checked_add (max a b : N) : option N := if a + b <=? max then Some (a + b) else None.
Definition checked_mul (max a b : N) : option N := if a * b <=? max then Some (a * b) else None.
(** [n.div_ceil(d)]. *)
Definition div_ceil (n d : N) : N := if n mod d =? 0 then n / d else n / d + 1.

Definition sumN (l : list N) : N := foldr N.add 0 l.

Lemma wrapping_sub64_exact a b : b <= a -> a <= u64_max -> wrapping_sub64 a b = a - b.
Proof.
  intros Hb Ha. unfold wrapping_sub64.
  replace (a + (u64_max + 1) - b) with ((a - b) + 1 * (u64_max + 1)) by lia.
  rewrite N.Div0.mod_add. apply N.mod_small. unfold u64_max in *; lia.
Qed.

Lemma wrapping_add64_exact a b : a + b <= u64_max -> wrapping_add64 a b = a + b.
Proof. intros H. unfold wrapping_add64. apply N.mod_small. lia. Qed.

Lemma checked_add_Some max a b c : checked_add max a b = Some c <-> c = a + b /\ a + b <= max.
Proof.
  unfold checked_add. destruct (N.leb_spec (a + b) max); (split; [by intros [= <-] | intros [-> ?]; done || lia]).
Qed.

Lemma checked_mul_Some max a b c : checked_mul max a b = Some c <-> c = a * b /\ a * b <= max.
Proof.
  unfold checked_mul. destruct (N.leb_spec (a * b) max); (split; [by intros [= <-] | intros [-> ?]; done || lia]).
Qed.

Lemma checked_add_ok max a b : a + b <= max -> checked_add max a b = Some (a + b).
Proof. intros. by apply checked_add_Some. Qed.

Lemma checked_mul_ok max a b : a * b <= max -> checked_mul max a b = Some (a * b).
Proof. intros. by apply checked_mul_Some. Qed.

Lemma sumN_cons x l : sumN (x :: l) = x + sumN l.
Proof. done. Qed.

Lemma sumN_app l k : sumN (l ++ k) = sumN l + sumN k.
Proof. induction l as [|x l IH]; simpl; [done|]. rewrite IH. lia. Qed.

#[global] Instance sumN_perm : Proper ((≡ₚ) ==> (=)) sumN.
Proof. induction 1; simpl; lia. Qed.

Lemma sumN_ge l x : x ∈ l -> x <= sumN l.
Proof. induction 1; simpl; lia. Qed.

Lemma sumN_le_forall2 l k : Forall2 N.le l k -> sumN l <= sumN k.
Proof. induction 1; simpl; lia. Qed.

(** ** Durations and instants

    [std::time::Duration] is a number of nanoseconds (64-bit seconds plus
    sub-second nanoseconds); [Instant] is a number of nanoseconds on the
    monotonic clock. *)

Definition duration_max : N := u64_max * 1000000000 + 999999999.
Definition from_millis (ms : N) : N := ms * 1000000.
Definition from_secs (s : N) : N := s * 1000000000.
Definition as_millis (d : N) : N := d / 1000000.
Definition as_secs (d : N) : N := d / 1000000000.
Definition subsec_nanos (d : N) : N := d mod 1000000000.
Definition is_zero (d : N) : bool := d =? 0.
(** [Duration::saturating_add] and [Instant::elapsed] (which saturates at zero). *)
Definition duration_saturating_add (a b : N) : N := N.min duration_max (a + b).
Definition elapsed (now at_ : N) : N := now - at_.

(** ** Lists *)

(** [Iterator::max_by_key]: the last of the maximal elements. *)
Section max_by.
Context {A : Type} (leb : A -> A -> bool).

Definition max_by_step (best : option A) (x : A) : option A :=
  match best with
  | None => Some x
  | Some b => if leb b x then Some x else Some b
  end.
Definition max_by (l : list A) : option A := foldl max_by_step None l.
End max_by.

(** [slice::sort_by] is a stable sort; any stable sort gives the same list. *)
Section stable_sort.
Context {A : Type} (le : A -> A -> bool).

Fixpoint insert_sorted (x : A) (l : list A) : list A :=
  match l with
  | [] => [x]
  | y :: l' => if le x y then x :: l else y :: insert_sorted x l'
  end.
Definition stable_sort (l : list A) : list A := foldr insert_sorted [] l.

Lemma insert_sorted_perm x l : insert_sorted x l ≡ₚ x :: l.
Proof.
  induction l as [|y l IH]; simpl; [done|]. destruct (le x y); [done|].
  rewrite IH. apply Permutation_swap.
Qed.

Lemma stable_sort_perm l : stable_sort l ≡ₚ l.
Proof. induction l as [|x l IH]; simpl; [done|]. by rewrite insert_sorted_perm, IH. Qed.

Definition le_prop (x y : A) : Prop := le x y = true.
Context (le_total : forall x y, le x y = true \/ le y x = true).
Context (le_trans : forall x y z, le x y = true -> le y z = true -> le x z = true).

Lemma insert_sorted_sorted x l : StronglySorted le_prop l -> StronglySorted le_prop (insert_sorted x l).
Proof using Type*.
  induction 1 as [|y l Hs IH Hy]; simpl; [repeat constructor|].
  destruct (le x y) eqn:E.
  - constructor; [by constructor|]. constructor; [done|].
    eapply Forall_impl; [apply Hy|]. intros z Hz. unfold le_prop in *. eauto.
  - constructor; [done|]. apply Forall_forall. intros z.
    rewrite insert_sorted_perm, elem_of_cons. intros [->|Hz].
    + destruct (le_total x y); [congruence|done].
    + by eapply Forall_forall in Hy.
Qed.

Lemma stable_sort_sorted l : StronglySorted le_prop (stable_sort l).
Proof using Type*. induction l; simpl; [constructor|by apply insert_sorted_sorted]. Qed.
End stable_sort.

(** ** Maps *)

(** Sum of a size over the entries of a map. *)
Definition map_sum `{Countable K} {V} (f : K -> V -> N) (m : gmap K V) : N :=
  map_fold (fun k v acc => f k v + acc) 0 m.

Section map_sum.
Context `{Countable K} {V : Type} (f : K -> V -> N).
Implicit Types m : gmap K V.

Lemma map_sum_empty : map_sum f (∅ : gmap K V) = 0.
Proof. apply map_fold_empty. Qed.

Lemma map_sum_insert_fresh m k v : m !! k = None -> map_sum f (<[k:=v]> m) = f k v + map_sum f m.
Proof. intros Hk. unfold map_sum.
  apply (map_fold_insert_L (fun k v acc => f k v + acc)); [intros; lia|done]. Qed.

Lemma map_sum_delete m k v : m !! k = Some v -> map_sum f m = f k v + map_sum f (delete k m).
Proof.
  intros Hk. rewrite <- (insert_delete_id m k v) at 1 by done.
  apply map_sum_insert_fresh. apply lookup_delete_eq.
Qed.

Lemma map_sum_lookup_le m k v : m !! k = Some v -> f k v <= map_sum f m.
Proof. intros Hk. rewrite (map_sum_delete m k v Hk). lia. Qed.

Lemma map_sum_mono m1 m2 : m1 ⊆ m2 -> map_sum f m1 <= map_sum f m2.
Proof.
  revert m2. induction m1 as [|k v m1 Hk IH] using map_ind; intros m2 Hsub.
  - rewrite map_sum_empty. lia.
  - assert (m2 !! k = Some v) as Hk2 by (eapply lookup_weaken; [apply lookup_insert_eq|done]).
    rewrite map_sum_insert_fresh by done. rewrite (map_sum_delete m2 k v Hk2).
    apply N.add_le_mono_l, IH. rewrite <- (delete_insert_id m1 k v Hk). by apply delete_mono.
Qed.

Lemma map_sum_zero_empty m : (forall k v, 0 < f k v) -> map_sum f m = 0 -> m = ∅.
Proof.
  intros Hf Hm. apply map_empty. intros k. destruct (m !! k) as [v|] eqn:E; [|done].
  pose proof (map_sum_lookup_le _ _ _ E). specialize (Hf k v). lia.
Qed.
End map_sum.

(** *** Iteration

    The iteration order of a [HashMap] is not specified: it is any order of the
    entries, a parameter of whatever iterates. *)
Class HashIter := {
  iter : forall {K} `{Countable K} {V}, gmap K V -> list (K * V);
  iter_perm : forall K `{Countable K} V (m : gmap K V), iter m ≡ₚ map_to_list m
}.

(** The order of the model's own maps, and its reverse. *)
Definition iter_forward : HashIter.
Proof. refine {| iter K _ _ V m := map_to_list m |}. done. Defined.
Definition iter_backward : HashIter.
Proof. refine {| iter K _ _ V m := reverse (map_to_list m) |}. intros. apply reverse_Permutation. Defined.

(** [keys()] and [values()]. *)
Definition iter_keys `{HashIter} `{Countable K} {V} (m : gmap K V) : list K := (iter m).*1.
Definition iter_values `{HashIter} `{Countable K} {V} (m : gmap K V) : list V := (iter m).*2.

Section iteration.
Context `{HashIter} `{Countable K} {V : Type}.
Implicit Types m : gmap K V.

Lemma elem_of_iter m k v : (k, v) ∈ iter m <-> m !! k = Some v.
Proof. by rewrite iter_perm, elem_of_map_to_list. Qed.

Lemma elem_of_iter_keys m k : k ∈ iter_keys m <-> is_Some (m !! k).
Proof.
  unfold iter_keys. rewrite list_elem_of_fmap. split.
  - intros ([k' v] & -> & Hin). apply elem_of_iter in Hin. eauto.
  - intros [v Hv]. exists (k, v). split; [done|]. by apply elem_of_iter.
Qed.

Lemma elem_of_iter_values m v : v ∈ iter_values m <-> exists k, m !! k = Some v.
Proof.
  unfold iter_values. rewrite list_elem_of_fmap. split.
  - intros ([k v'] & -> & Hin). apply elem_of_iter in Hin. eauto.
  - intros [k Hv]. exists (k, v). split; [done|]. by apply elem_of_iter.
Qed.
End iteration.

(** ** Hints *)

Create HintDb ngx.
Create Rewrite HintDb ngx.
#[export] Hint Resolve Permutation_refl : ngx.
#[export] Hint Rewrite @length_app @length_map @map_app @app_nil_r : ngx.
