(* ===== verification/RustStr.v ===== *)
(** * Rust strings

    A [str] is its UTF-8 bytes, a [string] of 8-bit characters, so lengths and
    indices are byte lengths and byte indices as in Rust.  Where the source
    walks over [char]s, [chars] cuts the bytes at character boundaries (the
    bytes that are not continuation bytes). *)

From S2P Require Import Prelude.

Open Scope N_scope.

#[global] Arguments String.append !_ _ / : simpl nomatch.

Abbreviation char_eqb := Ascii.eqb.

(** ** Bytes *)

Definition byte (c : ascii) : N := N_of_ascii c.
Definition in_range (lo hi : N) (c : ascii) : bool := (lo <=? byte c) && (byte c <=? hi).
Definition is_ascii_digit (c : ascii) : bool := in_range 48 57 c.
Definition is_ascii_uppercase (c : ascii) : bool := in_range 65 90 c.
Definition is_ascii_lowercase (c : ascii) : bool := in_range 97 122 c.
Definition is_ascii_alphanumeric (c : ascii) : bool :=
  is_ascii_digit c || is_ascii_uppercase c || is_ascii_lowercase c.
Definition ascii_lower (c : ascii) : ascii :=
  if is_ascii_uppercase c then ascii_of_N (byte c + 32) else c.
Definition ascii_upper (c : ascii) : ascii :=
  if is_ascii_lowercase c then ascii_of_N (byte c - 32) else c.
(** A UTF-8 continuation byte [10xxxxxx]. *)
Definition is_continuation (c : ascii) : bool := in_range 128 191 c.

(** ** Strings *)

Fixpoint str_map (f : ascii -> ascii) (s : string) : string :=
  match s with EmptyString => EmptyString | String c s' => String (f c) (str_map f s') end.
Fixpoint str_all (f : ascii -> bool) (s : string) : bool :=
  match s with EmptyString => true | String c s' => f c && str_all f s' end.
Definition str_any (f : ascii -> bool) (s : string) : bool := negb (str_all (fun c => negb (f c)) s).
Definition is_empty (s : string) : bool := match s with EmptyString => true | _ => false end.
Definition str_len (s : string) : N := N.of_nat (String.length s).

Definition to_ascii_lowercase : string -> string := str_map ascii_lower.
Definition to_ascii_uppercase : string -> string := str_map ascii_upper.
Definition eq_ignore_ascii_case (a b : string) : bool :=
  String.eqb (to_ascii_lowercase a) (to_ascii_lowercase b).

(** [s.contains(c)] for an ASCII [c], and for a set of them. *)
Definition contains_char (c : ascii) : string -> bool := str_any (char_eqb c).
Definition contains_any (cs : string) : string -> bool := str_any (fun c => contains_char c cs).

Fixpoint strip_prefix (p s : string) : option string :=
  match p, s with
  | EmptyString, _ => Some s
  | String a p', String b s' => if char_eqb a b then strip_prefix p' s' else None
  | String _ _, EmptyString => None
  end.
Definition starts_with (p s : string) : bool := is_some (strip_prefix p s).

Fixpoint ends_with (suf s : string) : bool :=
  String.eqb s suf || match s with EmptyString => false | String _ s' => ends_with suf s' end.

(** [s.contains(pat)]. *)
Fixpoint contains_str (pat s : string) : bool :=
  starts_with pat s || match s with EmptyString => false | String _ s' => contains_str pat s' end.

(** [s.strip_suffix(c)] for an ASCII [c]. *)
Fixpoint strip_suffix_char (c : ascii) (s : string) : option string :=
  match s with
  | EmptyString => None
  | String a EmptyString => if char_eqb a c then Some EmptyString else None
  | String a s' => String a <$> strip_suffix_char c s'
  end.

(** [s.trim_end_matches(c)] and [s.trim_start_matches(c)] for an ASCII [c]. *)
Fixpoint trim_end_matches (c : ascii) (s : string) : string :=
  match s with
  | EmptyString => EmptyString
  | String a s' =>
      match trim_end_matches c s' with
      | EmptyString => if char_eqb a c then EmptyString else String a EmptyString
      | r => String a r
      end
  end.
Fixpoint trim_start_matches (c : ascii) (s : string) : string :=
  match s with
  | EmptyString => EmptyString
  | String a s' => if char_eqb a c then trim_start_matches c s' else s
  end.

(** [s.find(p)] as the text before and from the first match; [s.find(c)] then
    is the length of the first part. *)
Fixpoint split_at_first (f : ascii -> bool) (s : string) : option (string * string) :=
  match s with
  | EmptyString => None
  | String a s' =>
      if f a then Some (EmptyString, s)
      else match split_at_first f s' with
           | Some (b, r) => Some (String a b, r)
           | None => None
           end
  end.

(** [s.split_once(c)] and [s.rsplit_once(c)] for an ASCII [c]. *)
Fixpoint split_once (c : ascii) (s : string) : option (string * string) :=
  match s with
  | EmptyString => None
  | String a s' =>
      if char_eqb a c then Some (EmptyString, s')
      else match split_once c s' with
           | Some (b, r) => Some (String a b, r)
           | None => None
           end
  end.
Fixpoint rsplit_once (c : ascii) (s : string) : option (string * string) :=
  match s with
  | EmptyString => None
  | String a s' =>
      match rsplit_once c s' with
      | Some (b, r) => Some (String a b, r)
      | None => if char_eqb a c then Some (EmptyString, s') else None
      end
  end.

(** [s.split(c)] for an ASCII [c]: never empty. *)
Fixpoint split_on (c : ascii) (s : string) : list string :=
  match s with
  | EmptyString => [EmptyString]
  | String a s' =>
      if char_eqb a c then EmptyString :: split_on c s'
      else match split_on c s' with
           | w :: ws => String a w :: ws
           | [] => [String a EmptyString]
           end
  end.

(** The longest prefix of bytes that satisfy [f], and the rest. *)
Fixpoint span (f : ascii -> bool) (s : string) : string * string :=
  match s with
  | EmptyString => (EmptyString, EmptyString)
  | String a s' => if f a then let '(p, r) := span f s' in (String a p, r) else (EmptyString, s)
  end.

(** [words.join(sep)]. *)
Fixpoint join (sep : string) (l : list string) : string :=
  match l with
  | [] => EmptyString
  | [w] => w
  | w :: l' => w +:+ sep +:+ join sep l'
  end.

(** ** Characters *)

Fixpoint chars (s : string) : list string :=
  match s with
  | EmptyString => []
  | String b s' =>
      match s' with
      | String b' _ =>
          if is_continuation b' then
            match chars s' with
            | c :: cs => String b c :: cs
            | [] => [String b EmptyString]
            end
          else String b EmptyString :: chars s'
      | EmptyString => [String b EmptyString]
      end
  end.

Definition byte1 (a : N) : string := String (ascii_of_N a) EmptyString.
Definition byte2 (a b : N) : string := String (ascii_of_N a) (byte1 b).
Definition byte3 (a b c : N) : string := String (ascii_of_N a) (byte2 b c).

(** The characters with the Unicode property [White_Space] that are not ASCII. *)
Definition unicode_spaces : list string :=
  [byte2 194 133; byte2 194 160; byte3 225 154 128;
   byte3 226 128 128; byte3 226 128 129; byte3 226 128 130; byte3 226 128 131;
   byte3 226 128 132; byte3 226 128 133; byte3 226 128 134; byte3 226 128 135;
   byte3 226 128 136; byte3 226 128 137; byte3 226 128 138;
   byte3 226 128 168; byte3 226 128 169; byte3 226 128 175; byte3 226 129 159;
   byte3 227 128 128].

(** [char::is_whitespace] and [u8::is_ascii_whitespace]. *)
Definition is_whitespace (c : string) : bool :=
  match c with
  | String b EmptyString => in_range 9 13 b || (byte b =? 32)
  | _ => existsb (String.eqb c) unicode_spaces
  end.
Definition is_ascii_whitespace (b : ascii) : bool :=
  (byte b =? 9) || (byte b =? 10) || (byte b =? 12) || (byte b =? 13) || (byte b =? 32).

Definition concat_str (l : list string) : string := foldr String.append EmptyString l.

Fixpoint drop_while (f : string -> bool) (l : list string) : list string :=
  match l with
  | [] => []
  | c :: l' => if f c then drop_while f l' else l
  end.
(** [s.trim()]. *)
Definition trim (s : string) : string :=
  concat_str (rev (drop_while is_whitespace (rev (drop_while is_whitespace (chars s))))).

(** [s.split_ascii_whitespace()]: the maximal runs of non-blank bytes. *)
Fixpoint split_ascii_ws_go (s word : string) : list string :=
  match s with
  | EmptyString => if is_empty word then [] else [word]
  | String b s' =>
      if is_ascii_whitespace b then
        (if is_empty word then [] else [word]) ++ split_ascii_ws_go s' EmptyString
      else split_ascii_ws_go s' (word +:+ String b EmptyString)
  end.
Definition split_ascii_whitespace (s : string) : list string := split_ascii_ws_go s EmptyString.

(** ** Numbers *)

Definition digit_value (c : ascii) : N := byte c - 48.
Fixpoint digits_value_go (s : string) (acc : N) : N :=
  match s with
  | EmptyString => acc
  | String c s' => digits_value_go s' (acc * 10 + digit_value c)
  end.
Definition digits_value (s : string) : N := digits_value_go s 0.

(** [s.parse::<uN>()]: an optional [+], at least one digit, in range. *)
Definition parse_uint (max : N) (s : string) : option N :=
  let body := default s (strip_prefix "+" s) in
  if is_empty body || negb (str_all is_ascii_digit body) then None
  else let v := digits_value body in if v <=? max then Some v else None.

(** [s.parse::<iN>()], where [max] is [iN::MAX]. *)
Definition parse_int (max : N) (s : string) : option Z :=
  match strip_prefix "-" s with
  | Some digits =>
      if is_empty digits || negb (str_all is_ascii_digit digits) then None
      else let v := digits_value digits in if v <=? max + 1 then Some (- Z.of_N v)%Z else None
  | None => Z.of_N <$> parse_uint max s
  end.

(** ** [{:?}] of strings

    Quotes and the escapes of ASCII characters; a character outside ASCII is printed
    as it is (as Rust does for printable ones). *)

Definition lower_hex_digit (d : N) : ascii := if d <? 10 then ascii_of_N (48 + d) else ascii_of_N (87 + d).
Definition lower_hex (c : ascii) : string :=
  let low := String (lower_hex_digit (byte c mod 16)) EmptyString in
  if byte c <? 16 then low else String (lower_hex_digit (byte c / 16)) low.

Definition debug_char (c : ascii) : string :=
  if byte c =? 34 then String "\" (byte1 34)
  else if byte c =? 92 then String "\" "\"
  else if byte c =? 9 then "\t"
  else if byte c =? 10 then "\n"
  else if byte c =? 13 then "\r"
  else if byte c =? 0 then "\0"
  else if (byte c <? 32) || (byte c =? 127) then "\u{" +:+ lower_hex c +:+ "}"
  else String c EmptyString.
Fixpoint debug_body (s : string) : string :=
  match s with EmptyString => EmptyString | String c s' => debug_char c +:+ debug_body s' end.
Definition debug_str (s : string) : string := byte1 34 +:+ debug_body s +:+ byte1 34.
Definition debug_list (l : list string) : string :=
  "[" +:+ join ", " (debug_str <$> l) +:+ "]".

(** ** Lemmas *)

Lemma append_nil_r s : s +:+ "" = s.
Proof. induction s as [|c s IH]; simpl; [done|]. by rewrite IH. Qed.

Lemma append_assoc a b c : (a +:+ b) +:+ c = a +:+ (b +:+ c).
Proof. induction a as [|x a IH]; simpl; [done|]. by rewrite IH. Qed.

Lemma length_append a b : String.length (a +:+ b) = (String.length a + String.length b)%nat.
Proof. induction a as [|x a IH]; simpl; [done|]. by rewrite IH. Qed.

Lemma str_len_append a b : str_len (a +:+ b) = str_len a + str_len b.
Proof. unfold str_len. rewrite length_append. lia. Qed.

Lemma append_inj_l p a b : p +:+ a = p +:+ b -> a = b.
Proof. induction p; simpl; [done|]. naive_solver. Qed.

(** Two suffixes of one string with the same length are the same string. *)
Lemma append_suffix_unique p q a b :
  p +:+ a = q +:+ b -> String.length a = String.length b -> a = b.
Proof.
  revert q. induction p as [|x p IH]; intros [|y q]; simpl; intros Heq Hlen.
  - done.
  - subst. simpl in Hlen. rewrite length_append in Hlen. lia.
  - subst. simpl in Hlen. rewrite length_append in Hlen. lia.
  - injection Heq as _ Heq. by eapply IH.
Qed.

Lemma strip_prefix_Some p s r : strip_prefix p s = Some r <-> s = p +:+ r.
Proof.
  revert s. induction p as [|a p IH]; intros [|b s]; simpl.
  - naive_solver.
  - naive_solver.
  - naive_solver.
  - destruct (Ascii.eqb_spec a b) as [->|Hne]; [rewrite IH|]; naive_solver.
Qed.

Lemma starts_with_spec p s : starts_with p s = true <-> exists r, s = p +:+ r.
Proof.
  unfold starts_with. destruct (strip_prefix p s) as [r|] eqn:E; simpl.
  - apply strip_prefix_Some in E. naive_solver.
  - split; [done|]. intros [r Hr]. apply strip_prefix_Some in Hr. congruence.
Qed.

Lemma ends_with_spec suf s : ends_with suf s = true <-> exists p, s = p +:+ suf.
Proof.
  induction s as [|c s IH]; cbn [ends_with].
  - rewrite orb_false_r, String.eqb_eq. split.
    + intros <-. by exists "".
    + intros [[|] Hp]; simpl in Hp; [done|discriminate].
  - rewrite orb_true_iff, String.eqb_eq, IH. split.
    + intros [<-|[p ->]]; [by exists ""|by exists (String c p)].
    + intros [[|d p] Hp]; simpl in Hp; [by left|]. right. exists p. congruence.
Qed.

Lemma starts_with_refl_append p r : starts_with p (p +:+ r) = true.
Proof. apply starts_with_spec. eauto. Qed.

Lemma str_all_forall f s : str_all f s = true <-> forall c, c ∈ String.list_ascii_of_string s -> f c = true.
Proof.
  induction s as [|a s IH]; simpl; [set_solver|].
  rewrite andb_true_iff, IH. set_solver.
Qed.

Lemma str_all_append f a b : str_all f (a +:+ b) = str_all f a && str_all f b.
Proof. induction a as [|x a IH]; simpl; [done|]. by rewrite IH, andb_assoc. Qed.

Lemma concat_chars s : concat_str (chars s) = s.
Proof.
  induction s as [|b [|b' s] IH]; [done|done|].
  change (chars (String b (String b' s))) with
    (if is_continuation b' then
       match chars (String b' s) with c :: cs => String b c :: cs | [] => [String b ""] end
     else String b "" :: chars (String b' s)).
  destruct (is_continuation b').
  - destruct (chars (String b' s)) as [|c cs] eqn:E; simpl in *; [discriminate|].
    by rewrite IH.
  - simpl in *. by rewrite IH.
Qed.

Lemma span_spec f s p r :
  span f s = (p, r) -> s = p +:+ r /\ str_all f p = true /\
  match r with EmptyString => True | String c _ => f c = false end.
Proof.
  revert p r. induction s as [|a s IH]; simpl; intros p r H.
  - by simplify_eq.
  - destruct (f a) eqn:E; [|by simplify_eq].
    destruct (span f s) as [p' r'] eqn:Es. simplify_eq. simpl.
    destruct (IH _ _ eq_refl) as (-> & Hp & Hr). by rewrite E.
Qed.

Lemma str_map_idemp f s : (forall c, f (f c) = f c) -> str_map f (str_map f s) = str_map f s.
Proof. intros Hf. induction s as [|c s IH]; simpl; [done|]. by rewrite Hf, IH. Qed.

Lemma length_str_map f s : String.length (str_map f s) = String.length s.
Proof. induction s; simpl; auto. Qed.

Lemma ascii_lower_idemp c : ascii_lower (ascii_lower c) = ascii_lower c.
Proof. destruct c as [[] [] [] [] [] [] [] []]; reflexivity. Qed.

Lemma to_ascii_lowercase_idemp s : to_ascii_lowercase (to_ascii_lowercase s) = to_ascii_lowercase s.
Proof. apply str_map_idemp, ascii_lower_idemp. Qed.

Lemma trim_end_matches_idemp c s : trim_end_matches c (trim_end_matches c s) = trim_end_matches c s.
Proof.
  induction s as [|a s IH]; simpl; [done|].
  destruct (trim_end_matches c s) as [|x r] eqn:E.
  - destruct (Ascii.eqb a c) eqn:Ea; [done|]. simpl. by rewrite Ea.
  - change (match trim_end_matches c (String x r) with
            | "" => if Ascii.eqb a c then "" else String a ""
            | String _ _ as r0 => String a r0 end = String a (String x r)).
    by rewrite IH.
Qed.

(** A trimmed string is the original without a run of the trimmed byte. *)
Lemma trim_end_matches_spec c s :
  exists t, s = trim_end_matches c s +:+ t /\ str_all (char_eqb c) t = true.
Proof.
  induction s as [|a s (t & Ht & Hall)]; [by exists ""|]. simpl.
  destruct (trim_end_matches c s) as [|x r] eqn:E.
  - simpl in Ht. subst t. destruct (Ascii.eqb_spec a c) as [->|Hne].
    + exists (String c s). simpl. by rewrite Ascii.eqb_refl, Hall.
    + by exists s.
  - exists t. simpl. split; [|done]. f_equal. exact Ht.
Qed.

Lemma split_on_not_nil c s : split_on c s <> [].
Proof. destruct s as [|a s]; simpl; [done|]. destruct (Ascii.eqb a c); [done|]. by destruct (split_on c s). Qed.

(** *** Decimal printing and parsing *)

Lemma pretty_N_char_digit d :
  d < 10 -> is_ascii_digit (pretty_N_char d) = true /\ digit_value (pretty_N_char d) = d.
Proof.
  intros Hd. assert (d ∈ [0;1;2;3;4;5;6;7;8;9]) as Hin by (rewrite !elem_of_cons; lia).
  repeat (apply elem_of_cons in Hin as [->|Hin]; [done|]). by apply elem_of_nil in Hin.
Qed.

Lemma pretty_N_go_digits x s :
  str_all is_ascii_digit (pretty_N_go x s) = str_all is_ascii_digit s /\
  digits_value_go (pretty_N_go x s) 0 = digits_value_go s x.
Proof.
  revert s. induction (N.lt_wf_0 x) as [x _ IH]. intros s.
  destruct (N.eq_dec x 0) as [->|Hx]; [by rewrite pretty_N_go_0|].
  rewrite pretty_N_go_step by lia.
  pose proof (N.mod_lt x 10 ltac:(done)) as Hm. destruct (pretty_N_char_digit _ Hm) as [Hd Hv].
  destruct (IH (x / 10)) with (s := String (pretty_N_char (x mod 10)) s) as [H1 H2];
    [apply N.div_lt; lia|].
  rewrite H1, H2. cbn [str_all digits_value_go]. rewrite Hd, Hv. split; [done|].
  f_equal. rewrite (N.Div0.div_mod x 10) at 3. lia.
Qed.

Lemma pretty_digits n : str_all is_ascii_digit (pretty n) = true /\ digits_value (pretty n) = n.
Proof.
  unfold pretty, pretty_N, digits_value. case_decide; [by subst|].
  destruct (pretty_N_go_digits n "") as [-> ->]. done.
Qed.

Lemma pretty_nonempty (n : N) : is_empty (pretty n) = false.
Proof.
  destruct (pretty n) eqn:E; [|done]. exfalso.
  unfold pretty, pretty_N in E. case_decide; [done|].
  rewrite pretty_N_go_step in E by lia.
  assert (forall x s, String.length s <= String.length (pretty_N_go x s))%nat as Hl.
  { intros x. induction (N.lt_wf_0 x) as [x _ IH]. intros s.
    destruct (N.eq_dec x 0) as [->|Hx]; [by rewrite pretty_N_go_0|].
    rewrite pretty_N_go_step by lia.
    etransitivity; [|apply IH; apply N.div_lt; lia]. simpl. lia. }
  specialize (Hl (n / 10) (String (pretty_N_char (n mod 10)) "")). rewrite E in Hl. simpl in Hl. lia.
Qed.

Lemma parse_uint_digits max s :
  is_empty s = false -> str_all is_ascii_digit s = true -> digits_value s <= max ->
  parse_uint max s = Some (digits_value s).
Proof.
  intros He Hd Hm. unfold parse_uint. destruct s as [|c s]; [done|]. cbn [strip_prefix].
  destruct (Ascii.eqb_spec "+" c) as [<-|Hc]; [done|].
  simpl default. rewrite He, Hd. simpl negb. simpl orb.
  by destruct (N.leb_spec (digits_value (String c s)) max); [|lia].
Qed.

Lemma parse_uint_pretty max n : n <= max -> parse_uint max (pretty n) = Some n.
Proof.
  intros Hn. destruct (pretty_digits n) as [Hd Hv].
  rewrite parse_uint_digits; rewrite ?Hv; auto using pretty_nonempty.
Qed.

Lemma parse_uint_bound max s n : parse_uint max s = Some n -> n <= max.
Proof.
  unfold parse_uint. intros H. case_match; [done|]. destruct (N.leb_spec (digits_value (default s (strip_prefix "+" s))) max); naive_solver.
Qed.

Lemma span_digits p r :
  str_all is_ascii_digit p = true ->
  match r with EmptyString => true | String c _ => negb (is_ascii_digit c) end = true ->
  span is_ascii_digit (p +:+ r) = (p, r).
Proof.
  intros Hp Hr. induction p as [|c p IH]; cbn in Hp |- *.
  - destruct r as [|c r]; [done|]. simpl. apply negb_true_iff in Hr. by rewrite Hr.
  - apply andb_true_iff in Hp as [Hc Hp]. rewrite Hc, IH by done. done.
Qed.

#[export] Hint Rewrite append_nil_r append_assoc length_append str_len_append : ngx.

(** ** Trimming *)

(** The characters of a string: a first byte and its continuation bytes. *)
Definition char_shape (c : string) : Prop := exists b r, c = String b r /\ str_all is_continuation r = true.
Definition char_lead (c : string) : Prop := match c with String b _ => is_continuation b = false | _ => False end.

Lemma chars_cons b b' s :
  chars (String b (String b' s)) =
  if is_continuation b' then
    match chars (String b' s) with c :: cs => String b c :: cs | [] => [String b ""] end
  else String b "" :: chars (String b' s).
Proof. done. Qed.

Lemma chars_shape s :
  Forall char_shape (chars s) /\ Forall char_lead (tail (chars s)) /\
  match chars s, s with c :: _, String b _ => head (String.list_ascii_of_string c) = Some b | [], EmptyString => True | _, _ => False end.
Proof.
  induction s as [|b [|b' s] IH]; [by split_and!; constructor| |].
  - split_and!; [|constructor|done]. constructor; [by exists b, ""|constructor].
  - rewrite chars_cons. destruct IH as (IH1 & IH2 & IH3).
    destruct (chars (String b' s)) as [|c cs]; [done|]. destruct (is_continuation b') eqn:E.
    + apply Forall_cons in IH1 as [(b1 & r & -> & Hr) IH1]. split_and!; [|done|done]. constructor; [|done].
      exists b, (String b1 r). split; [done|]. injection IH3 as ->. cbn [str_all]. by rewrite E.
    + split_and!; [|simpl; constructor; [|done]|done].
      * constructor; [by exists b, ""|done].
      * destruct c as [|b1 r]; [done|]. by injection IH3 as ->.
Qed.

Lemma chars_concat l : Forall char_shape l -> Forall char_lead (tail l) -> chars (concat_str l) = l.
Proof.
  induction l as [|c l IH]; [done|]. intros Hs Hl. apply Forall_cons in Hs as [(b & r & -> & Hr) Hs]. simpl in Hl.
  specialize (IH Hs). assert (chars (concat_str l) = l) as Hc. { apply IH. destruct l; [done|]. by apply Forall_cons in Hl as [_ ?]. }
  change (concat_str (String b r :: l)) with (String b (r +:+ concat_str l)). clear IH. revert b.
  induction r as [|b' r IHr]; intros b.
  - change ("" +:+ concat_str l) with (concat_str l). destruct l as [|c l]; [done|].
    apply Forall_cons in Hs as [(b' & r & -> & Hr') _]. apply Forall_cons in Hl as [Hl _]. simpl in Hl.
    change (concat_str (String b' r :: l)) with (String b' (r +:+ concat_str l)) in *. by rewrite chars_cons, Hl, Hc.
  - cbn [str_all] in Hr. apply andb_true_iff in Hr as [Hb Hr]. change (String b' r +:+ concat_str l) with (String b' (r +:+ concat_str l)).
    rewrite chars_cons, Hb, IHr by done. done.
Qed.

Lemma drop_while_suffix f l : exists p, l = p ++ drop_while f l /\ match drop_while f l with c :: _ => f c = false | [] => True end.
Proof.
  induction l as [|c l (p & Hp & Hd)]; [by exists []|]. simpl. destruct (f c) eqn:E; [|by exists []].
  exists (c :: p). simpl. by rewrite <- Hp.
Qed.
Lemma drop_while_fix f l : match l with c :: _ => f c = false | [] => True end -> drop_while f l = l.
Proof. destruct l as [|c l]; simpl; [done|]. by intros ->. Qed.

(** The characters that trimming keeps. *)
Lemma trim_chars s :
  exists p m q, chars s = p ++ m ++ q /\ trim s = concat_str m /\ drop_while is_whitespace m = m /\
    drop_while is_whitespace (rev m) = rev m.
Proof.
  unfold trim. destruct (drop_while_suffix is_whitespace (chars s)) as (p & Hp & Hhead).
  set (a := drop_while is_whitespace (chars s)) in *. clearbody a.
  destruct (drop_while_suffix is_whitespace (rev a)) as (q & Hq & Hlast).
  set (b := drop_while is_whitespace (rev a)) in *. clearbody b.
  assert (a = rev b ++ rev q) as Ha. { rewrite <- rev_app_distr, <- Hq. by rewrite rev_involutive. }
  exists p, (rev b), (rev q). rewrite rev_involutive, <- Ha. split_and!; [done|done| |by apply drop_while_fix].
  apply drop_while_fix. rewrite Ha in Hhead. by destruct (rev b).
Qed.

Lemma chars_middle s p m q : chars s = p ++ m ++ q -> chars (concat_str m) = m.
Proof.
  intros Hc. destruct (chars_shape s) as (Hs & Hl & _). rewrite Hc in Hs, Hl. rewrite !Forall_app in Hs. apply chars_concat; [apply Hs|].
  destruct p as [|c p]; [|simpl in Hl; rewrite !Forall_app in Hl; destruct m; [done|]; destruct Hl as (_ & Hl & _); by apply Forall_cons in Hl as [_ ?]].
  destruct m as [|c m]; [done|]. simpl in *. by rewrite Forall_app in Hl; destruct Hl.
Qed.

Lemma trim_idemp s : trim (trim s) = trim s.
Proof.
  destruct (trim_chars s) as (p & m & q & Hc & Ht & Hm & Hr). rewrite Ht. unfold trim.
  by rewrite (chars_middle _ _ _ _ Hc), Hm, Hr, rev_involutive.
Qed.

Lemma ascii_upper_continuation b : is_continuation (ascii_upper b) = is_continuation b.
Proof. destruct b as [[] [] [] [] [] [] [] []]; reflexivity. Qed.

Lemma chars_upper s : chars (to_ascii_uppercase s) = to_ascii_uppercase <$> chars s.
Proof.
  induction s as [|b [|b' s] IH]; [done|done|].
  change (to_ascii_uppercase (String b (String b' s))) with
    (String (ascii_upper b) (String (ascii_upper b') (to_ascii_uppercase s))).
  rewrite !chars_cons, ascii_upper_continuation.
  change (String (ascii_upper b') (to_ascii_uppercase s)) with (to_ascii_uppercase (String b' s)). rewrite IH.
  destruct (is_continuation b'); [|done]. by destruct (chars (String b' s)).
Qed.

Lemma upper_low_high b :
  ascii_upper b = b \/ ((128 <=? byte (ascii_upper b)) = false /\ (128 <=? byte b) = false).
Proof. destruct b as [[] [] [] [] [] [] [] []]; (by left) || (by right). Qed.

Lemma upper_eqb_high c sp : str_all (fun b => 128 <=? byte b) sp = true -> String.eqb (to_ascii_uppercase c) sp = String.eqb c sp.
Proof.
  revert sp. induction c as [|b c IH]; intros [|b' sp] Hs; try done. cbn [str_all] in Hs. apply andb_true_iff in Hs as [Hb Hs].
  change (to_ascii_uppercase (String b c)) with (String (ascii_upper b) (to_ascii_uppercase c)). cbn [String.eqb].
  rewrite (IH _ Hs). assert (Ascii.eqb (ascii_upper b) b' = Ascii.eqb b b') as ->; [|done].
  clear -Hb. destruct (upper_low_high b) as [-> | [H1 H2]]; [done|].
  destruct (Ascii.eqb_spec (ascii_upper b) b') as [<- |]; [congruence|]. by destruct (Ascii.eqb_spec b b') as [<- |]; [congruence|].
Qed.
Lemma is_whitespace_upper c : is_whitespace (to_ascii_uppercase c) = is_whitespace c.
Proof.
  destruct c as [|b [|b' c]]; [done| |].
  - destruct b as [[] [] [] [] [] [] [] []]; reflexivity.
  - change (existsb (String.eqb (to_ascii_uppercase (String b (String b' c)))) unicode_spaces =
            existsb (String.eqb (String b (String b' c))) unicode_spaces).
    assert (Forall (fun sp => str_all (fun b => 128 <=? byte b) sp = true) unicode_spaces) as Hall
      by (apply Forall_forall; intros sp; rewrite list_elem_of_In; simpl; intros Hin; repeat destruct Hin as [<- | Hin]; done).
    induction Hall as [|sp l Hsp _ IH]; [done|]. cbn [existsb]. by rewrite upper_eqb_high, IH.
Qed.

Lemma drop_while_fmap (g : string -> string) f l : (forall c, f (g c) = f c) -> drop_while f (g <$> l) = g <$> drop_while f l.
Proof. intros Hf. induction l as [|c l IH]; [done|]. cbn. rewrite Hf. by destruct (f c). Qed.
Lemma concat_upper l : concat_str (to_ascii_uppercase <$> l) = to_ascii_uppercase (concat_str l).
Proof.
  induction l as [|c l IH]; [done|]. cbn [concat_str foldr fmap list_fmap] in *.
  change (to_ascii_uppercase c +:+ concat_str (to_ascii_uppercase <$> l) = to_ascii_uppercase (c +:+ concat_str l)).
  rewrite IH. clear IH. induction c as [|b c IHc]; [done|].
  change (String (ascii_upper b) (to_ascii_uppercase c +:+ to_ascii_uppercase (concat_str l)) =
          String (ascii_upper b) (to_ascii_uppercase (c +:+ concat_str l))). by rewrite IHc.
Qed.

Lemma trim_upper s : trim (to_ascii_uppercase s) = to_ascii_uppercase (trim s).
Proof.
  unfold trim. rewrite chars_upper, drop_while_fmap by apply is_whitespace_upper.
  rewrite <- !map_rev. change (map ?f ?l) with (f <$> l). rewrite drop_while_fmap by apply is_whitespace_upper.
  rewrite <- map_rev. change (map ?f ?l) with (f <$> l). apply concat_upper.
Qed.

Lemma to_ascii_uppercase_idemp s : to_ascii_uppercase (to_ascii_uppercase s) = to_ascii_uppercase s.
Proof. apply str_map_idemp. intros c. by destruct c as [[] [] [] [] [] [] [] []]. Qed.

(** Text without blanks. *)
Lemma trim_graphic s : str_all (in_range 33 126) s = true -> trim s = s.
Proof.
  intros Hs. assert (Forall (fun c => is_whitespace c = false) (chars s)) as Hw.
  { induction s as [|b [|b' s] IH]; [constructor| |].
    - repeat constructor. cbn [str_all] in Hs. rewrite andb_true_r in Hs. destruct b as [[] [] [] [] [] [] [] []]; done.
    - cbn [str_all] in Hs. apply andb_true_iff in Hs as [Hb Hs]. rewrite chars_cons.
      assert (is_continuation b' = false) as -> by (apply andb_true_iff in Hs as [Hs _]; destruct b' as [[] [] [] [] [] [] [] []]; done).
      constructor; [destruct b as [[] [] [] [] [] [] [] []]; done|]. by apply IH. }
  assert (forall l, Forall (fun c => is_whitespace c = false) l -> drop_while is_whitespace l = l) as Hd.
  { intros l Hl. apply drop_while_fix. by destruct Hl. }
  unfold trim. rewrite (Hd (chars s)), (Hd (rev (chars s))) by (done || by apply Forall_rev).
  by rewrite rev_involutive, concat_chars.
Qed.
