(* ===== verification/Lexer.v ===== *)
(** * The configuration lexer (crates/ngxora-config/src/lexer.rs)

    [tokenize] is the loop of [Token::tokenize]: it walks over the characters
    with their byte positions, keeps the start of the pending word and cuts
    lexemes out of the input by index.  [lex] is an index-free reference lexer;
    [tokenize_refines] shows that the index arithmetic computes it. *)

From S2P Require Import Prelude RustStr.

Open Scope nat_scope.

Inductive TokenType := LBrace | RBrace | Semicolon | Ident.

#[global] Instance TokenType_eq_dec : EqDecision TokenType.
Proof. solve_decision. Defined.

(** [Token]: [len] is the byte length of [lexeme]. *)
Record Token := mkToken {
  kind : TokenType;
  len : nat;
  lexeme : string;
  number_line : nat
}.

Definition newline : string := byte1 10.

Definition punct_token_type (c : string) : option TokenType :=
  if String.eqb c "{" then Some LBrace
  else if String.eqb c "}" then Some RBrace
  else if String.eqb c ";" then Some Semicolon
  else None.

(** [&input[s..e]]. *)
Definition slice (input : string) (s e : nat) : string := String.substring s (e - s) input.

Definition flush (tokens : list Token) (input : string) (start : option nat) (end_ line : nat)
  : list Token :=
  match start with
  | None => tokens
  | Some s =>
      if s <? end_ then tokens ++ [mkToken Ident (end_ - s) (slice input s end_) line] else tokens
  end.

(** The main loop at byte position [i]; [in_comment] is the inner loop that
    skips to the end of the line.  [flush] takes the pending word, so the loop
    goes on with none after it. *)
Fixpoint tokenize_loop (input : string) (cs : list string) (i : nat) (in_comment : bool)
    (line : nat) (word_start : option nat) (tokens : list Token) : list Token :=
  match cs with
  | [] => flush tokens input word_start (String.length input) line
  | c :: cs' =>
      let next := i + String.length c in
      if in_comment then
        if String.eqb c newline then tokenize_loop input cs' next false (S line) word_start tokens
        else tokenize_loop input cs' next true line word_start tokens
      else if String.eqb c newline then
        tokenize_loop input cs' next false (S line) None (flush tokens input word_start i line)
      else if is_whitespace c then
        tokenize_loop input cs' next false line None (flush tokens input word_start i line)
      else if String.eqb c "#" then
        tokenize_loop input cs' next true line None (flush tokens input word_start i line)
      else match punct_token_type c with
      | Some k =>
          tokenize_loop input cs' next false line None
            (flush tokens input word_start i line ++ [mkToken k (next - i) (slice input i next) line])
      | None =>
          tokenize_loop input cs' next false line
            (match word_start with None => Some i | Some s => Some s end) tokens
      end
  end.

Definition tokenize (input : string) : list Token :=
  tokenize_loop input (chars input) 0 false 1 None [].

(** ** The reference lexer *)

(** What the parser sees of a token. *)
Inductive sym := SWord (w : string) | SOpen | SClose | SSemi.

Definition token_sym (t : Token) : sym :=
  match kind t with
  | LBrace => SOpen
  | RBrace => SClose
  | Semicolon => SSemi
  | Ident => SWord (lexeme t)
  end.

Definition punct_sym (k : TokenType) : sym :=
  match k with LBrace => SOpen | RBrace => SClose | Semicolon => SSemi | Ident => SWord "" end.

Definition end_word (w : string) : list sym := if is_empty w then [] else [SWord w].

Fixpoint lex (cs : list string) (word : string) (in_comment : bool) : list sym :=
  match cs with
  | [] => end_word word
  | c :: cs' =>
      if in_comment then lex cs' word (negb (String.eqb c newline))
      else if String.eqb c newline || is_whitespace c then end_word word ++ lex cs' "" false
      else if String.eqb c "#" then end_word word ++ lex cs' "" true
      else match punct_token_type c with
      | Some k => end_word word ++ punct_sym k :: lex cs' "" false
      | None => lex cs' (word +:+ c) false
      end
  end.

(** ** Printing a symbol stream *)

Definition print_sym (x : sym) : string :=
  match x with SWord w => w | SOpen => "{" | SClose => "}" | SSemi => ";" end.
Definition print_syms (l : list sym) : string := concat_str ((fun x => print_sym x +:+ " ") <$> l).

(** A character a word may hold. *)
Definition word_char (c : string) : bool :=
  negb (String.eqb c newline) && negb (is_whitespace c) && negb (String.eqb c "#")
  && is_none (punct_token_type c).

(** A word a configuration can spell: non-empty, well-formed at its first byte
    and free of blanks, comments and punctuation. *)
Definition word_ok (w : string) : bool :=
  match w with EmptyString => false | String b _ => negb (is_continuation b) end
  && forallb word_char (chars w).
Definition sym_ok (x : sym) : bool := match x with SWord w => word_ok w | _ => true end.

(** ** Slices *)

Lemma substring_append_l p s n m : String.substring (String.length p + n) m (p +:+ s) = String.substring n m s.
Proof. induction p as [|c p IH]; simpl; [done|]. exact IH. Qed.

Lemma substring_0_append w r : String.substring 0 (String.length w) (w +:+ r) = w.
Proof. induction w as [|c w IH]; simpl; [by destruct r|]. by rewrite IH. Qed.

Lemma slice_middle p w r :
  slice (p +:+ w +:+ r) (String.length p) (String.length p + String.length w) = w.
Proof.
  unfold slice. rewrite Nat.add_comm, Nat.add_sub.
  rewrite <- (Nat.add_0_r (String.length p)) at 1.
  rewrite substring_append_l. apply substring_0_append.
Qed.

(** ** Refinement of the reference lexer *)

(** The pending word starts where [word_start] says. *)
Definition pending (p word : string) (ws : option nat) : Prop :=
  match ws with
  | None => word = ""
  | Some s => s = String.length p /\ word <> ""
  end.

Lemma flush_syms p word r ws tokens line i :
  pending p word ws -> i = String.length p + String.length word ->
  token_sym <$> flush tokens (p +:+ word +:+ r) ws i line =
  (token_sym <$> tokens) ++ end_word word.
Proof.
  intros Hp ->. destruct ws as [s|]; simpl in *.
  - destruct Hp as [-> Hne]. destruct word as [|c word]; [done|].
    destruct (Nat.ltb_spec (String.length p) (String.length p + String.length (String c word)))
      as [_|Hlt]; [|simpl in Hlt; lia].
    rewrite slice_middle, fmap_app. done.
  - subst. simpl. by rewrite app_nil_r.
Qed.

Lemma pending_none p : pending p "" None.
Proof. done. Qed.

Lemma append_cons_middle p word c r : p +:+ word +:+ c +:+ r = p +:+ (word +:+ c) +:+ r.
Proof. by rewrite append_assoc. Qed.

(** [chars] never produces an empty character. *)
Lemma chars_nonempty s c : c ∈ chars s -> c <> "".
Proof.
  revert c. induction s as [|b s IH]; simpl; intros c; [set_solver|].
  destruct s as [|b' s']; [set_solver|].
  destruct (is_continuation b'); [|set_solver].
  destruct (chars (String b' s')) as [|d ds] eqn:E; [set_solver|].
  rewrite elem_of_cons. intros [->|Hc]; [done|]. apply IH. set_solver.
Qed.

Lemma tokenize_loop_refines cs p word i cm line ws tokens :
  Forall (fun c => c <> "") cs ->
  pending p word ws -> (cm = true -> word = "") ->
  i = String.length p + String.length word ->
  token_sym <$> tokenize_loop (p +:+ word +:+ concat_str cs) cs i cm line ws tokens =
  (token_sym <$> tokens) ++ lex cs word cm.
Proof.
  revert p word i cm line ws tokens.
  induction cs as [|c cs IH]; intros p word i cm line ws tokens Hne Hp Hcm Hi; cbn [tokenize_loop lex].
  - apply flush_syms; [done|]. simpl. rewrite append_nil_r, length_append. done.
  - apply Forall_cons in Hne as [Hc Hne].
    set (input := p +:+ word +:+ concat_str (c :: cs)).
    assert (Hin : forall q w, q +:+ w = p +:+ word +:+ c ->
              input = q +:+ w +:+ concat_str cs).
    { intros q w Hq. unfold input. simpl.
      rewrite <- (append_assoc q w), Hq. by rewrite !append_assoc. }
    assert (Hskip : forall line' tokens' cm',
        token_sym <$> tokenize_loop input cs (i + String.length c) cm' line' None tokens' =
        (token_sym <$> tokens') ++ lex cs "" cm').
    { intros. rewrite (Hin (p +:+ word +:+ c) ""); [|by rewrite append_nil_r].
      apply IH; [done|done|done|]. rewrite !length_append. simpl. lia. }
    assert (Hflush : forall tokens', token_sym <$> flush tokens' input ws i line =
        (token_sym <$> tokens') ++ end_word word).
    { intros. apply flush_syms; [done|lia]. }
    destruct cm.
    { specialize (Hcm eq_refl). subst word. destruct ws as [s|]; simpl in Hp; [naive_solver|].
      destruct (String.eqb c newline); apply Hskip. }
    destruct (String.eqb c newline); simpl; [by rewrite Hskip, Hflush, <- app_assoc|].
    destruct (is_whitespace c); [by rewrite Hskip, Hflush, <- app_assoc|].
    destruct (String.eqb c "#"); [by rewrite Hskip, Hflush, <- app_assoc|].
    destruct (punct_token_type c) as [k|] eqn:Ek.
    + rewrite Hskip, fmap_app, Hflush. simpl. rewrite <- !app_assoc. simpl.
      do 2 f_equal. unfold punct_token_type in Ek. repeat case_match; by simplify_eq.
    + destruct ws as [s|]; simpl in Hp.
      * destruct Hp as [-> Hw]. rewrite (Hin p (word +:+ c)); [|done].
        apply IH; [done| |done|rewrite length_append; lia].
        split; [done|]. by destruct word.
      * subst word. simpl in *. rewrite (Hin p c); [|done].
        apply IH; [done| |done|lia]. split; [lia|done].
Qed.

Lemma tokenize_syms input : token_sym <$> tokenize input = lex (chars input) "" false.
Proof.
  unfold tokenize. rewrite <- (concat_chars input) at 1.
  apply (tokenize_loop_refines (chars input) "" "" 0); [|done..].
  apply Forall_forall. intros c. apply chars_nonempty.
Qed.

(** ** Lexing what was printed *)

Lemma chars_app a b :
  match b with EmptyString => true | String c _ => negb (is_continuation c) end = true ->
  chars (a +:+ b) = chars a ++ chars b.
Proof.
  intros Hb. induction a as [|x a IH]; [done|].
  destruct a as [|y a].
  - destruct b as [|c b]; [done|]. simpl in Hb. apply negb_true_iff in Hb.
    change (chars (String x "" +:+ String c b)) with
      (if is_continuation c then
         match chars (String c b) with d :: ds => String x d :: ds | [] => [String x ""] end
       else String x "" :: chars (String c b)).
    by rewrite Hb.
  - change (chars (String x (String y a) +:+ b)) with
      (if is_continuation y then
         match chars (String y a +:+ b) with d :: ds => String x d :: ds | [] => [String x ""] end
       else String x "" :: chars (String y a +:+ b)).
    change (chars (String x (String y a))) with
      (if is_continuation y then
         match chars (String y a) with d :: ds => String x d :: ds | [] => [String x ""] end
       else String x "" :: chars (String y a)).
    rewrite IH. destruct (is_continuation y); [|done].
    destruct (chars (String y a)) as [|d ds] eqn:E; [|done].
    pose proof (concat_chars (String y a)) as Hc. by rewrite E in Hc.
Qed.

Lemma lex_word_chars cs word rest :
  Forall (fun c => word_char c = true) cs ->
  lex (cs ++ rest) word false = lex rest (word +:+ concat_str cs) false.
Proof.
  revert word. induction cs as [|c cs IH]; intros word H; simpl.
  - by rewrite append_nil_r.
  - apply Forall_cons in H as [Hc Hcs]. unfold word_char in Hc.
    rewrite !andb_true_iff, !negb_true_iff in Hc. destruct Hc as [[[H1 H2] H3] H4].
    rewrite H1, H2, H3. simpl. unfold is_none in H4. destruct (punct_token_type c); [done|].
    rewrite IH, append_assoc; done.
Qed.

Lemma lex_sym x rest :
  sym_ok x = true -> lex (chars (print_sym x +:+ " ") ++ rest) "" false = x :: lex rest "" false.
Proof.
  destruct x as [w| | |]; try done. simpl. unfold word_ok.
  rewrite andb_true_iff. intros [Hhd Hw%Is_true_true%forallb_True]. rewrite chars_app by done.
  rewrite <- app_assoc, lex_word_chars.
  - rewrite concat_chars. destruct w as [|b w]; done.
  - eapply Forall_impl; [exact Hw|]. intros c. apply Is_true_true.
Qed.

Lemma chars_print_cons x l :
  Forall (fun y => sym_ok y = true) (x :: l) ->
  chars (print_syms (x :: l)) = chars (print_sym x +:+ " ") ++ chars (print_syms l).
Proof.
  intros H. apply Forall_cons in H as [_ H]. unfold print_syms. simpl.
  rewrite chars_app; [done|]. destruct l as [|y l]; [done|]. simpl.
  apply Forall_cons in H as [Hy _]. destruct y as [[|b w]| | |]; try done. simpl in Hy |- *.
  unfold word_ok in Hy. by apply andb_true_iff in Hy as [? _].
Qed.

Lemma lex_print l :
  Forall (fun x => sym_ok x = true) l -> lex (chars (print_syms l)) "" false = l.
Proof.
  induction l as [|x l IH]; intros H; [done|].
  rewrite chars_print_cons by done. apply Forall_cons in H as [Hx Hl].
  rewrite lex_sym by done. by rewrite IH.
Qed.

(** on any input text, the lexer's index arithmetic (pending-word start,
    slices by byte position, comment skipping) yields exactly the words and
    punctuation of the index-free reference lexer over the input's characters. *)
Theorem tokenize_refines_lex input : token_sym <$> tokenize input = lex (chars input) "" false.
Proof. apply tokenize_syms. Qed.
