(* ===== verification/Parser.v ===== *)
(** * The configuration parser (crates/ngxora-config/src/{ast,parser}.rs)

    The parser's state is the suffix [tokens[pos..]] of the token slice.  The
    two mutually recursive methods run on fuel; [None] is running out of it,
    which [parse_total] excludes. *)

From S2P Require Import Prelude RustStr Lexer.

Open Scope nat_scope.

(** ** The AST *)

Record Directive := mkDirective { dir_name : string; dir_args : list string }.

Inductive Node :=
| NDirective (d : Directive)
| NBlock (name : string) (args : list string) (children : list Node).

Record Block := mkBlock { blk_name : string; blk_args : list string; blk_children : list Node }.

Record Ast := mkAst { items : list Node }.

Definition Node_directive (name : string) (args : list string) : Node :=
  NDirective (mkDirective name args).
Definition Node_block (name : string) (args : list string) (children : list Node) : Node :=
  NBlock name args children.

(** [ParseError.message]. *)
Definition ParseError := string.

Definition debug_kind (k : TokenType) : string :=
  match k with
  | LBrace => "LBrace" | RBrace => "RBrace" | Semicolon => "Semicolon" | Ident => "Ident"
  end.

(** [Parser::next] and [Parser::expect]. *)
Definition next (toks : list Token) : option (Token * list Token) :=
  match toks with [] => None | t :: toks' => Some (t, toks') end.

Definition expect (k : TokenType) (toks : list Token) : result ParseError (list Token) :=
  match next toks with
  | None => Err "unexpected EOF"
  | Some (t, toks') =>
      if bool_decide (kind t = k) then Ok toks'
      else Err ("expected " +:+ debug_kind k +:+ ", got " +:+ debug_kind (kind t))
  end.

(** The loop of [parse_stmt] that collects the arguments. *)
Fixpoint parse_args (toks : list Token) : list string * list Token :=
  match toks with
  | [] => ([], [])
  | t :: toks' =>
      match kind t with
      | Ident => let '(args, rest) := parse_args toks' in (lexeme t :: args, rest)
      | _ => ([], toks)
      end
  end.

Fixpoint parse_items (fuel : nat) (until_rbrace : bool) (toks : list Token)
  : option (result ParseError (list Node * list Token)) :=
  match fuel with
  | O => None
  | S fuel' =>
      match toks with
      | [] => if until_rbrace then Some (Err "unexpected EOF: expected '}'") else Some (Ok ([], []))
      | t :: _ =>
          if bool_decide (kind t = RBrace) then
            if until_rbrace then Some (Ok ([], toks)) else Some (Err "unexpected '}'")
          else
            match parse_stmt fuel' toks with
            | None => None
            | Some (Err e) => Some (Err e)
            | Some (Ok (n, rest)) =>
                match parse_items fuel' until_rbrace rest with
                | None => None
                | Some (Err e) => Some (Err e)
                | Some (Ok (ns, rest')) => Some (Ok (n :: ns, rest'))
                end
            end
      end
  end
with parse_stmt (fuel : nat) (toks : list Token)
  : option (result ParseError (Node * list Token)) :=
  match fuel with
  | O => None
  | S fuel' =>
      match next toks with
      | None => Some (Err "unexpected EOF")
      | Some (name_tok, toks1) =>
          if negb (bool_decide (kind name_tok = Ident)) then
            Some (Err ("expected Ident, got " +:+ debug_kind (kind name_tok)))
          else
            let name := lexeme name_tok in
            let '(args, toks2) := parse_args toks1 in
            match toks2 with
            | [] => Some (Err "unexpected EOF after directive")
            | t :: toks3 =>
                match kind t with
                | Semicolon => Some (Ok (Node_directive name args, toks3))
                | LBrace =>
                    match parse_items fuel' true toks3 with
                    | None => None
                    | Some (Err e) => Some (Err e)
                    | Some (Ok (children, toks4)) =>
                        match expect RBrace toks4 with
                        | Err e => Some (Err e)
                        | Ok toks5 => Some (Ok (Node_block name args children, toks5))
                        end
                    end
                | k => Some (Err ("expected ';' or '{', got " +:+ debug_kind k))
                end
            end
      end
  end.

(** Enough fuel for any token list (see [parse_items_fuel]). *)
Definition items_fuel (toks : list Token) : nat := 2 * length toks + 1.

(** [Ast::parse_tokens] and [Ast::parse_config]. *)
Definition parse_tokens (toks : list Token) : option (result ParseError Ast) :=
  match parse_items (items_fuel toks) false toks with
  | None => None
  | Some (Err e) => Some (Err e)
  | Some (Ok (ns, _)) => Some (Ok (mkAst ns))
  end.
Definition parse_config (input : string) : option (result ParseError Ast) :=
  parse_tokens (tokenize input).

(** ** The grammar: an AST spelled as symbols *)

Fixpoint node_syms (n : Node) : list sym :=
  match n with
  | NDirective d => SWord (dir_name d) :: (SWord <$> dir_args d) ++ [SSemi]
  | NBlock name args children =>
      SWord name :: (SWord <$> args) ++ SOpen :: concat (node_syms <$> children) ++ [SClose]
  end.
Definition ast_syms (a : Ast) : list sym := concat (node_syms <$> items a).

(** The canonical text of a configuration. *)
Definition print_ast (a : Ast) : string := print_syms (ast_syms a).

Fixpoint node_ok (n : Node) : bool :=
  match n with
  | NDirective d => word_ok (dir_name d) && forallb word_ok (dir_args d)
  | NBlock name args children =>
      word_ok name && forallb word_ok args && forallb node_ok children
  end.
(** Every name and argument of the configuration is spellable. *)
Definition ast_ok (a : Ast) : bool := forallb node_ok (items a).

(** Induction over nodes with the children. *)
Section Node_ind.
Context (P : Node -> Prop).
Context (HD : forall d, P (NDirective d)).
Context (HB : forall name args children, Forall P children -> P (NBlock name args children)).

Fixpoint Node_rect' (n : Node) : P n :=
  match n with
  | NDirective d => HD d
  | NBlock name args children =>
      HB name args children
        ((fix go (l : list Node) : Forall P l :=
            match l with
            | [] => Forall_nil_2 P
            | m :: l' => Forall_cons_2 P m l' (Node_rect' m) (go l')
            end) children)
  end.
End Node_ind.

(** ** Termination: the fuel is enough *)

Lemma parse_args_length toks args rest :
  parse_args toks = (args, rest) -> length rest <= length toks.
Proof.
  revert args rest. induction toks as [|t toks IH]; simpl; intros args rest H; [by simplify_eq|].
  destruct (kind t); simplify_eq; [simpl; lia..|].
  destruct (parse_args toks) as [a r] eqn:E. simplify_eq. specialize (IH _ _ eq_refl). lia.
Qed.

(** A successful step consumes tokens. *)
Lemma parse_consumes fuel :
  (forall u toks ns rest, parse_items fuel u toks = Some (Ok (ns, rest)) -> length rest <= length toks) /\
  (forall toks n rest, parse_stmt fuel toks = Some (Ok (n, rest)) -> length rest < length toks).
Proof.
  induction fuel as [|fuel [IHi IHs]]; [done|]. split.
  - intros u toks ns rest H. cbn [parse_items] in H.
    destruct toks as [|t toks]; [destruct u; naive_solver|].
    case_bool_decide; [destruct u; naive_solver|].
    destruct (parse_stmt fuel (t :: toks)) as [[[n r]|e]|] eqn:Es; try discriminate.
    destruct (parse_items fuel u r) as [[[ns' r']|e]|] eqn:Ei; try discriminate.
    simplify_eq. apply IHs in Es. apply IHi in Ei. lia.
  - intros toks n rest H. cbn [parse_stmt] in H.
    destruct toks as [|t toks]; [done|]. simpl in H. case_bool_decide; [simpl in H|done].
    destruct (parse_args toks) as [args r] eqn:Ea. apply parse_args_length in Ea.
    destruct r as [|t' r]; [done|]. simpl in Ea.
    destruct (kind t'); try done.
    + destruct (parse_items fuel true r) as [[[cs r']|e]|] eqn:Ei; try discriminate.
      apply IHi in Ei. unfold expect in H. destruct r' as [|t'' r']; [done|]. simpl in H, Ei.
      case_bool_decide; simplify_eq. simpl. lia.
    + simplify_eq. simpl. lia.
Qed.

Lemma parse_total fuel :
  (forall u toks, 2 * length toks + 1 <= fuel -> is_Some (parse_items fuel u toks)) /\
  (forall toks, 2 * length toks <= fuel -> 1 <= fuel -> is_Some (parse_stmt fuel toks)).
Proof.
  induction fuel as [|fuel [IHi IHs]]; [split; intros; lia|]. split.
  - intros u toks Hf. cbn [parse_items]. destruct toks as [|t toks]; [destruct u; eauto|].
    case_bool_decide; [destruct u; eauto|]. simpl in Hf.
    destruct (IHs (t :: toks)) as [[[n r]|e] Es]; [simpl; lia..| |]; rewrite Es; [|eauto].
    apply parse_consumes in Es. simpl in Es.
    destruct (IHi u r) as [[[ns r']|e] ->]; [lia|eauto..].
  - intros toks Hf _. cbn [parse_stmt]. destruct toks as [|t toks]; [simpl; eauto|]. simpl in *.
    case_bool_decide; simpl; [|eauto].
    destruct (parse_args toks) as [args r] eqn:Ea. apply parse_args_length in Ea.
    destruct r as [|t' r]; [eauto|]. simpl in Ea. destruct (kind t'); eauto.
    destruct (IHi true r) as [[[ns r']|e] ->]; [lia| |eauto].
    destruct (expect RBrace r'); eauto.
Qed.

Lemma parse_tokens_total toks : is_Some (parse_tokens toks).
Proof.
  unfold parse_tokens. destruct (proj1 (parse_total (items_fuel toks)) false toks) as [r ->]; [done|].
  destruct r as [[ns r]|e]; eauto.
Qed.

(** ** Soundness: a parsed AST spells the tokens *)

Lemma parse_args_syms toks args rest :
  parse_args toks = (args, rest) ->
  token_sym <$> toks = (SWord <$> args) ++ (token_sym <$> rest).
Proof.
  revert args rest. induction toks as [|t toks IH]; cbn [parse_args]; intros args rest H; [by simplify_eq|].
  destruct (kind t) eqn:Ek; simplify_eq; try done.
  destruct (parse_args toks) as [a r] eqn:E. simplify_eq. rewrite !fmap_cons, (IH _ _ eq_refl). simpl.
  f_equal. unfold token_sym. by rewrite Ek.
Qed.

Lemma expect_syms k toks rest :
  expect k toks = Ok rest -> k <> Ident -> token_sym <$> toks = punct_sym k :: (token_sym <$> rest).
Proof.
  unfold expect. destruct toks as [|t toks]; [done|]. simpl. case_bool_decide as Hk; [|done].
  intros [= <-] Hi. f_equal. unfold token_sym. by destruct (kind t); subst.
Qed.

Lemma parse_sound fuel :
  (forall u toks ns rest, parse_items fuel u toks = Some (Ok (ns, rest)) ->
     token_sym <$> toks = concat (node_syms <$> ns) ++ (token_sym <$> rest) /\
     (u = false -> rest = [])) /\
  (forall toks n rest, parse_stmt fuel toks = Some (Ok (n, rest)) ->
     token_sym <$> toks = node_syms n ++ (token_sym <$> rest)).
Proof.
  induction fuel as [|fuel [IHi IHs]]; [done|]. split.
  - intros u toks ns rest H. cbn [parse_items] in H.
    destruct toks as [|t toks]; [destruct u; naive_solver|].
    case_bool_decide; [destruct u; naive_solver|].
    destruct (parse_stmt fuel (t :: toks)) as [[[n r]|e]|] eqn:Es; try discriminate.
    destruct (parse_items fuel u r) as [[[ns' r']|e]|] eqn:Ei; try discriminate.
    simplify_eq. apply IHs in Es. apply IHi in Ei as [Ei Hu]. split; [|done].
    rewrite Es, Ei. simpl. by rewrite <- app_assoc.
  - intros toks n rest H. cbn [parse_stmt] in H.
    destruct toks as [|t toks]; [done|]. simpl in H. case_bool_decide as Ht; [simpl in H|done].
    destruct (parse_args toks) as [args r] eqn:Ea. apply parse_args_syms in Ea.
    rewrite fmap_cons, Ea. unfold token_sym at 1. rewrite Ht.
    destruct r as [|t' r]; [done|]. destruct (kind t') eqn:Ek; try done.
    + destruct (parse_items fuel true r) as [[[cs r']|e]|] eqn:Ei; try discriminate.
      apply IHi in Ei as [Ei _]. destruct (expect RBrace r') as [r''|] eqn:Ex; simplify_eq.
      apply expect_syms in Ex; [|done]. rewrite fmap_cons, Ei, Ex.
      assert (token_sym t' = SOpen) as -> by (unfold token_sym; by rewrite Ek).
      unfold Node_block. cbn. by rewrite <- !app_assoc; cbn; rewrite <- ?app_assoc.
    + simplify_eq. rewrite fmap_cons.
      assert (token_sym t' = SSemi) as -> by (unfold token_sym; by rewrite Ek).
      unfold Node_directive. cbn. by rewrite <- ?app_assoc.
Qed.

(** ** Completeness: every spelled AST is parsed *)

Lemma parse_args_complete args k toks t rest :
  token_sym <$> toks = (SWord <$> args) ++ k :: rest -> token_sym t = k -> (forall w, k <> SWord w) ->
  exists t' toks', parse_args toks = (args, t' :: toks') /\ token_sym t' = k /\ token_sym <$> toks' = rest.
Proof.
  intros H Ht Hk. revert toks H. induction args as [|a args IH]; simpl; intros [|u toks] H; try done.
  - simpl in H. injection H as Hu Hr. exists u, toks. simpl. split; [|done].
    unfold token_sym in Hu. destruct (kind u); try done. exfalso. by eapply Hk.
  - simpl in H. injection H as Hu Hr. destruct (IH toks Hr) as (t' & toks' & Hp & Ht' & Hr').
    exists t', toks'. split; [|done]. simpl. unfold token_sym in Hu.
    destruct (kind u); try done. rewrite Hp. congruence.
Qed.

Lemma token_sym_kind t k : token_sym t = punct_sym k -> k <> Ident -> kind t = k.
Proof. unfold token_sym. by destruct (kind t), k. Qed.

Lemma token_sym_word t w : token_sym t = SWord w -> kind t = Ident /\ lexeme t = w.
Proof. unfold token_sym. destruct (kind t); naive_solver. Qed.

Definition stmt_complete (n : Node) : Prop := forall toks rest fuel,
  token_sym <$> toks = node_syms n ++ rest -> 2 * length toks <= fuel ->
  exists toks', parse_stmt fuel toks = Some (Ok (n, toks')) /\ token_sym <$> toks' = rest.

(** What may follow a list of items: the closing brace or the end of input. *)
Definition items_end (u : bool) (rest : list sym) : Prop :=
  if u then exists r, rest = SClose :: r else rest = [].

Lemma items_complete ns : Forall stmt_complete ns -> forall u toks rest fuel,
  token_sym <$> toks = concat (node_syms <$> ns) ++ rest -> items_end u rest ->
  2 * length toks + 1 <= fuel ->
  exists toks', parse_items fuel u toks = Some (Ok (ns, toks')) /\ token_sym <$> toks' = rest.
Proof.
  induction 1 as [|n ns Hn _ IH]; intros u toks rest fuel Hs He Hf;
    (destruct fuel as [|fuel]; [lia|]); cbn [parse_items].
  - simpl in Hs. destruct u; simpl in He.
    + destruct He as [r ->]. destruct toks as [|t toks]; [done|]. simpl in Hs. simplify_eq.
      match goal with H : token_sym t = SClose |- _ =>
        pose proof (token_sym_kind t RBrace H ltac:(done)) as Hk; rewrite Hk end.
      rewrite bool_decide_true by done. eexists. split; [done|]. simpl. by f_equal.
    + subst. destruct toks; [|done]. by eexists.
  - destruct toks as [|t toks]; [by destruct n|].
    destruct (Hn (t :: toks) (concat (node_syms <$> ns) ++ rest) fuel) as (r & Hp & Hr).
    { rewrite Hs. simpl. by rewrite <- app_assoc. }
    { lia. }
    rewrite bool_decide_false.
    + rewrite Hp. apply parse_consumes in Hp. destruct (IH u r rest fuel Hr He) as (r' & Hp' & Hr'); [lia|].
      rewrite Hp'. by eexists.
    + intros Hk. destruct n; cbn in Hs; injection Hs as Hs _; unfold token_sym in Hs; by rewrite Hk in Hs.
Qed.

Lemma stmt_complete_all n : stmt_complete n.
Proof.
  induction n as [d|name args children IH] using Node_rect'; intros toks rest fuel Hs Hf;
    (destruct toks as [|t toks]; [done|]); (destruct fuel as [|fuel]; [simpl in Hf; lia|]);
    simpl in Hs; injection Hs as Ht Hs; apply token_sym_word in Ht as [Hk Hl]; cbn [parse_stmt next];
    rewrite bool_decide_true by done; simpl.
  - rewrite <- app_assoc in Hs.
    destruct (parse_args_complete _ SSemi toks (mkToken Semicolon 0 "" 0) rest Hs) as (t' & r & -> & Ht' & Hr);
      [done..|].
    rewrite (token_sym_kind t' Semicolon Ht') by done. rewrite Hl. destruct d. by eexists.
  - rewrite <- app_assoc in Hs. simpl in Hs. rewrite <- app_assoc in Hs. simpl in Hs, Hf.
    destruct (parse_args_complete _ SOpen toks (mkToken LBrace 0 "" 0) _ Hs) as (t' & r & Ha & Ht' & Hr);
      [done..|].
    rewrite Ha. apply parse_args_length in Ha. simpl in Ha.
    rewrite (token_sym_kind t' LBrace Ht') by done.
    destruct (items_complete children IH true r (SClose :: rest) fuel Hr) as (r' & -> & Hr');
      [by eexists|lia|].
    destruct r' as [|t'' r']; [done|]. simpl in Hr'. injection Hr' as Ht'' Hr'.
    unfold expect. simpl. rewrite bool_decide_true by by apply (token_sym_kind t'' RBrace).
    rewrite Hl. by eexists.
Qed.

Lemma parse_tokens_exact toks a :
  parse_tokens toks = Some (Ok a) <-> token_sym <$> toks = ast_syms a.
Proof.
  unfold parse_tokens, ast_syms. split.
  - destruct (parse_items (items_fuel toks) false toks) as [[[ns r]|e]|] eqn:E; intros H; simplify_eq.
    apply parse_sound in E as [-> Hr]. rewrite Hr by done. by rewrite app_nil_r.
  - intros H. destruct (items_complete (items a)) with (u := false) (toks := toks)
      (rest := @nil sym) (fuel := items_fuel toks) as (r & -> & Hr); [|by rewrite app_nil_r|done..|by destruct a].
    apply Forall_forall. intros n _. apply stmt_complete_all.
Qed.

(** ** Printing and parsing *)

Lemma words_ok args : forallb word_ok args = true -> Forall (fun x => sym_ok x = true) (SWord <$> args).
Proof.
  intros H%Is_true_true%forallb_True. apply Forall_fmap. eapply Forall_impl; [exact H|].
  intros w. apply Is_true_true.
Qed.

Lemma concat_syms_ok ns :
  Forall (fun n => node_ok n = true -> Forall (fun x => sym_ok x = true) (node_syms n)) ns ->
  forallb node_ok ns = true -> Forall (fun x => sym_ok x = true) (concat (node_syms <$> ns)).
Proof.
  induction 1 as [|n ns Hn _ IH]; cbn; [constructor|].
  rewrite andb_true_iff. intros [H1 H2]. apply Forall_app. auto.
Qed.

Lemma node_syms_ok n : node_ok n = true -> Forall (fun x => sym_ok x = true) (node_syms n).
Proof.
  induction n as [d|name args children IH] using Node_rect'; cbn [node_ok node_syms];
    rewrite !andb_true_iff.
  - intros [H1 H2]. constructor; [done|]. apply Forall_app. split; [by apply words_ok|].
    repeat constructor.
  - intros [[H1 H2] H3]. constructor; [done|]. apply Forall_app. split; [by apply words_ok|].
    constructor; [done|]. apply Forall_app. split; [by apply concat_syms_ok|repeat constructor].
Qed.

Lemma ast_syms_ok a : ast_ok a = true -> Forall (fun x => sym_ok x = true) (ast_syms a).
Proof.
  intros H. apply concat_syms_ok; [|done]. apply Forall_forall. intros n _. apply node_syms_ok.
Qed.

(** C39: the parser terminates on every token list (the fuel it is given is never
    exhausted), and it accepts exactly the token streams of the grammar: it
    returns an AST iff the tokens spell that AST, and an error otherwise. *)
Theorem parser_decides_grammar toks :
  exists r, parse_tokens toks = Some r /\
  (forall a, r = Ok a <-> token_sym <$> toks = ast_syms a) /\
  ((exists e, r = Err e) <-> forall a, token_sym <$> toks <> ast_syms a).
Proof.
  destruct (parse_tokens_total toks) as [r Hr]. exists r. split; [done|].
  assert (Hex : forall a, r = Ok a <-> token_sym <$> toks = ast_syms a).
  { intros a. rewrite <- parse_tokens_exact, Hr. naive_solver. }
  split; [done|]. destruct r as [a|e]; split.
  - intros [? ?]. done.
  - intros H. by destruct (H a), (Hex a); auto.
  - intros _ a Ha%Hex. done.
  - eauto.
Qed.

(** C38: every configuration whose names and arguments are spellable words is
    recovered from its canonical text: printing, lexing and parsing it gives it
    back. *)
Theorem parse_print_roundtrip a : ast_ok a = true -> parse_config (print_ast a) = Some (Ok a).
Proof.
  intros H. apply parse_tokens_exact. rewrite tokenize_syms.
  by apply lex_print, ast_syms_ok.
Qed.

Lemma parse_print_roundtrip_witness :
  let a := mkAst [NBlock "http" [] [NDirective (mkDirective "h2c" ["on"]);
             NBlock "server" [] [NDirective (mkDirective "listen" ["*:80"; "default_server"])]]] in
  print_ast a = "http { h2c on ; server { listen *:80 default_server ; } } " /\
  parse_config (print_ast a) = Some (Ok a).
Proof.
  intros a. split; [vm_compute; reflexivity|].
  apply (parse_print_roundtrip a). vm_compute. reflexivity.
Defined.
