(* ===== verification/Include.v ===== *)
(** * Include expansion (crates/ngxora-config/src/include.rs)

    [IncludeResolver::resolve] replaces every [include] directive by the nodes of
    the included files.  The file system is a parameter ([FileSystem]): a canonical
    path is the list of its components.  The nesting depth bounds the recursion, so
    it needs no other fuel: at depth [d] there are [17 - d] levels left. *)

From S2P Require Import Prelude RustStr Lexer Parser.

Open Scope nat_scope.

(** A canonical (absolute, normalised) path. *)
Definition Path := list string.
Definition show_path (p : Path) : string := "/" +:+ join "/" p.

(** [std::fs::canonicalize] and [read_to_string], with the text of their errors. *)
Class FileSystem := {
  canonicalize : string -> result string Path;
  read_to_string : string -> result string string
}.

Definition INCLUDE_DIRECTIVE : string := "include".
Definition MAX_INCLUDE_DEPTH : nat := 16.

(** [IncludeError.message]. *)
Definition IncludeError := string.

Record IncludeFile := mkIncludeFile { if_path : string; if_text : string }.

Definition is_include (n : Node) : bool :=
  match n with NDirective d => String.eqb (dir_name d) INCLUDE_DIRECTIVE | _ => false end.

Fixpoint collect_node (n : Node) : list IncludeFile :=
  match n with
  | NDirective d =>
      if String.eqb (dir_name d) INCLUDE_DIRECTIVE
      then (fun p => mkIncludeFile p "") <$> dir_args d else []
  | NBlock _ _ children => flat_map collect_node children
  end.
Definition collect_includes (nodes : list Node) : list IncludeFile := flat_map collect_node nodes.

Record IncludeResolver := mkIncludeResolver { includes_files : list IncludeFile; root_dir : string }.
Definition IncludeResolver_new (ast : Ast) (root : string) : IncludeResolver :=
  mkIncludeResolver (collect_includes (items ast)) root.

(** [Path::starts_with]: a prefix of components. *)
Fixpoint path_starts_with (base p : Path) : bool :=
  match base, p with
  | [], _ => true
  | c :: base', c' :: p' => String.eqb c c' && path_starts_with base' p'
  | _ :: _, [] => false
  end.
(** [Path::parent]. *)
Definition parent (p : Path) : option Path := match p with [] => None | _ => Some (removelast p) end.
(** [current_dir.join(path)] for a canonical directory, and [is_absolute]. *)
Definition join_path (dir : Path) (raw : string) : string :=
  show_path dir +:+ (if is_nil dir then "" else "/") +:+ raw.
Definition is_absolute (raw : string) : bool := starts_with "/" raw.

(** [Ast::parse_config]; the fuel of [parse_config] is never exhausted
    ([parse_tokens_total]). *)
Definition parse_text (text : string) : result IncludeError Ast :=
  match parse_config text with Some r => r | None => Err "out of fuel" end.

Section include.
Context `{FileSystem}.

Definition resolve_include_path (root_dir current_dir : Path) (raw_path : string) : result IncludeError Path :=
  let path := if is_absolute raw_path then raw_path else join_path current_dir raw_path in
  canonical ← map_err (fun e => "failed to resolve include " +:+ path +:+ ": " +:+ e) (canonicalize path);
  _ ← fail_if (negb (path_starts_with root_dir canonical))
        ("include path " +:+ show_path canonical +:+ " escapes root config directory " +:+ show_path root_dir);
  Ok canonical.

(** The nodes so far, and the files being resolved. *)
Abbreviation progress := (list Node * gset Path)%type.

Section level.
Variable root_dir : Path.
(** [resolve_nodes] one level deeper. *)
Variable deeper : list Node -> Path -> gset Path -> result IncludeError progress.

(** The body of the loop over the arguments of an [include]. *)
Definition include_file (current_dir : Path) (s : progress) (path : string) : result IncludeError progress :=
  let '(out, resolving) := s in
  include_path ← resolve_include_path root_dir current_dir path;
  _ ← fail_if (bool_decide (include_path ∈ resolving))
        ("include cycle detected while resolving " +:+ show_path include_path);
  let resolving := {[ include_path ]} ∪ resolving in
  text ← map_err (fun e => "failed to read include " +:+ show_path include_path +:+ ": " +:+ e)
           (read_to_string (show_path include_path));
  ast ← parse_text text;
  let next_dir := default root_dir (parent include_path) in
  '(nodes, resolving) ← deeper (items ast) next_dir resolving;
  Ok (out ++ nodes, resolving ∖ {[ include_path ]}).

(** The body of the loop of [resolve_nodes]. *)
Fixpoint resolve_node (current_dir : Path) (s : progress) (node : Node) {struct node} : result IncludeError progress :=
  match node with
  | NDirective d =>
      if String.eqb (dir_name d) INCLUDE_DIRECTIVE
      then try_fold (include_file current_dir) s (dir_args d)
      else Ok (fst s ++ [node], snd s)
  | NBlock name args children =>
      '(children, resolving) ←
        (fix go (s : progress) (nodes : list Node) {struct nodes} : result IncludeError progress :=
           match nodes with
           | [] => Ok s
           | n :: nodes' => s ← resolve_node current_dir s n; go s nodes'
           end) ([], snd s) children;
      Ok (fst s ++ [Node_block name args children], resolving)
  end.
End level.

(** [resolve_nodes] with [levels] levels left: depth [17 - levels]. *)
Fixpoint resolve_nodes (levels : nat) (root_dir : Path) (nodes : list Node) (current_dir : Path)
    (resolving : gset Path) : result IncludeError progress :=
  match levels with
  | O => Err ("include: maximum nested depth " +:+ pretty MAX_INCLUDE_DEPTH +:+ " exceeded")
  | S levels' =>
      try_fold (resolve_node root_dir (resolve_nodes levels' root_dir) current_dir) ([], resolving) nodes
  end.

Definition resolve (self : IncludeResolver) (ast : Ast) : result IncludeError Ast :=
  root ← map_err (fun e => "failed to canonicalize include root " +:+ root_dir self +:+ ": " +:+ e)
           (canonicalize (root_dir self));
  '(nodes, _) ← resolve_nodes (S MAX_INCLUDE_DEPTH) root (items ast) root ∅;
  Ok (mkAst nodes).
End include.

(** ** Lemmas *)

(** No [include] directive is left anywhere. *)
Fixpoint include_free (n : Node) : bool :=
  match n with
  | NDirective d => negb (String.eqb (dir_name d) INCLUDE_DIRECTIVE)
  | NBlock _ _ children => forallb include_free children
  end.

Section lemmas.
Context `{FileSystem}.

Lemma resolve_node_block root deeper dir s name args children :
  resolve_node root deeper dir s (NBlock name args children) =
  ('(children, resolving) ← try_fold (resolve_node root deeper dir) ([], snd s) children;
   Ok (fst s ++ [Node_block name args children], resolving)).
Proof.
  assert (forall l s, (fix go s nodes {struct nodes} := match nodes with
      | [] => Ok s
      | n :: nodes' => s ← resolve_node root deeper dir s n; go s nodes' end) s l
    = try_fold (resolve_node root deeper dir) s l) as Hgo.
  { induction l as [|n l IH]; intros s'; simpl; [done|]. destruct (resolve_node _ _ _ s' n); simpl; auto. }
  cbn [resolve_node]. by rewrite Hgo.
Qed.

(** What a successful call does to the progress: it appends expanded nodes and
    leaves the set of files being resolved as it was. *)
Definition expands_to (s s' : list Node * gset Path) : Prop :=
  exists added, s' = (fst s ++ added, snd s) /\ forallb include_free added = true.

Lemma expands_refl s : expands_to s s.
Proof. exists []. rewrite app_nil_r. by destruct s. Qed.

Lemma expands_trans s1 s2 s3 : expands_to s1 s2 -> expands_to s2 s3 -> expands_to s1 s3.
Proof.
  intros (a & -> & Ha) (b & -> & Hb). exists (a ++ b). simpl. by rewrite app_assoc, forallb_app, Ha, Hb.
Qed.

Lemma try_fold_expands {A} (f : list Node * gset Path -> A -> result string (list Node * gset Path)) l s s' :
  Forall (fun x => forall s s', f s x = Ok s' -> expands_to s s') l -> try_fold f s l = Ok s' -> expands_to s s'.
Proof.
  intros Hf. revert s. induction Hf as [|x l Hx _ IH]; intros s Hs; simpl in Hs; inv_ok; [apply expands_refl|].
  eapply expands_trans; [by apply Hx|by apply IH].
Qed.

Section level.
Variables (root : Path) (deeper : list Node -> Path -> gset Path -> result string (list Node * gset Path)).
Hypothesis deeper_expands : forall nodes dir resolving s',
  deeper nodes dir resolving = Ok s' -> expands_to ([], resolving) s'.

Lemma include_file_expands dir s path s' : include_file root deeper dir s path = Ok s' -> expands_to s s'.
Proof using deeper_expands.
  destruct s as [out resolving]. unfold include_file. intros Hi. inv_ok. destruct a3 as [nodes r].
  injection Hi as <-. apply deeper_expands in Hok3 as (added & Heq & Hf). injection Heq as -> ->. simpl.
  apply bool_decide_eq_false in Hok0. exists added. split; [|done]. simpl. f_equal. set_solver.
Qed.

Lemma resolve_node_expands dir n s s' : resolve_node root deeper dir s n = Ok s' -> expands_to s s'.
Proof using deeper_expands.
  revert n s s'. fix IH 1. intros [d|name args children] s s' Hr.
  - simpl in Hr. destruct (String.eqb (dir_name d) INCLUDE_DIRECTIVE) eqn:E.
    + eapply try_fold_expands; [|exact Hr]. apply Forall_forall. intros x _ ??. apply include_file_expands.
    + injection Hr as <-. exists [NDirective d]. simpl. by rewrite E.
  - rewrite resolve_node_block in Hr. inv_ok. destruct a as [nodes r]. injection Hr as <-.
    apply try_fold_expands in Hok as (added & Heq & Hf).
    + injection Heq as -> ->. exists [NBlock name args added]. simpl. by rewrite Hf.
    + clear -IH. induction children as [|c children IHc]; constructor; [intros ??; apply IH|apply IHc].
Qed.
End level.

Lemma resolve_nodes_expands levels root nodes dir resolving s' :
  resolve_nodes levels root nodes dir resolving = Ok s' -> expands_to ([], resolving) s'.
Proof.
  revert nodes dir resolving s'. induction levels as [|levels IH]; intros nodes dir resolving s'; simpl; [done|].
  apply try_fold_expands, Forall_forall. intros n _ ??. apply resolve_node_expands. exact IH.
Qed.

(** Nodes without [include] are copied. *)
Lemma resolve_node_copies root deeper dir n s :
  include_free n = true -> resolve_node root deeper dir s n = Ok (fst s ++ [n], snd s).
Proof.
  revert n s. fix IH 1. intros [d|name args children] s Hf.
  - simpl in *. apply negb_true_iff in Hf. by rewrite Hf.
  - rewrite resolve_node_block. simpl in Hf.
    assert (forall s, try_fold (resolve_node root deeper dir) s children = Ok (fst s ++ children, snd s)) as ->; [|done].
    clear s. induction children as [|c children IHc]; intros s; simpl; [rewrite app_nil_r; by destruct s|].
    simpl in Hf. apply andb_true_iff in Hf as [Hc Hcs]. rewrite (IH c) by done. simpl.
    rewrite IHc by done. simpl. by rewrite <- app_assoc.
Qed.

Lemma resolve_nodes_copies levels root nodes dir resolving :
  forallb include_free nodes = true -> resolve_nodes (S levels) root nodes dir resolving = Ok (nodes, resolving).
Proof.
  intros Hf. simpl. assert (forall s, try_fold (resolve_node root (resolve_nodes levels root) dir) s nodes
    = Ok (fst s ++ nodes, snd s)) as ->; [|done].
  induction nodes as [|n nodes IH]; intros s; simpl; [rewrite app_nil_r; by destruct s|].
  simpl in Hf. apply andb_true_iff in Hf as [Hn Hns].
  rewrite resolve_node_copies by done. simpl. rewrite IH by done. simpl. by rewrite <- app_assoc.
Qed.
End lemmas.

(** ** Confinement *)

Lemma try_fold_ext {E S A} (f g : S -> A -> result E S) l s :
  Forall (fun x => forall s, f s x = g s x) l -> try_fold f s l = try_fold g s l.
Proof.
  intros Hf. revert s. induction Hf as [|x l Hx _ IH]; intros s; simpl; [done|].
  rewrite Hx. destruct (g s x); simpl; auto.
Qed.

(** Two file systems that differ only in files outside [root]. *)
Record agree_under (root : Path) (F G : FileSystem) : Prop := {
  agree_canonicalize : forall p, @canonicalize F p = @canonicalize G p;
  agree_read : forall p, path_starts_with root p = true -> @read_to_string F (show_path p) = @read_to_string G (show_path p)
}.

Section confined.
Context (F G : FileSystem) (root : Path) (HFG : agree_under root F G).

Lemma resolve_include_path_confined dir raw :
  @resolve_include_path F root dir raw = @resolve_include_path G root dir raw.
Proof using HFG. unfold resolve_include_path. by rewrite (agree_canonicalize _ _ _ HFG). Qed.

Lemma resolve_include_path_under dir raw p :
  @resolve_include_path F root dir raw = Ok p -> path_starts_with root p = true.
Proof. unfold resolve_include_path. intros Hp. inv_ok. by apply negb_false_iff in Hok0. Qed.

Section level.
Variables (d1 d2 : list Node -> Path -> gset Path -> result string (list Node * gset Path)).
Hypothesis deeper_same : forall nodes dir resolving, d1 nodes dir resolving = d2 nodes dir resolving.

Lemma include_file_confined dir s path : @include_file F root d1 dir s path = @include_file G root d2 dir s path.
Proof using HFG deeper_same.
  destruct s as [out resolving]. unfold include_file. rewrite <- resolve_include_path_confined.
  destruct (@resolve_include_path F root dir path) as [p|] eqn:Hp; simpl; [|done].
  apply resolve_include_path_under in Hp. rewrite (agree_read _ _ _ HFG) by done.
  destruct (fail_if _ _); simpl; [|done]. destruct (map_err _ _); simpl; [|done].
  destruct (parse_text _); simpl; [|done]. by rewrite deeper_same.
Qed.

Lemma resolve_node_confined dir n s : @resolve_node F root d1 dir s n = @resolve_node G root d2 dir s n.
Proof using HFG deeper_same.
  revert n s. fix IH 1. intros [d|name args children] s.
  - simpl. destruct (String.eqb _ _); [|done]. apply try_fold_ext, Forall_forall. intros x _ ?. apply include_file_confined.
  - rewrite !resolve_node_block. f_equal. apply try_fold_ext.
    clear -IH. induction children as [|c children IHc]; constructor; [intros ?; apply IH|apply IHc].
Qed.
End level.

Lemma resolve_nodes_confined levels nodes dir resolving :
  @resolve_nodes F levels root nodes dir resolving = @resolve_nodes G levels root nodes dir resolving.
Proof using HFG.
  revert nodes dir resolving. induction levels as [|levels IH]; intros nodes dir resolving; simpl; [done|].
  apply try_fold_ext, Forall_forall. intros n _ s. by apply resolve_node_confined.
Qed.
End confined.

(** ** Theorems *)

(** A resolved configuration has no [include] left at any depth, and a
    configuration without [include] is returned as it is. *)
Theorem include_expansion `{FileSystem} self ast root :
  canonicalize (root_dir self) = Ok root ->
  (forall out, resolve self ast = Ok out -> forallb include_free (items out) = true) /\
  (forallb include_free (items ast) = true -> resolve self ast = Ok ast).
Proof.
  intros Hroot. unfold resolve. rewrite Hroot. split.
  - intros out Hr. cbn [map_err mbind result_bind] in Hr. inv_ok. destruct a as [nodes r].
    apply resolve_nodes_expands in Hok as (added & Heq & Hf). injection Heq as -> ->. by inv_ok.
  - intros Hf. cbn [map_err mbind result_bind]. rewrite resolve_nodes_copies by done. by destruct ast.
Qed.

(** C40: includes are confined to the root directory: files outside it, whatever they
    contain, cannot change the result of resolving (only the file system's own
    resolution of names is consulted there). *)
Theorem include_confined F G root self ast :
  agree_under root F G -> @canonicalize F (root_dir self) = Ok root ->
  @resolve F self ast = @resolve G self ast.
Proof.
  intros HFG Hroot. unfold resolve. rewrite <- (agree_canonicalize _ _ _ HFG), Hroot.
  cbn [map_err mbind result_bind]. by rewrite (resolve_nodes_confined F G root HFG).
Qed.

(** A file system with a configuration that includes a file, one that includes
    itself, and a file outside the root. *)
Module IncludeSample.
Definition canon (p : string) : result string Path := Ok (List.filter (fun c => negb (is_empty c)) (split_on "/" p)).
Definition read (outside : string) (p : string) : result string string :=
  if String.eqb p "/etc/a.conf" then Ok "http { include b.conf; }"
  else if String.eqb p "/etc/b.conf" then Ok "h2c on;"
  else if String.eqb p "/etc/loop.conf" then Ok "include loop.conf;"
  else if String.eqb p "/secret" then Ok outside else Err "not found".
Definition fs (outside : string) : FileSystem := {| canonicalize := canon; read_to_string := read outside |}.
Definition self : IncludeResolver := mkIncludeResolver [] "/etc".
Definition main : Ast := mkAst [Node_directive "include" ["a.conf"]].
Definition expanded : Ast := mkAst [Node_block "http" [] [Node_directive "h2c" ["on"]]].

Example resolves : @resolve (fs "") self main = Ok expanded.
Proof. vm_compute. reflexivity. Qed.
Example rejects_cycle : @resolve (fs "") self (mkAst [Node_directive "include" ["loop.conf"]])
  = Err "include cycle detected while resolving /etc/loop.conf".
Proof. vm_compute. reflexivity. Qed.
Example rejects_escape : @resolve (fs "") self (mkAst [Node_directive "include" ["/secret"]])
  = Err "include path /secret escapes root config directory /etc".
Proof. vm_compute. reflexivity. Qed.

Lemma agree : agree_under ["etc"] (fs "x") (fs "y").
Proof.
  constructor; [done|]. intros p Hp. cbn [read_to_string fs]. unfold read.
  destruct (String.eqb_spec (show_path p) "/secret") as [Hs|]; [|done].
  destruct p as [|c p]; [done|]. cbn [path_starts_with] in Hp.
  destruct (String.eqb_spec "etc" c) as [<-|]; [|done].
  destruct p; discriminate Hs.
Qed.
End IncludeSample.

Lemma include_expansion_witness :
  forallb include_free (items IncludeSample.expanded) = true /\
  @resolve (IncludeSample.fs "") IncludeSample.self IncludeSample.expanded = Ok IncludeSample.expanded.
Proof.
  destruct (@include_expansion (IncludeSample.fs "") IncludeSample.self IncludeSample.main ["etc"] eq_refl) as [Hf _].
  destruct (@include_expansion (IncludeSample.fs "") IncludeSample.self IncludeSample.expanded ["etc"] eq_refl) as [_ Hc].
  split; [apply Hf, IncludeSample.resolves|apply Hc; reflexivity].
Defined.

Lemma include_confined_witness :
  @resolve (IncludeSample.fs "x") IncludeSample.self IncludeSample.main
  = @resolve (IncludeSample.fs "y") IncludeSample.self IncludeSample.main.
Proof.
  apply (include_confined (IncludeSample.fs "x") (IncludeSample.fs "y") ["etc"] IncludeSample.self IncludeSample.main).
  - exact IncludeSample.agree.
  - reflexivity.
Defined.
