(* ===== verification/NetAddr.v ===== *)
(** * Socket addresses (std::net)

    [IpAddr] and [SocketAddr] with their [FromStr] parsers: the recursive-descent
    reader of the Rust standard library, which tries alternatives atomically and
    requires the whole input to be consumed. *)

From S2P Require Import Prelude RustStr.

Open Scope N_scope.

(** An address is its 32 or 128 bits. *)
Inductive IpAddr := V4 (bits : N) | V6 (bits : N).

#[global] Instance IpAddr_eq_dec : EqDecision IpAddr.
Proof. solve_decision. Defined.
#[global] Instance IpAddr_countable : Countable IpAddr.
Proof.
  refine (inj_countable' (fun a => match a with V4 b => inl b | V6 b => inr b end)
    (fun s => match s with inl b => V4 b | inr b => V6 b end) _). by intros [].
Defined.

Definition UNSPECIFIED_V4 : IpAddr := V4 0.
Definition UNSPECIFIED_V6 : IpAddr := V6 0.
Definition ipv4 (a b c d : N) : IpAddr := V4 (((a * 256 + b) * 256 + c) * 256 + d).

Definition to_digit (radix : N) (c : ascii) : option N :=
  let v := if is_ascii_digit c then Some (byte c - 48)
           else if in_range 97 102 c then Some (byte c - 87)
           else if in_range 65 70 c then Some (byte c - 55)
           else None in
  match v with Some d => if d <? radix then Some d else None | None => None end.

(** [Parser::read_number]. *)
Fixpoint read_digits (radix max : N) (max_digits : option nat) (s : string) (count : nat) (acc : N)
  : option (N * nat * string) :=
  match s with
  | EmptyString => Some (acc, count, s)
  | String c s' =>
      match to_digit radix c with
      | None => Some (acc, count, s)
      | Some d =>
          let acc' := acc * radix + d in
          if max <? acc' then None
          else if match max_digits with Some m => (m <? S count)%nat | None => false end then None
          else read_digits radix max max_digits s' (S count) acc'
      end
  end.
Definition read_number (radix max : N) (max_digits : option nat) (allow_zero_prefix : bool) (s : string)
  : option (N * string) :=
  let leading_zero := starts_with "0" s in
  match read_digits radix max max_digits s 0 0 with
  | None => None
  | Some (v, count, rest) =>
      if (count =? 0)%nat then None
      else if negb allow_zero_prefix && leading_zero && (1 <? count)%nat then None
      else Some (v, rest)
  end.

Definition read_given_char (c : ascii) (s : string) : option string :=
  match s with String a s' => if char_eqb a c then Some s' else None | EmptyString => None end.

(** [Parser::read_separator]. *)
Definition read_separator {A} (sep : ascii) (index : nat) (inner : string -> option (A * string)) (s : string)
  : option (A * string) :=
  if (0 <? index)%nat then s' ← read_given_char sep s; inner s' else inner s.

(** [Parser::read_ipv4_addr]. *)
Definition read_ipv4_addr (s : string) : option (N * string) :=
  let octet i := read_separator "." i (read_number 10 255 (Some 3%nat) false) in
  '(a, s) ← octet 0%nat s; '(b, s) ← octet 1%nat s; '(c, s) ← octet 2%nat s; '(d, s) ← octet 3%nat s;
  Some (((a * 256 + b) * 256 + c) * 256 + d, s).

(** The inner [read_groups] of [Parser::read_ipv6_addr], with [todo] groups left
    of [limit]: the groups read, whether the last two came from an IPv4 part. *)
Fixpoint read_groups (todo i : nat) (s : string) : list N * bool * string :=
  match todo with
  | O => ([], false, s)
  | S todo' =>
      let embedded := if (0 <? todo')%nat then read_separator ":" i read_ipv4_addr s else None in
      match embedded with
      | Some (v, s') => ([v / 65536; v mod 65536], true, s')
      | None =>
          match read_separator ":" i (read_number 16 65535 (Some 4%nat) true) s with
          | Some (g, s') => let '(gs, v4, r) := read_groups todo' (S i) s' in (g :: gs, v4, r)
          | None => ([], false, s)
          end
      end
  end.

Definition groups_value (gs : list N) : N := foldl (fun acc g => acc * 65536 + g) 0 gs.

Definition read_ipv6_addr (s : string) : option (N * string) :=
  let '(head, head_v4, s1) := read_groups 8 0 s in
  if (length head =? 8)%nat then Some (groups_value head, s1)
  else if head_v4 then None
  else
    s2 ← read_given_char ":" s1; s3 ← read_given_char ":" s2;
    let '(tail, _, s4) := read_groups (8 - (length head + 1)) 0 s3 in
    Some (groups_value (head ++ replicate (8 - length head - length tail) 0 ++ tail), s4).

Definition read_ip_addr (s : string) : option (IpAddr * string) :=
  match read_ipv4_addr s with
  | Some (v, r) => Some (V4 v, r)
  | None => match read_ipv6_addr s with Some (v, r) => Some (V6 v, r) | None => None end
  end.

(** [Parser::parse_with]: the whole input must be consumed. *)
Definition parse_with {A} (reader : string -> option (A * string)) (s : string) : option A :=
  match reader s with Some (a, EmptyString) => Some a | _ => None end.

Definition parse_ip (s : string) : option IpAddr := parse_with read_ip_addr s.

Record SocketAddr := mkSocketAddr { sa_ip : IpAddr; sa_port : N }.

Definition read_port (s : string) : option (N * string) :=
  s' ← read_given_char ":" s; read_number 10 u16_max None true s'.
Definition read_scope_id (s : string) : option (N * string) :=
  s' ← read_given_char "%" s; read_number 10 u32_max None true s'.

Definition read_socket_addr_v4 (s : string) : option (SocketAddr * string) :=
  '(ip, s1) ← read_ipv4_addr s; '(port, s2) ← read_port s1; Some (mkSocketAddr (V4 ip) port, s2).
Definition read_socket_addr_v6 (s : string) : option (SocketAddr * string) :=
  s1 ← read_given_char "[" s; '(ip, s2) ← read_ipv6_addr s1;
  let s3 := match read_scope_id s2 with Some (_, r) => r | None => s2 end in
  s4 ← read_given_char "]" s3; '(port, s5) ← read_port s4; Some (mkSocketAddr (V6 ip) port, s5).
Definition parse_socket_addr (s : string) : option SocketAddr :=
  parse_with (fun s => match read_socket_addr_v4 s with Some r => Some r | None => read_socket_addr_v6 s end) s.

(** ** [Display]

    IPv4 in dotted form; IPv6 in lower-case hexadecimal groups with the first
    longest run of at least two zero groups compressed, IPv4-mapped addresses with
    their IPv4 part in dotted form. *)

Definition show_v4 (b : N) : string :=
  pretty (b / 16777216) +:+ "." +:+ pretty (b / 65536 mod 256) +:+ "." +:+
  pretty (b / 256 mod 256) +:+ "." +:+ pretty (b mod 256).

Definition hex_digit (d : N) : ascii := if d <? 10 then ascii_of_N (48 + d) else ascii_of_N (87 + d).
Definition hex_group (g : N) : string :=
  let s := String (hex_digit (g / 4096)) (String (hex_digit (g / 256 mod 16))
             (String (hex_digit (g / 16 mod 16)) (String (hex_digit (g mod 16)) ""))) in
  let t := trim_start_matches "0" s in if is_empty t then "0" else t.

Fixpoint groups_of (n : nat) (b : N) : list N :=
  match n with O => [] | S n' => groups_of n' (b / 65536) ++ [b mod 65536] end.

(** The scan for the longest zero run: (start, length) of the current and of the
    longest one. *)
Fixpoint zero_run (gs : list N) (i : nat) (current longest : nat * nat) : nat * nat :=
  match gs with
  | [] => longest
  | g :: gs' =>
      if g =? 0 then
        let current := (if (snd current =? 0)%nat then i else fst current, S (snd current)) in
        zero_run gs' (S i) current (if (snd longest <? snd current)%nat then current else longest)
      else zero_run gs' (S i) (0%nat, 0%nat) longest
  end.

Definition show_v6 (b : N) : string :=
  if b / 4294967296 =? 65535 then "::ffff:" +:+ show_v4 (b mod 4294967296) else
  let gs := groups_of 8 b in
  let '(start, len) := zero_run gs 0 (0%nat, 0%nat) (0%nat, 0%nat) in
  if (1 <? len)%nat then
    join ":" (hex_group <$> take start gs) +:+ "::" +:+ join ":" (hex_group <$> drop (start + len) gs)
  else join ":" (hex_group <$> gs).

Definition show_ip (a : IpAddr) : string := match a with V4 b => show_v4 b | V6 b => show_v6 b end.
(** [SocketAddr::new(ip, port).to_string()]. *)
Definition show_socket_addr (a : IpAddr) (port : N) : string :=
  match a with
  | V4 b => show_v4 b +:+ ":" +:+ pretty port
  | V6 b => "[" +:+ show_v6 b +:+ "]:" +:+ pretty port
  end.

Example show_ips :
  show_ip <$> [ipv4 10 0 0 1; V6 0; V6 1; V6 42540766411282592856903984951653826561; V6 281470849515521]
  = ["10.0.0.1"; "::"; "::1"; "2001:db8::1"; "::ffff:10.0.0.1"].
Proof. vm_compute. reflexivity. Qed.

Example parse_ip_v4 : parse_ip "127.0.0.1" = Some (ipv4 127 0 0 1).
Proof. vm_compute. reflexivity. Qed.
Example parse_ip_v4_octal : parse_ip "127.0.0.01" = None.
Proof. vm_compute. reflexivity. Qed.
Example parse_ip_v6 : parse_ip "2001:db8::1" = Some (V6 42540766411282592856903984951653826561).
Proof. vm_compute. reflexivity. Qed.
Example parse_ip_v6_mapped : parse_ip "::ffff:10.0.0.1" = Some (V6 281470849515521).
Proof. vm_compute. reflexivity. Qed.
Example parse_ip_all : (parse_ip "::", parse_ip ":::", parse_ip "1::2::3") = (Some (V6 0), None, None).
Proof. vm_compute. reflexivity. Qed.
Example parse_sa : parse_socket_addr "[::1]:8443" = Some (mkSocketAddr (V6 1) 8443).
Proof. vm_compute. reflexivity. Qed.

(** ** Bounds *)

Lemma read_digits_bound radix max md s count acc v n r :
  acc <= max -> read_digits radix max md s count acc = Some (v, n, r) -> v <= max.
Proof.
  revert count acc. induction s as [|c s IH]; intros count acc Ha Hr; simpl in Hr; [by simplify_eq|].
  destruct (to_digit radix c) as [d|]; [|by simplify_eq].
  destruct (N.ltb_spec max (acc * radix + d)); [done|]. repeat case_match; try done; eauto.
Qed.

Lemma read_port_bound s p r : read_port s = Some (p, r) -> p <= u16_max.
Proof.
  unfold read_port. destruct (read_given_char ":" s) as [s'|]; simpl; [|done]. unfold read_number.
  destruct (read_digits 10 u16_max None s' 0 0) as [[[v n] r']|] eqn:E; [|done].
  apply read_digits_bound in E; [|done]. repeat case_match; naive_solver.
Qed.

Lemma parse_socket_addr_port s a : parse_socket_addr s = Some a -> sa_port a <= u16_max.
Proof.
  unfold parse_socket_addr, parse_with. intros Hs.
  assert (forall x r, match read_socket_addr_v4 s with Some q => Some q | None => read_socket_addr_v6 s end
    = Some (x, r) -> sa_port x <= u16_max) as Hx; [|repeat case_match; simplify_eq; eauto].
  intros x r. destruct (read_socket_addr_v4 s) as [[y q]|] eqn:E4.
  - intros [= -> ->]. unfold read_socket_addr_v4 in E4. destruct (read_ipv4_addr s) as [[ip s1]|]; simpl in E4; [|done].
    destruct (read_port s1) as [[p s2]|] eqn:Ep; simpl in E4; simplify_eq. by eapply read_port_bound.
  - unfold read_socket_addr_v6. destruct (read_given_char "[" s) as [s1|]; simpl; [|done].
    destruct (read_ipv6_addr s1) as [[ip s2]|]; simpl; [|done].
    destruct (read_given_char "]" _) as [s4|]; simpl; [|done].
    destruct (read_port s4) as [[p s5]|] eqn:Ep; simpl; [|done]. intros [= <- <-]. by eapply read_port_bound.
Qed.
