(* ===== verification/BTree.v ===== *)
(** * Ordered collections (std::collections::BTreeSet, BTreeMap)

    The derived [Ord] of the types kept in ordered sets and maps, and those
    collections as strictly ascending lists: iteration is the list itself, so that two
    collections with the same elements are equal. *)

From S2P Require Import Prelude RustStr NetAddr.

Open Scope N_scope.

(** ** Derived orders *)

Class Ord (A : Type) := cmp : A -> A -> comparison.
Class OrdLaws A `{Ord A} := {
  cmp_eq : forall a b : A, cmp a b = Eq <-> a = b;
  cmp_opp : forall a b : A, cmp b a = CompOpp (cmp a b);
  cmp_trans : forall a b c : A, cmp a b = Lt -> cmp b c = Lt -> cmp a c = Lt
}.
#[global] Hint Mode Ord ! : typeclass_instances.

#[global] Instance N_ord : Ord N := N.compare.
#[global] Instance string_ord : Ord string := String.compare.
#[global] Instance bool_ord : Ord bool := fun a b =>
  match a, b with false, true => Lt | true, false => Gt | _, _ => Eq end.
#[global] Instance option_ord `{Ord A} : Ord (option A) := fun a b =>
  match a, b with
  | None, None => Eq | None, Some _ => Lt | Some _, None => Gt
  | Some a, Some b => cmp a b
  end.
(** Fields are compared in turn. *)
Definition then_with (c d : comparison) : comparison := match c with Eq => d | _ => c end.
#[global] Instance prod_ord `{Ord A} `{Ord B} : Ord (A * B) := fun a b =>
  then_with (cmp (fst a) (fst b)) (cmp (snd a) (snd b)).

#[global] Instance N_ord_laws : OrdLaws N.
Proof.
  constructor; unfold cmp, N_ord.
  - apply N.compare_eq_iff.
  - intros. apply N.compare_antisym.
  - intros a b c. rewrite !N.compare_lt_iff. lia.
Qed.

Lemma ascii_compare_trans a b c : Ascii.compare a b = Lt -> Ascii.compare b c = Lt -> Ascii.compare a c = Lt.
Proof. unfold Ascii.compare. rewrite !N.compare_lt_iff. lia. Qed.

Lemma string_compare_refl s : String.compare s s = Eq.
Proof. induction s as [|c s IH]; [done|]. simpl. unfold Ascii.compare. by rewrite N.compare_refl. Qed.

#[global] Instance string_ord_laws : OrdLaws string.
Proof.
  constructor; unfold cmp, string_ord.
  - intros a b. split; [apply String.compare_eq_iff|intros ->; apply string_compare_refl].
  - intros. apply String.compare_antisym.
  - induction a as [|x a IH]; intros [|y b] [|z c]; simpl; try done.
    destruct (Ascii.compare x y) eqn:Exy; [|intros _|done].
    + apply Ascii.compare_eq_iff in Exy as ->. destruct (Ascii.compare y z); [apply IH|done|done].
    + destruct (Ascii.compare y z) eqn:Eyz; [|intros _|done].
      * apply Ascii.compare_eq_iff in Eyz as ->. by rewrite Exy.
      * by rewrite (ascii_compare_trans x y z).
Qed.

#[global] Instance bool_ord_laws : OrdLaws bool.
Proof. constructor; [intros [] []|intros [] []|intros [] [] []]; done. Qed.

#[global] Instance option_ord_laws `{OrdLaws A} : OrdLaws (option A).
Proof.
  constructor; unfold cmp, option_ord.
  - intros [a|] [b|]; try done. rewrite cmp_eq. split; [by intros ->|by intros [=]].
  - intros [a|] [b|]; try done. apply cmp_opp.
  - intros [a|] [b|] [c|]; try done. apply cmp_trans.
Qed.

Lemma then_with_eq c d : then_with c d = Eq <-> c = Eq /\ d = Eq.
Proof. destruct c; simpl; naive_solver. Qed.
Lemma then_with_lt c d : then_with c d = Lt <-> c = Lt \/ (c = Eq /\ d = Lt).
Proof. destruct c; simpl; naive_solver. Qed.

#[global] Instance prod_ord_laws `{OrdLaws A} `{OrdLaws B} : OrdLaws (A * B).
Proof.
  constructor; unfold cmp, prod_ord.
  - intros [a b] [c d]. rewrite then_with_eq, !cmp_eq. simpl. naive_solver.
  - intros [a b] [c d]. simpl. rewrite (cmp_opp a c), (cmp_opp b d). by destruct (cmp a c).
  - intros [a b] [c d] [e f]. rewrite !then_with_lt, !cmp_eq. simpl.
    intros [Ha|[-> Ha]] [Hb|[-> Hb]]; [left|left|left|right]; [by eapply cmp_trans|done|done|split; [done|by eapply cmp_trans]].
Qed.

(** A record compares as the tuple of its fields. *)
Definition cmp_via `{Ord B} {A} (f : A -> B) : Ord A := fun a b => cmp (f a) (f b).
Lemma cmp_via_laws `{OrdLaws B} {A} (f : A -> B) (g : B -> A) :
  (forall a, g (f a) = a) -> @OrdLaws A (cmp_via f).
Proof.
  intros Hg. constructor; unfold cmp, cmp_via.
  - intros a b. rewrite cmp_eq. split; [|by intros ->]. intros He. by rewrite <- (Hg a), He, Hg.
  - intros. apply cmp_opp.
  - intros a b c. apply cmp_trans.
Qed.

(** ** Ordered sets *)

Section sets.
Context `{OrdLaws A}.
Implicit Types (x y : A) (s t : list A).

Definition lt_ord x y : Prop := cmp x y = Lt.

(** [BTreeSet::insert] *)
Fixpoint bs_insert x s : list A :=
  match s with
  | [] => [x]
  | y :: s' => match cmp x y with Lt => x :: s | Eq => s | Gt => y :: bs_insert x s' end
  end.
(** [collect::<BTreeSet<_>>()] *)
Definition bs_collect (l : list A) : list A := foldl (fun s x => bs_insert x s) [] l.

Definition bs_wf s : Prop := StronglySorted lt_ord s.

Lemma cmp_refl x : cmp x x = Eq.
Proof. by apply cmp_eq. Qed.
Lemma cmp_gt x y : cmp x y = Gt <-> cmp y x = Lt.
Proof. rewrite (cmp_opp x y). by destruct (cmp x y). Qed.
Lemma lt_ord_irrefl x : ~ lt_ord x x.
Proof. unfold lt_ord. by rewrite cmp_refl. Qed.

Lemma elem_of_bs_insert x y s : y ∈ bs_insert x s <-> y = x \/ y ∈ s.
Proof.
  induction s as [|z s IH]; simpl; [set_solver|].
  destruct (cmp x z) eqn:E; [apply cmp_eq in E as ->; set_solver|set_solver|].
  rewrite !elem_of_cons, IH. tauto.
Qed.

Lemma bs_insert_wf x s : bs_wf s -> bs_wf (bs_insert x s).
Proof.
  unfold bs_wf. induction 1 as [|y s Hs IH Hy]; simpl; [repeat constructor|].
  destruct (cmp x y) eqn:E; [by constructor| |].
  - constructor; [by constructor|]. constructor; [done|]. eapply Forall_impl; [done|].
    intros z Hz. by eapply cmp_trans.
  - constructor; [done|]. apply Forall_forall. intros z Hz. apply elem_of_bs_insert in Hz as [->|Hz].
    + by apply cmp_gt.
    + by eapply Forall_forall in Hy.
Qed.

Lemma bs_wf_nodup s : bs_wf s -> NoDup s.
Proof.
  induction 1 as [|x s Hs IH Hx]; constructor; [|done].
  intros Hin. eapply Forall_forall in Hx; [|done]. by eapply lt_ord_irrefl.
Qed.

Lemma bs_insert_elem x s : bs_wf s -> x ∈ s -> bs_insert x s = s.
Proof.
  induction 1 as [|y s Hs IH Hy]; simpl; [set_solver|]. intros [->|Hx]%elem_of_cons; [by rewrite cmp_refl|].
  eapply Forall_forall in Hy; [|done]. rewrite (proj2 (cmp_gt x y) Hy). by rewrite IH.
Qed.

(** A set is its elements. *)
Lemma bs_wf_ext s t : bs_wf s -> bs_wf t -> (forall x, x ∈ s <-> x ∈ t) -> s = t.
Proof.
  intros Hs. revert t. induction Hs as [|x s Hs IH Hx]; intros t Ht He.
  - destruct t as [|y t]; [done|]. exfalso. apply (not_elem_of_nil y), He. set_solver.
  - destruct Ht as [|y t Ht Hy]; [exfalso; apply (not_elem_of_nil x), He; set_solver|].
    assert (x = y) as ->.
    { destruct (proj1 (elem_of_cons t x y) (proj1 (He x) ltac:(set_solver))) as [->|Hxt]; [done|].
      destruct (proj1 (elem_of_cons s y x) (proj2 (He y) ltac:(set_solver))) as [->|Hys]; [done|].
      eapply Forall_forall in Hx, Hy; [|done..]. exfalso. eapply lt_ord_irrefl. by eapply cmp_trans. }
    f_equal. apply IH; [done|]. intros z. split; intros Hz.
    + destruct (proj1 (elem_of_cons t z y) (proj1 (He z) ltac:(set_solver))) as [->|]; [|done].
      eapply Forall_forall in Hx; [|done]. by apply lt_ord_irrefl in Hx.
    + destruct (proj1 (elem_of_cons s z y) (proj2 (He z) ltac:(set_solver))) as [->|]; [|done].
      eapply Forall_forall in Hy; [|done]. by apply lt_ord_irrefl in Hy.
Qed.

Lemma bs_insert_length x s : (length s <= length (bs_insert x s))%nat.
Proof. induction s as [|y s IH]; simpl; [lia|]. destruct (cmp x y); simpl; lia. Qed.

Lemma bs_insert_grows x s : bs_wf s -> x ∉ s -> length (bs_insert x s) = S (length s).
Proof.
  induction 1 as [|y s Hs IH Hy]; intros Hx; simpl; [done|].
  destruct (cmp x y) eqn:E; [|done|].
  - apply cmp_eq in E as ->. set_solver.
  - simpl. rewrite IH; [done|set_solver].
Qed.

Lemma foldl_bs_insert l s :
  bs_wf s -> bs_wf (foldl (fun s x => bs_insert x s) s l) /\ forall x, x ∈ foldl (fun s x => bs_insert x s) s l <-> x ∈ s \/ x ∈ l.
Proof.
  revert s. induction l as [|y l IH]; intros s Hs; simpl; [split; [done|set_solver]|].
  destruct (IH (bs_insert y s) (bs_insert_wf y s Hs)) as [Hw He]. split; [done|].
  intros x. rewrite He, elem_of_bs_insert. set_solver.
Qed.
Lemma bs_collect_wf l : bs_wf (bs_collect l).
Proof. apply foldl_bs_insert. constructor. Qed.
Lemma elem_of_bs_collect l x : x ∈ bs_collect l <-> x ∈ l.
Proof. unfold bs_collect. rewrite (proj2 (foldl_bs_insert l [] ltac:(constructor))). set_solver. Qed.
End sets.

(** An order that ignores part of its elements: of equal ones the first stays. *)
Section partial_sets.
Context `{Ord A}.
Implicit Types (x y : A) (s l : list A).

Lemma bs_insert_sub x y s : y ∈ bs_insert x s -> y = x \/ y ∈ s.
Proof. induction s as [|z s IH]; simpl; [set_solver|]. destruct (cmp x z); rewrite !elem_of_cons; naive_solver. Qed.
Lemma bs_insert_mono x y s : y ∈ s -> y ∈ bs_insert x s.
Proof. induction s as [|z s IH]; simpl; [set_solver|]. destruct (cmp x z); rewrite !elem_of_cons; naive_solver. Qed.
Lemma bs_insert_new x s : Forall (fun y => cmp x y <> Eq) s -> x ∈ bs_insert x s.
Proof. induction 1 as [|y s Hy Hs IH]; simpl; [set_solver|]. destruct (cmp x y); [done|set_solver|set_solver]. Qed.
Lemma bs_insert_length_le x s : (length (bs_insert x s) <= S (length s))%nat.
Proof. induction s as [|y s IH]; simpl; [lia|]. destruct (cmp x y); simpl; lia. Qed.

Lemma bs_collect_snoc l x : bs_collect (l ++ [x]) = bs_insert x (bs_collect l).
Proof. unfold bs_collect. by rewrite foldl_app. Qed.
Lemma bs_collect_sub l x : x ∈ bs_collect l -> x ∈ l.
Proof.
  induction l as [|y l IH] using rev_ind; [done|]. rewrite bs_collect_snoc. intros Hx. apply bs_insert_sub in Hx as [->|Hx]; [set_solver|].
  apply elem_of_app. left. by apply IH.
Qed.
Lemma bs_collect_length l : (length (bs_collect l) <= length l)%nat.
Proof.
  induction l as [|y l IH] using rev_ind; [done|]. rewrite bs_collect_snoc, length_app. simpl.
  pose proof (bs_insert_length_le y (bs_collect l)). lia.
Qed.
Lemma bs_collect_all l :
  (forall i j x y, l !! i = Some x -> l !! j = Some y -> cmp x y = Eq -> i = j) -> forall x, x ∈ l -> x ∈ bs_collect l.
Proof.
  induction l as [|y l IH] using rev_ind; intros Hd x Hx; [set_solver|]. rewrite bs_collect_snoc.
  apply elem_of_app in Hx as [Hx|Hx]; [|apply list_elem_of_singleton in Hx as ->].
  - apply bs_insert_mono, IH; [|done]. intros i j a b Ha Hb. apply (Hd i j); by apply lookup_app_l_Some.
  - apply bs_insert_new, Forall_forall. intros z Hz%bs_collect_sub He. apply list_elem_of_lookup in Hz as [i Hi].
    assert (i = length l); [|apply lookup_lt_Some in Hi; lia].
    symmetry. eapply Hd; [by apply list_lookup_middle|by apply lookup_app_l_Some|done].
Qed.
End partial_sets.

(** ** Ordered maps of lists *)

Section groups.
Context `{OrdLaws K} {V : Type}.
Implicit Types (m : list (K * list V)).

(** [map.entry(k).or_default().push(v)] *)
Fixpoint bm_push (k : K) (v : V) m : list (K * list V) :=
  match m with
  | [] => [(k, [v])]
  | (k', vs) :: m' =>
      match cmp k k' with
      | Lt => (k, [v]) :: m
      | Eq => (k', vs ++ [v]) :: m'
      | Gt => (k', vs) :: bm_push k v m'
      end
  end.

(** Grouping a sequence by a key. *)
Definition bm_group (f : V -> K) (l : list V) : list (K * list V) := foldl (fun m v => bm_push (f v) v m) [] l.

Lemma bm_push_keys k v m : (bm_push k v m).*1 = bs_insert k m.*1.
Proof. induction m as [|[k' vs] m IH]; [done|]. cbn [bm_push fmap list_fmap bs_insert]. simpl. destruct (cmp k k') eqn:E; [done|done|]. rewrite fmap_cons, IH. done. Qed.

Lemma elem_of_bm_push k v m k' vs :
  bs_wf m.*1 ->
  (k', vs) ∈ bm_push k v m <->
  (k' <> k /\ (k', vs) ∈ m) \/ (k' = k /\ ((exists ws, (k, ws) ∈ m /\ vs = ws ++ [v]) \/ (k ∉ m.*1 /\ vs = [v]))).
Proof.
  assert (forall k us (l : list (K * list V)), k ∉ l.*1 -> (k, us) ∉ l) as Hkey.
  { intros k1 us l Hni Hin. apply Hni. by apply (list_elem_of_fmap_2' fst _ (k1, us)). }
  induction m as [|[k1 ws] m IH]; simpl; intros Hs.
  - rewrite list_elem_of_singleton. set_solver.
  - inversion Hs as [|? ? Hs' Hf]; subst. specialize (IH Hs').
    assert (k1 ∉ m.*1) as Hk1.
    { intros Hin. eapply Forall_forall in Hf; [by eapply lt_ord_irrefl|done]. }
    destruct (cmp k k1) eqn:E.
    + apply cmp_eq in E as ->. pose proof (Hkey k1) as Hk. set_solver.
    + assert (k ∉ m.*1) as Hkm.
      { intros Hin. eapply Forall_forall in Hf; [|done]. apply (lt_ord_irrefl k). by eapply cmp_trans. }
      assert (k <> k1) by (intros ->; by rewrite cmp_refl in E). pose proof (Hkey k) as Hk. set_solver.
    + assert (k <> k1) by (intros ->; by rewrite cmp_refl in E). rewrite elem_of_cons, IH. set_solver.
Qed.

Lemma bm_group_snoc f l v : bm_group f (l ++ [v]) = bm_push (f v) v (bm_group f l).
Proof. unfold bm_group. by rewrite foldl_app. Qed.

Lemma bm_group_keys f l : bs_wf (bm_group f l).*1 /\ forall k, k ∈ (bm_group f l).*1 <-> k ∈ f <$> l.
Proof.
  induction l as [|v l [IHw IHe]] using rev_ind; [split; [constructor|set_solver]|].
  rewrite bm_group_snoc, bm_push_keys. split; [by apply bs_insert_wf|].
  intros k. rewrite elem_of_bs_insert, IHe, fmap_app. set_solver.
Qed.

(** The group of a key holds the values with that key, in their order. *)
Lemma elem_of_bm_group `{EqDecision K} f l k vs :
  (k, vs) ∈ bm_group f l <-> vs = filter (fun v => f v = k) l /\ vs <> [].
Proof.
  revert k vs. induction l as [|v l IH] using rev_ind; intros k vs.
  - unfold bm_group. simpl. split; [set_solver|by intros [-> ?]].
  - rewrite bm_group_snoc, elem_of_bm_push by apply bm_group_keys. rewrite filter_app, filter_cons, filter_nil.
    destruct (decide (f v = k)) as [<-|Hne].
    + split.
      * intros [[? _]|[_ [(ws & Hws & ->)|[Hni ->]]]]; [done|by apply IH in Hws as [-> ?]; split; [|by destruct (filter _ l)]|].
        split; [|done]. destruct (filter (fun v' => f v' = f v) l) as [|w ws] eqn:E; [done|]. exfalso. apply Hni, bm_group_keys.
        assert (w ∈ filter (fun v' => f v' = f v) l) as Hw by (rewrite E; set_solver).
        apply list_elem_of_filter in Hw as [<- Hw]. by apply list_elem_of_fmap_2.
      * intros [-> _]. right. split; [done|]. destruct (filter (fun v' => f v' = f v) l) as [|w ws] eqn:E.
        -- right. split; [|done]. intros Hin. apply bm_group_keys, list_elem_of_fmap in Hin as (w & He & Hw).
           assert (w ∈ filter (fun v' => f v' = f v) l) by (by apply list_elem_of_filter). rewrite E in *. set_solver.
        -- left. exists (w :: ws). split; [|done]. apply IH. by rewrite E.
    + rewrite app_nil_r, IH. split; [|by left]. intros [[_ Hin]|[-> _]]; [done|done].
Qed.
End groups.
