(* ===== verification/Metrics.v ===== *)
(** * Metrics (crates/ngxora-runtime/src/metrics.rs)

    The series of the Prometheus registry by family and label values, what each
    recording function does to them, and the readiness gauges, which a scrape replaces
    in steps that other scrapes may interleave with. *)

From S2P Require Import Prelude RustStr.

Open Scope N_scope.

(** ** The registry *)

(** Counters are 64-bit and wrap; a gauge is an [i64]; a histogram is its observations,
    latest first, as durations in nanoseconds. *)
Record Registry := mkRegistry {
  counters : gmap (string * list string) N;
  gauges : gmap (string * list string) Z;
  histograms : gmap (string * list string) (list N)
}.
Definition Registry_empty : Registry := mkRegistry ∅ ∅ ∅.

Definition counter (r : Registry) (family : string) (labels : list string) : N := default 0 (counters r !! (family, labels)).
Definition inc_by (family : string) (labels : list string) (n : N) (r : Registry) : Registry :=
  mkRegistry (<[(family, labels) := wrapping_add64 (counter r family labels) n]> (counters r)) (gauges r) (histograms r).
Definition inc (family : string) (labels : list string) : Registry -> Registry := inc_by family labels 1.
Definition set_gauge (family : string) (labels : list string) (v : Z) (r : Registry) : Registry :=
  mkRegistry (counters r) (<[(family, labels) := v]> (gauges r)) (histograms r).
Definition remove_gauge (family : string) (labels : list string) (r : Registry) : Registry :=
  mkRegistry (counters r) (delete (family, labels) (gauges r)) (histograms r).
Definition observe (family : string) (labels : list string) (nanos : N) (r : Registry) : Registry :=
  mkRegistry (counters r) (gauges r)
    (<[(family, labels) := nanos :: default [] (histograms r !! (family, labels))]> (histograms r)).

(** ** Families *)

Definition requests_total : string := "ngxora_requests_total".
Definition request_duration_seconds : string := "ngxora_request_duration_seconds".
Definition upstream_request_bytes_total : string := "ngxora_upstream_request_bytes_total".
Definition upstream_response_bytes_total : string := "ngxora_upstream_response_bytes_total".
Definition cache_hits_total : string := "ngxora_cache_hits_total".
Definition cache_misses_total : string := "ngxora_cache_misses_total".
Definition upstream_backend_requests_total : string := "ngxora_upstream_backend_requests_total".
Definition upstream_backend_request_duration_seconds : string := "ngxora_upstream_backend_request_duration_seconds".
Definition upstream_backend_ready : string := "ngxora_upstream_backend_ready".
Definition nrf_discovery_requests_total : string := "ngxora_nrf_discovery_requests_total".
Definition nrf_discovery_snapshot_age_seconds : string := "ngxora_nrf_discovery_snapshot_age_seconds".
Definition nrf_discovery_endpoints : string := "ngxora_nrf_discovery_endpoints".

(** ** Recording *)

Definition record_scp_event (profile event : string) : Registry -> Registry := inc "ngxora_scp_events_total" [profile; event].

Definition i64_max : N := 9223372036854775807.
(** [count as i64]: a [usize] keeps its bits. *)
Definition as_i64 (n : N) : Z := if n <=? i64_max then Z.of_N n else Z.of_N n - 2 ^ 64.
Definition set_scp_cache_entries (profile : string) (count : N) : Registry -> Registry :=
  set_gauge "ngxora_scp_cache_entries" [profile] (as_i64 count).

Definition record_nrf_discovery_request (group result : string) : Registry -> Registry :=
  inc nrf_discovery_requests_total [group; result].

(** [try_into().unwrap_or(i64::MAX)] *)
Definition to_i64 (n : N) : Z := Z.of_N (N.min n i64_max).
Definition set_nrf_discovery_snapshot (group : string) (age_nanos endpoints : N) (r : Registry) : Registry :=
  set_gauge nrf_discovery_endpoints [group] (to_i64 endpoints)
    (set_gauge nrf_discovery_snapshot_age_seconds [group] (to_i64 (age_nanos / 1000000000)) r).

Inductive CacheStatus := Hit | Miss | Bypass.
#[global] Instance CacheStatus_eq_dec : EqDecision CacheStatus.
Proof. solve_decision. Defined.
Definition CacheStatus_as_str (s : CacheStatus) : string := match s with Hit => "hit" | Miss => "miss" | Bypass => "bypass" end.

Record RequestLabels := mkRequestLabels {
  rl_method : string;
  rl_status : string;
  rl_cache_status : CacheStatus;
  rl_has_upstream : bool;
  rl_route_id : N
}.
Definition label_values (l : RequestLabels) : list string :=
  [rl_method l; rl_status l; CacheStatus_as_str (rl_cache_status l); if rl_has_upstream l then "true" else "false"; pretty (rl_route_id l)].

Definition record_metrics (l : RequestLabels) (latency request_body_bytes response_body_bytes : N) (r : Registry) : Registry :=
  let r := inc requests_total (label_values l) r in
  let r := observe request_duration_seconds (label_values l) latency r in
  let r := inc_by upstream_request_bytes_total (label_values l) request_body_bytes r in
  let r := inc_by upstream_response_bytes_total (label_values l) response_body_bytes r in
  match rl_cache_status l with
  | Hit => inc cache_hits_total (label_values l) r
  | Miss => inc cache_misses_total (label_values l) r
  | Bypass => r
  end.

Definition status_class (status : N) : string :=
  match status / 100 with 1 => "1xx" | 2 => "2xx" | 3 => "3xx" | 4 => "4xx" | 5 => "5xx" | _ => "error" end.

Definition record_upstream_backend_metrics (upstream_group backend : string) (status latency : N) (r : Registry) : Registry :=
  observe upstream_backend_request_duration_seconds [upstream_group; backend] latency
    (inc upstream_backend_requests_total [upstream_group; backend; status_class status] r).

(** ** Readiness *)

Abbreviation readiness := (list (string * string * bool)).

(** A scrape before its lock: the series still to set, those it has set. *)
Record Scrape := mkScrape { sc_todo : readiness; sc_current : gset (string * string) }.

Definition ready_series (s : string * string) : string * list string := (upstream_backend_ready, [s.1; s.2]).
Definition ready_value (ready : bool) : Z := if ready then 1 else 0.

(** One turn of the first loop. *)
Definition scrape_set (e : string * string * bool) (current : gset (string * string)) (r : Registry)
  : Registry * gset (string * string) :=
  let '(group, backend, ready) := e in
  (set_gauge upstream_backend_ready [group; backend] (ready_value ready) r, {[(group, backend)]} ∪ current).

(** The locked section: what the last scrape set and this one did not is removed. *)
Definition scrape_swap (current previous : gset (string * string)) (r : Registry) : Registry * gset (string * string) :=
  (foldr (fun s => remove_gauge upstream_backend_ready [s.1; s.2]) r (elements (previous ∖ current)), current).

Fixpoint scrape_all (l : readiness) (current : gset (string * string)) (r : Registry) : Registry * gset (string * string) :=
  match l with
  | [] => (r, current)
  | e :: l => let '(r, current) := scrape_set e current r in scrape_all l current r
  end.

Definition replace_upstream_backend_readiness (l : readiness) (previous : gset (string * string)) (r : Registry)
  : Registry * gset (string * string) :=
  let '(r, current) := scrape_all l ∅ r in scrape_swap current previous r.

(** Scrapes that interleave, with [readiness_series]. *)
Record ScrapeWorld := mkScrapeWorld { sw_registry : Registry; sw_previous : gset (string * string); sw_running : list Scrape }.

Inductive scrape_step : ScrapeWorld -> ScrapeWorld -> Prop :=
| step_begin r previous running l :
    scrape_step (mkScrapeWorld r previous running) (mkScrapeWorld r previous (mkScrape l ∅ :: running))
| step_set r previous before e todo current after r' current' :
    scrape_set e current r = (r', current') ->
    scrape_step (mkScrapeWorld r previous (before ++ mkScrape (e :: todo) current :: after))
                (mkScrapeWorld r' previous (before ++ mkScrape todo current' :: after))
| step_swap r previous before current after r' previous' :
    scrape_swap current previous r = (r', previous') ->
    scrape_step (mkScrapeWorld r previous (before ++ mkScrape [] current :: after))
                (mkScrapeWorld r' previous' (before ++ after))
| step_other r r' previous running :
    (* anything else that is recorded *)
    (forall labels, gauges r' !! (upstream_backend_ready, labels) = gauges r !! (upstream_backend_ready, labels)) ->
    scrape_step (mkScrapeWorld r previous running) (mkScrapeWorld r' previous running).

(** ** Properties *)

(** *** Counters *)

Lemma counter_inc_by f ls n r f' ls' :
  counter (inc_by f ls n r) f' ls' = if decide (f = f' /\ ls = ls') then wrapping_add64 (counter r f' ls') n else counter r f' ls'.
Proof.
  unfold counter, inc_by. cbn [counters]. destruct (decide _) as [[-> ->]|Hne]; [by rewrite lookup_insert_eq|].
  rewrite lookup_insert_ne; [done|]. intros [= -> ->]. by destruct Hne.
Qed.

Definition observations (r : Registry) (family : string) (labels : list string) : list N := default [] (histograms r !! (family, labels)).

Lemma observations_observe f ls n r f' ls' :
  observations (observe f ls n r) f' ls' = if decide (f = f' /\ ls = ls') then n :: observations r f' ls' else observations r f' ls'.
Proof.
  unfold observations, observe. cbn [histograms]. destruct (decide _) as [[-> ->]|Hne]; [by rewrite lookup_insert_eq|].
  rewrite lookup_insert_ne; [done|]. intros [= -> ->]. by destruct Hne.
Qed.

Lemma counter_inc_same f ls n r : counter (inc_by f ls n r) f ls = wrapping_add64 (counter r f ls) n.
Proof. by rewrite counter_inc_by, decide_True. Qed.
Lemma counter_inc_other f ls n r f' ls' : f <> f' \/ ls <> ls' -> counter (inc_by f ls n r) f' ls' = counter r f' ls'.
Proof. intros Hne. rewrite counter_inc_by, decide_False; [done|]. intros [? ?]. by destruct Hne. Qed.
Lemma counter_observe f ls n r f' ls' : counter (observe f ls n r) f' ls' = counter r f' ls'.
Proof. done. Qed.
Lemma observations_inc f ls n r f' ls' : observations (inc_by f ls n r) f' ls' = observations r f' ls'.
Proof. done. Qed.
Lemma observations_same f ls n r : observations (observe f ls n r) f ls = n :: observations r f ls.
Proof. by rewrite observations_observe, decide_True. Qed.
Lemma observations_other f ls n r f' ls' : f <> f' \/ ls <> ls' -> observations (observe f ls n r) f' ls' = observations r f' ls'.
Proof. intros Hne. rewrite observations_observe, decide_False; [done|]. intros [? ?]. by destruct Hne. Qed.

(** Look through the updates of other series. *)
Ltac series := repeat first
  [ rewrite counter_observe | rewrite observations_inc | rewrite counter_inc_same | rewrite observations_same
  | rewrite counter_inc_other by (first [by right|left; discriminate])
  | rewrite observations_other by (first [by right|left; discriminate]) ].

Lemma label_values_status l l' : label_values l = label_values l' -> rl_cache_status l = rl_cache_status l'.
Proof. unfold label_values. intros [= _ _ Hs _ _]. by destruct (rl_cache_status l), (rl_cache_status l'). Qed.

(** What the series of one label set say of each other. *)
Record series_consistent (r : Registry) (l : RequestLabels) : Prop := {
  sn_hits : counter r cache_hits_total (label_values l) =
    (if decide (rl_cache_status l = Hit) then counter r requests_total (label_values l) else 0);
  sn_misses : counter r cache_misses_total (label_values l) =
    (if decide (rl_cache_status l = Miss) then counter r requests_total (label_values l) else 0);
  sn_durations : N.of_nat (length (observations r request_duration_seconds (label_values l))) mod (u64_max + 1) =
    counter r requests_total (label_values l)
}.

Lemma wrapping_add64_length (n : nat) c :
  N.of_nat n mod (u64_max + 1) = c -> N.of_nat (S n) mod (u64_max + 1) = wrapping_add64 c 1.
Proof. intros <-. unfold wrapping_add64. rewrite N.Div0.add_mod_idemp_l. f_equal. lia. Qed.

Lemma record_metrics_consistent l' latency sent received r l :
  series_consistent r l -> series_consistent (record_metrics l' latency sent received r) l.
Proof.
  intros [Hh Hm Hd]. unfold record_metrics, inc.
  destruct (decide (label_values l' = label_values l)) as [Heq|Hne].
  - pose proof (label_values_status _ _ Heq) as Hst. rewrite Hst, Heq.
    destruct (rl_cache_status l) eqn:Hs; constructor; rewrite ?Hs in *; series; try by apply wrapping_add64_length.
    all: repeat case_decide; congruence.
  - destruct (rl_cache_status l'); constructor; by series.
Qed.

(** *** Readiness *)

(** The last word of a scrape on a series. *)
Fixpoint readiness_of (l : readiness) (s : string * string) : option bool :=
  match l with
  | [] => None
  | (group, backend, ready) :: l =>
      match readiness_of l s with
      | Some ready' => Some ready'
      | None => if decide ((group, backend) = s) then Some ready else None
      end
  end.

Definition ready_gauge (r : Registry) (s : string * string) : option Z := gauges r !! ready_series s.

Lemma ready_series_inj s s' : ready_series s = ready_series s' -> s = s'.
Proof. destruct s, s'. by intros [= -> ->]. Qed.

Lemma scrape_set_spec e current r r' current' s :
  scrape_set e current r = (r', current') ->
  ready_gauge r' s = (if decide (e.1 = s) then Some (ready_value e.2) else ready_gauge r s) /\
  (s ∈ current' <-> e.1 = s \/ s ∈ current).
Proof.
  destruct e as [[g b] ready]. unfold scrape_set, set_gauge, ready_gauge. intros [= <- <-]. cbn [gauges fst snd]. split; [|set_solver].
  destruct (decide _) as [<-|Hne]; [apply lookup_insert_eq|]. apply lookup_insert_ne. by intros ?%(ready_series_inj (g, b)).
Qed.

Lemma ready_gauge_remove l r s :
  ready_gauge (foldr (fun s => remove_gauge upstream_backend_ready [s.1; s.2]) r l) s = if decide (s ∈ l) then None else ready_gauge r s.
Proof.
  unfold ready_gauge. induction l as [|s' l IH]; cbn [foldr]; [by rewrite decide_False by apply not_elem_of_nil|].
  destruct (decide (s = s')) as [->|Hne].
  - rewrite decide_True by left. apply lookup_delete_eq.
  - unfold remove_gauge at 1. cbn [gauges]. rewrite lookup_delete_ne by (by intros ?%(ready_series_inj s')). rewrite IH.
    destruct (decide (s ∈ l)); [rewrite decide_True by (by right)|rewrite decide_False by (by intros [?|?]%elem_of_cons)]; done.
Qed.

Lemma scrape_swap_spec current previous r r' previous' s :
  scrape_swap current previous r = (r', previous') ->
  previous' = current /\ ready_gauge r' s = if decide (s ∈ previous /\ s ∉ current) then None else ready_gauge r s.
Proof.
  intros [= <- <-]. split; [done|]. rewrite ready_gauge_remove. apply decide_ext. rewrite elem_of_elements. apply elem_of_difference.
Qed.

Lemma scrape_all_spec l current r r' current' s :
  scrape_all l current r = (r', current') ->
  ready_gauge r' s = match readiness_of l s with Some ready => Some (ready_value ready) | None => ready_gauge r s end /\
  (s ∈ current' <-> is_Some (readiness_of l s) \/ s ∈ current).
Proof.
  revert current r. induction l as [|e l IH]; intros current r; cbn [scrape_all readiness_of].
  - intros [= <- <-]. split; [done|]. split; [by right|]. intros [[? ?]|?]; done.
  - destruct (scrape_set e current r) as [r1 c1] eqn:He. apply (scrape_set_spec _ _ _ _ _ s) in He as [Hg Hc].
    intros [Hg' Hc']%IH. destruct e as [[g b] ready]. cbn [fst snd] in *. rewrite Hg', Hc', Hg, Hc.
    destruct (readiness_of l s) as [rd|]; [split; [done|]|].
    + split; intros _; left; eauto.
    + destruct (decide _) as [<-|Hne]; (split; [done|]).
      * split; intros _; [left; eauto|right; by left].
      * split; intros [[? ?]|?]; try done; [destruct H as [?|?]; [done|by right]|by right; right].
Qed.

(** No series outlives its scrape: each is one that the last scrape to take the lock
    reported, or that a running scrape has set. *)
Definition scrape_inv (w : ScrapeWorld) : Prop :=
  forall s, is_Some (ready_gauge (sw_registry w) s) ->
    s ∈ sw_previous w \/ exists sc, sc ∈ sw_running w /\ s ∈ sc_current sc.

Lemma scrape_step_inv w w' : scrape_step w w' -> scrape_inv w -> scrape_inv w'.
Proof.
  intros Hs Hinv s. destruct Hs as [r previous running l|r previous before e todo current after r' current' He
    |r previous before current after r' previous' He|r r' previous running Hother]; unfold scrape_inv in *; cbn [sw_registry sw_previous sw_running] in *.
  - intros Hg. destruct (Hinv s Hg) as [?|(sc & Hin & ?)]; [by left|]. right. exists sc. split; [by right|done].
  - destruct (scrape_set_spec _ _ _ _ _ s He) as [Hg Hc]. rewrite Hg. intros Hsome.
    assert (Hmine : s ∈ current' -> exists sc, sc ∈ before ++ mkScrape todo current' :: after /\ s ∈ sc_current sc).
    { intros ?. exists (mkScrape todo current'). split; [apply elem_of_app; right; left|done]. }
    destruct (decide (e.1 = s)) as [Heq|Hne]; [right; apply Hmine, Hc; by left|].
    destruct (Hinv s Hsome) as [?|(sc & Hin & Hsc)]; [by left|right].
    apply elem_of_app in Hin as [Hin|[->|Hin]%elem_of_cons].
    + exists sc. split; [apply elem_of_app; by left|done].
    + apply Hmine, Hc. by right.
    + exists sc. split; [apply elem_of_app; right; by right|done].
  - destruct (scrape_swap_spec _ _ _ _ _ s He) as [-> Hg]. rewrite Hg. destruct (decide _) as [|Hn]; [intros [? ?]; done|].
    intros Hsome. destruct (decide (s ∈ current)) as [?|Hnc]; [by left|].
    destruct (Hinv s Hsome) as [Hp|(sc & Hin & Hsc)]; [by destruct Hn|right].
    apply elem_of_app in Hin as [Hin|[->|Hin]%elem_of_cons]; [|done|]; exists sc; (split; [apply elem_of_app; by auto|done]).
  - unfold ready_gauge, ready_series. rewrite Hother. apply Hinv.
Qed.

Definition scrape_start : ScrapeWorld := mkScrapeWorld Registry_empty ∅ [].

Lemma scrape_reach_inv w : rtc scrape_step scrape_start w -> scrape_inv w.
Proof.
  intros Hr. assert (H0 : scrape_inv scrape_start) by (intros s [? Hs]; done). revert H0.
  induction Hr as [|w1 w2 w3 Hs Hr IH]; [done|]. intros H0. by apply IH, (scrape_step_inv w1).
Qed.

(** The readiness metrics tell the truth.  However earlier scrapes interleaved, a
    scrape that starts when none is running leaves exactly the series of the backends
    it was given, each with its readiness; the series of backends that are gone are
    removed. *)
Lemma readiness_exact w l s :
  rtc scrape_step scrape_start w -> sw_running w = [] ->
  ready_gauge (fst (replace_upstream_backend_readiness l (sw_previous w) (sw_registry w))) s = ready_value <$> readiness_of l s.
Proof.
  intros Hinv%scrape_reach_inv Hnone. unfold replace_upstream_backend_readiness.
  destruct (scrape_all l ∅ (sw_registry w)) as [r1 current] eqn:Hall. apply (scrape_all_spec _ _ _ _ _ s) in Hall as [Hg Hc].
  destruct (scrape_swap current (sw_previous w) r1) as [r2 previous] eqn:Hswap. apply (scrape_swap_spec _ _ _ _ _ s) in Hswap as [_ Hg2].
  cbn [fst]. rewrite Hg2, Hg. destruct (readiness_of l s) as [ready|]; simpl.
  - rewrite decide_False; [done|]. intros [_ []]. apply Hc. left. by eexists.
  - destruct (decide _) as [|Hn]; [done|]. destruct (ready_gauge (sw_registry w) s) eqn:Hold; [|done].
    destruct Hn. destruct (Hinv s ltac:(by eexists)) as [Hp|(sc & Hin & _)].
    + split; [done|]. intros [[? ?]|?]%Hc; done.
    + rewrite Hnone in Hin. by apply not_elem_of_nil in Hin.
Qed.

(** Two scrapes at once may lose a series until the next one: the backend is reported by
    the first scrape, and the second, of an older snapshot, removes it. *)
Theorem concurrent_scrapes_lose_series :
  exists w, rtc scrape_step scrape_start w /\ sw_running w = [] /\ ("web", "a") ∈ sw_previous w /\ ready_gauge (sw_registry w) ("web", "a") = None.
Proof.
  set (entry := ("web", "a", true)). set (c := {[("web", "a")]} ∪ ∅ : gset (string * string)).
  set (r1 := set_gauge upstream_backend_ready ["web"; "a"] 1 Registry_empty).
  set (r2 := set_gauge upstream_backend_ready ["web"; "a"] 1 r1).
  set (r3 := remove_gauge upstream_backend_ready ["web"; "a"] r2).
  exists (mkScrapeWorld r3 c []). split; [|split; [done|split; [unfold c; set_solver|reflexivity]]].
  eapply rtc_l; [apply (step_begin _ _ [] [entry])|].
  eapply rtc_l; [apply (step_set _ _ [] entry [] ∅ [] r1 c); reflexivity|].
  eapply rtc_l; [apply (step_swap _ _ [] c [] r1 c); reflexivity|].
  eapply rtc_l; [apply (step_begin _ _ [] [entry])|].
  eapply rtc_l; [apply (step_set _ _ [] entry [] ∅ [] r2 c); reflexivity|].
  eapply rtc_l; [apply (step_begin _ _ [mkScrape [] c] [])|].
  eapply rtc_l; [apply (step_swap _ _ [] ∅ [mkScrape [] c] r3 ∅); vm_compute; reflexivity|].
  eapply rtc_l; [apply (step_swap _ _ [] c [] r3 c); vm_compute; reflexivity|].
  apply rtc_refl.
Qed.
