(* ===== verification/Uds.v ===== *)
(** * The control socket (crates/ngxora-runtime/src/grpc/uds.rs, transport.rs)

    The gRPC control plane listens on a Unix socket that only its owner may reach and
    that one process at a time owns.  The decisions of the code are functions of what
    the system calls answer; the processes that follow them share a path, a lock file
    and the kernel's listeners, and interleave one system call at a time. *)

From S2P Require Import Prelude RustStr NetAddr.

Open Scope N_scope.

(** ** What the system calls answer *)

Inductive IoErr :=
  | NotFound | AddrInUse (message : string) | ConnectionRefused | ConnectionReset | ConnectionAborted
  | PermissionDenied (message : string) | InvalidInput (message : string) | OtherError (message : string).

Inductive FileKind := Regular | Socket | OtherKind.
Record Meta := mkMeta { m_kind : FileKind; m_dev : N; m_ino : N }.
#[global] Instance FileKind_eq_dec : EqDecision FileKind.
Proof. solve_decision. Defined.
Definition is_socket (m : Meta) : bool := bool_decide (m_kind m = Socket).
Definition is_file (m : Meta) : bool := bool_decide (m_kind m = Regular).
Definition same_file (a b : Meta) : bool := (m_dev a =? m_dev b) && (m_ino a =? m_ino b).

(** [connect] under a time limit. *)
Inductive Probe := Connected | ProbeTimeout | ProbeFailed (e : IoErr).

(** ** The decisions *)

(** The lock file: absent or a regular file. *)
Definition lock_path_check (lstat : result IoErr Meta) : result IoErr unit :=
  match lstat with
  | Ok meta => if is_file meta then Ok tt else Err (OtherError "gRPC UDS lock path is not a regular file")
  | Err NotFound => Ok tt
  | Err e => Err e
  end.

(** [try_lock]; [None] when another process holds it. *)
Definition try_lock_result (r : option (result IoErr unit)) : result IoErr unit :=
  match r with Some r => r | None => Err (AddrInUse "gRPC UDS is owned by another process") end.

(** [prepare_path], first look: nothing there, or a socket to probe. *)
Definition inspect_path (lstat : result IoErr Meta) : result IoErr (option Meta) :=
  match lstat with
  | Err NotFound => Ok None
  | Err e => Err e
  | Ok meta => if is_socket meta then Ok (Some meta) else Err (OtherError "gRPC UDS path already exists and is not a socket")
  end.

(** The answer of the probe: [Ok true] when the socket is dead and is looked at again,
    [Ok false] when it is gone. *)
Definition probe_verdict (p : Probe) : result IoErr bool :=
  match p with
  | ProbeFailed ConnectionRefused => Ok true
  | ProbeFailed NotFound => Ok false
  | ProbeFailed ConnectionReset => Err (AddrInUse "connection reset")
  | ProbeFailed ConnectionAborted => Err (AddrInUse "connection aborted")
  | ProbeFailed e => Err e
  | Connected | ProbeTimeout => Err (AddrInUse "gRPC UDS listener is still active")
  end.

(** The second look, before the socket is removed. *)
Definition recheck (meta : Meta) (lstat : result IoErr Meta) : result IoErr unit :=
  match lstat with
  | Err e => Err e
  | Ok current => if same_file current meta then Ok tt else Err (AddrInUse "gRPC UDS changed during bind")
  end.

(** [Ownership::drop]: whether the path is removed. *)
Definition drop_removes (owned : Meta) (lstat : result IoErr Meta) : bool :=
  match lstat with Ok meta => is_socket meta && same_file meta owned | Err _ => false end.

(** *** The directory *)

(** Owner and permission bits of a directory. *)
Record DirMeta := mkDirMeta { d_uid : N; d_mode : N }.

(** Only the owner may use the directory, and its ancestors, unless sticky, are not
    open to others. *)
Definition private_dir (uid : N) (d : DirMeta) : bool := (d_uid d =? uid) && (N.land (d_mode d) 63 =? 0).
Definition safe_ancestor (uid : N) (d : DirMeta) : bool :=
  ((d_uid d =? uid) || (d_uid d =? 0)) && ((N.land (d_mode d) 18 =? 0) || negb (N.land (d_mode d) 512 =? 0)).

(** [private_socket_path]: [name] is the file name, [parent] what creating and resolving
    its directory gives, [metadata] what is known of a directory. *)
Definition private_socket_path (uid : N) (name : option string) (parent : result IoErr string) (ancestors : string -> list string)
    (metadata : string -> result IoErr DirMeta) : result IoErr string :=
  name ← ok_or name (InvalidInput "gRPC UDS requires a socket filename");
  parent ← parent;
  meta ← metadata parent;
  _ ← fail_if (negb (private_dir uid meta))
        (PermissionDenied ("gRPC UDS directory " +:+ parent +:+ " must be owned by uid " +:+ pretty uid +:+ " and accessible only to its owner (0700)"));
  _ ← try_fold (fun _ ancestor =>
                  meta ← metadata ancestor;
                  fail_if (negb (safe_ancestor uid meta)) (PermissionDenied ("gRPC UDS directory has an unsafe ancestor: " +:+ ancestor)))
        tt (ancestors parent);
  Ok (parent +:+ "/" +:+ name).

(** ** Processes *)

(** Who accepts connections on a socket: one of the processes, or a program that was
    there before them. *)
Inductive Listener := Inst (i : nat) | Foreign.
Record Entry := mkEntry { en_meta : Meta; en_listener : option Listener }.

(** Where a process is in [bind], serving and [Ownership::drop]. *)
Inductive Pc :=
  | PStart                  (* before the lock *)
  | PLocked                 (* [try_lock] succeeded *)
  | PProbe (meta : Meta)    (* a socket is there, to be probed *)
  | PRecheck (meta : Meta)  (* the probe was refused *)
  | PRemove (meta : Meta)   (* still the same socket *)
  | PFree                   (* about to bind *)
  | PBound                  (* bound, ownership not yet recorded *)
  | PServing (meta : Meta)
  | PClosing (meta : Meta)  (* the listener is closed, ownership is dropped *)
  | PUnlink (meta : Meta)
  | PRelease                (* the lock file is about to be closed *)
  | PFailed (e : IoErr)
  | PStopped.

Record Sys := mkSys { s_path : option Entry; s_lock : option nat; s_procs : list Pc }.

Definition lstat_path (e : option Entry) : result IoErr Meta := match e with Some e => Ok (en_meta e) | None => Err NotFound end.

(** What a connection attempt may answer. *)
Definition connects (e : option Entry) (p : Probe) : Prop :=
  match e with
  | None => p = ProbeFailed NotFound
  | Some e => match en_listener e with
              | Some _ => p <> ProbeFailed ConnectionRefused /\ p <> ProbeFailed NotFound
              | None => p <> Connected /\ p <> ProbeFailed NotFound
              end
  end.

(** The listener of a process goes away with it. *)
Definition close_listener (i : nat) (e : option Entry) : option Entry :=
  match e with
  | Some e => Some (mkEntry (en_meta e) (match en_listener e with
                                         | Some (Inst j) => if decide (i = j) then None else en_listener e
                                         | l => l
                                         end))
  | None => None
  end.

(** Holding the lock; serving connections. *)
Definition critical (pc : Pc) : bool := match pc with PStart | PFailed _ | PStopped => false | _ => true end.
Definition listening (pc : Pc) : bool := match pc with PBound | PServing _ | PClosing _ | PUnlink _ | PRelease => true | _ => false end.
(** In [bind], with the lock and without ownership. *)
Definition binding (pc : Pc) : bool :=
  match pc with PLocked | PProbe _ | PRecheck _ | PRemove _ | PFree | PBound => true | _ => false end.
Definition release (i : nat) (lock : option nat) : option nat := if decide (lock = Some i) then None else lock.

(** One system call of process [i], from [pc]: its new place, the path and the lock. *)
Inductive proc_step (i : nat) : Pc -> option Entry -> option nat -> Pc -> option Entry -> option nat -> Prop :=
| uds_lock e : proc_step i PStart e None PLocked e (Some i)
| uds_lock_busy e j err : try_lock_result None = Err err -> proc_step i PStart e (Some j) (PFailed err) e (Some j)
| uds_refused e lock err :
    (* the directory or the lock file is not acceptable, or cannot be opened *)
    proc_step i PStart e lock (PFailed err) e lock
| uds_inspect e lock found :
    inspect_path (lstat_path e) = Ok found ->
    proc_step i PLocked e lock (match found with None => PFree | Some meta => PProbe meta end) e lock
| uds_probe meta e lock p dead :
    connects e p -> probe_verdict p = Ok dead -> proc_step i (PProbe meta) e lock (if dead then PRecheck meta else PFree) e lock
| uds_recheck meta e lock : recheck meta (lstat_path e) = Ok tt -> proc_step i (PRecheck meta) e lock (PRemove meta) e lock
| uds_remove meta e lock : proc_step i (PRemove meta) e lock PFree None lock
| uds_bind dev ino lock : proc_step i PFree None lock PBound (Some (mkEntry (mkMeta Socket dev ino) (Some (Inst i)))) lock
| uds_own e lock : proc_step i PBound (Some e) lock (PServing (en_meta e)) (Some e) lock
| uds_stop meta e lock : proc_step i (PServing meta) e lock (PClosing meta) (close_listener i e) lock
| uds_permissions_failed meta e lock :
    (* the last call of [bind] fails: ownership is dropped before the listener *)
    proc_step i (PServing meta) e lock (PClosing meta) e lock
| uds_drop meta e lock :
    proc_step i (PClosing meta) e lock (if drop_removes meta (lstat_path e) then PUnlink meta else PRelease) e lock
| uds_unlink meta e lock : proc_step i (PUnlink meta) e lock PRelease None lock
| uds_unlink_failed meta e lock : proc_step i (PUnlink meta) e lock PRelease e lock
| uds_release e lock : proc_step i PRelease e lock PStopped (close_listener i e) (release i lock)
| uds_error pc e lock err :
    (* a call of [bind] fails: listener and lock file are closed *)
    binding pc = true -> proc_step i pc e lock (PFailed err) (close_listener i e) (release i lock)
| uds_crash pc e lock : proc_step i pc e lock PStopped (close_listener i e) (release i lock)
| uds_again pc e lock : critical pc = false -> proc_step i pc e lock PStart e lock.

Inductive uds_step : Sys -> Sys -> Prop :=
| step_proc s i pc pc' e' lock' :
    s_procs s !! i = Some pc -> proc_step i pc (s_path s) (s_lock s) pc' e' lock' ->
    uds_step s (mkSys e' lock' (<[i := pc']> (s_procs s)))
| step_foreign_dies s meta :
    s_path s = Some (mkEntry meta (Some Foreign)) ->
    uds_step s (mkSys (Some (mkEntry meta None)) (s_lock s) (s_procs s)).

(** Any number of processes, and whatever was at the path before them. *)
Definition uds_start (path : option Meta) (alive : bool) (n : nat) : Sys :=
  mkSys ((fun meta => mkEntry meta (if alive then Some Foreign else None)) <$> path) None (replicate n PStart).

(** ** Invariant *)

(** What holds of the path where a process is in its critical section. *)
Definition pc_ok (i : nat) (pc : Pc) (e : option Entry) : Prop :=
  match pc with
  | PStart | PFailed _ | PStopped => True
  | PLocked => forall x, e = Some x -> en_listener x <> Some (Inst i)
  | PProbe meta => exists l, e = Some (mkEntry meta l) /\ m_kind meta = Socket /\ l <> Some (Inst i)
  | PRecheck meta | PRemove meta => e = Some (mkEntry meta None) /\ m_kind meta = Socket
  | PFree => e = None
  | PBound => exists meta, e = Some (mkEntry meta (Some (Inst i))) /\ m_kind meta = Socket
  | PServing meta => e = Some (mkEntry meta (Some (Inst i))) /\ m_kind meta = Socket
  | PClosing meta | PUnlink meta => (e = Some (mkEntry meta None) \/ e = Some (mkEntry meta (Some (Inst i)))) /\ m_kind meta = Socket
  | PRelease => forall x, e = Some x -> en_listener x = None \/ en_listener x = Some (Inst i)
  end.

Record uds_inv (s : Sys) : Prop := {
  ui_critical : forall i pc, s_procs s !! i = Some pc -> critical pc = true -> s_lock s = Some i /\ pc_ok i pc (s_path s);
  ui_holder : forall i, s_lock s = Some i -> exists pc, s_procs s !! i = Some pc /\ critical pc = true;
  ui_listener : forall i x, s_path s = Some x -> en_listener x = Some (Inst i) -> exists pc, s_procs s !! i = Some pc /\ listening pc = true
}.

(** No process but [i] listens. *)
Definition only (i : nat) (e : option Entry) : Prop := forall x j, e = Some x -> en_listener x = Some (Inst j) -> j = i.

Lemma listening_critical pc : listening pc = true -> critical pc = true.
Proof. by destruct pc. Qed.

(** A process that may hold the lock moves within its critical section. *)
Lemma inv_inside s i pc pc' e' :
  uds_inv s -> s_procs s !! i = Some pc -> s_lock s = None \/ s_lock s = Some i -> critical pc' = true -> pc_ok i pc' e' ->
  (forall x j, e' = Some x -> en_listener x = Some (Inst j) -> j = i /\ listening pc' = true) ->
  uds_inv (mkSys e' (Some i) (<[i := pc']> (s_procs s))).
Proof.
  intros [Hc Hh Hl] Hi Hlock Hcrit Hok Hlis. assert (Hlt : (i < length (s_procs s))%nat) by (by eapply lookup_lt_Some).
  constructor; cbn [s_path s_lock s_procs].
  - intros j pcj [(<- & <- & _)|[Hne Hj]]%list_lookup_insert_Some Hcj; [done|].
    destruct (Hc j pcj Hj Hcj) as [Hlj _]. destruct Hlock; congruence.
  - intros j [= <-]. exists pc'. by rewrite list_lookup_insert_eq.
  - intros j x Hx Hj. destruct (Hlis x j Hx Hj) as [-> Hlp]. exists pc'. by rewrite list_lookup_insert_eq.
Qed.

(** It leaves the critical section, or never was in it. *)
Lemma inv_outside s i pc pc' e' :
  uds_inv s -> s_procs s !! i = Some pc -> s_lock s = None \/ s_lock s = Some i -> critical pc' = false ->
  (forall x j, e' = Some x -> en_listener x <> Some (Inst j)) ->
  uds_inv (mkSys e' None (<[i := pc']> (s_procs s))).
Proof.
  intros [Hc Hh Hl] Hi Hlock Hcrit Hlis. constructor; cbn [s_path s_lock s_procs].
  - intros j pcj [(<- & <- & _)|[Hne Hj]]%list_lookup_insert_Some Hcj; [congruence|].
    destruct (Hc j pcj Hj Hcj) as [Hlj _]. destruct Hlock; congruence.
  - done.
  - intros j x Hx Hj. by destruct (Hlis x j Hx).
Qed.

Lemma inv_idle s i pc pc' :
  uds_inv s -> s_procs s !! i = Some pc -> critical pc = false -> critical pc' = false ->
  uds_inv (mkSys (s_path s) (s_lock s) (<[i := pc']> (s_procs s))).
Proof.
  intros [Hc Hh Hl] Hi Hcrit Hcrit'. constructor; cbn [s_path s_lock s_procs].
  - intros j pcj [(<- & <- & _)|[Hne Hj]]%list_lookup_insert_Some Hcj; [congruence|]. by apply Hc.
  - intros j Hj. destruct (Hh j Hj) as (pcj & Hpj & Hcj). exists pcj. split; [|done].
    rewrite list_lookup_insert_ne; [done|]. intros ->. congruence.
  - intros j x Hx Hj. destruct (Hl j x Hx Hj) as (pcj & Hpj & Hlj). exists pcj. split; [|done].
    rewrite list_lookup_insert_ne; [done|]. intros ->. apply listening_critical in Hlj. congruence.
Qed.

Lemma close_only i e x j : only i e -> close_listener i e = Some x -> en_listener x <> Some (Inst j).
Proof.
  intros Ho. destruct e as [[meta l]|]; [|done]. simpl. intros [= <-]. simpl. destruct l as [[k|]|]; [|done|done].
  destruct (decide (i = k)) as [->|Hne]; [done|]. intros _. apply Hne. symmetry. by apply (Ho (mkEntry meta (Some (Inst k)))).
Qed.

Lemma inv_only s i pc : uds_inv s -> s_procs s !! i = Some pc -> s_lock s = None \/ s_lock s = Some i -> only i (s_path s).
Proof.
  intros Hinv Hi Hlock x j Hx Hj. destruct (ui_listener _ Hinv j x Hx Hj) as (pcj & Hpj & Hlj%listening_critical).
  destruct (ui_critical _ Hinv j pcj Hpj Hlj) as [Hlk _]. destruct Hlock; congruence.
Qed.

Lemma release_own i : release i (Some i) = None.
Proof. unfold release. by rewrite decide_True. Qed.

(** Nothing of the process is at the path. *)
Lemma close_other i e : (forall x, e = Some x -> en_listener x <> Some (Inst i)) -> close_listener i e = e.
Proof.
  intros Hn. destruct e as [[meta [[k|]|]]|]; try done. simpl. destruct (decide (i = k)) as [->|]; [|done].
  by destruct (Hn (mkEntry meta (Some (Inst k)))).
Qed.

Lemma connects_refused e : connects e (ProbeFailed ConnectionRefused) -> exists meta, e = Some (mkEntry meta None).
Proof. destruct e as [[meta [l|]]|]; simpl; [by intros [? _]|eauto|done]. Qed.

(** A call of a process that holds the lock, where it stays in its critical section. *)
Lemma proc_step_inside i pc e lock pc' e' lock' :
  proc_step i pc e lock pc' e' lock' -> critical pc = true -> critical pc' = true -> pc_ok i pc e -> only i e ->
  lock' = lock /\ pc_ok i pc' e' /\ (forall x j, e' = Some x -> en_listener x = Some (Inst j) -> j = i /\ listening pc' = true).
Proof.
  intros Hs Hc Hc' Hok Ho. unfold only in Ho. destruct Hs; try done; (split; [done|]).
  - (* inspect *)
    destruct e as [[meta l]|]; simpl in H; [|simplify_eq; done]. unfold is_socket in H.
    destruct (bool_decide _) eqn:Hk; simplify_eq. apply bool_decide_eq_true in Hk. simpl in Hok |- *. split.
    + exists l. split_and!; [done|done|]. by apply (Hok (mkEntry meta l)).
    + intros x j [= <-] Hj. simpl in Hj. subst l. assert (j = i) as -> by (by eapply Ho). by destruct (Hok (mkEntry meta (Some (Inst i)))).
  - (* probe *)
    destruct Hok as (l & -> & Hk & Hl). destruct p as [| |err]; try done. destruct err; simplify_eq/=.
    + by destruct l; destruct H as [_ []].
    + destruct l; [by destruct H as [[] _]|]. split; [done|]. by intros x j [= <-].
  - destruct Hok as [-> Hk]. split; [done|]. by intros x j [= <-].
  - split; [by eexists|]. intros x j [= <-] [= <-]. done.
  - destruct Hok as (meta & [= ->] & Hk). simpl. split; [done|]. intros x j [= <-] [= <-]. done.
  - destruct Hok as [-> Hk]. simpl. rewrite decide_True by done. split; [split; [by left|done]|]. by intros x j [= <-].
  - destruct Hok as [-> Hk]. simpl. split; [split; [by right|done]|]. intros x j [= <-] [= <-]. done.
  - destruct Hok as [He Hk]. unfold drop_removes. destruct He as [-> | ->]; simpl; destruct (is_socket meta && same_file meta meta); simpl;
      (split; [first [by split; auto|intros x [= <-]; auto]|]); intros x j [= <-]; simpl; [done..|intros [= <-]; done|intros [= <-]; done].
  - destruct Hok as [He _]. split; [intros x Hx; destruct He as [He|He]; rewrite He in Hx; injection Hx as <-; auto|].
    intros x j Hx Hj. split; [by eapply Ho|done].
Qed.

(** Outside of its critical section, or leaving it. *)
Lemma proc_step_outside i pc e lock pc' e' lock' :
  proc_step i pc e lock pc' e' lock' -> critical pc' = false ->
  (critical pc = false -> lock <> Some i -> (forall x, e = Some x -> en_listener x <> Some (Inst i)) -> e' = e /\ lock' = lock) /\
  (critical pc = true -> lock = Some i -> only i e -> lock' = None /\ forall x j, e' = Some x -> en_listener x <> Some (Inst j)).
Proof.
  intros Hs Hc'. split.
  - intros Hc Hl He. destruct Hs; try done.
    + by destruct pc.
    + split; [by apply close_other|]. unfold release. by rewrite decide_False.
  - intros Hc Hl Ho. destruct Hs; try done; simpl in *; try congruence; subst lock.
    + by destruct found.
    + by destruct dead.
    + by destruct (drop_removes _ _).
    + split; [apply release_own|]. intros x j. by apply close_only.
    + split; [apply release_own|]. intros x j. by apply close_only.
    + split; [apply release_own|]. intros x j. by apply close_only.
Qed.

Lemma proc_step_enter i pc e lock pc' e' lock' :
  proc_step i pc e lock pc' e' lock' -> critical pc = false -> critical pc' = true ->
  pc' = PLocked /\ e' = e /\ lock = None /\ lock' = Some i.
Proof. intros Hs Hc Hc'. destruct Hs; try done. Qed.

Lemma pc_ok_foreign_dies i pc meta :
  critical pc = true -> pc_ok i pc (Some (mkEntry meta (Some Foreign))) -> pc_ok i pc (Some (mkEntry meta None)).
Proof.
  intros Hc. destruct pc; simpl; try done.
  - intros _. by intros x [= <-].
  - intros (l & [= <- <-] & Hk & _). by exists None.
  - by intros [[= ->] _].
  - by intros [[= ->] _].
  - by intros (? & [= ->] & _).
  - by intros [[= ->] _].
  - by intros [[[= ->]|[= ->]] _].
  - by intros [[[= ->]|[= ->]] _].
  - intros _ x [= <-]. by left.
Qed.

Lemma uds_step_inv s s' : uds_step s s' -> uds_inv s -> uds_inv s'.
Proof.
  intros Hs Hinv. destruct Hs as [s i pc pc' e' lock' Hi Hp|s meta Hpath].
  - assert (Hmine : critical pc = true -> s_lock s = Some i /\ pc_ok i pc (s_path s)) by (by apply (ui_critical _ Hinv)).
    assert (Hnot : critical pc = false -> s_lock s <> Some i).
    { intros Hc Hl. destruct (ui_holder _ Hinv i Hl) as (pc1 & H1 & H2). congruence. }
    destruct (critical pc) eqn:Hc.
    + destruct Hmine as [Hlock Hok]; [done|]. assert (Ho : only i (s_path s)) by (eapply inv_only; eauto).
      destruct (critical pc') eqn:Hc'.
      * destruct (proc_step_inside _ _ _ _ _ _ _ Hp Hc Hc' Hok Ho) as (-> & Hok' & Hlis). rewrite Hlock.
        eapply inv_inside; eauto.
      * destruct (proc_step_outside _ _ _ _ _ _ _ Hp Hc') as [_ [-> Hnone]]; [done|done|done|]. eapply inv_outside; eauto.
    + assert (Hfree : forall x, s_path s = Some x -> en_listener x <> Some (Inst i)).
      { intros x Hx Hl. destruct (ui_listener _ Hinv i x Hx Hl) as (pc1 & H1 & H2%listening_critical). congruence. }
      destruct (critical pc') eqn:Hc'.
      * destruct (proc_step_enter _ _ _ _ _ _ _ Hp Hc Hc') as (-> & -> & Hl & ->).
        eapply inv_inside; [done|done|by left|done|exact Hfree|]. intros x j Hx Hj.
        assert (j = i) as -> by (eapply inv_only; eauto). by destruct (Hfree x Hx).
      * destruct (proc_step_outside _ _ _ _ _ _ _ Hp Hc') as [[-> ->] _]; [by auto..|]. by eapply inv_idle.
  - destruct Hinv as [Hc Hh Hl]. rewrite Hpath in *. constructor; cbn [s_path s_lock s_procs].
    + intros i pc Hi Hcrit. destruct (Hc i pc Hi Hcrit). split; [done|]. by apply pc_ok_foreign_dies.
    + done.
    + by intros i x [= <-].
Qed.

Lemma uds_reach_inv path alive n s : rtc uds_step (uds_start path alive n) s -> uds_inv s.
Proof.
  intros Hr. assert (H0 : uds_inv (uds_start path alive n)).
  { constructor; simpl.
    - intros i pc [-> _]%lookup_replicate_1. done.
    - done.
    - intros i x Hx. destruct path; simpl in Hx; simplify_eq. by destruct alive. }
  revert H0. induction Hr as [|s1 s2 s3 Hs Hr IH]; [done|]. intros H0. by apply IH, (uds_step_inv s1).
Qed.

(** ** Ownership *)

(** A call that changes what is at the path, other than closing a listener. *)
Lemma proc_step_removes i pc e lock pc' e' lock' :
  proc_step i pc e lock pc' e' lock' -> critical pc = true -> pc_ok i pc e ->
  (en_meta <$> e') <> (en_meta <$> e) ->
  (e = None /\ exists meta, e' = Some (mkEntry meta (Some (Inst i))) /\ m_kind meta = Socket) \/
  (e' = None /\ exists x, e = Some x /\ m_kind (en_meta x) = Socket /\ (en_listener x = None \/ en_listener x = Some (Inst i))).
Proof.
  intros Hs Hc Hok Hne.
  assert (Hclose : forall e, en_meta <$> close_listener i e = en_meta <$> e) by (by intros [[]|]).
  destruct Hs; try done; try (by rewrite Hclose in Hne).
  - right. destruct Hok as [-> Hk]. split; [done|]. eexists. split_and!; [done|done|by left].
  - left. split; [done|]. by eexists.
  - right. destruct Hok as [He Hk]. split; [done|]. destruct He as [-> | ->]; eexists; split_and!; try done; auto.
Qed.

Lemma proc_step_removes_own i pc e lock pc' lock' :
  proc_step i pc (Some e) lock pc' None lock' -> critical pc = true -> pc_ok i pc (Some e) -> en_listener e = Some (Inst i) ->
  exists m, pc = PUnlink m /\ pc' = PRelease.
Proof.
  intros Hs Hc Hok Hl. inversion Hs; subst; try done; [|eauto]. by destruct Hok as [[= ->] _].
Qed.

Lemma step_of s i pc pc' e' lock' :
  s_procs s !! i = Some pc -> proc_step i pc (s_path s) (s_lock s) pc' e' lock' ->
  uds_step s (mkSys e' lock' (<[i := pc']> (s_procs s))).
Proof. intros. by eapply step_proc. Qed.

(** The path is free, or holds a socket that nobody listens on. *)
Definition available (e : option Entry) : Prop := forall x, e = Some x -> m_kind (en_meta x) = Socket /\ en_listener x = None.

Lemma bind_free s i : s_procs s !! i = Some PFree -> s_path s = None -> s_lock s = Some i ->
  exists s' meta, rtc uds_step s s' /\ s_procs s' !! i = Some (PServing meta) /\ s_path s' = Some (mkEntry meta (Some (Inst i))).
Proof.
  intros Hi Hp Hl. assert (Hlt : (i < length (s_procs s))%nat) by (by eapply lookup_lt_Some).
  set (meta := mkMeta Socket 0 0). set (e := Some (mkEntry meta (Some (Inst i)))).
  exists (mkSys e (Some i) (<[i := PServing meta]> (<[i := PBound]> (s_procs s)))), meta. split_and!; [|simpl; rewrite list_lookup_insert_eq; [done|by rewrite length_insert]|done].
  eapply rtc_l. { eapply (step_of s i PFree PBound e (Some i)); [done|]. rewrite Hp, Hl. constructor. }
  apply rtc_once. eapply (step_of (mkSys _ _ _) i PBound (PServing meta) e (Some i)); simpl; [by rewrite list_lookup_insert_eq|]. constructor.
Qed.

Lemma start_available s i :
  s_procs s !! i = Some PStart -> available (s_path s) -> s_lock s = None ->
  exists s' meta, rtc uds_step s s' /\ s_procs s' !! i = Some (PServing meta) /\ s_path s' = Some (mkEntry meta (Some (Inst i))).
Proof.
  intros Hi Ha Hl. assert (Hlt : (i < length (s_procs s))%nat) by (by eapply lookup_lt_Some).
  destruct (s_path s) as [[meta l]|] eqn:Hp.
  - destruct (Ha _ eq_refl) as [Hk Hn]. simpl in Hk, Hn. subst l. set (e := Some (mkEntry meta None)).
    destruct (bind_free (mkSys None (Some i) (<[i := PFree]> (<[i := PRemove meta]> (<[i := PRecheck meta]> (<[i := PProbe meta]> (<[i := PLocked]> (s_procs s))))))) i)
      as (s' & m & Hrun & Hs); [by simpl; rewrite list_lookup_insert_eq by (by rewrite !length_insert)|done|done|].
    exists s', m. split; [|done].
    eapply rtc_l. { eapply (step_of s i PStart PLocked e (Some i)); [done|]. rewrite Hp, Hl. constructor. }
    eapply rtc_l. { eapply (step_of (mkSys _ _ _) i PLocked (PProbe meta) e (Some i)); simpl; [by rewrite list_lookup_insert_eq|].
      apply (uds_inspect i e (Some i) (Some meta)). simpl. unfold is_socket. by rewrite bool_decide_eq_true_2. }
    eapply rtc_l. { eapply (step_of (mkSys _ _ _) i (PProbe meta) (PRecheck meta) e (Some i)); simpl; [by rewrite list_lookup_insert_eq by (by rewrite length_insert)|].
      by apply (uds_probe i meta e (Some i) (ProbeFailed ConnectionRefused) true). }
    eapply rtc_l. { eapply (step_of (mkSys _ _ _) i (PRecheck meta) (PRemove meta) e (Some i)); simpl; [by rewrite list_lookup_insert_eq by (by rewrite !length_insert)|].
      apply uds_recheck. simpl. unfold same_file. by rewrite !N.eqb_refl. }
    eapply rtc_l. { eapply (step_of (mkSys _ _ _) i (PRemove meta) PFree None (Some i)); simpl; [by rewrite list_lookup_insert_eq by (by rewrite !length_insert)|]. constructor. }
    exact Hrun.
  - destruct (bind_free (mkSys None (Some i) (<[i := PFree]> (<[i := PLocked]> (s_procs s)))) i) as (s' & m & Hrun & Hs);
      [by simpl; rewrite list_lookup_insert_eq by (by rewrite length_insert)|done|done|].
    exists s', m. split; [|done].
    eapply rtc_l. { eapply (step_of s i PStart PLocked None (Some i)); [done|]. rewrite Hp, Hl. constructor. }
    eapply rtc_l. { eapply (step_of (mkSys _ _ _) i PLocked PFree None (Some i)); simpl; [by rewrite list_lookup_insert_eq|]. by apply (uds_inspect i None (Some i) None). }
    exact Hrun.
Qed.

(** C14: one process at a time owns the control socket, and its socket stays.  However the
    processes interleave, crash and restart, at most one is serving, and as long as it
    serves the path leads to the very socket it listens on; nothing is ever removed
    from the path but a socket, and never one that another process or program accepts
    connections on; and when nobody holds the lock and the path is free or left over
    from a crash, a starting process can take it over. *)
Theorem control_socket_owned path alive n s :
  rtc uds_step (uds_start path alive n) s ->
  (forall i j m m', s_procs s !! i = Some (PServing m) -> s_procs s !! j = Some (PServing m') -> i = j) /\
  (forall i m, s_procs s !! i = Some (PServing m) -> s_path s = Some (mkEntry m (Some (Inst i)))) /\
  (forall s' x, uds_step s s' -> s_path s = Some x -> (en_meta <$> s_path s') <> Some (en_meta x) ->
    s_path s' = None /\ m_kind (en_meta x) = Socket /\
    forall who, en_listener x = Some who -> exists i m, who = Inst i /\ s_procs s !! i = Some (PUnlink m) /\ s_procs s' !! i = Some PRelease) /\
  (forall i, s_procs s !! i = Some PStart -> available (s_path s) -> s_lock s = None ->
    exists s' m, rtc uds_step s s' /\ s_procs s' !! i = Some (PServing m) /\ s_path s' = Some (mkEntry m (Some (Inst i)))).
Proof.
  intros Hinv%uds_reach_inv. split_and!.
  - intros i j m m' Hi Hj. destruct (ui_critical _ Hinv i _ Hi eq_refl) as [Hli _], (ui_critical _ Hinv j _ Hj eq_refl) as [Hlj _]. congruence.
  - intros i m Hi. by destruct (ui_critical _ Hinv i _ Hi eq_refl) as [_ [Hp _]].
  - intros s' x Hs Hx Hne. destruct Hs as [s i pc pc' e' lock' Hi Hp|s meta Hpath].
    + cbn [s_path s_procs] in *. rewrite Hx in Hp.
      assert (Hlt : (i < length (s_procs s))%nat) by (by eapply lookup_lt_Some).
      destruct (critical pc) eqn:Hc.
      * destruct (ui_critical _ Hinv i pc Hi Hc) as [_ Hok]. rewrite Hx in Hok.
        destruct (proc_step_removes _ _ _ _ _ _ _ Hp Hc Hok) as [[? _]|(-> & y & [= <-] & Hk & Hl)]; [done|done|].
        split_and!; [done|done|]. intros who Hwho. destruct Hl as [Hl|Hl]; [congruence|].
        exists i. rewrite Hwho in Hl. injection Hl as ->.
        destruct (proc_step_removes_own _ _ _ _ _ _ Hp Hc Hok Hwho) as (m & -> & ->).
        exists m. split_and!; [done|done|by rewrite list_lookup_insert_eq].
      * destruct (critical pc') eqn:Hc'.
        { destruct (proc_step_enter _ _ _ _ _ _ _ Hp Hc Hc') as (_ & -> & _). done. }
        destruct (proc_step_outside _ _ _ _ _ _ _ Hp Hc') as [[-> _] _]; [done| | |done].
        { intros Hl. destruct (ui_holder _ Hinv i Hl) as (pc1 & H1 & H2). congruence. }
        { intros y [= <-] Hl. destruct (ui_listener _ Hinv i x Hx Hl) as (pc1 & H1 & H2%listening_critical). congruence. }
    + simpl in Hne. rewrite Hpath in Hx. by injection Hx as <-.
  - intros i. apply start_available.
Qed.

Module UdsSample.
(** A socket left over from a crash, and two processes. *)
Definition stale : Meta := mkMeta Socket 8 7.
Definition sys0 : Sys := uds_start (Some stale) false 2.
End UdsSample.

Lemma control_socket_owned_witness :
  exists s' m, rtc uds_step UdsSample.sys0 s' /\ s_procs s' !! 1%nat = Some (PServing m) /\ s_path s' = Some (mkEntry m (Some (Inst 1))).
Proof.
  apply (control_socket_owned (Some UdsSample.stale) false 2 UdsSample.sys0); [apply rtc_refl|reflexivity| |reflexivity].
  intros x [= <-]. done.
Defined.

(** *** Who may reach it *)

Lemma land_zero_bits mode mask k : N.land mode mask = 0 -> N.testbit mask k = true -> N.testbit mode k = false.
Proof.
  intros Hz Hk. assert (N.testbit (N.land mode mask) k = false) as Hb by (rewrite Hz; apply N.bits_0).
  rewrite N.land_spec, Hk, andb_true_r in Hb. done.
Qed.

Lemma private_dir_spec uid d :
  private_dir uid d = true -> d_uid d = uid /\ forall k, k < 6 -> N.testbit (d_mode d) k = false.
Proof.
  unfold private_dir. intros [Hu%N.eqb_eq Hm%N.eqb_eq]%andb_true_iff. split; [done|]. intros k Hk.
  apply (land_zero_bits _ 63); [done|]. assert (k = 0 \/ k = 1 \/ k = 2 \/ k = 3 \/ k = 4 \/ k = 5) as Hcases by lia.
  by destruct Hcases as [->|[->|[->|[->|[->| ->]]]]].
Qed.

Lemma safe_ancestor_spec uid d :
  safe_ancestor uid d = true -> (d_uid d = uid \/ d_uid d = 0) /\
    (N.testbit (d_mode d) 9 = true \/ (N.testbit (d_mode d) 1 = false /\ N.testbit (d_mode d) 4 = false)).
Proof.
  unfold safe_ancestor. intros [Hu Hm]%andb_true_iff. split.
  - apply orb_true_iff in Hu as [Hu|Hu]; apply N.eqb_eq in Hu; auto.
  - apply orb_true_iff in Hm as [Hm|Hm]; [right|left].
    + apply N.eqb_eq in Hm. split; by apply (land_zero_bits _ 18).
    + destruct (N.testbit (d_mode d) 9) eqn:Hb; [done|]. assert (N.land (d_mode d) 512 = 0) as Hz; [|by rewrite Hz in Hm].
      apply N.bits_inj. intros k. change 512 with (2 ^ 9). rewrite N.land_spec, N.pow2_bits_eqb, N.bits_0.
      destruct (N.eqb_spec 9 k) as [<-|]; [by rewrite Hb|apply andb_false_r].
Qed.

Lemma try_fold_unit {E A} (f : A -> result E unit) l : try_fold (fun _ x => f x) tt l = Ok tt -> Forall (fun x => f x = Ok tt) l.
Proof. induction l as [|x l IH]; cbn [try_fold]; intros Hl; [constructor|]. apply bind_Ok_inv in Hl as ([] & Hx & Hl). auto. Qed.

(** The directory of an accepted path belongs to the process's user and gives no
    permission to anyone else, and no other user can rename it away: every ancestor
    belongs to that user or to root and is not writable by others unless sticky. *)
Theorem private_socket_path_private uid name parent ancestors metadata path :
  private_socket_path uid name parent ancestors metadata = Ok path ->
  exists dir file meta, parent = Ok dir /\ name = Some file /\ path = dir +:+ "/" +:+ file /\ metadata dir = Ok meta /\
    d_uid meta = uid /\ (forall k, k < 6 -> N.testbit (d_mode meta) k = false) /\
    forall a, a ∈ ancestors dir -> exists m, metadata a = Ok m /\ (d_uid m = uid \/ d_uid m = 0) /\
      (N.testbit (d_mode m) 9 = true \/ (N.testbit (d_mode m) 1 = false /\ N.testbit (d_mode m) 4 = false)).
Proof.
  unfold private_socket_path. intros H. inv_ok.
  apply negb_false_iff, private_dir_spec in Hok2 as [Hu Hbits]. exists a0, a, a1. split_and!; try done.
  intros x Hx. apply try_fold_unit in Hok3. eapply Forall_forall in Hok3; [|done]. inv_ok. exists a2.
  split; [done|]. apply negb_false_iff, safe_ancestor_spec in Hok3. done.
Qed.
