(* ===== verification/Crates.v ===== *)
(** * Third-party crates

    What the source uses of the crates it does not contain, as an interface: the
    types and functions are fields of a class, and every definition that uses
    one takes the class as an argument.  Documented laws that a theorem relies
    on are classes of their own, named where they are used. *)

From S2P Require Import Prelude RustStr NetAddr.

Open Scope N_scope.

(** What [#[derive(Serialize)]] gives for the configuration structs: objects with
    their fields in order, integers, strings, booleans and lists. *)
Inductive Json :=
| JNull
| JBool (b : bool)
| JInt (z : Z)
| JString (s : string)
| JArray (l : list Json)
| JObject (fields : list (string * Json)).

Class Crates := {
  (** [url::Url] *)
  Url : Type;
  url_eq_dec :: EqDecision Url;
  url_parse : string -> result string Url;
  (** [{:?}] of the error [url_parse] prints with [{}] *)
  url_error_debug : string -> string;
  url_scheme : Url -> string;
  url_host_str : Url -> option string;
  url_port : Url -> option N;
  url_port_or_known_default : Url -> option N;
  url_username : Url -> string;
  url_password : Url -> option string;
  url_path : Url -> string;
  url_query : Url -> option string;
  url_fragment : Url -> option string;
  url_cannot_be_a_base : Url -> bool;
  url_to_string : Url -> string;
  (** [ipnet::IpNet] *)
  IpNet : Type;
  ipnet_eq_dec :: EqDecision IpNet;
  ipnet_parse : string -> option IpNet;
  ipnet_from : IpAddr -> IpNet;
  ipnet_contains : IpNet -> IpAddr -> bool;
  ipnet_to_string : IpNet -> string;
  (** [regex::RegexBuilder]: building a pattern, matching it *)
  regex_build : string -> bool -> result string unit;
  regex_is_match : string -> bool -> string -> bool;
  (** [http]: [HeaderName::from_bytes] (with [as_str]), [HeaderValue::from_str]
      and [to_str], [Method::from_bytes], [PathAndQuery] and [Authority] parsing *)
  header_name_from : string -> option string;
  header_value_ok : string -> bool;
  header_to_str : string -> option string;
  method_ok : string -> bool;
  path_and_query_ok : string -> bool;
  authority_host : string -> option string;
  (** [http::Uri] *)
  Uri : Type;
  uri_parse : string -> result string Uri;
  uri_path : Uri -> string;
  uri_query : Uri -> option string;
  uri_scheme_str : Uri -> option string;
  uri_authority : Uri -> option string;
  uri_host : Uri -> option string;
  uri_path_and_query : Uri -> option string;
  uri_to_string : Uri -> string;
  (** [url::form_urlencoded::parse] *)
  form_urlencoded : string -> list (string * string);
  (** [serde_json::Value], [serde_json::to_value], [from_str] and [to_string] *)
  Value : Type;
  value_eq_dec :: EqDecision Value;
  to_value : Json -> Value;
  json_from_str : string -> result string Value;
  json_to_string : Value -> result string string
}.

(** An address or a network, as [set_real_ip_from], [allow], [deny] and
    [trusted_proxy] accept it. *)
Definition parse_network `{Crates} (s : string) : option IpNet :=
  match ipnet_parse s with
  | Some n => Some n
  | None => ipnet_from <$> parse_ip s
  end.

(** Documented behaviour of [IpNet]: the network of an address holds that address
    and no other. *)
Class IpNetLaws `{Crates} := {
  ipnet_contains_from : forall a b, ipnet_contains (ipnet_from a) b = bool_decide (a = b)
}.

Definition http_scheme (s : string) : Prop := s = "http" \/ s = "https".

(** Documented behaviour that exporting and reading back a snapshot relies on: a
    network prints as what parses to it and [all] is no network; the text of a header
    name is that header name; the scheme, host and port of an HTTP URL make up a URL
    with the same ones, whose port is left out when it is the scheme's default, as in
    every URL; no URL is empty; the text of an HTTP URL without query and fragment ends
    with its path and parses to that URL, also without the slash that is its whole path;
    a path stays valid without a final slash. *)
Class WireLaws `{Crates} := {
  ipnet_parse_to_string : forall n, ipnet_parse (ipnet_to_string n) = Some n;
  ipnet_parse_all : ipnet_parse "all" = None;
  header_name_from_idemp : forall s t, header_name_from s = Some t -> header_name_from t = Some t;
  url_parse_authority : forall s u h p, url_parse s = Ok u -> http_scheme (url_scheme u) ->
    url_host_str u = Some h -> url_port_or_known_default u = Some p ->
    is_empty (trim h) = false /\ p <= u16_max /\
    exists u', url_parse (url_scheme u +:+ "://" +:+ h +:+ ":" +:+ pretty p) = Ok u' /\
      url_scheme u' = url_scheme u /\ url_host_str u' = Some h /\ url_port_or_known_default u' = Some p /\ url_port u' = url_port u;
  url_parse_root : forall s u, url_parse s = Ok u -> http_scheme (url_scheme u) -> url_path u = "/" \/ ends_with "/" (url_path u) = false ->
    url_query u = None -> url_fragment u = None ->
    let text := trim_end_matches "/" (url_to_string u) in trim text = text /\ url_parse text = Ok u;
  url_parse_nonempty : forall s u, url_parse s = Ok u -> is_empty s = false;
  path_and_query_ok_front : forall p, is_empty p = false -> path_and_query_ok (p +:+ "/") = true -> path_and_query_ok p = true
}.

#[global] Instance json_eq_dec : EqDecision Json.
Proof.
  unfold EqDecision, Decision. fix go 1. intros a b.
  destruct a as [|b1|z1|s1|l1|f1], b as [|b2|z2|s2|l2|f2]; try (right; congruence); try (by left).
  - destruct (decide (b1 = b2)); [left; congruence|right; congruence].
  - destruct (decide (z1 = z2)); [left; congruence|right; congruence].
  - destruct (decide (s1 = s2)); [left; congruence|right; congruence].
  - cut ({l1 = l2} + {l1 <> l2}); [intros []; [left; congruence|right; congruence]|].
    revert l2. induction l1 as [|x l1 IH]; intros [|y l2]; try (by left); try (by right).
    destruct (go x y), (IH l2); [left; congruence|right; congruence|right; congruence|right; congruence].
  - cut ({f1 = f2} + {f1 <> f2}); [intros []; [left; congruence|right; congruence]|].
    revert f2. induction f1 as [|[s x] f1 IH]; intros [|[t y] f2]; try (by left); try (by right).
    destruct (decide (s = t)); [|right; congruence].
    destruct (go x y), (IH f2); [left; congruence|right; congruence|right; congruence|right; congruence].
Defined.

(** ** A concrete instance

    Simple stand-ins that satisfy the laws, for evaluating the model.  A network
    is one address, a regex matches its own text as a substring. *)
Module Toy.

Record uri := mkUri { u_path : string; u_query : option string }.

Definition parse_uri (s : string) : uri :=
  match split_once "?" s with
  | Some (p, q) => mkUri p (Some q)
  | None => mkUri s None
  end.
Definition uri_text (u : uri) : string :=
  u_path u +:+ match u_query u with Some q => "?" +:+ q | None => "" end.

Record url := mkUrl { t_scheme : string; t_host : string; t_port : option N; t_path : string }.

#[global] Instance url_dec : EqDecision url.
Proof. solve_decision. Defined.

Definition split_host_port (authority : string) : string * option N :=
  match rsplit_once ":" authority with
  | Some (h, p) => (h, parse_uint u16_max p)
  | None => (authority, None)
  end.
Definition known_port (scheme : string) : N := if String.eqb scheme "https" then 443 else 80.
(** A default port is left out. *)
Definition keep_port (scheme : string) (p : option N) : option N :=
  match p with Some n => if n =? known_port scheme then None else Some n | None => None end.
Definition host_ok (h : string) : bool := negb (is_empty h) && str_all (in_range 33 126) h && negb (contains_char ":" h).
Definition build_url (scheme authority path : string) : result string url :=
  let '(h, p) := split_host_port authority in
  if negb (host_ok h) || negb (str_all (in_range 33 126) path) then Err "invalid host"
  else if contains_char ":" authority && is_none p then Err "invalid port number"
  else Ok (mkUrl scheme h (keep_port scheme p) path).
Definition parse_rest (scheme rest : string) : result string url :=
  match split_at_first (char_eqb "/") rest with
  | Some (authority, path) => build_url scheme authority path
  | None => build_url scheme rest "/"
  end.
Definition parse_url (s : string) : result string url :=
  match strip_prefix "http://" s with
  | Some r => parse_rest "http" r
  | None => match strip_prefix "https://" s with
            | Some r => parse_rest "https" r
            | None => Err "relative URL without a base"
            end
  end.
Definition default_port (u : url) : option N :=
  match t_port u with
  | Some p => Some p
  | None => Some (known_port (t_scheme u))
  end.

Definition url_text (u : url) : string :=
  t_scheme u +:+ "://" +:+ t_host u +:+ match t_port u with Some p => ":" +:+ pretty p | None => "" end +:+ t_path u.

(** A network is one address, printed as the bits of its code. *)
Fixpoint bits_text (p : positive) : string :=
  match p with xH => "#" | xO p' => String "0" (bits_text p') | xI p' => String "1" (bits_text p') end.
Fixpoint parse_bits (s : string) : option positive :=
  match s with
  | EmptyString => None
  | String c s' =>
      if char_eqb "#" c then (if is_empty s' then Some xH else None)
      else if char_eqb "0" c then xO <$> parse_bits s'
      else if char_eqb "1" c then xI <$> parse_bits s'
      else None
  end.
Definition net_text (a : IpAddr) : string := bits_text (encode a).
Definition parse_net (s : string) : option IpAddr := parse_bits s ≫= decode.

(** JSON with [null] and strings only. *)
Definition json_text (j : Json) : result string string :=
  match j with JNull => Ok "null" | JString s => Ok (String "'" s) | _ => Err "unsupported" end.
Definition parse_json (s : string) : result string Json :=
  match s with
  | String "'" s' => Ok (JString s')
  | _ => if String.eqb s "null" then Ok JNull else Err "expected value"
  end.

Definition token_char (c : ascii) : bool := is_ascii_alphanumeric c || contains_any "-_" (String c "").
Definition token (s : string) : bool := negb (is_empty s) && str_all token_char s.
Definition header (s : string) : option string := if token s then Some (to_ascii_lowercase s) else None.
Definition visible (c : ascii) : bool := in_range 32 126 c.

#[export] Instance crates : Crates := {|
  Url := url; url_parse := parse_url; url_error_debug e := e; url_scheme := t_scheme;
  url_host_str u := Some (t_host u); url_port := t_port; url_port_or_known_default := default_port;
  url_username _ := ""; url_password _ := None; url_path := t_path;
  url_query _ := None; url_fragment _ := None; url_cannot_be_a_base _ := false; url_to_string := url_text;
  IpNet := IpAddr; ipnet_parse := parse_net; ipnet_from a := a;
  ipnet_contains n a := bool_decide (n = a); ipnet_to_string := net_text;
  regex_build _ _ := Ok tt; regex_is_match p _ s := contains_str p s;
  header_name_from := header; header_value_ok s := str_all visible s;
  header_to_str s := then_some (str_all visible s) s;
  method_ok := token; path_and_query_ok s := str_all visible s;
  authority_host s := if is_empty s then None else Some (fst (split_host_port s));
  Uri := uri; uri_parse s := Ok (parse_uri s); uri_path := u_path; uri_query := u_query;
  uri_scheme_str _ := None; uri_authority _ := None; uri_host _ := None;
  uri_path_and_query u := Some (uri_text u); uri_to_string := uri_text;
  form_urlencoded _ := []; Value := Json; to_value j := j;
  json_from_str := parse_json; json_to_string := json_text
|}.

#[export] Instance ipnet_laws : @IpNetLaws crates.
Proof.
  by constructor.
Qed.

Lemma token_lower s : token (to_ascii_lowercase s) = token s.
Proof.
  unfold token. assert (is_empty (to_ascii_lowercase s) = is_empty s) as -> by by destruct s. f_equal.
  induction s as [|a s IH]; simpl; [done|]. f_equal; [|done]. destruct a as [[] [] [] [] [] [] [] []]; reflexivity.
Qed.

Lemma parse_bits_text p : parse_bits (bits_text p) = Some p.
Proof. induction p as [p IH|p IH|]; simpl; [by rewrite IH|by rewrite IH|done]. Qed.

Lemma split_at_first_absent f s : str_all (fun c => negb (f c)) s = true -> split_at_first f s = None.
Proof. induction s as [|a s IH]; simpl; [done|]. rewrite andb_true_iff. intros [Ha Hs]. destruct (f a); [done|]. by rewrite IH. Qed.
Lemma split_at_first_front f s :
  str_all (fun c => negb (f c)) (match split_at_first f s with Some (a, _) => a | None => s end) = true.
Proof.
  induction s as [|a s IH]; simpl; [done|]. destruct (f a) eqn:E; [done|].
  destruct (split_at_first f s) as [[b r]|]; simpl; by rewrite E.
Qed.

Lemma rsplit_once_app c h r :
  str_all (fun a => negb (char_eqb c a)) r = true -> rsplit_once c (h +:+ String c r) = Some (h, r).
Proof.
  assert (forall r, str_all (fun a => negb (char_eqb c a)) r = true -> rsplit_once c r = None) as Hn.
  { clear. induction r as [|a r IH]; simpl; [done|]. rewrite andb_true_iff. intros [Ha Hr]. rewrite IH by done.
    destruct (Ascii.eqb_spec c a), (Ascii.eqb_spec a c); simpl in *; congruence. }
  intros Hr. induction h as [|a h IH]; simpl; [|by rewrite IH].
  rewrite Hn by done. by rewrite Ascii.eqb_refl.
Qed.
Lemma rsplit_once_Some c s h r : rsplit_once c s = Some (h, r) -> s = h +:+ String c r.
Proof.
  revert h r. induction s as [|a s IH]; simpl; intros h r H; [done|].
  destruct (rsplit_once c s) as [[b r']|] eqn:E.
  - injection H as <- <-. simpl. f_equal. by apply IH.
  - destruct (Ascii.eqb_spec a c); [|done]. injection H as <- <-. by subst.
Qed.
Lemma rsplit_once_None c s : rsplit_once c s = None -> contains_char c s = false.
Proof.
  unfold contains_char, str_any. induction s as [|a s IH]; simpl; [done|].
  destruct (rsplit_once c s) as [[]|]; [done|].
  destruct (Ascii.eqb_spec a c), (Ascii.eqb_spec c a); naive_solver.
Qed.

(** What parsing establishes. *)
Definition no_slash (s : string) : Prop := str_all (fun c => negb (char_eqb "/" c)) s = true.
Record url_parsed (u : url) : Prop := {
  up_host : host_ok (t_host u) = true;
  up_slash : no_slash (t_host u);
  up_port : keep_port (t_scheme u) (t_port u) = t_port u /\ forall p, t_port u = Some p -> p <= u16_max;
  up_path : str_all (in_range 33 126) (t_path u) = true /\ exists rest, t_path u = String "/" rest
}.

Lemma keep_port_idemp scheme p : keep_port scheme (keep_port scheme p) = keep_port scheme p.
Proof. destruct p as [n|]; simpl; [|done]. destruct (n =? known_port scheme) eqn:E; simpl; [done|by rewrite E]. Qed.

Lemma build_url_Ok scheme authority path u :
  no_slash authority -> (exists rest, path = String "/" rest) -> build_url scheme authority path = Ok u -> url_parsed u.
Proof.
  intros Hs Hp. unfold build_url. destruct (split_host_port authority) as [h p] eqn:E.
  destruct (host_ok h) eqn:Eh; [|done]. destruct (str_all _ path) eqn:Epath; [|done]. cbn [negb orb].
  destruct (_ && _); [done|]. intros [= <-].
  assert (no_slash h /\ forall n, p = Some n -> n <= u16_max) as [Hh Hn].
  { unfold split_host_port in E. destruct (rsplit_once ":" authority) as [[a b]|] eqn:Er; injection E as <- <-; [|done].
    apply rsplit_once_Some in Er as ->. unfold no_slash in *. rewrite str_all_append, andb_true_iff in Hs. split; [apply Hs|].
    intros n Hn. by eapply parse_uint_bound. }
  constructor; cbn [t_scheme t_host t_port t_path]; [done|done| |done]. split; [apply keep_port_idemp|].
  intros n Hk. apply Hn. unfold keep_port in Hk. destruct p as [m|]; [|done]. by destruct (m =? _).
Qed.

Lemma split_at_first_back f s a b : split_at_first f s = Some (a, b) -> exists c rest, b = String c rest /\ f c = true.
Proof.
  revert a b. induction s as [|c s IH]; simpl; [done|]. intros a b. destruct (f c) eqn:E; [intros [= <- <-]; by eauto|].
  destruct (split_at_first f s) as [[a' b']|]; [|done]. intros [= <- <-]. by eapply IH.
Qed.

Lemma parse_url_Ok s u : parse_url s = Ok u -> url_parsed u.
Proof.
  assert (forall scheme rest, parse_rest scheme rest = Ok u -> url_parsed u) as Hb.
  { intros scheme rest. unfold parse_rest. pose proof (split_at_first_front (char_eqb "/") rest) as Hf.
    destruct (split_at_first (char_eqb "/") rest) as [[a b]|] eqn:E; apply build_url_Ok; [done| |done|by eauto].
    apply split_at_first_back in E as (c & r & -> & Hc). destruct (Ascii.eqb_spec "/" c); [by subst; eauto|done]. }
  unfold parse_url. destruct (strip_prefix "http://" s); [apply Hb|]. destruct (strip_prefix "https://" s); [apply Hb|done].
Qed.

Lemma digits_free c (n : N) : is_ascii_digit c = false -> str_all (fun a => negb (char_eqb c a)) (pretty n) = true.
Proof.
  intros Hc. destruct (pretty_digits n) as [Hd _]. rewrite str_all_forall in Hd |- *. intros a Ha.
  destruct (Ascii.eqb_spec c a); [|done]. subst. by rewrite (Hd _ Ha) in Hc.
Qed.

Lemma split_at_first_app f a c rest : str_all (fun x => negb (f x)) a = true -> f c = true -> split_at_first f (a +:+ String c rest) = Some (a, String c rest).
Proof.
  intros Ha Hc. induction a as [|x a IH]; simpl in *; [by rewrite Hc|]. apply andb_true_iff in Ha as [Hx Ha].
  destruct (f x); [done|]. by rewrite IH.
Qed.

(** A URL of an authority and a path, or of an authority alone. *)
Lemma parse_url_parts scheme authority path :
  http_scheme scheme -> no_slash authority -> path = "" \/ (exists rest, path = String "/" rest) ->
  parse_url (scheme +:+ "://" +:+ authority +:+ path) = build_url scheme authority (if is_empty path then "/" else path).
Proof.
  intros Hs Ha Hp.
  assert (forall sc, parse_rest sc (authority +:+ path) = build_url sc authority (if is_empty path then "/" else path)) as Hr.
  { intros sc. unfold parse_rest. destruct Hp as [->|[rest ->]].
    - rewrite append_nil_r. by rewrite split_at_first_absent.
    - by rewrite split_at_first_app. }
  unfold parse_url. set (a := authority +:+ path) in *. clearbody a. destruct Hs as [-> | ->].
  - rewrite (proj2 (strip_prefix_Some "http://" ("http" +:+ "://" +:+ a) a)) by done. apply Hr.
  - replace (strip_prefix "http://" ("https" +:+ "://" +:+ a)) with (@None string) by done.
    rewrite (proj2 (strip_prefix_Some "https://" ("https" +:+ "://" +:+ a) a)) by done. apply Hr.
Qed.

Lemma no_slash_port h (p : N) : no_slash h -> no_slash (h +:+ ":" +:+ pretty p).
Proof. intros Hh. unfold no_slash in *. by rewrite !str_all_append, Hh, digits_free. Qed.

Lemma host_ok_colon h : host_ok h = true -> contains_char ":" h = false.
Proof. unfold host_ok. rewrite !andb_true_iff. intros [_ Hc]. by apply negb_true_iff in Hc. Qed.

Lemma build_url_port scheme h (p : N) path :
  host_ok h = true -> p <= u16_max -> str_all (in_range 33 126) path = true ->
  build_url scheme (h +:+ ":" +:+ pretty p) path = Ok (mkUrl scheme h (keep_port scheme (Some p)) path).
Proof.
  intros Hh Hp Hpath. unfold build_url.
  assert (split_host_port (h +:+ ":" +:+ pretty p) = (h, Some p)) as ->.
  { unfold split_host_port. change (":" +:+ pretty p) with (String ":" (pretty p)).
    rewrite rsplit_once_app by by apply digits_free. by rewrite parse_uint_pretty. }
  by rewrite Hh, Hpath, andb_false_r.
Qed.
Lemma build_url_host scheme h path :
  host_ok h = true -> str_all (in_range 33 126) path = true -> build_url scheme h path = Ok (mkUrl scheme h None path).
Proof.
  intros Hh Hpath. pose proof (host_ok_colon _ Hh) as Hc. unfold build_url.
  assert (split_host_port h = (h, None)) as ->.
  { unfold split_host_port. destruct (rsplit_once ":" h) as [[a b]|] eqn:E; [|done]. apply rsplit_once_Some in E as ->.
    unfold contains_char, str_any in Hc. rewrite str_all_append in Hc. simpl in Hc. by rewrite andb_false_r in Hc. }
  by rewrite Hh, Hpath, Hc.
Qed.

(** The authority of a URL, and that the text parses to the URL. *)
Definition authority_text (u : url) : string := t_host u +:+ match t_port u with Some p => ":" +:+ pretty p | None => "" end.
Lemma url_text_authority u : url_text u = t_scheme u +:+ "://" +:+ authority_text u +:+ t_path u.
Proof. unfold url_text, authority_text. by rewrite !append_assoc. Qed.
Lemma authority_slash u : url_parsed u -> no_slash (authority_text u).
Proof.
  intros Hu. unfold authority_text. destruct (t_port u); [by apply no_slash_port, Hu|]. rewrite append_nil_r. apply Hu.
Qed.
Lemma build_url_authority u : url_parsed u -> build_url (t_scheme u) (authority_text u) (t_path u) = Ok u.
Proof.
  intros Hu. destruct (up_path _ Hu) as [Hp _]. destruct (up_port _ Hu) as [Hk Hn]. unfold authority_text. destruct u as [sc h po pa]. cbn [t_scheme t_host t_port t_path] in *.
  destruct po as [n|].
  - rewrite build_url_port; [|by apply Hu|by apply Hn|done]. by rewrite Hk.
  - rewrite append_nil_r. apply build_url_host; [apply Hu|done].
Qed.

Lemma trim_end_slash c s :
  str_all (fun a => negb (char_eqb "/" a)) s = true -> is_empty s = false ->
  trim_end_matches "/" (c +:+ s +:+ "/") = c +:+ s.
Proof.
  intros Hs He. assert (trim_end_matches "/" (s +:+ "/") = s) as Ht.
  { clear He. induction s as [|a s IH]; [done|]. simpl in Hs. apply andb_true_iff in Hs as [Ha Hs]. simpl.
    rewrite IH by done. destruct s; [|done]. destruct (Ascii.eqb_spec a "/"); [by subst|done]. }
  induction c as [|a c IH]; simpl; [done|]. rewrite IH. by destruct c, s.
Qed.

Lemma digits_graphic (n : N) : str_all (in_range 33 126) (pretty n) = true.
Proof.
  destruct (pretty_digits n) as [Hd _]. rewrite str_all_forall in Hd |- *. intros a Ha. specialize (Hd _ Ha).
  unfold is_ascii_digit, in_range in *. rewrite andb_true_iff, !N.leb_le in *. lia.
Qed.
Lemma nonblank_host h : host_ok h = true -> is_empty (trim h) = false.
Proof.
  unfold host_ok. rewrite !andb_true_iff. intros [[He Hh] _]. apply negb_true_iff in He. by rewrite trim_graphic.
Qed.
Lemma url_text_graphic u : http_scheme (t_scheme u) -> url_parsed u -> str_all (in_range 33 126) (t_scheme u +:+ "://" +:+ authority_text u) = true.
Proof.
  intros Hs Hu. pose proof (up_host _ Hu) as Hh. unfold host_ok in Hh. rewrite !andb_true_iff in Hh. destruct Hh as [[_ Hh] _].
  assert (str_all (in_range 33 126) (t_scheme u) = true) as Hsc by by destruct Hs as [-> | ->].
  unfold authority_text. rewrite !str_all_append, Hsc, Hh. destruct (t_port u); simpl; [by rewrite digits_graphic|done].
Qed.
Lemma authority_end u : url_parsed u -> exists front c, authority_text u = front +:+ String c "" /\ c <> "/"%char.
Proof.
  intros Hu. pose proof (authority_slash _ Hu) as Hs.
  assert (is_empty (authority_text u) = false) as He.
  { pose proof (up_host _ Hu) as Hh. unfold host_ok in Hh. rewrite !andb_true_iff in Hh. destruct Hh as [[Hh _] _].
    unfold authority_text. by destruct (t_host u). }
  revert Hs He. generalize (authority_text u). intros a. induction a as [|c a IH]; [done|]. unfold no_slash in *. simpl. rewrite andb_true_iff.
  intros [Hc Ha] _. destruct a as [|c' a].
  - exists "", c. split; [done|]. intros ->. done.
  - destruct IH as (front & d & E & Hd); [done|done|]. exists (String c front), d. split; [simpl; by f_equal|done].
Qed.
(** The final slashes of a text: only the whole path, when it is one. *)
Lemma trim_end_none s : ends_with "/" s = false -> trim_end_matches "/" s = s.
Proof.
  induction s as [|a s IH]; [done|]. cbn [ends_with]. intros [He Hs]%orb_false_iff. simpl. rewrite (IH Hs). destruct s; [|done].
  destruct (Ascii.eqb_spec a "/"); [by subst|done].
Qed.
Lemma ends_with_app_slash a b : is_empty b = false -> ends_with "/" (a +:+ b) = ends_with "/" b.
Proof.
  intros Hb. induction a as [|c a IH]; [done|]. cbn [ends_with String.append]. rewrite IH.
  destruct (String.eqb_spec (String c (a +:+ b)) "/") as [E|]; [|done]. injection E as _ E. destruct a; [|done]. simpl in E. by subst b.
Qed.

#[export] Instance wire_laws : @WireLaws crates.
Proof.
  constructor; cbn [ipnet_parse ipnet_to_string crates header_name_from url_parse url_scheme url_host_str
    url_port_or_known_default url_path url_query url_fragment url_to_string].
  - intros n. unfold parse_net, net_text. rewrite parse_bits_text. simpl. apply decode_encode.
  - done.
  - intros s t. unfold header. destruct (token s) eqn:E; [|done]. intros [= <-].
    rewrite token_lower, E, to_ascii_lowercase_idemp. done.
  - intros s u h p Hu Hs [= <-] Hp. apply parse_url_Ok in Hu. destruct (up_port _ Hu) as [Hk Hn].
    assert (p <= u16_max /\ keep_port (t_scheme u) (Some p) = t_port u) as [Hb Hkp].
    { unfold default_port in Hp. destruct (t_port u) as [n|] eqn:E; injection Hp as <-; [by split; [apply Hn|]|].
      unfold keep_port, known_port. rewrite N.eqb_refl. split; [|done]. by destruct (String.eqb _ _). }
    split; [by apply nonblank_host, Hu|]. split; [done|]. exists (mkUrl (t_scheme u) (t_host u) (t_port u) "/").
    split; [|by split_and!]. replace (t_scheme u +:+ "://" +:+ t_host u +:+ ":" +:+ pretty p) with
      (t_scheme u +:+ "://" +:+ (t_host u +:+ ":" +:+ pretty p) +:+ "") by by rewrite append_nil_r.
    rewrite parse_url_parts by (done || by left || apply no_slash_port, Hu). cbn [is_empty]. by rewrite build_url_port, Hkp by (done || apply Hu).
  - intros s u Hu Hs Hpath _ _. cbv zeta. apply parse_url_Ok in Hu. destruct (up_path _ Hu) as [Hg [rest Hr]].
    pose proof (url_text_graphic u Hs Hu) as Hag. destruct (authority_end u Hu) as (front & c & Ha & Hc).
    assert (forall path, path = "" \/ path = t_path u -> (path = "" -> t_path u = "/") ->
      trim (t_scheme u +:+ "://" +:+ authority_text u +:+ path) = t_scheme u +:+ "://" +:+ authority_text u +:+ path /\
      parse_url (t_scheme u +:+ "://" +:+ authority_text u +:+ path) = Ok u) as Htext.
    { intros path Hp Hroot. split.
      - apply trim_graphic. replace (t_scheme u +:+ "://" +:+ authority_text u +:+ path) with ((t_scheme u +:+ "://" +:+ authority_text u) +:+ path)
          by by rewrite !append_assoc. rewrite str_all_append, Hag. by destruct Hp as [->| ->].
      - rewrite parse_url_parts; [|done|by apply authority_slash|destruct Hp as [->| ->]; eauto].
        etrans; [|exact (build_url_authority u Hu)]. f_equal. destruct Hp as [->| ->]; [by rewrite Hroot|by rewrite Hr]. }
    rewrite url_text_authority. destruct Hpath as [Hpath|Hpath].
    + rewrite Hpath, Ha. replace (t_scheme u +:+ "://" +:+ (front +:+ String c "") +:+ "/") with ((t_scheme u +:+ "://" +:+ front) +:+ String c "" +:+ "/")
        by by rewrite !append_assoc.
      rewrite trim_end_slash; [|cbn [str_all]; destruct (Ascii.eqb_spec "/" c); [congruence|done]|done].
      replace ((t_scheme u +:+ "://" +:+ front) +:+ String c "") with (t_scheme u +:+ "://" +:+ authority_text u +:+ "")
        by by rewrite append_nil_r, Ha, !append_assoc.
      apply Htext; [by left|done].
    + rewrite trim_end_none; [apply Htext; [by right|by rewrite Hr]|].
      replace (t_scheme u +:+ "://" +:+ authority_text u +:+ t_path u) with ((t_scheme u +:+ "://" +:+ authority_text u) +:+ t_path u)
        by by rewrite !append_assoc.
      rewrite ends_with_app_slash; [done|by rewrite Hr].
  - by intros [].
  - intros p _. cbn [path_and_query_ok crates]. rewrite str_all_append, andb_true_iff. by intros [].
Qed.
End Toy.
