(* ===== verification/Headers.v ===== *)
(** * Header maps

    [http::HeaderMap] as the multi-map it is documented to be: the (lower-case)
    names with their values, in iteration order, and the operations the source
    uses. *)

From S2P Require Import Prelude RustStr.

Abbreviation HeaderMap := (list (string * string)).

Definition same_name (n : string) (p : string * string) : bool := String.eqb (fst p) n.

(** [get_all], [get], [contains_key]. *)
Definition get_all (n : string) (h : HeaderMap) : list string :=
  snd <$> List.filter (same_name n) h.
Definition header_get (n : string) (h : HeaderMap) : option string := head (get_all n h).
Definition contains_key (n : string) (h : HeaderMap) : bool := existsb (same_name n) h.

(** [remove] drops every value of a name, [append] adds one, [insert] replaces
    them all by one. *)
Definition header_remove (n : string) (h : HeaderMap) : HeaderMap :=
  List.filter (fun p => negb (same_name n p)) h.
Definition header_append (n v : string) (h : HeaderMap) : HeaderMap := h ++ [(n, v)].
Fixpoint header_insert (n v : string) (h : HeaderMap) : HeaderMap :=
  match h with
  | [] => [(n, v)]
  | p :: h' => if same_name n p then (n, v) :: header_remove n h' else p :: header_insert n v h'
  end.

(** ** Lemmas *)

Lemma filter_filter_neg {A} (f g : A -> bool) l :
  (forall x, f x = true -> g x = false) -> List.filter f (List.filter g l) = [].
Proof.
  intros Hfg. induction l as [|x l IH]; simpl; [done|]. destruct (g x) eqn:Eg; [|done].
  simpl. destruct (f x) eqn:Ef; [|done]. apply Hfg in Ef. congruence.
Qed.

Lemma filter_filter_pos {A} (f g : A -> bool) l :
  (forall x, f x = true -> g x = true) -> List.filter f (List.filter g l) = List.filter f l.
Proof.
  intros Hfg. induction l as [|x l IH]; simpl; [done|]. destruct (g x) eqn:Eg; simpl; rewrite IH; [done|].
  destruct (f x) eqn:Ef; [|done]. apply Hfg in Ef. congruence.
Qed.

Lemma same_name_true n p : same_name n p = true <-> fst p = n.
Proof. unfold same_name. by rewrite String.eqb_eq. Qed.

Lemma get_all_append n m v h :
  get_all n (header_append m v h) = get_all n h ++ (if String.eqb m n then [v] else []).
Proof.
  unfold get_all, header_append. rewrite List.filter_app, fmap_app. f_equal. simpl.
  unfold same_name. simpl. by destruct (String.eqb m n).
Qed.

Lemma get_all_remove n m h : get_all n (header_remove m h) = if String.eqb m n then [] else get_all n h.
Proof.
  unfold get_all, header_remove. destruct (String.eqb_spec m n) as [->|Hne].
  - rewrite filter_filter_neg; [done|]. intros x ->. done.
  - rewrite filter_filter_pos; [done|]. intros x. rewrite same_name_true. intros <-.
    unfold same_name. destruct (String.eqb_spec (fst x) m); [congruence|done].
Qed.

Lemma get_all_cons n p h :
  get_all n (p :: h) = (if same_name n p then [snd p] else []) ++ get_all n h.
Proof. unfold get_all. simpl. by destruct (same_name n p). Qed.

Lemma get_all_insert n m v h : get_all n (header_insert m v h) = if String.eqb m n then [v] else get_all n h.
Proof.
  induction h as [|p h IH]; simpl.
  - unfold get_all, same_name. simpl. by destruct (String.eqb m n).
  - destruct (same_name m p) eqn:E; rewrite get_all_cons.
    + rewrite get_all_remove, get_all_cons. apply same_name_true in E as <-.
      unfold same_name at 1 2. simpl. by destruct (String.eqb (fst p) n).
    + rewrite IH, get_all_cons. destruct (String.eqb_spec m n) as [->|]; [|done]. by rewrite E.
Qed.

Lemma contains_key_get_all n h : contains_key n h = negb (is_nil (get_all n h)).
Proof.
  induction h as [|p h IH]; [done|]. rewrite get_all_cons. cbn [contains_key existsb].
  destruct (same_name n p); [done|exact IH].
Qed.

Lemma get_all_absent n h : contains_key n h = false <-> get_all n h = [].
Proof. rewrite contains_key_get_all. destruct (get_all n h); simpl; split; congruence. Qed.

#[export] Hint Rewrite get_all_append get_all_remove get_all_insert : ngx.
