(* ===== verification/PluginApi.v ===== *)
(** * The plugin interface (crates/ngxora-plugin-api/src/lib.rs)

    The values plugins exchange with the runtime and the header editor they work on.
    A hook is a computation over the headers of a message that may fail; the headers
    keep what was changed before a failure, as [&mut dyn HeaderMapMut] does. *)

From S2P Require Import Prelude RustStr NetAddr Crates Headers.

(** [serde_json::from_value] into a type with a derived [Deserialize]. *)
Class FromValue `{Crates} (A : Type) := from_value : Value -> result string A.

(** The [Display] of [http]'s [InvalidHeaderName] and [InvalidHeaderValue]. *)
Class HttpErrors := { invalid_header_name : string; invalid_header_value : string }.

(** Documented behaviour of [HeaderValue::from_str]: visible ASCII is accepted. *)
Class HeaderValueLaws `{Crates} := {
  header_value_visible : forall s, str_all (in_range 32 126) s = true -> header_value_ok s = true
}.

Record PluginError := mkPluginError { pe_plugin : string; pe_message : string }.
Definition show_plugin_error (e : PluginError) : string := pe_plugin e +:+ ": " +:+ pe_message e.

Record PluginBuildError := mkPluginBuildError { pb_plugin : string; pb_message : string }.
Definition show_build_error (e : PluginBuildError) : string := pb_plugin e +:+ ": " +:+ pb_message e.

(** The typed extensions of a request; [ResolvedClientIp] (client_ip.rs) is the only
    type stored in them. *)
Record ResolvedClientIp := mkResolvedClientIp { rci_chain : option (list IpAddr) }.
Record PluginState := mkPluginState { ps_resolved_client_ip : option ResolvedClientIp }.
Definition PluginState_default : PluginState := mkPluginState None.

Record LocalResponse := mkLocalResponse {
  lr_status : N;
  lr_headers : list (string * string);
  lr_body : string
}.
Definition LocalResponse_new (status : N) (body : string) : LocalResponse := mkLocalResponse status [] body.
Definition push_header (r : LocalResponse) (name value : string) : LocalResponse :=
  mkLocalResponse (lr_status r) (lr_headers r ++ [(name, value)]) (lr_body r).

Inductive PluginFlow := Continue | Respond (response : LocalResponse).

(** What a request hook reads besides the headers and the plugin state. *)
Record RequestCtx := mkRequestCtx {
  rc_path : string;
  rc_host : option string;
  rc_method : string;
  rc_client_ip : option IpAddr
}.

(** [PluginBuildError::new(name, format!("invalid plugin config: {err}"))]. *)
Definition config_from_value `{FromValue A} (plugin : string) (v : Value) : result PluginBuildError A :=
  map_err (fun err => mkPluginBuildError plugin ("invalid plugin config: " +:+ err)) (from_value v).

(** ** Header editors *)

Class HeaderMapMut (H : Type) := {
  hm_get : string -> H -> option string;
  hm_add : string -> string -> H -> H * result PluginError unit;
  hm_set : string -> string -> H -> H * result PluginError unit;
  hm_remove : string -> H -> H
}.

(** What plugins rely on: a header has a list of values, [get] answers the first,
    [set] replaces them all, [add] adds one, [remove] drops them; editing one header
    leaves the others alone. *)
Class HeaderMapLaws (H : Type) `{HeaderMapMut H} := {
  hm_values : string -> H -> list string;
  hm_get_values : forall n h, hm_get n h = head (hm_values n h);
  hm_values_add : forall n m v h, hm_values n (fst (hm_add m v h)) = hm_values n h ++ (if String.eqb m n then [v] else []);
  hm_values_set : forall n m v h, hm_values n (fst (hm_set m v h)) = if String.eqb m n then [v] else hm_values n h;
  hm_values_remove : forall n m h, hm_values n (hm_remove m h) = if String.eqb m n then [] else hm_values n h;
  hm_add_ok : forall n v h, snd (hm_add n v h) = Ok tt;
  hm_set_ok : forall n v h, snd (hm_set n v h) = Ok tt
}.

(** A computation of a hook. *)
Definition hook (H A : Type) : Type := H -> H * result PluginError A.

Section hook.
Context {H : Type}.

#[global] Instance hook_ret : MRet (hook H) := fun A a h => (h, Ok a).
#[global] Instance hook_bind : MBind (hook H) := fun A B f m h =>
  match m h with
  | (h', Ok a) => f a h'
  | (h', Err e) => (h', Err e)
  end.
Definition hook_fail {A} (e : PluginError) : hook H A := fun h => (h, Err e).
Definition hook_lift {A} (r : result PluginError A) : hook H A := fun h => (h, r).
Definition hook_get `{HeaderMapMut H} (n : string) : hook H (option string) := fun h => (h, Ok (hm_get n h)).
Definition hook_remove `{HeaderMapMut H} (n : string) : hook H unit := fun h => (hm_remove n h, Ok tt).

(** [for x in l { f(x)?; }]. *)
Fixpoint hook_for {A} (f : A -> hook H unit) (l : list A) : hook H unit :=
  match l with
  | [] => mret tt
  | x :: l' => _ ← f x; hook_for f l'
  end.
(** [if let Some(x) = o { f(x)?; }]. *)
Definition hook_opt {A} (f : A -> hook H unit) (o : option A) : hook H unit :=
  match o with Some a => f a | None => mret tt end.

(** A computation whose result is known and which changes the values of the headers
    as [f] says. *)
Definition edits `{HeaderMapLaws H} {A} (m : hook H A) (a : A) (f : string -> list string -> list string) : Prop :=
  forall h, snd (m h) = Ok a /\ forall n, hm_values n (fst (m h)) = f n (hm_values n h).

Context `{HeaderMapLaws H}.

Lemma edits_ret {A} (a : A) : edits (mret a) a (fun _ vs => vs).
Proof. done. Qed.

Lemma edits_bind {A B} (m : hook H A) (k : A -> hook H B) a b f g :
  edits m a f -> edits (k a) b g -> edits (m ≫= k) b (fun n vs => g n (f n vs)).
Proof.
  intros Hm Hk h. destruct (Hm h) as [Ha Hf]. unfold mbind, hook_bind.
  destruct (m h) as [h' r]. cbn [fst snd] in *. subst r. destruct (Hk h') as [Hb Hg].
  split; [done|]. intros n. by rewrite Hg, Hf.
Qed.

Lemma edits_ext {A} (m : hook H A) a f g : (forall n vs, f n vs = g n vs) -> edits m a f -> edits m a g.
Proof. intros Hfg Hm h. destruct (Hm h) as [Ha Hf]. split; [done|]. intros n. by rewrite Hf. Qed.

Lemma edits_set n v : edits (hm_set n v) tt (fun m vs => if String.eqb n m then [v] else vs).
Proof. intros h. split; [apply hm_set_ok|]. intros m. apply hm_values_set. Qed.

Lemma edits_add n v : edits (hm_add n v) tt (fun m vs => vs ++ (if String.eqb n m then [v] else [])).
Proof. intros h. split; [apply hm_add_ok|]. intros m. apply hm_values_add. Qed.

Lemma edits_remove n : edits (hook_remove n) tt (fun m vs => if String.eqb n m then [] else vs).
Proof. intros h. split; [done|]. intros m. apply hm_values_remove. Qed.

Lemma edits_for {A} (f : A -> hook H unit) (g : A -> string -> list string -> list string) l :
  (forall x, edits (f x) tt (g x)) -> edits (hook_for f l) tt (fun n vs => foldl (fun vs x => g x n vs) vs l).
Proof.
  intros Hf. induction l as [|x l IH]; [apply edits_ret|]. cbn [hook_for].
  exact (edits_bind _ _ _ _ _ _ (Hf x) IH).
Qed.

Lemma edits_remove_all names :
  edits (hook_for hook_remove names) tt (fun n vs => if existsb (String.eqb n) names then [] else vs).
Proof.
  eapply edits_ext; [|apply (edits_for _ _ names edits_remove)]. intros n. cbv beta.
  induction names as [|m names IH]; intros vs; [done|]. cbn [foldl existsb]. rewrite IH, (String.eqb_sym n m).
  destruct (String.eqb m n); [by destruct (existsb _ names)|done].
Qed.

Lemma edits_opt {A} (f : A -> hook H unit) (g : A -> string -> list string -> list string) o :
  (forall x, edits (f x) tt (g x)) ->
  edits (hook_opt f o) tt (fun n vs => match o with Some x => g x n vs | None => vs end).
Proof. intros Hf. destruct o; [apply Hf|apply edits_ret]. Qed.
End hook.

#[export] Hint Resolve edits_ret edits_set edits_add edits_remove edits_bind edits_for edits_opt : ngx.

(** The editors of response.rs work on an [http::HeaderMap]. *)
#[global] Instance HeaderMap_mut : HeaderMapMut HeaderMap := {|
  hm_get := header_get;
  hm_add n v h := (header_append n v h, Ok tt);
  hm_set n v h := (header_insert n v h, Ok tt);
  hm_remove := header_remove
|}.
#[global] Instance HeaderMap_laws : HeaderMapLaws HeaderMap.
Proof.
  refine {| hm_values := get_all |}; try done.
  - intros. apply get_all_append.
  - intros. apply get_all_insert.
  - intros. apply get_all_remove.
Defined.

Module ToyPlugins.
#[export] Instance http_errors : HttpErrors :=
  {| invalid_header_name := "invalid HTTP header name"; invalid_header_value := "failed to parse header value" |}.
#[export] Instance header_value_laws : @HeaderValueLaws Toy.crates.
Proof. constructor. intros s Hs. exact Hs. Qed.
End ToyPlugins.
