(* ===== verification/Ir.v ===== *)
(** * The intermediate representation (crates/ngxora-compile/src/ir.rs)

    The data types of the IR with their defaults and their [validate] methods. *)

From S2P Require Import Prelude RustStr NetAddr Crates.

Open Scope N_scope.

(** [ngxora_plugin_api::PluginSpec]. *)
Record PluginSpec `{Crates} := mkPluginSpec { plugin_name : string; plugin_config : Value }.

Inductive Switch := On | Off.

Inductive PemSource := PemPath (path : string) | InlinePem (pem : string).

Record TlsIdentity := mkTlsIdentity { cert : PemSource; key : PemSource }.
Definition TlsIdentity_default : TlsIdentity := mkTlsIdentity (PemPath "") (PemPath "").
(** [PemSource::new] on the one-element slices the callers pass. *)
Definition PemSource_new (raw_path : string) : PemSource := PemPath raw_path.

Inductive SslProvider := Custom (id : TlsIdentity) | LetsEncrypt.

Record LetsEncryptConfig := mkLetsEncryptConfig {
  acme_directory : option string;
  email : option string;
  cache_dir : option string
}.

Inductive KeepaliveTimeout := KeepaliveOff | KeepaliveSet (idle : N) (header : option N).
Definition KeepaliveTimeout_default : KeepaliveTimeout := KeepaliveSet (from_secs 60) None.

Record Http2Options := mkHttp2Options {
  max_concurrent_streams : option N;
  max_header_list_size : option N;
  stream_window_size : option N;
  connection_window_size : option N
}.
Definition Http2Options_default : Http2Options := mkHttp2Options None None None None.

Record UpstreamHttp2Options := mkUpstreamHttp2Options {
  up_max_concurrent_streams : option N;
  up_stream_window_size : option N;
  up_connection_window_size : option N
}.
Definition UpstreamHttp2Options_default : UpstreamHttp2Options := mkUpstreamHttp2Options None None None.

Definition validate_http2_value (value : option N) (max : N) (name : string) : result string unit :=
  fail_if (match value with Some v => (v =? 0) || (max <? v) | None => false end)
    (name +:+ ": expected a value between 1 and " +:+ pretty max).

Definition Http2Options_validate (o : Http2Options) : result string unit :=
  _ ← validate_http2_value (max_concurrent_streams o) u32_max "http2_max_concurrent_streams";
  _ ← validate_http2_value (max_header_list_size o) u32_max "http2_max_header_list_size";
  _ ← validate_http2_value (stream_window_size o) i32_max "http2_stream_window_size";
  validate_http2_value (connection_window_size o) i32_max "http2_connection_window_size".

Definition UpstreamHttp2Options_validate (o : UpstreamHttp2Options) : result string unit :=
  _ ← validate_http2_value (up_max_concurrent_streams o) u32_max "proxy_http2_max_concurrent_streams";
  _ ← validate_http2_value (up_stream_window_size o) i32_max "proxy_http2_stream_window_size";
  validate_http2_value (up_connection_window_size o) i32_max "proxy_http2_connection_window_size".

Record ClientLimits := mkClientLimits {
  max_body_size : option N;
  body_timeout : option N;
  limit_send_timeout : option N;
  allowed_methods : list string
}.
Definition ClientLimits_default : ClientLimits := mkClientLimits None None None [].

Definition validate_client_timeout (value : option N) : result string unit :=
  fail_if (match value with
           | Some v => (u64_max <? as_millis v) || negb (subsec_nanos v mod 1000000 =? 0)
           | None => false end)
    "client timeout must be whole milliseconds fitting uint64".

Record ScpProfile := mkScpProfile {
  scp_name : string;
  scp_api_root : string;
  discovery_upstreams : list string;
  allowed_target_api_roots : list string
}.

Inductive NrfEndpointScheme := NrfHttp | NrfHttps.

Record UpstreamServer := mkUpstreamServer { us_host : string; us_port : N; us_weight : N }.

Inductive UpstreamSelectionPolicy := RoundRobin | Random | ConsistentHash.

Inductive UpstreamHashKey := HashClientIp | HashHeader (name : string).

Inductive UpstreamHealthCheckType :=
| UpTcp
| UpHttp (host path : string) (use_tls : bool).

Record UpstreamHealthCheck := mkUpstreamHealthCheck {
  uhc_check_type : UpstreamHealthCheckType;
  uhc_timeout : N;
  uhc_interval : N;
  uhc_consecutive_success : N;
  uhc_consecutive_failure : N
}.

Inductive TlsProtocolVersion := Tls1 | Tls1_2 | Tls1_3.
Record TlsProtocolBounds := mkTlsProtocolBounds { tls_min : TlsProtocolVersion; tls_max : TlsProtocolVersion }.
Inductive TlsVerifyClient := VerifyOff | VerifyOptional | VerifyRequired.

Record DownstreamTlsOptions := mkDownstreamTlsOptions {
  protocols : option TlsProtocolBounds;
  verify_client : TlsVerifyClient;
  dt_client_certificate : option PemSource
}.
Definition DownstreamTlsOptions_default : DownstreamTlsOptions := mkDownstreamTlsOptions None VerifyOff None.

Record Listen := mkListen {
  l_addr : IpAddr;
  l_port : N;
  l_ssl : bool;
  l_default_server : bool;
  l_http2 : bool;
  l_http2_only : bool
}.
Definition Listen_default : Listen := mkListen (ipv4 127 0 0 1) 80 false false false false.

Record UpstreamTimeouts := mkUpstreamTimeouts { connect : option N; read : option N; write : option N }.
Definition UpstreamTimeouts_default : UpstreamTimeouts := mkUpstreamTimeouts None None None.

Record UpstreamSslOptions := mkUpstreamSslOptions {
  verify_cert : Switch;
  trusted_certificate : option PemSource;
  client_certificate : option PemSource;
  client_certificate_key : option PemSource
}.
Definition UpstreamSslOptions_default : UpstreamSslOptions := mkUpstreamSslOptions On None None None.

Inductive CacheKeyMode := KeyUri | KeyUriAndMethod | KeyNormalizedUri.

Record CacheConfig := mkCacheConfig {
  enabled : bool;
  cache_max_size : option N;
  ttl : option N;
  stale_if_error : option N;
  cache_key : CacheKeyMode;
  min_uses : option N;
  valid_statuses : list N
}.
Definition CacheConfig_default : CacheConfig :=
  mkCacheConfig true None (Some (from_secs 60)) None KeyUri None [200; 301; 404].

Inductive HttpPathMatch := PathExact (path : string) | PathPrefix (path : string).
Record HttpMatch := mkHttpMatch {
  m_path : HttpPathMatch;
  m_method : option string;
  m_headers : list (string * string);
  m_query_params : list (string * string)
}.

Inductive PathModifier := ReplaceFullPath (p : string) | ReplacePrefixMatch (p : string).
Record HttpRedirect := mkHttpRedirect {
  redirect_status : N;
  redirect_scheme : option string;
  redirect_hostname : option string;
  redirect_port : option N;
  redirect_path : option PathModifier
}.
Record UrlRewrite := mkUrlRewrite { rewrite_hostname : option string; rewrite_path : option PathModifier }.

Inductive UpstreamHttpProtocol := H1 | H2 | H2c.

Inductive LocationMatcher :=
| LmHttp (m : HttpMatch)
| LmPrefix (p : string)
| LmExact (p : string)
| LmRegex (case_insensitive : bool) (pattern : string)
| LmPreferPrefix (p : string)
| LmNamed (name : string).

Section ir.
Context `{Crates}.

Record RealIpConfig := mkRealIpConfig {
  trusted_proxies : list IpNet;
  real_ip_header : string;
  recursive : bool
}.
Definition RealIpConfig_default : RealIpConfig := mkRealIpConfig [] "X-Forwarded-For" true.
Definition RealIpConfig_validate (c : RealIpConfig) : result string unit :=
  fail_if (negb (eq_ignore_ascii_case (real_ip_header c) "x-forwarded-for")
           && negb (eq_ignore_ascii_case (real_ip_header c) "x-real-ip"))
    "real_ip_header must be X-Forwarded-For or X-Real-IP".

(** A path built from configuration text is UTF-8, so [to_str] succeeds. *)
Record GeoIpConfig := mkGeoIpConfig {
  database : string;
  reload_interval : N;
  geo_trusted_proxies : list IpNet
}.
Definition GeoIpConfig_validate (c : GeoIpConfig) : result string unit :=
  _ ← fail_if (is_empty (database c)) "geoip database must be a nonempty UTF-8 path";
  fail_if ((reload_interval c <? from_millis 1)
           || (u64_max <? as_millis (reload_interval c))
           || negb (subsec_nanos (reload_interval c) mod 1000000 =? 0))
    "geoip reload_interval must be a positive whole number of milliseconds fitting uint64".

Inductive LocationIpRule := Allow (n : IpNet) | Deny (n : IpNet) | AllowAll | DenyAll.
Definition rule_matches (r : LocationIpRule) (ip : IpAddr) : bool :=
  match r with
  | Allow network | Deny network => ipnet_contains network ip
  | AllowAll | DenyAll => true
  end.
Definition rule_is_allow (r : LocationIpRule) : bool :=
  match r with Allow _ | AllowAll => true | _ => false end.

Inductive ProxyPassTarget := PpUrl (u : Url) | PpUpstreamGroup (name : string) (tls : bool).
Inductive BackendTarget := BtUpstream (t : ProxyPassTarget) | BtResponse (status : N).
Record WeightedBackend := mkWeightedBackend { wb_weight : N; wb_target : BackendTarget }.

Inductive LocationDirective :=
| ClientMaxBodySize (n : N)
| ClientBodyTimeout (d : N)
| SendTimeout (d : N)
| AllowMethods (ms : list string)
| WeightedBackends (bs : list WeightedBackend)
| DirectResponse (status : N)
| DHttpRedirect (r : HttpRedirect)
| DUrlRewrite (r : UrlRewrite)
| ScpPass (profile : string)
| ProxyPass (t : ProxyPassTarget)
| ProxyConnectTimeout (d : N)
| ProxyReadTimeout (d : N)
| ProxyWriteTimeout (d : N)
| ProxyUpstreamProtocol (p : UpstreamHttpProtocol)
| ProxyHttp2MaxConcurrentStreams (n : N)
| ProxyHttp2StreamWindowSize (n : N)
| ProxyHttp2ConnectionWindowSize (n : N)
| ProxySslVerify (s : Switch)
| ProxySslTrustedCertificate (p : PemSource)
| ProxySslCertificate (p : PemSource)
| ProxySslCertificateKey (p : PemSource)
| Root (p : string)
| TryFiles (p : string)
| Return_ (status : N) (location : string).

Record Location := mkLocation {
  loc_matcher : LocationMatcher;
  loc_access_rules : list LocationIpRule;
  loc_directives : list LocationDirective;
  loc_plugins : list PluginSpec;
  loc_cache : option CacheConfig
}.

Record Server := mkServer {
  server_names : list string;
  locations : list Location;
  listens : list Listen;
  tls : option SslProvider;
  tls_options : DownstreamTlsOptions
}.
Definition Server_default : Server := mkServer [] [] [] None DownstreamTlsOptions_default.

Record NrfDiscovery := mkNrfDiscovery {
  nrf_api_root : string;
  nrf_target_nf_type : string;
  nrf_requester_nf_type : string;
  nrf_service_name : string;
  nrf_endpoint_scheme : NrfEndpointScheme;
  nrf_timeout : N;
  nrf_stale_if_error : N;
  nrf_tls_options : UpstreamSslOptions
}.

Record UpstreamBlock := mkUpstreamBlock {
  up_allow_empty : bool;
  up_name : string;
  up_policy : UpstreamSelectionPolicy;
  up_hash_key : option UpstreamHashKey;
  up_servers : list UpstreamServer;
  up_nrf_discovery : option NrfDiscovery;
  up_health_check : option UpstreamHealthCheck
}.

Record Http := mkHttp {
  real_ip : option RealIpConfig;
  client_header_timeout : option N;
  client_body_timeout : option N;
  send_timeout : option N;
  scp_profiles : list ScpProfile;
  upstreams : list UpstreamBlock;
  servers : list Server;
  keepalive_timeout : KeepaliveTimeout;
  keepalive_requests : option N;
  client_max_body_size : option N;
  proxy_cache_max_size : option N;
  tcp_nodelay : Switch;
  allow_connect_method_proxying : Switch;
  h2c : Switch;
  http2 : Http2Options;
  ssl_provider : option LetsEncryptConfig;
  geoip : option GeoIpConfig
}.
Definition Http_default : Http :=
  mkHttp None None None None [] [] [] KeepaliveTimeout_default None None None On Off Off
    Http2Options_default None None.

Record Ir := mkIr { http : option Http }.
End ir.

(** ** Decidable equality

    The derived [PartialEq] of the types that the runtime compares. *)

#[global] Instance Switch_eq_dec : EqDecision Switch.
Proof. solve_decision. Defined.
#[global] Instance PemSource_eq_dec : EqDecision PemSource.
Proof. solve_decision. Defined.
#[global] Instance PemSource_countable : Countable PemSource.
Proof.
  refine (inj_countable' (fun a => match a with PemPath b => inl b | InlinePem b => inr b end)
    (fun s => match s with inl b => PemPath b | inr b => InlinePem b end) _). by intros [].
Defined.
#[global] Instance Http2Options_eq_dec : EqDecision Http2Options.
Proof. solve_decision. Defined.
#[global] Instance ScpProfile_eq_dec : EqDecision ScpProfile.
Proof. solve_decision. Defined.
#[global] Instance TlsIdentity_eq_dec : EqDecision TlsIdentity.
Proof. solve_decision. Defined.
#[global] Instance NrfEndpointScheme_eq_dec : EqDecision NrfEndpointScheme.
Proof. solve_decision. Defined.
#[global] Instance UpstreamSelectionPolicy_eq_dec : EqDecision UpstreamSelectionPolicy.
Proof. solve_decision. Defined.
#[global] Instance UpstreamHashKey_eq_dec : EqDecision UpstreamHashKey.
Proof. solve_decision. Defined.
#[global] Instance TlsProtocolVersion_eq_dec : EqDecision TlsProtocolVersion.
Proof. solve_decision. Defined.
#[global] Instance TlsProtocolBounds_eq_dec : EqDecision TlsProtocolBounds.
Proof. solve_decision. Defined.
#[global] Instance TlsVerifyClient_eq_dec : EqDecision TlsVerifyClient.
Proof. solve_decision. Defined.
#[global] Instance UpstreamSslOptions_eq_dec : EqDecision UpstreamSslOptions.
Proof. solve_decision. Defined.
#[global] Instance GeoIpConfig_eq_dec `{Crates} : EqDecision GeoIpConfig.
Proof. solve_decision. Defined.
#[global] Instance UpstreamHttpProtocol_eq_dec : EqDecision UpstreamHttpProtocol.
Proof. solve_decision. Defined.

(** ** Validation lemmas *)

Lemma validate_http2_value_ok v max name :
  validate_http2_value v max name = Ok tt <-> (forall n, v = Some n -> 1 <= n <= max).
Proof.
  unfold validate_http2_value, fail_if. destruct v as [n|]; simpl; [|naive_solver].
  destruct (N.eqb_spec n 0), (N.ltb_spec max n); simpl; split;
    try done; try (intros ? ? [= <-]; lia); intros Hn; specialize (Hn n eq_refl); lia.
Qed.

Lemma validate_client_timeout_millis ms :
  ms <= u64_max -> validate_client_timeout (Some (from_millis ms)) = Ok tt.
Proof.
  intros Hms. unfold validate_client_timeout, fail_if, as_millis, from_millis, subsec_nanos.
  rewrite N.div_mul by done.
  destruct (N.ltb_spec u64_max ms); [lia|]. simpl.
  assert ((ms * 1000000) mod 1000000000 mod 1000000 = 0) as ->; [|done].
  replace 1000000000 with (1000000 * 1000) by done.
  rewrite (N.mul_comm ms), N.Div0.mul_mod_distr_l, N.mul_comm. apply N.Div0.mod_mul.
Qed.
