(* ===== verification/Values.v ===== *)
(** * Scalar directive values (crates/ngxora-compile/src/transform/values.rs)

    Durations, sizes, switches and counts.  A lowering step returns a message on
    bad input; [Panic] is the outcome of an operation that aborts (slicing a
    string inside a character). *)

From S2P Require Import Prelude RustStr NetAddr Crates Parser Ir.

Open Scope N_scope.

(** [LowerErr], or a panic.  [OutOfFuel] marks the fuel of [duration_loop], which
    [parse_duration_literal_fuel] excludes. *)
Inductive LowerErr := Message (message : string) | Panic | OutOfFuel.

#[global] Instance LowerErr_eq_dec : EqDecision LowerErr.
Proof. solve_decision. Defined.

Abbreviation lower := (result LowerErr).
Definition lerr {A} (message : string) : lower A := Err (Message message).

(** [inv_ok] through [lerr]. *)
Ltac inv_lower := repeat (unfold lerr in *; inv_ok).

Definition parse_exactly_one_argument (args : list string) (directive : string) : lower string :=
  match args with
  | [value] => Ok value
  | [] => lerr (directive +:+ ": expected 1 argument")
  | _ => lerr (directive +:+ ": expected exactly 1 argument")
  end.

Definition usize_max : N := u64_max.

Definition parse_positive_usize (args : list string) (directive : string) : lower N :=
  value ← parse_exactly_one_argument args directive;
  match parse_uint usize_max value with
  | None => lerr (directive +:+ ": invalid integer `" +:+ value +:+ "`")
  | Some parsed =>
      if parsed =? 0 then lerr (directive +:+ ": value must be greater than zero") else Ok parsed
  end.

Definition ensure_non_zero_duration (value : N) (directive : string) : lower unit :=
  if is_zero value then lerr (directive +:+ ": value must be greater than zero") else Ok tt.

(** [slot.replace(value).is_some()] is an error; the new slot otherwise. *)
Definition set_once {T} (slot : option T) (value : T) (directive : string) : lower (option T) :=
  match slot with
  | Some _ => lerr (directive +:+ ": duplicated directive")
  | None => Ok (Some value)
  end.

Definition parse_basic_auth_single_value (args : list string) (directive expected_message : string)
  : lower string :=
  match args with
  | [value] => Ok value
  | _ => lerr (directive +:+ ": " +:+ expected_message)
  end.

Definition parse_basic_auth_joined_value (args : list string) (directive expected_message : string)
  : lower string :=
  match args with
  | [] => lerr (directive +:+ ": " +:+ expected_message)
  | values => Ok (join " " values)
  end.

Definition block_named (node : Node) (name : string) : option Block :=
  match node with
  | NBlock n args children => if String.eqb name n then Some (mkBlock n args children) else None
  | NDirective _ => None
  end.

Definition get_directive_switch (d : Directive) : lower Switch :=
  match dir_args d with
  | [value] =>
      if String.eqb value "on" then Ok On
      else if String.eqb value "off" then Ok Off
      else lerr (dir_name d +:+ ": expected on|off")
  | [] => lerr (dir_name d +:+ ": expected on|off")
  | _ => lerr (dir_name d +:+ ": expected exactly one argument on|off")
  end.

(** ** Durations *)

Definition unit_multiplier_millis (unit : string) : option N :=
  if String.eqb unit "ms" then Some 1
  else if String.eqb unit "s" then Some 1000
  else if String.eqb unit "m" then Some 60000
  else if String.eqb unit "h" then Some 3600000
  else if String.eqb unit "d" then Some 86400000
  else if String.eqb unit "w" then Some 604800000
  else if String.eqb unit "M" then Some 2592000000
  else if String.eqb unit "y" then Some 31536000000
  else None.

(** The unit after a number, with the text behind it: [&raw[idx..idx + 1]] panics
    when the byte at [idx + 1] continues a character. *)
Definition duration_unit (raw directive rest : string) (saw_segment : bool) : lower (string * string) :=
  match rest with
  | EmptyString =>
      if saw_segment then lerr (directive +:+ ": missing unit in `" +:+ raw +:+ "`") else Ok ("s", "")
  | String c rest' =>
      match strip_prefix "ms" rest with
      | Some r => Ok ("ms", r)
      | None =>
          match rest' with
          | String c' _ => if is_continuation c' then Err Panic else Ok (String c "", rest')
          | EmptyString => Ok (String c "", rest')
          end
      end
  end.

(** The loop of [parse_duration_literal]; [rest] is [raw[idx..]]. *)
Fixpoint duration_loop (fuel : nat) (raw directive rest : string) (total_millis : N) (saw_segment : bool)
  : lower N :=
  match fuel with
  | O => Err OutOfFuel
  | S fuel' =>
      if is_empty rest then Ok total_millis else
      let '(digits, rest1) := span is_ascii_digit rest in
      if is_empty digits then lerr (directive +:+ ": invalid time value `" +:+ raw +:+ "`") else
      match parse_uint u128_max digits with
      | None => lerr (directive +:+ ": invalid time value `" +:+ raw +:+ "`")
      | Some value =>
          '(unit, rest2) ← duration_unit raw directive rest1 saw_segment;
          match unit_multiplier_millis unit with
          | None => lerr (directive +:+ ": unsupported time unit `" +:+ unit +:+ "` in `" +:+ raw +:+ "`")
          | Some multiplier =>
              match checked_mul u128_max value multiplier with
              | None => lerr (directive +:+ ": time value `" +:+ raw +:+ "` is too large")
              | Some segment_millis =>
                  match checked_add u128_max total_millis segment_millis with
                  | None => lerr (directive +:+ ": time value `" +:+ raw +:+ "` is too large")
                  | Some total => duration_loop fuel' raw directive rest2 total true
                  end
              end
          end
      end
  end.

Definition parse_duration_literal (raw directive : string) : lower N :=
  if is_empty raw then lerr (directive +:+ ": invalid time value `" +:+ raw +:+ "`") else
  total_millis ← duration_loop (S (String.length raw)) raw directive raw 0 false;
  if total_millis <=? u64_max then Ok (from_millis total_millis)
  else lerr (directive +:+ ": time value `" +:+ raw +:+ "` is too large").

Definition parse_keepalive_timeout (args : list string) : lower KeepaliveTimeout :=
  match args with
  | [idle] =>
      idle ← parse_duration_literal idle "keepalive_timeout";
      Ok (if is_zero idle then KeepaliveOff else KeepaliveSet idle None)
  | [idle; header] =>
      idle ← parse_duration_literal idle "keepalive_timeout";
      header ← parse_duration_literal header "keepalive_timeout";
      Ok (if is_zero idle && is_zero header then KeepaliveOff else KeepaliveSet idle (Some header))
  | _ => lerr "keepalive_timeout: expected 1 or 2 arguments"
  end.

Definition parse_keepalive_requests (args : list string) : lower N :=
  match args with
  | [value] =>
      match parse_uint u32_max value with
      | Some n => Ok n
      | None => lerr ("keepalive_requests: invalid integer `" +:+ value +:+ "`")
      end
  | [] => lerr "keepalive_requests: expected 1 argument"
  | _ => lerr "keepalive_requests: expected exactly 1 argument"
  end.

Definition parse_single_duration_directive (args : list string) (directive : string) : lower N :=
  match args with
  | [value] => parse_duration_literal value directive
  | [] => lerr (directive +:+ ": expected 1 argument")
  | _ => lerr (directive +:+ ": expected exactly 1 argument")
  end.

(** ** Sizes *)

Definition size_multiplier (suffix : string) : option N :=
  if is_empty suffix then Some 1
  else if String.eqb suffix "k" || String.eqb suffix "K" then Some 1024
  else if String.eqb suffix "m" || String.eqb suffix "M" then Some (1024 * 1024)
  else if String.eqb suffix "g" || String.eqb suffix "G" then Some (1024 * 1024 * 1024)
  else None.

Definition parse_size_literal (raw directive : string) : lower N :=
  if is_empty raw then lerr (directive +:+ ": invalid size value `" +:+ raw +:+ "`") else
  let '(digits, suffix) := span is_ascii_digit raw in
  if is_empty digits then lerr (directive +:+ ": invalid size value `" +:+ raw +:+ "`") else
  match parse_uint u64_max digits with
  | None => lerr (directive +:+ ": invalid size value `" +:+ raw +:+ "`")
  | Some value =>
      match size_multiplier suffix with
      | None => lerr (directive +:+ ": unsupported size unit `" +:+ suffix +:+ "` in `" +:+ raw +:+ "`")
      | Some multiplier =>
          match checked_mul u64_max value multiplier with
          | Some size => Ok size
          | None => lerr (directive +:+ ": size value `" +:+ raw +:+ "` is too large")
          end
      end
  end.

Definition parse_client_max_body_size (args : list string) : lower (option N) :=
  match args with
  | [value] =>
      size ← parse_size_literal value "client_max_body_size";
      Ok (if size =? 0 then None else Some size)
  | [] => lerr "client_max_body_size: expected 1 argument"
  | _ => lerr "client_max_body_size: expected exactly 1 argument"
  end.

Definition parse_http2_value (d : Directive) : lower N :=
  let name := dir_name d in
  raw ← parse_exactly_one_argument (dir_args d) name;
  value ← (if ends_with "max_concurrent_streams" name then
             match parse_uint u64_max raw with
             | Some v => Ok v
             | None => lerr (name +:+ ": expected a positive integer")
             end
           else parse_size_literal raw name);
  let max := if ends_with "window_size" name then i32_max else u32_max in
  if (value =? 0) || (max <? value) then
    lerr (name +:+ ": expected a value between 1 and " +:+ pretty max)
  else Ok value.

(** ** Reference semantics of a duration *)

(** One [<number><unit>] segment. *)
Record segment := mkSegment { seg_value : N; seg_unit : string }.

(** The units of [unit_multiplier_millis]. *)
Definition time_units : list string := ["ms"; "s"; "m"; "h"; "d"; "w"; "M"; "y"].

Definition segment_millis (s : segment) : N := seg_value s * default 0 (unit_multiplier_millis (seg_unit s)).
Definition segments_millis (l : list segment) : N := sumN (segment_millis <$> l).
Definition print_segment (s : segment) : string := pretty (seg_value s) +:+ seg_unit s.
Definition print_segments (l : list segment) : string := concat_str (print_segment <$> l).

(** ** Lemmas *)

Lemma unit_in_units u : u ∈ time_units ->
  exists m c r, unit_multiplier_millis u = Some m /\ 1 <= m /\ u = String c r /\ is_ascii_digit c = false.
Proof.
  unfold time_units. intros H.
  repeat (apply elem_of_cons in H as [->|H]; [by repeat eexists|]). by apply elem_of_nil in H.
Qed.

(** What follows a unit: nothing, or the digits of the next segment. *)
Definition unit_follow (r : string) : bool :=
  match r with EmptyString => true | String c _ => is_ascii_digit c end.

Lemma digit_not_continuation c : is_ascii_digit c = true -> is_continuation c = false.
Proof. destruct c as [[] [] [] [] [] [] [] []]; vm_compute; congruence. Qed.

Lemma duration_unit_ok raw d u r saw :
  u ∈ time_units -> unit_follow r = true -> duration_unit raw d (u +:+ r) saw = Ok (u, r).
Proof.
  intros Hu Hr. unfold time_units in Hu.
  repeat (apply elem_of_cons in Hu as [->|Hu];
    [destruct r as [|c r]; [reflexivity|]; simpl in Hr;
     pose proof (digit_not_continuation _ Hr) as Hc; simpl;
     try (destruct c as [[] [] [] [] [] [] [] []]; vm_compute in Hr; try discriminate; reflexivity);
     by rewrite ?Hc|]).
  by apply elem_of_nil in Hu.
Qed.

Lemma print_segments_cons s l :
  print_segments (s :: l) = pretty (seg_value s) +:+ seg_unit s +:+ print_segments l.
Proof. unfold print_segments, print_segment. simpl. by rewrite append_assoc. Qed.

Lemma print_segments_follow l : unit_follow (print_segments l) = true.
Proof.
  destruct l as [|s l]; [done|]. unfold print_segments, print_segment. simpl.
  pose proof (pretty_nonempty (seg_value s)) as He. destruct (pretty_digits (seg_value s)) as [Hd _].
  destruct (pretty (seg_value s)) as [|c w]; [done|]. simpl in *. by apply andb_true_iff in Hd as [-> _].
Qed.

Lemma length_pretty_pos (n : N) : (1 <= String.length (pretty n))%nat.
Proof. pose proof (pretty_nonempty n). destruct (pretty n); [done|]. simpl. lia. Qed.

Lemma segments_millis_cons s l m :
  unit_multiplier_millis (seg_unit s) = Some m ->
  segments_millis (s :: l) = seg_value s * m + segments_millis l.
Proof. intros Hm. unfold segments_millis, segment_millis. simpl. by rewrite Hm. Qed.

Lemma duration_loop_segments raw d l : forall fuel total saw,
  Forall (fun s => seg_unit s ∈ time_units) l ->
  total + segments_millis l <= u128_max -> (length l < fuel)%nat ->
  duration_loop fuel raw d (print_segments l) total saw = Ok (total + segments_millis l).
Proof.
  induction l as [|s l IH]; intros fuel total saw Hu Ht Hf; (destruct fuel as [|fuel]; [simpl in Hf; lia|]).
  - simpl. f_equal. unfold segments_millis in *. simpl in *. lia.
  - apply Forall_cons in Hu as [Hs Hu].
    destruct (unit_in_units _ Hs) as (m & c & r & Hm & Hm1 & Hc & Hdig).
    rewrite (segments_millis_cons _ _ _ Hm) in *.
    rewrite print_segments_cons.
    destruct (pretty_digits (seg_value s)) as [Hd Hv].
    cbn [duration_loop].
    destruct (is_empty (pretty (seg_value s) +:+ seg_unit s +:+ print_segments l)) eqn:He.
    { pose proof (pretty_nonempty (seg_value s)) as Hp. by destruct (pretty (seg_value s)). }
    rewrite span_digits; [|done|rewrite Hc; simpl; by rewrite Hdig].
    rewrite pretty_nonempty, parse_uint_pretty by nia.
    rewrite duration_unit_ok; [|done|apply print_segments_follow]. simpl. rewrite Hm.
    rewrite checked_mul_ok, checked_add_ok by lia.
    rewrite IH; [f_equal; lia|done|lia|simpl in Hf; lia].
Qed.

Lemma length_print_segments l : (length l <= String.length (print_segments l))%nat.
Proof.
  induction l as [|s l IH]; [done|]. rewrite print_segments_cons, !length_append.
  simpl. pose proof (length_pretty_pos (seg_value s)). lia.
Qed.

(** The loop never runs out of fuel, and its result is a [u128]. *)
Lemma span_length f s p r : span f s = (p, r) -> String.length s = (String.length p + String.length r)%nat.
Proof. intros H. apply span_spec in H as [-> _]. apply length_append. Qed.

Lemma duration_unit_length raw d rest saw u r :
  duration_unit raw d rest saw = Ok (u, r) -> (String.length r <= String.length rest)%nat.
Proof.
  unfold duration_unit. destruct rest as [|c rest]; [destruct saw; intros H; by simplify_eq|].
  destruct (strip_prefix "ms" (String c rest)) as [r'|] eqn:E.
  - apply strip_prefix_Some in E. rewrite E. intros H. simplify_eq. rewrite length_append. lia.
  - destruct rest as [|c' rest]; [|destruct (is_continuation c')]; intros H; simplify_eq; simpl; lia.
Qed.

Lemma duration_loop_total fuel raw d rest total saw :
  (String.length rest < fuel)%nat -> duration_loop fuel raw d rest total saw <> Err OutOfFuel.
Proof.
  revert rest total saw. induction fuel as [|fuel IH]; intros rest total saw Hf; [lia|].
  cbn [duration_loop]. destruct (is_empty rest); [done|].
  destruct (span is_ascii_digit rest) as [ds r1] eqn:Es. apply span_length in Es.
  destruct ds as [|c ds]; [done|]. simpl is_empty. cbv iota.
  destruct (parse_uint u128_max (String c ds)) as [v|]; [|done].
  destruct (duration_unit raw d r1 saw) as [[u r2]|e] eqn:Eu; simpl.
  - apply duration_unit_length in Eu. repeat (case_match; [|done]).
    apply IH. simpl in Es. lia.
  - intros [= ->]. unfold duration_unit in Eu. repeat case_match; by simplify_eq.
Qed.

Lemma parse_duration_literal_fuel raw d : parse_duration_literal raw d <> Err OutOfFuel.
Proof.
  unfold parse_duration_literal. destruct (is_empty raw); [done|].
  destruct (duration_loop _ raw d raw 0 false) eqn:E; simpl; [by case_match|].
  intros [= ->]. revert E. apply duration_loop_total. lia.
Qed.

Lemma parse_duration_literal_millis raw d v :
  parse_duration_literal raw d = Ok v -> exists ms, ms <= u64_max /\ v = from_millis ms.
Proof.
  unfold parse_duration_literal. destruct (is_empty raw); [done|]. intros H. inv_ok.
  destruct (N.leb_spec a u64_max); inv_lower; eauto.
Qed.

(** ** Theorems *)

(** a duration literal written as a non-empty sequence of [<number><unit>]
    segments (units ms, s, m, h, d, w, M, y) whose total fits 64-bit milliseconds
    parses to exactly that total. *)
Theorem duration_print_parse l d :
  l <> [] -> Forall (fun s => seg_unit s ∈ time_units) l -> segments_millis l <= u64_max ->
  parse_duration_literal (print_segments l) d = Ok (from_millis (segments_millis l)).
Proof.
  intros Hne Hu Ht. unfold parse_duration_literal.
  assert (is_empty (print_segments l) = false) as ->.
  { pose proof (length_print_segments l). destruct l; [done|].
    destruct (print_segments _); [simpl in *; lia|done]. }
  rewrite duration_loop_segments; [|done|unfold u64_max, u128_max in *; lia|pose proof (length_print_segments l); lia].
  rewrite N.add_0_l. cbn [mbind result_bind].
  by destruct (N.leb_spec (segments_millis l) u64_max); [|lia].
Qed.

Lemma duration_print_parse_witness :
  print_segments [mkSegment 1 "m"; mkSegment 30 "s"] = "1m30s" /\
  parse_duration_literal (print_segments [mkSegment 1 "m"; mkSegment 30 "s"]) "send_timeout"
    = Ok (from_secs 90).
Proof.
  split; [vm_compute; reflexivity|].
  apply (duration_print_parse [mkSegment 1 "m"; mkSegment 30 "s"] "send_timeout").
  - discriminate.
  - repeat constructor; unfold time_units; set_solver.
  - vm_compute. discriminate.
Defined.

(** A duration literal whose number is followed by a multi-byte character makes
    the unit slice cut that character, so lowering the directive panics instead of
    reporting an error. *)
Theorem duration_multibyte_unit_panics n c c' rest d :
  n <= u128_max -> is_ascii_digit c = false -> is_continuation c' = true ->
  parse_duration_literal (pretty n +:+ String c (String c' rest)) d = Err Panic.
Proof.
  intros Hn Hc Hc'. unfold parse_duration_literal.
  set (raw := pretty n +:+ String c (String c' rest)).
  assert (is_empty raw = false) as Hraw.
  { unfold raw. pose proof (pretty_nonempty n). by destruct (pretty n). }
  rewrite Hraw. cbn [duration_loop]. rewrite Hraw. unfold raw at 2.
  destruct (pretty_digits n) as [Hd _].
  rewrite span_digits, pretty_nonempty, parse_uint_pretty; [|done|done|simpl; by rewrite Hc].
  assert (duration_unit raw d (String c (String c' rest)) false = Err Panic) as ->; [|done].
  unfold duration_unit. cbn [strip_prefix].
  assert (Ascii.eqb "s" c' = false) as ->.
  { apply Ascii.eqb_neq. intros <-. vm_compute in Hc'. discriminate. }
  rewrite Hc'. by destruct (Ascii.eqb "m" c).
Qed.

Lemma duration_multibyte_unit_panics_witness :
  parse_duration_literal (pretty 5 +:+ byte2 194 181) "send_timeout" = Err Panic.
Proof.
  apply (duration_multibyte_unit_panics 5 (ascii_of_N 194) (ascii_of_N 181) "" "send_timeout").
  - vm_compute. discriminate.
  - reflexivity.
  - reflexivity.
Defined.

(** ** What a successful parse guarantees *)

Lemma parse_single_duration_millis args d v :
  parse_single_duration_directive args d = Ok v -> exists ms, ms <= u64_max /\ v = from_millis ms.
Proof.
  destruct args as [|a [|]]; simpl; try discriminate. apply parse_duration_literal_millis.
Qed.

Lemma parse_positive_usize_bound args d n : parse_positive_usize args d = Ok n -> 1 <= n <= u64_max.
Proof.
  unfold parse_positive_usize. intros Hp. inv_lower. destruct (parse_uint usize_max a) as [v|] eqn:E; [|done].
  apply parse_uint_bound in E. destruct (N.eqb_spec v 0); inv_lower. unfold usize_max in E. lia.
Qed.

Lemma ensure_non_zero_Ok v d u : ensure_non_zero_duration v d = Ok u -> 0 < v.
Proof. unfold ensure_non_zero_duration, is_zero. destruct (N.eqb_spec v 0); [done|lia]. Qed.

Lemma set_once_Ok {T} (slot : option T) v d r : set_once slot v d = Ok r -> r = Some v.
Proof. destruct slot; simpl; [done|congruence]. Qed.

Lemma parse_http2_value_bound d v :
  parse_http2_value d = Ok v -> 1 <= v <= (if ends_with "window_size" (dir_name d) then i32_max else u32_max).
Proof.
  unfold parse_http2_value. intros Hp. inv_lower.
  destruct (N.eqb_spec a0 0); simpl in Hp; [done|].
  destruct (N.ltb_spec (if ends_with "window_size" (dir_name d) then i32_max else u32_max) a0); inv_lower. lia.
Qed.
