(* ===== verification/LowerPlugins.v ===== *)
(** * Lowering plugin blocks
    (crates/ngxora-compile/src/transform/plugins.rs, headers_plugin.rs, auth_plugins.rs)

    Each block becomes a [PluginSpec] whose configuration is the JSON its plugin
    reads. *)

From S2P Require Import Prelude RustStr NetAddr Crates Parser Ir Values.

Open Scope N_scope.

Definition isize_max : N := 9223372036854775807.

(** [for child in &block.children]: directives are applied, a nested block is
    refused with [nested]. *)
Definition apply_directives {S} (apply : S -> Directive -> lower S) (nested : string -> string)
    (config : S) (children : list Node) : lower S :=
  try_fold (fun config child =>
    match child with
    | NDirective directive => apply config directive
    | NBlock name _ _ => lerr (nested name)
    end) config children.

(** [#[serde(skip_serializing_if = "Option::is_none")]] and ["Vec::is_empty"]. *)
Definition opt_field (name : string) (o : option Json) : list (string * Json) :=
  match o with Some j => [(name, j)] | None => [] end.
Definition list_field (name : string) (l : list string) : list (string * Json) :=
  match l with [] => [] | _ => [(name, JArray (JString <$> l))] end.
Definition json_N (n : N) : Json := JInt (Z.of_N n).

(** ** rate-limit *)

Record RateLimitPluginConfig := mkRateLimit { max_requests_per_second : Z }.
Definition rate_limit_json (c : RateLimitPluginConfig) : Json :=
  JObject [("max_requests_per_second", JInt (max_requests_per_second c))].

Definition apply_rate_limit_directive (config : RateLimitPluginConfig) (directive : Directive)
  : lower RateLimitPluginConfig :=
  if String.eqb (dir_name directive) "rate" then
    val ← parse_exactly_one_argument (dir_args directive) "rate";
    match parse_int isize_max val with
    | None => lerr ("rate-limit block: rate must be an integer, got `" +:+ val +:+ "`")
    | Some rate =>
        if (rate <=? 0)%Z then lerr ("rate-limit block: rate must be positive, got `" +:+ pretty rate +:+ "`")
        else if (0 <? max_requests_per_second config)%Z then lerr "rate-limit block: duplicate `rate` directive"
        else Ok (mkRateLimit rate)
    end
  else lerr ("rate-limit block: unsupported directive " +:+ dir_name directive).

(** ** cors *)

Record CorsPluginConfig := mkCors {
  c_allow_origin : option string;
  c_allow_methods : option string;
  c_allow_headers : option string;
  c_expose_headers : option string;
  c_allow_credentials : option bool;
  c_max_age : option N
}.
Definition cors_json (c : CorsPluginConfig) : Json :=
  JObject (opt_field "allow_origin" (JString <$> c_allow_origin c)
    ++ opt_field "allow_methods" (JString <$> c_allow_methods c)
    ++ opt_field "allow_headers" (JString <$> c_allow_headers c)
    ++ opt_field "expose_headers" (JString <$> c_expose_headers c)
    ++ opt_field "allow_credentials" (JBool <$> c_allow_credentials c)
    ++ opt_field "max_age" (json_N <$> c_max_age c)).

Definition dquote : ascii := ascii_of_N 34.
(** [joined[1..joined.len() - 1]] when the text starts and ends with the quote. *)
Definition unquote_with (q : ascii) (s : string) : option string :=
  match s with
  | String c s' => if char_eqb c q then strip_suffix_char q s' else None
  | EmptyString => None
  end.

(** [check_dup] and [join_args]. *)
Definition cors_check_dup {A} (o : option A) (name : string) : lower unit :=
  if is_some o then lerr ("cors block: duplicate `" +:+ name +:+ "` directive") else Ok tt.
Definition cors_join_args (args : list string) (name : string) : lower string :=
  if is_nil args then lerr ("cors block: `" +:+ name +:+ "` requires at least 1 argument") else
  let joined := join " " args in
  Ok (match unquote_with dquote joined with
      | Some inner => inner
      | None => default joined (unquote_with "'" joined)
      end).

Definition apply_cors_directive (config : CorsPluginConfig) (directive : Directive) : lower CorsPluginConfig :=
  let '(mkCors origin methods headers expose credentials max_age) := config in
  let name := dir_name directive in
  let args := dir_args directive in
  if String.eqb name "allow_origin" then
    _ ← cors_check_dup origin name; v ← cors_join_args args name;
    Ok (mkCors (Some v) methods headers expose credentials max_age)
  else if String.eqb name "allow_methods" then
    _ ← cors_check_dup methods name; v ← cors_join_args args name;
    Ok (mkCors origin (Some v) headers expose credentials max_age)
  else if String.eqb name "allow_headers" then
    _ ← cors_check_dup headers name; v ← cors_join_args args name;
    Ok (mkCors origin methods (Some v) expose credentials max_age)
  else if String.eqb name "expose_headers" then
    _ ← cors_check_dup expose name; v ← cors_join_args args name;
    Ok (mkCors origin methods headers (Some v) credentials max_age)
  else if String.eqb name "allow_credentials" then
    _ ← cors_check_dup credentials name;
    val ← parse_exactly_one_argument args name;
    b ← (if String.eqb val "on" then Ok true else if String.eqb val "off" then Ok false
         else lerr ("cors block: " +:+ name +:+ " must be `on` or `off`, got `" +:+ val +:+ "`"));
    Ok (mkCors origin methods headers expose (Some b) max_age)
  else if String.eqb name "max_age" then
    _ ← cors_check_dup max_age name;
    val ← parse_exactly_one_argument args name;
    match parse_uint u64_max val with
    | None => lerr ("cors block: " +:+ name +:+ " must be an integer, got `" +:+ val +:+ "`")
    | Some age => Ok (mkCors origin methods headers expose credentials (Some age))
    end
  else lerr ("cors block: unsupported directive " +:+ name).

(** ** headers *)

Record HeaderEntry := mkHeaderEntry { he_name : string; he_value : string }.
Record HeaderPatchConfig := mkHeaderPatch {
  hp_add : list HeaderEntry;
  hp_set : list HeaderEntry;
  hp_remove : list string
}.
Record HeadersPluginConfig := mkHeadersPlugin {
  h_forward_client_ip : option bool;
  h_trusted_proxies : list string;
  h_request : HeaderPatchConfig;
  h_upstream_request : HeaderPatchConfig;
  h_response : HeaderPatchConfig
}.
Definition HeaderPatchConfig_default : HeaderPatchConfig := mkHeaderPatch [] [] [].

Definition header_entry_json (e : HeaderEntry) : Json :=
  JObject [("name", JString (he_name e)); ("value", JString (he_value e))].
Definition header_patch_json (p : HeaderPatchConfig) : Json :=
  JObject [("add", JArray (header_entry_json <$> hp_add p)); ("set", JArray (header_entry_json <$> hp_set p));
           ("remove", JArray (JString <$> hp_remove p))].
Definition headers_json (c : HeadersPluginConfig) : Json :=
  JObject (opt_field "forward_client_ip" (JBool <$> h_forward_client_ip c)
    ++ list_field "trusted_proxies" (h_trusted_proxies c)
    ++ [("request", header_patch_json (h_request c));
        ("upstream_request", header_patch_json (h_upstream_request c));
        ("response", header_patch_json (h_response c))]).

Definition parse_header_entry (args : list string) (directive : string) : lower HeaderEntry :=
  match args with
  | [] => lerr (directive +:+ ": expected header name and value")
  | [name] => lerr (directive +:+ ": expected header value for `" +:+ name +:+ "`")
  | name :: value => Ok (mkHeaderEntry name (join " " value))
  end.
Definition parse_header_remove (args : list string) (directive : string) : lower string :=
  match args with
  | [name] => Ok name
  | [] => lerr (directive +:+ ": expected header name")
  | _ => lerr (directive +:+ ": expected exactly 1 argument")
  end.

Definition push_add (p : HeaderPatchConfig) (e : HeaderEntry) : HeaderPatchConfig :=
  mkHeaderPatch (hp_add p ++ [e]) (hp_set p) (hp_remove p).
Definition push_set (p : HeaderPatchConfig) (e : HeaderEntry) : HeaderPatchConfig :=
  mkHeaderPatch (hp_add p) (hp_set p ++ [e]) (hp_remove p).
Definition push_remove (p : HeaderPatchConfig) (n : string) : HeaderPatchConfig :=
  mkHeaderPatch (hp_add p) (hp_set p) (hp_remove p ++ [n]).

Definition apply_headers_directive (config : HeadersPluginConfig) (directive : Directive)
  : lower HeadersPluginConfig :=
  let '(mkHeadersPlugin forward trusted request upstream response) := config in
  let name := dir_name directive in
  let args := dir_args directive in
  if String.eqb name "request_add" then
    e ← parse_header_entry args name; Ok (mkHeadersPlugin forward trusted (push_add request e) upstream response)
  else if String.eqb name "request_set" then
    e ← parse_header_entry args name; Ok (mkHeadersPlugin forward trusted (push_set request e) upstream response)
  else if String.eqb name "request_remove" then
    n ← parse_header_remove args name; Ok (mkHeadersPlugin forward trusted (push_remove request n) upstream response)
  else if String.eqb name "upstream_request_add" then
    e ← parse_header_entry args name; Ok (mkHeadersPlugin forward trusted request (push_add upstream e) response)
  else if String.eqb name "upstream_request_set" then
    e ← parse_header_entry args name; Ok (mkHeadersPlugin forward trusted request (push_set upstream e) response)
  else if String.eqb name "upstream_request_remove" then
    n ← parse_header_remove args name; Ok (mkHeadersPlugin forward trusted request (push_remove upstream n) response)
  else if String.eqb name "response_add" then
    e ← parse_header_entry args name; Ok (mkHeadersPlugin forward trusted request upstream (push_add response e))
  else if String.eqb name "response_set" then
    e ← parse_header_entry args name; Ok (mkHeadersPlugin forward trusted request upstream (push_set response e))
  else if String.eqb name "response_remove" then
    n ← parse_header_remove args name; Ok (mkHeadersPlugin forward trusted request upstream (push_remove response n))
  else if String.eqb name "forward_client_ip" then
    if is_some forward then lerr "headers block: duplicate forward_client_ip directive" else
    s ← get_directive_switch directive;
    Ok (mkHeadersPlugin (Some (bool_decide (s = On))) trusted request upstream response)
  else if String.eqb name "trusted_proxy" then
    v ← parse_exactly_one_argument args name;
    Ok (mkHeadersPlugin forward (trusted ++ [v]) request upstream response)
  else lerr ("headers block: unsupported directive " +:+ name).

(** ** basic-auth *)

Record BasicAuthPluginConfig := mkBasicAuth { ba_username : string; ba_password : string; ba_realm : option string }.
Definition basic_auth_json (c : BasicAuthPluginConfig) : Json :=
  JObject [("username", JString (ba_username c)); ("password", JString (ba_password c));
           ("realm", match ba_realm c with Some r => JString r | None => JNull end)].

Definition assign_basic_auth_string (slot field value : string) : lower string :=
  if negb (is_empty slot) then lerr ("basic-auth block: duplicate " +:+ field +:+ " directive") else Ok value.

Definition apply_basic_auth_directive (config : BasicAuthPluginConfig) (directive : Directive)
  : lower BasicAuthPluginConfig :=
  let name := dir_name directive in
  let args := dir_args directive in
  if String.eqb name "username" then
    value ← parse_basic_auth_single_value args "username" "expected exactly 1 argument";
    username ← assign_basic_auth_string (ba_username config) "username" value;
    Ok (mkBasicAuth username (ba_password config) (ba_realm config))
  else if String.eqb name "password" then
    value ← parse_basic_auth_joined_value args "password" "expected at least 1 argument";
    password ← assign_basic_auth_string (ba_password config) "password" value;
    Ok (mkBasicAuth (ba_username config) password (ba_realm config))
  else if String.eqb name "realm" then
    realm ← parse_basic_auth_joined_value args "realm" "expected at least 1 argument";
    if is_some (ba_realm config) then lerr "basic-auth block: duplicate realm directive"
    else Ok (mkBasicAuth (ba_username config) (ba_password config) (Some realm))
  else lerr ("basic-auth block: unsupported directive " +:+ name).

(** ** ext_authz *)

Record ExtAuthzPluginConfig := mkExtAuthz {
  ea_uri : string;
  ea_timeout_ms : option N;
  ea_allowed_hosts : list string;
  ea_pass_request_headers : list string;
  ea_pass_response_headers : list string
}.
Definition ext_authz_json (c : ExtAuthzPluginConfig) : Json :=
  JObject ([("uri", JString (ea_uri c))]
    ++ opt_field "timeout_ms" (json_N <$> ea_timeout_ms c)
    ++ list_field "allowed_hosts" (ea_allowed_hosts c)
    ++ list_field "pass_request_headers" (ea_pass_request_headers c)
    ++ list_field "pass_response_headers" (ea_pass_response_headers c)).

Definition apply_ext_authz_directive (config : ExtAuthzPluginConfig) (directive : Directive)
  : lower ExtAuthzPluginConfig :=
  let '(mkExtAuthz uri timeout hosts req resp) := config in
  let name := dir_name directive in
  let args := dir_args directive in
  if String.eqb name "uri" then
    if negb (is_empty uri) then lerr "ext_authz block: duplicate `uri` directive" else
    val ← parse_exactly_one_argument args name; Ok (mkExtAuthz val timeout hosts req resp)
  else if String.eqb name "timeout" then
    if is_some timeout then lerr "ext_authz block: duplicate `timeout` directive" else
    val ← parse_exactly_one_argument args name;
    if ends_with "ms" val || ends_with "s" val then
      lerr ("ext_authz block: `timeout` expects integer ms, got `" +:+ val +:+ "`. Strip suffix.")
    else match parse_uint u64_max val with
         | None => lerr ("ext_authz block: `timeout` must be an integer (ms), got `" +:+ val +:+ "`")
         | Some ms => Ok (mkExtAuthz uri (Some ms) hosts req resp)
         end
  else if String.eqb name "allowed_host" then
    val ← parse_exactly_one_argument args name; Ok (mkExtAuthz uri timeout (hosts ++ [val]) req resp)
  else if String.eqb name "pass_request_header" then
    val ← parse_exactly_one_argument args name; Ok (mkExtAuthz uri timeout hosts (req ++ [val]) resp)
  else if String.eqb name "pass_response_header" then
    val ← parse_exactly_one_argument args name; Ok (mkExtAuthz uri timeout hosts req (resp ++ [val]))
  else lerr ("ext_authz block: unsupported directive " +:+ name).

(** ** jwt_auth *)

Record JwtAuthPluginConfig := mkJwtAuth {
  ja_algorithm : string;
  ja_secret : option string;
  ja_secret_file : option string;
  ja_iss : option string;
  ja_aud : list string;
  ja_sub : option string;
  ja_required_scopes : list string
}.
Definition jwt_auth_json (c : JwtAuthPluginConfig) : Json :=
  JObject ([("algorithm", JString (ja_algorithm c))]
    ++ opt_field "secret" (JString <$> ja_secret c)
    ++ opt_field "secret_file" (JString <$> ja_secret_file c)
    ++ opt_field "iss" (JString <$> ja_iss c)
    ++ list_field "aud" (ja_aud c)
    ++ opt_field "sub" (JString <$> ja_sub c)
    ++ list_field "required_scopes" (ja_required_scopes c)).

(** A slot that may be set once. *)
Definition jwt_once (slot : option string) (args : list string) (name : string) : lower (option string) :=
  if is_some slot then lerr ("jwt_auth block: duplicate `" +:+ name +:+ "` directive")
  else val ← parse_exactly_one_argument args name; Ok (Some val).

Definition apply_jwt_auth_directive (config : JwtAuthPluginConfig) (directive : Directive)
  : lower JwtAuthPluginConfig :=
  let '(mkJwtAuth algorithm secret secret_file iss aud sub scopes) := config in
  let name := dir_name directive in
  let args := dir_args directive in
  if String.eqb name "algorithm" then
    if negb (is_empty algorithm) then lerr "jwt_auth block: duplicate `algorithm` directive" else
    val ← parse_exactly_one_argument args name; Ok (mkJwtAuth val secret secret_file iss aud sub scopes)
  else if String.eqb name "secret" then
    v ← jwt_once secret args name; Ok (mkJwtAuth algorithm v secret_file iss aud sub scopes)
  else if String.eqb name "secret_file" then
    v ← jwt_once secret_file args name; Ok (mkJwtAuth algorithm secret v iss aud sub scopes)
  else if String.eqb name "iss" then
    v ← jwt_once iss args name; Ok (mkJwtAuth algorithm secret secret_file v aud sub scopes)
  else if String.eqb name "aud" then
    v ← parse_exactly_one_argument args name; Ok (mkJwtAuth algorithm secret secret_file iss (aud ++ [v]) sub scopes)
  else if String.eqb name "sub" then
    v ← jwt_once sub args name; Ok (mkJwtAuth algorithm secret secret_file iss aud v scopes)
  else if String.eqb name "required_scope" then
    v ← parse_exactly_one_argument args name; Ok (mkJwtAuth algorithm secret secret_file iss aud sub (scopes ++ [v]))
  else lerr ("jwt_auth block: unsupported directive " +:+ name).

Section plugins.
Context `{Crates}.

(** The guard on the arguments shared by the block lowerings. *)
Definition no_args (block : Block) (shown : string) : lower unit :=
  if is_nil (blk_args block) then Ok tt else lerr (shown +:+ " block: does not accept arguments").

Definition lower_rate_limit_plugin (block : Block) : lower PluginSpec :=
  _ ← no_args block (blk_name block);
  config ← apply_directives apply_rate_limit_directive
             (fun nested => "rate-limit block: nested blocks are not supported: " +:+ nested) (mkRateLimit 0) (blk_children block);
  _ ← fail_if (max_requests_per_second config <=? 0)%Z (Message "rate-limit block: must specify positive `rate`");
  Ok (mkPluginSpec _ "rate-limit" (to_value (rate_limit_json config))).

Definition lower_cors_plugin (block : Block) : lower PluginSpec :=
  _ ← no_args block (blk_name block);
  config ← apply_directives apply_cors_directive
             (fun nested => "cors block: nested blocks are not supported: " +:+ nested)
             (mkCors None None None None None None) (blk_children block);
  Ok (mkPluginSpec _ "cors" (to_value (cors_json config))).

Definition lower_headers_plugin (block : Block) : lower PluginSpec :=
  _ ← no_args block "headers";
  config ← apply_directives apply_headers_directive
             (fun nested => "headers block: nested blocks are not supported: " +:+ nested)
             (mkHeadersPlugin None [] HeaderPatchConfig_default HeaderPatchConfig_default HeaderPatchConfig_default)
             (blk_children block);
  Ok (mkPluginSpec _ "headers" (to_value (headers_json config))).

Definition lower_basic_auth_plugin (block : Block) : lower PluginSpec :=
  _ ← no_args block (blk_name block);
  config ← apply_directives apply_basic_auth_directive
             (fun nested => "basic-auth block: nested blocks are not supported: " +:+ nested)
             (mkBasicAuth "" "" None) (blk_children block);
  Ok (mkPluginSpec _ "basic-auth" (to_value (basic_auth_json config))).

Definition lower_ext_authz_plugin (block : Block) : lower PluginSpec :=
  _ ← no_args block (blk_name block);
  config ← apply_directives apply_ext_authz_directive
             (fun nested => "ext_authz block: nested blocks are not supported: " +:+ nested)
             (mkExtAuthz "" None [] [] []) (blk_children block);
  _ ← fail_if (is_empty (ea_uri config)) (Message "ext_authz block: missing `uri` directive");
  _ ← fail_if (is_nil (ea_allowed_hosts config)) (Message "ext_authz block: missing `allowed_host` directive");
  Ok (mkPluginSpec _ "ext_authz" (to_value (ext_authz_json config))).

Definition lower_jwt_auth_plugin (block : Block) : lower PluginSpec :=
  _ ← no_args block (blk_name block);
  config ← apply_directives apply_jwt_auth_directive
             (fun nested => "jwt_auth block: nested blocks are not supported: " +:+ nested)
             (mkJwtAuth "" None None None [] None []) (blk_children block);
  _ ← fail_if (is_empty (ja_algorithm config)) (Message "jwt_auth block: missing `algorithm` directive");
  _ ← fail_if (is_none (ja_secret config) && is_none (ja_secret_file config))
        (Message "jwt_auth block: either `secret` or `secret_file` must be provided");
  Ok (mkPluginSpec _ "jwt_auth" (to_value (jwt_auth_json config))).

Definition parse_location_plugin_block (block : Block) : lower PluginSpec :=
  let name := blk_name block in
  if String.eqb name "headers" then lower_headers_plugin block
  else if String.eqb name "basic-auth" || String.eqb name "basic_auth" then lower_basic_auth_plugin block
  else if String.eqb name "rate-limit" then lower_rate_limit_plugin block
  else if String.eqb name "cors" then lower_cors_plugin block
  else if String.eqb name "ext_authz" then lower_ext_authz_plugin block
  else if String.eqb name "jwt_auth" then lower_jwt_auth_plugin block
  else lerr ("unexpected inner block in location: " +:+ name).
End plugins.
