(* ===== verification/LowerUpstreams.v ===== *)
(** * Lowering upstream and SCP blocks
    (crates/ngxora-compile/src/transform/upstreams.rs) *)

From S2P Require Import Prelude RustStr NetAddr Crates Parser Ir Values LowerPlugins.

Open Scope N_scope.

Definition lower_scp_directive (profile : ScpProfile) (directive : Directive) : lower ScpProfile :=
  let name := dir_name directive in
  value ← parse_exactly_one_argument (dir_args directive) name;
  if String.eqb name "api_root" && is_empty (scp_api_root profile) then
    Ok (mkScpProfile (scp_name profile) value (discovery_upstreams profile) (allowed_target_api_roots profile))
  else if String.eqb name "discovery_upstream" then
    Ok (mkScpProfile (scp_name profile) (scp_api_root profile) (discovery_upstreams profile ++ [value])
          (allowed_target_api_roots profile))
  else if String.eqb name "allow_target_api_root" then
    Ok (mkScpProfile (scp_name profile) (scp_api_root profile) (discovery_upstreams profile)
          (allowed_target_api_roots profile ++ [value]))
  else lerr ("scp: unsupported or duplicate directive `" +:+ name +:+ "`").

Definition lower_scp (block : Block) : lower ScpProfile :=
  name ← parse_exactly_one_argument (blk_args block) "scp";
  apply_directives lower_scp_directive (fun _ => "scp: nested blocks are not supported")
    (mkScpProfile name "" [] []) (blk_children block).

(** ** NRF discovery *)

Record NrfDiscoveryDraft := mkNrfDraft {
  nd_api_root : option string;
  nd_target_nf_type : option string;
  nd_requester_nf_type : option string;
  nd_service_name : option string;
  nd_endpoint_scheme : option NrfEndpointScheme;
  nd_timeout : option N;
  nd_stale_if_error : option N;
  nd_tls_options : UpstreamSslOptions
}.
Definition NrfDiscoveryDraft_default : NrfDiscoveryDraft :=
  mkNrfDraft None None None None None None None UpstreamSslOptions_default.

Definition apply_nrf_discovery_directive (draft : NrfDiscoveryDraft) (directive : Directive)
  : lower NrfDiscoveryDraft :=
  let '(mkNrfDraft root target requester service scheme timeout stale tls) := draft in
  let '(mkUpstreamSslOptions verify trusted cert key) := tls in
  let name := dir_name directive in
  let args := dir_args directive in
  let context := "nrf_discovery " +:+ name in
  if String.eqb name "api_root" || String.eqb name "target_nf_type"
     || String.eqb name "requester_nf_type" || String.eqb name "service_name" then
    value ← parse_exactly_one_argument args name;
    _ ← fail_if (is_empty (trim value)) (Message (context +:+ ": value cannot be empty"));
    if String.eqb name "api_root" then
      v ← set_once root value context; Ok (mkNrfDraft v target requester service scheme timeout stale tls)
    else if String.eqb name "target_nf_type" then
      v ← set_once target value context; Ok (mkNrfDraft root v requester service scheme timeout stale tls)
    else if String.eqb name "requester_nf_type" then
      v ← set_once requester value context; Ok (mkNrfDraft root target v service scheme timeout stale tls)
    else
      v ← set_once service value context; Ok (mkNrfDraft root target requester v scheme timeout stale tls)
  else if String.eqb name "endpoint_scheme" then
    value ← parse_exactly_one_argument args "nrf_discovery endpoint_scheme";
    s ← (if String.eqb value "http" then Ok NrfHttp else if String.eqb value "https" then Ok NrfHttps
         else lerr ("nrf_discovery endpoint_scheme: unsupported value `" +:+ value +:+ "`; expected http|https"));
    v ← set_once scheme s "nrf_discovery endpoint_scheme";
    Ok (mkNrfDraft root target requester service v timeout stale tls)
  else if String.eqb name "timeout" || String.eqb name "stale_if_error" then
    value ← parse_single_duration_directive args context;
    _ ← ensure_non_zero_duration value context;
    if String.eqb name "timeout" then
      v ← set_once timeout value context; Ok (mkNrfDraft root target requester service scheme v stale tls)
    else
      v ← set_once stale value context; Ok (mkNrfDraft root target requester service scheme timeout v tls)
  else if String.eqb name "ssl_verify" then
    s ← get_directive_switch directive;
    Ok (mkNrfDraft root target requester service scheme timeout stale (mkUpstreamSslOptions s trusted cert key))
  else if String.eqb name "ssl_trusted_certificate" || String.eqb name "ssl_certificate"
          || String.eqb name "ssl_certificate_key" then
    value ← parse_exactly_one_argument args name;
    let source := PemSource_new value in
    tls ← (if String.eqb name "ssl_trusted_certificate" then
             v ← set_once trusted source context; Ok (mkUpstreamSslOptions verify v cert key)
           else if String.eqb name "ssl_certificate" then
             v ← set_once cert source context; Ok (mkUpstreamSslOptions verify trusted v key)
           else
             v ← set_once key source context; Ok (mkUpstreamSslOptions verify trusted cert v));
    Ok (mkNrfDraft root target requester service scheme timeout stale tls)
  else lerr ("unsupported nrf_discovery directive: " +:+ name).

Definition nrf_required (value : option string) (name : string) : lower string :=
  ok_or value (Message ("nrf_discovery: " +:+ name +:+ " is required")).

Definition lower_nrf_discovery (block : Block) : lower NrfDiscovery :=
  _ ← fail_if (negb (is_nil (blk_args block))) (Message "nrf_discovery block: does not accept arguments");
  draft ← apply_directives apply_nrf_discovery_directive
            (fun _ => "nrf_discovery block: nested blocks are not supported")
            NrfDiscoveryDraft_default (blk_children block);
  api_root ← nrf_required (nd_api_root draft) "api_root";
  target ← nrf_required (nd_target_nf_type draft) "target_nf_type";
  requester ← nrf_required (nd_requester_nf_type draft) "requester_nf_type";
  service ← nrf_required (nd_service_name draft) "service_name";
  scheme ← ok_or (nd_endpoint_scheme draft) (Message "nrf_discovery: endpoint_scheme is required");
  Ok (mkNrfDiscovery api_root target requester service scheme
        (default (from_secs 3) (nd_timeout draft)) (default (from_secs 60) (nd_stale_if_error draft))
        (nd_tls_options draft)).

(** ** Health checks *)

Inductive UpstreamHealthCheckKind := KindTcp | KindHttp.

Record UpstreamHealthCheckDraft := mkHealthDraft {
  hd_check_type : option UpstreamHealthCheckKind;
  hd_timeout : option N;
  hd_interval : option N;
  hd_consecutive_success : option N;
  hd_consecutive_failure : option N;
  hd_host : option string;
  hd_path : option string;
  hd_use_tls : option bool
}.

Definition apply_upstream_health_check_directive (draft : UpstreamHealthCheckDraft) (directive : Directive)
  : lower UpstreamHealthCheckDraft :=
  let '(mkHealthDraft kind timeout interval success failure host path use_tls) := draft in
  let name := dir_name directive in
  let args := dir_args directive in
  let context := "health_check " +:+ name in
  if String.eqb name "type" then
    value ← parse_exactly_one_argument args context;
    k ← (if String.eqb value "tcp" then Ok KindTcp else if String.eqb value "http" then Ok KindHttp
         else lerr ("health_check type: unsupported value `" +:+ value +:+ "`; expected tcp|http"));
    v ← set_once kind k context; Ok (mkHealthDraft v timeout interval success failure host path use_tls)
  else if String.eqb name "timeout" then
    value ← parse_single_duration_directive args context;
    _ ← ensure_non_zero_duration value context;
    v ← set_once timeout value context; Ok (mkHealthDraft kind v interval success failure host path use_tls)
  else if String.eqb name "interval" then
    value ← parse_single_duration_directive args context;
    _ ← ensure_non_zero_duration value context;
    v ← set_once interval value context; Ok (mkHealthDraft kind timeout v success failure host path use_tls)
  else if String.eqb name "consecutive_success" then
    value ← parse_positive_usize args context;
    v ← set_once success value context; Ok (mkHealthDraft kind timeout interval v failure host path use_tls)
  else if String.eqb name "consecutive_failure" then
    value ← parse_positive_usize args context;
    v ← set_once failure value context; Ok (mkHealthDraft kind timeout interval success v host path use_tls)
  else if String.eqb name "host" then
    value ← parse_exactly_one_argument args context;
    _ ← fail_if (is_empty (trim value)) (Message "health_check host: value cannot be empty");
    v ← set_once host value context; Ok (mkHealthDraft kind timeout interval success failure v path use_tls)
  else if String.eqb name "path" then
    value ← parse_exactly_one_argument args context;
    v ← set_once path value context; Ok (mkHealthDraft kind timeout interval success failure host v use_tls)
  else if String.eqb name "use_tls" then
    s ← get_directive_switch directive;
    v ← set_once use_tls (bool_decide (s = On)) context;
    Ok (mkHealthDraft kind timeout interval success failure host path v)
  else lerr ("unsupported health_check directive: " +:+ name).

Definition health_check_type (draft : UpstreamHealthCheckDraft) : lower UpstreamHealthCheckType :=
  match default KindTcp (hd_check_type draft) with
  | KindTcp =>
      if is_some (hd_host draft) || is_some (hd_path draft) || is_some (hd_use_tls draft)
      then lerr "health_check: host/path/use_tls are only supported for type http" else Ok UpTcp
  | KindHttp =>
      host ← ok_or (hd_host draft) (Message "health_check: host is required for type http");
      let path := default "/" (hd_path draft) in
      _ ← fail_if (is_empty path) (Message "health_check: path cannot be empty");
      Ok (UpHttp host path (default false (hd_use_tls draft)))
  end.

Definition lower_upstream_health_check (block : Block) : lower UpstreamHealthCheck :=
  _ ← fail_if (negb (is_nil (blk_args block))) (Message "health_check block: does not accept arguments");
  draft ← apply_directives apply_upstream_health_check_directive
            (fun nested => "health_check block: nested blocks are not supported: " +:+ nested)
            (mkHealthDraft None None None None None None None None) (blk_children block);
  check_type ← health_check_type draft;
  Ok (mkUpstreamHealthCheck check_type (default (from_secs 1) (hd_timeout draft))
        (default (from_secs 5) (hd_interval draft))
        (default 1 (hd_consecutive_success draft)) (default 1 (hd_consecutive_failure draft))).

(** ** Servers of an upstream *)

Definition parse_upstream_policy (args : list string) : lower UpstreamSelectionPolicy :=
  match args with
  | [value] =>
      if String.eqb value "round_robin" then Ok RoundRobin
      else if String.eqb value "random" then Ok Random
      else if String.eqb value "consistent_hash" then Ok ConsistentHash
      else lerr ("policy: unsupported upstream selection policy `" +:+ value
                 +:+ "`; expected round_robin|random|consistent_hash")
  | [] => lerr "policy: expected 1 argument"
  | _ => lerr "policy: expected exactly 1 argument"
  end.

(** [rest[end + 1..]] after [rest.find(']')]. *)
Definition split_upstream_host_port (raw : string) : option (string * string) :=
  match strip_prefix "[" raw with
  | Some rest =>
      '(host, after) ← split_once "]" rest;
      port ← strip_prefix ":" after;
      if is_empty host || is_empty port || contains_any "/?#@" port then None else Some (host, port)
  | None =>
      '(host, port) ← rsplit_once ":" raw;
      if is_empty host || is_empty port || contains_any "/?#@" host || contains_any "/?#@:" port then None
      else Some (host, port)
  end.

(** The loop over the parameters: the weight and whether one was given. *)
Definition server_parameter (s : N * bool) (parameter : string) : lower (N * bool) :=
  match strip_prefix "weight=" parameter with
  | None => lerr ("upstream server: unsupported parameter `" +:+ parameter +:+ "`")
  | Some value =>
      _ ← fail_if (snd s) (Message "upstream server: weight is duplicated");
      match parse_uint u16_max value with
      | None => lerr ("upstream server: invalid weight `" +:+ value +:+ "`")
      | Some weight =>
          _ ← fail_if (weight =? 0) (Message "upstream server: weight must be greater than zero");
          Ok (weight, true)
      end
  end.

Definition parse_upstream_server (args : list string) : lower UpstreamServer :=
  match args with
  | [] => lerr "upstream server: expected host:port"
  | raw :: parameters =>
      '(host, port) ← ok_or (split_upstream_host_port raw)
                        (Message ("upstream server: expected host:port, got `" +:+ raw +:+ "`"));
      _ ← fail_if (is_empty host) (Message ("upstream server: missing host in `" +:+ raw +:+ "`"));
      port ← ok_or (parse_uint u16_max port) (Message ("upstream server: invalid port in `" +:+ raw +:+ "`"));
      '(weight, _) ← try_fold server_parameter (1, false) parameters;
      Ok (mkUpstreamServer host port weight)
  end.

Section upstreams.
Context `{Crates}.

Definition parse_upstream_hash_key (args : list string) : lower UpstreamHashKey :=
  let invalid := lerr "hash_key: expected `client_ip` or `header <name>`" in
  match args with
  | [value] => if String.eqb value "client_ip" then Ok HashClientIp else invalid
  | [kind; name] =>
      if String.eqb kind "header" then
        _ ← ok_or (header_name_from name) (Message ("hash_key: invalid HTTP header name `" +:+ name +:+ "`"));
        Ok (HashHeader name)
      else invalid
  | _ => invalid
  end.

Definition apply_upstream_directive (u : UpstreamBlock) (directive : Directive) : lower UpstreamBlock :=
  let '(mkUpstreamBlock allow_empty uname policy hash_key servers nrf health) := u in
  let name := dir_name directive in
  if String.eqb name "server" then
    s ← parse_upstream_server (dir_args directive);
    Ok (mkUpstreamBlock allow_empty uname policy hash_key (servers ++ [s]) nrf health)
  else if String.eqb name "policy" then
    p ← parse_upstream_policy (dir_args directive);
    Ok (mkUpstreamBlock allow_empty uname p hash_key servers nrf health)
  else if String.eqb name "hash_key" then
    if is_some hash_key then lerr "hash_key: directive is duplicated" else
    k ← parse_upstream_hash_key (dir_args directive);
    Ok (mkUpstreamBlock allow_empty uname policy (Some k) servers nrf health)
  else lerr ("unsupported upstream directive: " +:+ name).

(** One child of an [upstream] block. *)
Definition upstream_child (u : UpstreamBlock) (child : Node) : lower UpstreamBlock :=
  match child with
  | NDirective directive => apply_upstream_directive u directive
  | NBlock name args children =>
      let '(mkUpstreamBlock allow_empty uname policy hash_key servers nrf health) := u in
      if String.eqb name "health_check" then
        _ ← fail_if (is_some health) (Message "upstream block: health_check block is duplicated");
        h ← lower_upstream_health_check (mkBlock name args children);
        Ok (mkUpstreamBlock allow_empty uname policy hash_key servers nrf (Some h))
      else if String.eqb name "nrf_discovery" then
        _ ← fail_if (is_some nrf) (Message "upstream block: nrf_discovery block is duplicated");
        n ← lower_nrf_discovery (mkBlock name args children);
        Ok (mkUpstreamBlock allow_empty uname policy hash_key servers (Some n) health)
      else lerr ("upstream block: nested blocks are not supported: " +:+ name)
  end.

Definition lower_upstream (block : Block) : lower UpstreamBlock :=
  name ← match blk_args block with
         | [name] => if is_empty (trim name) then lerr "upstream block: expected exactly 1 argument" else Ok name
         | [] => lerr "upstream block: expected upstream name"
         | _ => lerr "upstream block: expected exactly 1 argument"
         end;
  try_fold upstream_child (mkUpstreamBlock false name RoundRobin None [] None None) (blk_children block).
End upstreams.
