(* ===== verification/LowerLocations.v ===== *)
(** * Lowering location blocks
    (crates/ngxora-compile/src/transform/locations.rs) *)

From S2P Require Import Prelude RustStr NetAddr Crates Parser Ir Values LowerPlugins.

Open Scope N_scope.

Definition parse_location_matcher (args : list string) : lower LocationMatcher :=
  let invalid := lerr ("invalid location args: " +:+ debug_list args) in
  match args with
  | [op; path] =>
      if String.eqb op "=" then Ok (LmExact path)
      else if String.eqb op "~" then Ok (LmRegex false path)
      else if String.eqb op "~*" then Ok (LmRegex true path)
      else if String.eqb op "^~" then Ok (LmPreferPrefix path)
      else invalid
  | [name] => if starts_with "@" name then Ok (LmNamed (trim_start_matches "@" name)) else Ok (LmPrefix name)
  | _ => invalid
  end.

(** Updates of one field of a [CacheConfig]. *)
Definition set_ttl (v : N) (c : CacheConfig) : CacheConfig :=
  mkCacheConfig (enabled c) (cache_max_size c) (Some v) (stale_if_error c) (cache_key c) (min_uses c) (valid_statuses c).
Definition set_stale (v : N) (c : CacheConfig) : CacheConfig :=
  mkCacheConfig (enabled c) (cache_max_size c) (ttl c) (Some v) (cache_key c) (min_uses c) (valid_statuses c).
Definition set_key (v : CacheKeyMode) (c : CacheConfig) : CacheConfig :=
  mkCacheConfig (enabled c) (cache_max_size c) (ttl c) (stale_if_error c) v (min_uses c) (valid_statuses c).
Definition set_min_uses (v : N) (c : CacheConfig) : CacheConfig :=
  mkCacheConfig (enabled c) (cache_max_size c) (ttl c) (stale_if_error c) (cache_key c) (Some v) (valid_statuses c).
Definition set_valid (v : list N) (c : CacheConfig) : CacheConfig :=
  mkCacheConfig (enabled c) (cache_max_size c) (ttl c) (stale_if_error c) (cache_key c) (min_uses c) v.
Definition set_max_size (v : N) (c : CacheConfig) : CacheConfig :=
  mkCacheConfig (enabled c) (Some v) (ttl c) (stale_if_error c) (cache_key c) (min_uses c) (valid_statuses c).
Definition CacheConfig_disabled : CacheConfig :=
  let d := CacheConfig_default in
  mkCacheConfig false (cache_max_size d) (ttl d) (stale_if_error d) (cache_key d) (min_uses d) (valid_statuses d).

Definition cache_key_mode (args : list string) : lower CacheKeyMode :=
  match args with
  | [mode] =>
      if String.eqb mode "uri" then Ok KeyUri
      else if String.eqb mode "uri_and_method" then Ok KeyUriAndMethod
      else if String.eqb mode "normalized_uri" then Ok KeyNormalizedUri
      else lerr ("proxy_cache_key: expected uri, uri_and_method, or normalized_uri, got " +:+ mode)
  | [] => lerr "proxy_cache_key: expected argument"
  | _ => lerr "proxy_cache_key: expected exactly 1 argument"
  end.

Definition parse_status (s : string) : lower N :=
  match parse_uint u16_max s with
  | Some n => Ok n
  | None => lerr ("proxy_cache_valid: invalid status code `" +:+ s +:+ "`")
  end.

(** The [proxy_cache] directive itself. *)
Definition proxy_cache_switch (args : list string) (existing : option CacheConfig) : lower (option CacheConfig) :=
  let invalid := lerr ("proxy_cache: expected 'on' or 'off', got " +:+ debug_list args) in
  match args with
  | [value] =>
      if String.eqb value "off" then
        if is_some existing then lerr "proxy_cache off cannot be used with other cache directives"
        else Ok (Some CacheConfig_disabled)
      else if String.eqb value "on" then Ok (Some CacheConfig_default)
      else invalid
  | [] => Ok (Some CacheConfig_default)
  | _ => invalid
  end.

Definition apply_cache_directive (directive : Directive) (existing : option CacheConfig) : lower (option CacheConfig) :=
  let name := dir_name directive in
  let args := dir_args directive in
  if String.eqb name "proxy_cache" then proxy_cache_switch args existing
  else if String.eqb name "proxy_cache_ttl" then
    ttl ← parse_single_duration_directive args name; Ok (set_ttl ttl <$> existing)
  else if String.eqb name "proxy_cache_stale_if_error" then
    duration ← parse_single_duration_directive args name; Ok (set_stale duration <$> existing)
  else if String.eqb name "proxy_cache_key" then
    mode ← cache_key_mode args; Ok (set_key mode <$> existing)
  else if String.eqb name "proxy_cache_min_uses" then
    min ← parse_positive_usize args name; Ok (set_min_uses min <$> existing)
  else if String.eqb name "proxy_cache_valid" then
    statuses ← mapM parse_status args;
    _ ← fail_if (is_nil statuses) (Message "proxy_cache_valid: expected at least one status code");
    Ok (set_valid statuses <$> existing)
  else if String.eqb name "proxy_cache_max_size" then
    raw ← parse_exactly_one_argument args name;
    size ← parse_size_literal raw name;
    Ok (set_max_size size <$> existing)
  else Ok None.

Definition parse_proxy_cache_block (block : Block) : lower CacheConfig :=
  _ ← fail_if (negb (is_nil (blk_args block))) (Message "proxy_cache block does not accept arguments");
  apply_directives (fun cache directive =>
      updated ← apply_cache_directive directive (Some cache);
      Ok (default cache updated))
    (fun nested => "proxy_cache block: nested blocks are not supported: " +:+ nested)
    CacheConfig_default (blk_children block).

Definition parse_proxy_upstream_protocol (args : list string) : lower UpstreamHttpProtocol :=
  match args with
  | [value] =>
      if String.eqb value "h1" then Ok H1
      else if String.eqb value "h2" then Ok H2
      else if String.eqb value "h2c" then Ok H2c
      else lerr "proxy_upstream_protocol: expected h1|h2|h2c"
  | [] => lerr "proxy_upstream_protocol: expected h1|h2|h2c"
  | _ => lerr "proxy_upstream_protocol: expected exactly 1 argument"
  end.

(** The PEM path directives of a location. *)
Definition pem_argument (args : list string) (name : string) : lower PemSource :=
  match args with
  | [path] => Ok (PemSource_new path)
  | [] => lerr (name +:+ ": expected 1 argument")
  | _ => lerr (name +:+ ": expected exactly 1 argument")
  end.

Section locations.
Context `{Crates}.

Definition access_network (args : list string) (name : string) (all : LocationIpRule) (one : IpNet -> LocationIpRule)
  : lower (option LocationIpRule) :=
  match args with
  | [value] =>
      if String.eqb value "all" then Ok (Some all)
      else match parse_network value with
           | Some network => Ok (Some (one network))
           | None => lerr (name +:+ ": expected an IP address or CIDR, got `" +:+ value +:+ "`")
           end
  | [] => lerr (name +:+ ": expected <ip>|<cidr>|all")
  | _ => lerr (name +:+ ": expected exactly 1 argument")
  end.

Definition apply_location_access_rule (directive : Directive) : lower (option LocationIpRule) :=
  let name := dir_name directive in
  if String.eqb name "allow" then access_network (dir_args directive) name AllowAll Allow
  else if String.eqb name "deny" then access_network (dir_args directive) name DenyAll Deny
  else Ok None.

Definition proxy_pass_directive (args : list string) : lower LocationDirective :=
  match args with
  | [raw_url] =>
      match url_parse raw_url with
      | Ok parsed_url => Ok (ProxyPass (PpUrl parsed_url))
      | Err e => lerr ("proxy_pass: invalid URL: " +:+ url_error_debug e)
      end
  | [] => lerr "proxy_pass: expected URL"
  | _ => lerr "proxy_pass: expected exactly 1 argument"
  end.

Definition return_directive (args : list string) : lower LocationDirective :=
  match args with
  | [code; location] =>
      match parse_uint u16_max code with
      | None => lerr ("return: invalid status code `" +:+ code +:+ "`")
      | Some status =>
          if (300 <=? status) && (status <=? 399) then Ok (Return_ status location)
          else lerr ("return: status " +:+ pretty status +:+ " is not a redirect (expected 3xx)")
      end
  | [] => lerr "return: expected 2 arguments: <status> <location>"
  | _ => lerr "return: expected exactly 2 arguments: <status> <location>"
  end.

Definition apply_location_directive (directive : Directive) : lower LocationDirective :=
  let name := dir_name directive in
  let args := dir_args directive in
  if String.eqb name "allow_methods" then
    if is_nil args then lerr "allow_methods requires at least one method" else Ok (AllowMethods args)
  else if String.eqb name "client_max_body_size" then
    raw ← parse_exactly_one_argument args name; size ← parse_size_literal raw name; Ok (ClientMaxBodySize size)
  else if String.eqb name "client_body_timeout" then
    d ← parse_single_duration_directive args name; Ok (ClientBodyTimeout d)
  else if String.eqb name "send_timeout" then
    d ← parse_single_duration_directive args name; Ok (SendTimeout d)
  else if String.eqb name "proxy_http2_max_concurrent_streams" then
    n ← parse_http2_value directive; Ok (ProxyHttp2MaxConcurrentStreams n)
  else if String.eqb name "proxy_http2_stream_window_size" then
    n ← parse_http2_value directive; Ok (ProxyHttp2StreamWindowSize n)
  else if String.eqb name "proxy_http2_connection_window_size" then
    n ← parse_http2_value directive; Ok (ProxyHttp2ConnectionWindowSize n)
  else if String.eqb name "scp_pass" then
    profile ← parse_exactly_one_argument args name; Ok (ScpPass profile)
  else if String.eqb name "proxy_pass" then proxy_pass_directive args
  else if String.eqb name "proxy_connect_timeout" then
    d ← parse_single_duration_directive args name; Ok (ProxyConnectTimeout d)
  else if String.eqb name "proxy_read_timeout" then
    d ← parse_single_duration_directive args name; Ok (ProxyReadTimeout d)
  else if String.eqb name "proxy_write_timeout" then
    d ← parse_single_duration_directive args name; Ok (ProxyWriteTimeout d)
  else if String.eqb name "proxy_upstream_protocol" then
    p ← parse_proxy_upstream_protocol args; Ok (ProxyUpstreamProtocol p)
  else if String.eqb name "proxy_ssl_verify" then
    s ← get_directive_switch directive; Ok (ProxySslVerify s)
  else if String.eqb name "proxy_ssl_trusted_certificate" then
    p ← pem_argument args name; Ok (ProxySslTrustedCertificate p)
  else if String.eqb name "proxy_ssl_certificate" then
    p ← pem_argument args name; Ok (ProxySslCertificate p)
  else if String.eqb name "proxy_ssl_certificate_key" then
    p ← pem_argument args name; Ok (ProxySslCertificateKey p)
  else if String.eqb name "return" then return_directive args
  else lerr ("unknown directive in location: " +:+ name).

(** [LocationContents], and the loop of [parse_location_contents]. *)
Record LocationContents := mkContents {
  lc_directives : list LocationDirective;
  lc_plugins : list PluginSpec;
  lc_cache : option CacheConfig;
  lc_access_rules : list LocationIpRule
}.

Definition location_node (s : LocationContents) (node : Node) : lower LocationContents :=
  let '(mkContents directives plugins cache rules) := s in
  match node with
  | NDirective directive =>
      cache_field ← apply_cache_directive directive cache;
      match cache_field with
      | Some field =>
          _ ← fail_if (is_some cache) (Message "duplicate proxy_cache directive in location");
          Ok (mkContents directives plugins (Some field) rules)
      | None =>
          rule ← apply_location_access_rule directive;
          match rule with
          | Some rule => Ok (mkContents directives plugins cache (rules ++ [rule]))
          | None =>
              d ← apply_location_directive directive;
              Ok (mkContents (directives ++ [d]) plugins cache rules)
          end
      end
  | NBlock name args children =>
      let block := mkBlock name args children in
      if String.eqb name "proxy_cache" then
        _ ← fail_if (is_some cache) (Message "duplicate proxy_cache block in location");
        c ← parse_proxy_cache_block block;
        Ok (mkContents directives plugins (Some c) rules)
      else
        plugin ← parse_location_plugin_block block;
        Ok (mkContents directives (plugins ++ [plugin]) cache rules)
  end.

Definition parse_location_contents (nodes : list Node) : lower LocationContents :=
  try_fold location_node (mkContents [] [] None []) nodes.

Definition lower_location (block : Block) : lower Location :=
  matcher ← parse_location_matcher (blk_args block);
  contents ← parse_location_contents (blk_children block);
  Ok (mkLocation matcher (lc_access_rules contents) (lc_directives contents) (lc_plugins contents) (lc_cache contents)).
End locations.
