(* ===== verification/Lowering.v ===== *)
(** * Lowering the AST to the IR
    (crates/ngxora-compile/src/transform.rs, transform/listeners.rs, transform/geoip.rs
    and validate.rs) *)

From S2P Require Import Prelude RustStr NetAddr Crates Parser Ir Values LowerPlugins LowerUpstreams LowerLocations.

Open Scope N_scope.

(** ** Servers and listeners *)

Definition ssl_provider_directive (config : LetsEncryptConfig) (directive : Directive) : lower LetsEncryptConfig :=
  let name := dir_name directive in
  if String.eqb name "acme_directory" then
    raw ← parse_exactly_one_argument (dir_args directive) name;
    Ok (mkLetsEncryptConfig (Some raw) (email config) (cache_dir config))
  else if String.eqb name "email" then
    raw ← parse_exactly_one_argument (dir_args directive) name;
    Ok (mkLetsEncryptConfig (acme_directory config) (Some raw) (cache_dir config))
  else if String.eqb name "cache_dir" then
    raw ← parse_exactly_one_argument (dir_args directive) name;
    Ok (mkLetsEncryptConfig (acme_directory config) (email config) (Some raw))
  else lerr ("ssl_provider: unsupported directive `" +:+ name +:+ "`").

Definition lower_ssl_provider (block : Block) : lower LetsEncryptConfig :=
  let unsupported := lerr "ssl_provider: only 'letsencrypt' is supported as a provider name" in
  _ ← match blk_args block with
      | [name] => if String.eqb name "letsencrypt" then Ok tt else unsupported
      | [] => lerr "ssl_provider: expected provider name (letsencrypt)"
      | _ => unsupported
      end;
  apply_directives ssl_provider_directive (fun name => "ssl_provider: unexpected block `" +:+ name +:+ "`")
    (mkLetsEncryptConfig None None None) (blk_children block).

Definition listen_endpoint (endpoint : string) : lower (IpAddr * N) :=
  match strip_prefix "*:" endpoint with
  | Some port_str =>
      match parse_uint u16_max port_str with
      | Some port => Ok (UNSPECIFIED_V4, port)
      | None => lerr ("listen: invalid port " +:+ debug_str port_str)
      end
  | None =>
      if starts_with "unix:" endpoint then lerr "listen: unix sockets not supported"
      else match parse_socket_addr endpoint with
           | Some sa => Ok (sa_ip sa, sa_port sa)
           | None =>
               match parse_uint u16_max endpoint with
               | Some port => Ok (UNSPECIFIED_V4, port)
               | None => lerr ("Failed parse address: " +:+ debug_str endpoint)
               end
           end
  end.

Definition listen_param (params : list string) (l : Listen) (p : string) : lower Listen :=
  let '(mkListen addr port ssl default_server http2 http2_only) := l in
  if String.eqb p "ssl" then Ok (mkListen addr port true default_server http2 http2_only)
  else if String.eqb p "default_server" then Ok (mkListen addr port ssl true http2 http2_only)
  else if String.eqb p "http2" then Ok (mkListen addr port ssl default_server true http2_only)
  else if String.eqb p "http2_only" then Ok (mkListen addr port ssl default_server true true)
  else lerr ("Unknow params: " +:+ debug_list params).

Definition parse_listen_directives (args : list string) : lower Listen :=
  match args with
  | [] => lerr "listen: expected endpoint"
  | endpoint :: params =>
      '(addr, port) ← listen_endpoint endpoint;
      listen ← try_fold (listen_param params) (mkListen addr port false false false false) params;
      _ ← fail_if (l_http2 listen && negb (l_ssl listen))
            (Message "listen: http2/http2_only requires ssl; use h2c for plaintext HTTP/2");
      Ok listen
  end.

Definition tls_version (arg : string) : lower TlsProtocolVersion :=
  if String.eqb arg "TLSv1" then Ok Tls1
  else if String.eqb arg "TLSv1.2" then Ok Tls1_2
  else if String.eqb arg "TLSv1.3" then Ok Tls1_3
  else lerr ("ssl_protocols: unsupported protocol `" +:+ arg +:+ "`").

(** The versions in ascending order: the [BTreeSet] as a vector. *)
Definition parse_ssl_protocols (args : list string) : lower TlsProtocolBounds :=
  _ ← fail_if (is_nil args) (Message "ssl_protocols: expected at least 1 argument");
  given ← mapM tls_version args;
  match List.filter (fun v => bool_decide (v ∈ given)) [Tls1; Tls1_2; Tls1_3] with
  | [version] => Ok (mkTlsProtocolBounds version version)
  | [Tls1_2; Tls1_3] => Ok (mkTlsProtocolBounds Tls1_2 Tls1_3)
  | _ => lerr "ssl_protocols: supported combinations are `TLSv1`, `TLSv1.2`, `TLSv1.3`, or `TLSv1.2 TLSv1.3`"
  end.

Definition parse_ssl_verify_client (args : list string) : lower TlsVerifyClient :=
  match args with
  | [value] =>
      if String.eqb value "off" then Ok VerifyOff
      else if String.eqb value "optional" then Ok VerifyOptional
      else if String.eqb value "required" then Ok VerifyRequired
      else lerr "ssl_verify_client: expected off|optional|required"
  | [] => lerr "ssl_verify_client: expected off|optional|required"
  | _ => lerr "ssl_verify_client: expected exactly one argument"
  end.

(** [get_or_insert_with(|| Custom(default))], then the update when it is [Custom]. *)
Definition update_identity (t : option SslProvider) (f : TlsIdentity -> TlsIdentity) : option SslProvider :=
  match default (Custom TlsIdentity_default) t with
  | Custom id => Some (Custom (f id))
  | LetsEncrypt => Some LetsEncrypt
  end.

Section lowering.
Context `{Crates}.

Definition apply_server_directive (server : Server) (d : Directive) : lower Server :=
  let '(mkServer names locs lis t opts) := server in
  let name := dir_name d in
  let args := dir_args d in
  if String.eqb name "listen" then
    listen ← parse_listen_directives args; Ok (mkServer names locs (lis ++ [listen]) t opts)
  else if String.eqb name "server_name" then
    if is_nil args then lerr "server_name: expected at least 1 argument"
    else Ok (mkServer (names ++ args) locs lis t opts)
  else if String.eqb name "ssl_certificate" then
    ps ← pem_argument args name;
    Ok (mkServer names locs lis (update_identity t (fun id => mkTlsIdentity ps (key id))) opts)
  else if String.eqb name "ssl_certificate_key" then
    ps ← pem_argument args name;
    Ok (mkServer names locs lis (update_identity t (fun id => mkTlsIdentity (cert id) ps)) opts)
  else if String.eqb name "ssl_protocols" then
    p ← parse_ssl_protocols args;
    Ok (mkServer names locs lis t (mkDownstreamTlsOptions (Some p) (verify_client opts) (dt_client_certificate opts)))
  else if String.eqb name "ssl_verify_client" then
    v ← parse_ssl_verify_client args;
    Ok (mkServer names locs lis t (mkDownstreamTlsOptions (protocols opts) v (dt_client_certificate opts)))
  else if String.eqb name "ssl_client_certificate" then
    ps ← pem_argument args name;
    Ok (mkServer names locs lis t (mkDownstreamTlsOptions (protocols opts) (verify_client opts) (Some ps)))
  else lerr ("unsupported server directive: " +:+ name).

Definition validate_server (server : Server) : lower unit :=
  fail_if (negb (bool_decide (verify_client (tls_options server) = VerifyOff))
           && is_none (dt_client_certificate (tls_options server)))
    (Message "ssl_verify_client: requires ssl_client_certificate").

(** One child of a [server] block. *)
Definition server_child (server : Server) (child : Node) : lower Server :=
  match child with
  | NDirective directive => apply_server_directive server directive
  | NBlock name _ _ =>
      match block_named child "location" with
      | Some b =>
          location ← lower_location b;
          Ok (mkServer (server_names server) (locations server ++ [location]) (listens server) (tls server)
                (tls_options server))
      | None => lerr ("Unknown name of block: " +:+ debug_str name)
      end
  end.

Definition lower_server (block : Block) : lower Server :=
  server ← try_fold server_child Server_default (blk_children block);
  _ ← validate_server server;
  Ok server.

(** ** GeoIP *)

Record geoip_draft := mkGeoDraft {
  gd_database : option string;
  gd_interval : option N;
  gd_trusted_proxies : list IpNet
}.

Definition geoip_node (s : geoip_draft) (node : Node) : lower geoip_draft :=
  match node with
  | NBlock _ _ _ => lerr "geoip does not accept nested blocks"
  | NDirective d =>
      match dir_args d with
      | [value] =>
          if String.eqb (dir_name d) "database" && is_none (gd_database s) then
            Ok (mkGeoDraft (Some value) (gd_interval s) (gd_trusted_proxies s))
          else if String.eqb (dir_name d) "reload_interval" && is_none (gd_interval s) then
            i ← parse_single_duration_directive (dir_args d) "geoip reload_interval";
            Ok (mkGeoDraft (gd_database s) (Some i) (gd_trusted_proxies s))
          else if String.eqb (dir_name d) "trusted_proxy" then
            n ← ok_or (parse_network value) (Message "invalid geoip trusted_proxy: expected IP or CIDR");
            Ok (mkGeoDraft (gd_database s) (gd_interval s) (gd_trusted_proxies s ++ [n]))
          else lerr "unknown or duplicate geoip directive"
      | _ => lerr "geoip directives require exactly one argument"
      end
  end.

Definition lower_geoip (block : Block) : lower GeoIpConfig :=
  _ ← fail_if (negb (is_nil (blk_args block))) (Message "geoip block takes no arguments");
  draft ← try_fold geoip_node (mkGeoDraft None None []) (blk_children block);
  database ← ok_or (gd_database draft) (Message "geoip requires database");
  let config := mkGeoIpConfig database (default (from_secs 5) (gd_interval draft)) (gd_trusted_proxies draft) in
  _ ← map_err Message (GeoIpConfig_validate config);
  Ok config.

(** ** The http block *)

(** Updates of the fields of [Http]. *)
Definition with_real_ip (h : Http) (v : option RealIpConfig) : Http :=
  mkHttp v (client_header_timeout h) (client_body_timeout h) (send_timeout h) (scp_profiles h) (upstreams h)
    (servers h) (keepalive_timeout h) (keepalive_requests h) (client_max_body_size h) (proxy_cache_max_size h)
    (tcp_nodelay h) (allow_connect_method_proxying h) (h2c h) (http2 h) (ssl_provider h) (geoip h).
Definition with_timeouts (h : Http) (header body send : option N) : Http :=
  mkHttp (real_ip h) header body send (scp_profiles h) (upstreams h)
    (servers h) (keepalive_timeout h) (keepalive_requests h) (client_max_body_size h) (proxy_cache_max_size h)
    (tcp_nodelay h) (allow_connect_method_proxying h) (h2c h) (http2 h) (ssl_provider h) (geoip h).
Definition with_blocks (h : Http) (scp : list ScpProfile) (ups : list UpstreamBlock) (srv : list Server) : Http :=
  mkHttp (real_ip h) (client_header_timeout h) (client_body_timeout h) (send_timeout h) scp ups srv
    (keepalive_timeout h) (keepalive_requests h) (client_max_body_size h) (proxy_cache_max_size h)
    (tcp_nodelay h) (allow_connect_method_proxying h) (h2c h) (http2 h) (ssl_provider h) (geoip h).
Definition with_limits (h : Http) (keepalive : KeepaliveTimeout) (requests body cache : option N) : Http :=
  mkHttp (real_ip h) (client_header_timeout h) (client_body_timeout h) (send_timeout h) (scp_profiles h) (upstreams h)
    (servers h) keepalive requests body cache
    (tcp_nodelay h) (allow_connect_method_proxying h) (h2c h) (http2 h) (ssl_provider h) (geoip h).
Definition with_switches (h : Http) (nodelay connect plain2 : Switch) (h2 : Http2Options) : Http :=
  mkHttp (real_ip h) (client_header_timeout h) (client_body_timeout h) (send_timeout h) (scp_profiles h) (upstreams h)
    (servers h) (keepalive_timeout h) (keepalive_requests h) (client_max_body_size h) (proxy_cache_max_size h)
    nodelay connect plain2 h2 (ssl_provider h) (geoip h).
Definition with_providers (h : Http) (le : option LetsEncryptConfig) (geo : option GeoIpConfig) : Http :=
  mkHttp (real_ip h) (client_header_timeout h) (client_body_timeout h) (send_timeout h) (scp_profiles h) (upstreams h)
    (servers h) (keepalive_timeout h) (keepalive_requests h) (client_max_body_size h) (proxy_cache_max_size h)
    (tcp_nodelay h) (allow_connect_method_proxying h) (h2c h) (http2 h) le geo.

(** [slot.replace(value).is_some()]: an error when the slot was set. *)
Definition replace_once {A} (slot : option A) (value : A) (name : string) : lower (option A) :=
  if is_some slot then lerr (name +:+ " is duplicated in http") else Ok (Some value).

Definition is_http2_slot (name : string) : bool :=
  existsb (String.eqb name)
    ["http2_max_concurrent_streams"; "http2_max_header_list_size"; "http2_stream_window_size";
     "http2_connection_window_size"].

Definition set_http2_slot (o : Http2Options) (name : string) (value : N) : lower Http2Options :=
  let '(mkHttp2Options streams headers window conn) := o in
  if String.eqb name "http2_max_concurrent_streams" then
    v ← replace_once streams value name; Ok (mkHttp2Options v headers window conn)
  else if String.eqb name "http2_max_header_list_size" then
    v ← replace_once headers value name; Ok (mkHttp2Options streams v window conn)
  else if String.eqb name "http2_stream_window_size" then
    v ← replace_once window value name; Ok (mkHttp2Options streams headers v conn)
  else
    v ← replace_once conn value name; Ok (mkHttp2Options streams headers window v).

Definition apply_http_directive (h : Http) (d : Directive) : lower Http :=
  let name := dir_name d in
  let args := dir_args d in
  let config := default RealIpConfig_default (real_ip h) in
  if is_http2_slot name then
    value ← parse_http2_value d;
    o ← set_http2_slot (http2 h) name value;
    Ok (with_switches h (tcp_nodelay h) (allow_connect_method_proxying h) (h2c h) o)
  else if String.eqb name "set_real_ip_from" then
    value ← parse_exactly_one_argument args name;
    network ← ok_or (parse_network value) (Message "set_real_ip_from: expected IP or CIDR");
    Ok (with_real_ip h (Some (mkRealIpConfig (trusted_proxies config ++ [network]) (real_ip_header config) (recursive config))))
  else if String.eqb name "real_ip_header" then
    header ← parse_exactly_one_argument args name;
    let config := mkRealIpConfig (trusted_proxies config) header (recursive config) in
    _ ← map_err Message (RealIpConfig_validate config);
    Ok (with_real_ip h (Some config))
  else if String.eqb name "real_ip_recursive" then
    s ← get_directive_switch d;
    Ok (with_real_ip h (Some (mkRealIpConfig (trusted_proxies config) (real_ip_header config) (bool_decide (s = On)))))
  else if String.eqb name "client_header_timeout" then
    value ← parse_single_duration_directive args name;
    v ← replace_once (client_header_timeout h) value name;
    Ok (with_timeouts h v (client_body_timeout h) (send_timeout h))
  else if String.eqb name "client_body_timeout" then
    value ← parse_single_duration_directive args name;
    v ← replace_once (client_body_timeout h) value name;
    Ok (with_timeouts h (client_header_timeout h) v (send_timeout h))
  else if String.eqb name "send_timeout" then
    value ← parse_single_duration_directive args name;
    v ← replace_once (send_timeout h) value name;
    Ok (with_timeouts h (client_header_timeout h) (client_body_timeout h) v)
  else if String.eqb name "keepalive_timeout" then
    k ← parse_keepalive_timeout args;
    Ok (with_limits h k (keepalive_requests h) (client_max_body_size h) (proxy_cache_max_size h))
  else if String.eqb name "keepalive_requests" then
    n ← parse_keepalive_requests args;
    Ok (with_limits h (keepalive_timeout h) (Some n) (client_max_body_size h) (proxy_cache_max_size h))
  else if String.eqb name "client_max_body_size" then
    n ← parse_client_max_body_size args;
    Ok (with_limits h (keepalive_timeout h) (keepalive_requests h) n (proxy_cache_max_size h))
  else if String.eqb name "tcp_nodelay" then
    s ← get_directive_switch d; Ok (with_switches h s (allow_connect_method_proxying h) (h2c h) (http2 h))
  else if String.eqb name "allow_connect_method_proxying" then
    s ← get_directive_switch d; Ok (with_switches h (tcp_nodelay h) s (h2c h) (http2 h))
  else if String.eqb name "h2c" then
    s ← get_directive_switch d; Ok (with_switches h (tcp_nodelay h) (allow_connect_method_proxying h) s (http2 h))
  else if String.eqb name "proxy_cache_max_size" then
    raw ← parse_exactly_one_argument args name;
    size ← parse_size_literal raw name;
    Ok (with_limits h (keepalive_timeout h) (keepalive_requests h) (client_max_body_size h) (Some size))
  else lerr ("unsupported http directive: " +:+ name).

(** One child of the [http] block. *)
Definition http_child (h : Http) (child : Node) : lower Http :=
  match child with
  | NDirective directive => apply_http_directive h directive
  | NBlock name args children =>
      let block := mkBlock name args children in
      if String.eqb name "geoip" then
        _ ← fail_if (is_some (geoip h)) (Message "duplicate geoip block");
        g ← lower_geoip block; Ok (with_providers h (ssl_provider h) (Some g))
      else if String.eqb name "scp" then
        p ← lower_scp block; Ok (with_blocks h (scp_profiles h ++ [p]) (upstreams h) (servers h))
      else if String.eqb name "server" then
        s ← lower_server block; Ok (with_blocks h (scp_profiles h) (upstreams h) (servers h ++ [s]))
      else if String.eqb name "upstream" then
        u ← lower_upstream block; Ok (with_blocks h (scp_profiles h) (upstreams h ++ [u]) (servers h))
      else if String.eqb name "ssl_provider" then
        _ ← fail_if (is_some (ssl_provider h)) (Message "duplicate ssl_provider block");
        p ← lower_ssl_provider block; Ok (with_providers h (Some p) (geoip h))
      else lerr ("Unknown block name: " +:+ debug_str name)
  end.

Definition has_ssl_listener (server : Server) : bool := existsb l_ssl (listens server).

(** Let's Encrypt for the TLS servers without a certificate of their own. *)
Definition assign_provider (server : Server) : Server :=
  if has_ssl_listener server && is_none (tls server)
  then mkServer (server_names server) (locations server) (listens server) (Some LetsEncrypt) (tls_options server)
  else server.

(** The check of one TLS server. *)
Definition check_server_tls (h : Http) (server : Server) : lower unit :=
  if negb (has_ssl_listener server) then Ok tt else
  match tls server with
  | Some (Custom id) =>
      _ ← fail_if (bool_decide (cert id = PemPath "")) (Message "ssl listener requires ssl_certificate");
      fail_if (bool_decide (key id = PemPath "")) (Message "ssl listener requires ssl_certificate_key")
  | Some LetsEncrypt =>
      _ ← fail_if (is_none (ssl_provider h))
            (Message "ssl listener with LetsEncrypt provider requires an ssl_provider letsencrypt { ... } block in http");
      _ ← fail_if (is_nil (server_names server))
            (Message "ssl listener with LetsEncrypt requires at least one server_name for certificate issuance");
      fail_if (1 <? N.of_nat (length (server_names server)))
        (Message "ssl listener with LetsEncrypt currently supports exactly one server_name; split aliases into separate server blocks or use a manual certificate")
  | None =>
      lerr "ssl listener requires a certificate: use ssl_certificate / ssl_certificate_key, or enable ssl_provider letsencrypt"
  end.

Definition lower_http (block : Block) : lower Http :=
  h ← try_fold http_child Http_default (blk_children block);
  let h := if is_some (ssl_provider h)
           then with_blocks h (scp_profiles h) (upstreams h) (assign_provider <$> servers h) else h in
  _ ← try_fold (fun _ server => check_server_tls h server) tt (servers h);
  Ok h.

(** The loop of [Ir::from_ast]: the last [http] block wins, other top-level nodes
    are ignored. *)
Definition from_ast_node (acc : option Http) (node : Node) : lower (option Http) :=
  match node with
  | NDirective _ => Ok acc
  | NBlock name args children =>
      if String.eqb name "http" then h ← lower_http (mkBlock name args children); Ok (Some h) else Ok acc
  end.
Definition from_ast (ast : Ast) : lower Ir :=
  h ← try_fold from_ast_node None (items ast);
  Ok (mkIr h).

(** ** validate.rs *)

Definition validate_weight (upstream : UpstreamBlock) (total : N) (server : UpstreamServer) : result string N :=
  _ ← fail_if (us_weight server =? 0)
        ("upstream `" +:+ up_name upstream +:+ "` backend `" +:+ us_host server +:+ ":" +:+ pretty (us_port server)
         +:+ "` weight must be greater than zero");
  Ok ((total + us_weight server) mod (u32_max + 1)).

Definition validate_upstream (upstream : UpstreamBlock) : result string unit :=
  let quoted := "upstream `" +:+ up_name upstream +:+ "`" in
  _ ← fail_if (is_nil (up_servers upstream) && is_none (up_nrf_discovery upstream) && negb (up_allow_empty upstream))
        (quoted +:+ " must define at least one server or nrf_discovery");
  _ ← fail_if (negb (is_nil (up_servers upstream)) && is_some (up_nrf_discovery upstream))
        (quoted +:+ " cannot combine server directives with nrf_discovery");
  _ ← fail_if (is_some (up_nrf_discovery upstream) && is_none (up_health_check upstream))
        (quoted +:+ " with nrf_discovery must define health_check");
  total_weight ← try_fold (validate_weight upstream) 0 (up_servers upstream);
  _ ← fail_if (u16_max <? total_weight)
        (quoted +:+ " total backend weight must not exceed " +:+ pretty u16_max);
  _ ← match up_policy upstream, up_hash_key upstream with
      | ConsistentHash, _ => Ok tt
      | _, Some _ => Err (quoted +:+ " hash_key requires policy consistent_hash")
      | _, None => Ok tt
      end;
  match up_hash_key upstream with
  | Some (HashHeader name) =>
      fail_if (is_none (header_name_from name))
        (quoted +:+ " hash_key has invalid HTTP header name `" +:+ name +:+ "`")
  | _ => Ok tt
  end.

Definition unsupported_location_directive (server_index location_index : N) (directive : string) : string :=
  "server " +:+ pretty (server_index + 1) +:+ " location " +:+ pretty (location_index + 1)
  +:+ " uses unsupported directive `" +:+ directive +:+ "`".

Definition count_validated_action (si li : N) (count : N) (d : LocationDirective) : result string N :=
  match d with
  | ProxyPass _ | ScpPass _ | Return_ _ _ | WeightedBackends _ | DirectResponse _ | DHttpRedirect _ => Ok (count + 1)
  | Root _ => Err (unsupported_location_directive si li "root")
  | TryFiles _ => Err (unsupported_location_directive si li "try_files")
  | _ => Ok count
  end.

Definition validate_location (si li : N) (location : Location) : result string unit :=
  action_count ← try_fold (count_validated_action si li) 0 (loc_directives location);
  fail_if (negb (action_count =? 1))
    ("server " +:+ pretty (si + 1) +:+ " location " +:+ pretty (li + 1)
     +:+ " must contain exactly one proxy_pass or return directive").

(** [for (index, x) in l.iter().enumerate()]. *)
Fixpoint try_enumerate {A} (f : N -> A -> result string unit) (i : N) (l : list A) : result string unit :=
  match l with
  | [] => Ok tt
  | x :: l' => _ ← f i x; try_enumerate f (i + 1) l'
  end.

Definition validate (ir : Ir) : result string unit :=
  h ← ok_or (http ir) "configuration does not contain an http block";
  _ ← fail_if (is_nil (servers h)) "http block does not contain any server blocks";
  _ ← try_fold (fun _ u => validate_upstream u) tt (upstreams h);
  try_enumerate (fun si server => try_enumerate (validate_location si) 0 (locations server)) 0 (servers h).
End lowering.

(** ** What lowering establishes *)

Ltac split_names :=
  repeat first
  [ match goal with
    | H : (if ?b then _ else _) = Ok _ |- _ => destruct b eqn:?
    | H : match ?x with _ => _ end = Ok _ |- _ => destruct x eqn:?
    end
  | progress inv_lower ].

Definition upstream_server_lowered (s : UpstreamServer) : Prop :=
  us_host s <> "" /\ us_port s <= u16_max /\ 1 <= us_weight s <= u16_max.

Record upstream_lowered (u : UpstreamBlock) : Prop := mkUpstreamLowered {
  ul_name : is_empty (trim (up_name u)) = false;
  ul_allow_empty : up_allow_empty u = false;
  ul_servers : Forall upstream_server_lowered (up_servers u);
  ul_nrf : forall n, up_nrf_discovery u = Some n -> 0 < nrf_timeout n /\ 0 < nrf_stale_if_error n;
  ul_health : forall c, up_health_check u = Some c ->
    0 < uhc_timeout c /\ 0 < uhc_interval c /\ 1 <= uhc_consecutive_success c /\ 1 <= uhc_consecutive_failure c
}.

Lemma server_parameters_lowered l s s' :
  try_fold server_parameter s l = Ok s' -> 1 <= fst s <= u16_max -> 1 <= fst s' <= u16_max.
Proof.
  intros Hf Hs. eapply (try_fold_inv (fun s => 1 <= fst s <= u16_max) _ _ _ _ _ Hs Hf). Unshelve.
  intros s0 x s1 _ Hs0 Hp. unfold server_parameter in Hp. destruct (strip_prefix "weight=" x) as [v|]; [|done].
  inv_lower. destruct (parse_uint u16_max v) as [w|] eqn:E; [|done]. inv_lower.
  apply parse_uint_bound in E. apply N.eqb_neq in Hok0. simpl. lia.
Qed.

Lemma parse_upstream_server_lowered args s : parse_upstream_server args = Ok s -> upstream_server_lowered s.
Proof.
  unfold parse_upstream_server. destruct args as [|raw params]; [done|]. intros Hp. inv_lower.
  destruct a as [host port]. inv_lower. destruct a1 as [w b]. inv_lower.
  apply parse_uint_bound in Hok1. apply server_parameters_lowered in Hok2; [|done].
  split_and!; [by destruct host|done|apply Hok2|apply Hok2].
Qed.



Definition nrf_draft_ok (d : NrfDiscoveryDraft) : Prop :=
  (forall t, nd_timeout d = Some t -> 0 < t) /\ (forall t, nd_stale_if_error d = Some t -> 0 < t).

Lemma apply_nrf_directive_ok d x d' :
  apply_nrf_discovery_directive d x = Ok d' -> nrf_draft_ok d -> nrf_draft_ok d'.
Proof.
  destruct d as [r t q s sc ti st [v tr c k]]. unfold apply_nrf_discovery_directive. intros Ha [H1 H2]. simpl in H1, H2.
  split_names; split; simpl; try done;
    match goal with H : set_once _ _ _ = Ok _ |- _ => apply set_once_Ok in H end; subst;
    intros ? [= <-]; by eapply ensure_non_zero_Ok.
Qed.

Lemma apply_directives_inv {S} (P : S -> Prop) apply nested (s : S) children s' :
  (forall s d s', apply s d = Ok s' -> P s -> P s') ->
  apply_directives apply nested s children = Ok s' -> P s -> P s'.
Proof.
  intros Hstep Hf Hs. eapply (try_fold_inv P _ _ _ _ _ Hs Hf). Unshelve.
  intros s0 [d|name args ch] s1 _ Hs0 Hc; [by eapply Hstep|done].
Qed.

Lemma lower_nrf_discovery_ok b n :
  lower_nrf_discovery b = Ok n -> 0 < nrf_timeout n /\ 0 < nrf_stale_if_error n.
Proof.
  unfold lower_nrf_discovery. intros Hl. inv_lower.
  eapply (apply_directives_inv nrf_draft_ok) in Hok0 as [H1 H2]; [|apply apply_nrf_directive_ok|done].
  simpl. split; [destruct (nd_timeout a0)|destruct (nd_stale_if_error a0)]; simpl; auto; done.
Qed.

Definition health_draft_ok (d : UpstreamHealthCheckDraft) : Prop :=
  (forall t, hd_timeout d = Some t -> 0 < t) /\ (forall t, hd_interval d = Some t -> 0 < t) /\
  (forall n, hd_consecutive_success d = Some n -> 1 <= n) /\ (forall n, hd_consecutive_failure d = Some n -> 1 <= n).

Lemma apply_health_directive_ok d x d' :
  apply_upstream_health_check_directive d x = Ok d' -> health_draft_ok d -> health_draft_ok d'.
Proof.
  destruct d as [k t i s f h p u]. unfold apply_upstream_health_check_directive. intros Ha (H1 & H2 & H3 & H4).
  simpl in H1, H2, H3, H4.
  split_names; repeat match goal with H : set_once _ _ _ = Ok _ |- _ => apply set_once_Ok in H end; subst;
    split_and!; simpl; try done; intros ? [= <-];
    first [by eapply ensure_non_zero_Ok | by eapply parse_positive_usize_bound].
Qed.

Lemma lower_health_check_ok b c :
  lower_upstream_health_check b = Ok c ->
  0 < uhc_timeout c /\ 0 < uhc_interval c /\ 1 <= uhc_consecutive_success c /\ 1 <= uhc_consecutive_failure c.
Proof.
  unfold lower_upstream_health_check. intros Hl. inv_lower.
  eapply (apply_directives_inv health_draft_ok) in Hok0 as (H1 & H2 & H3 & H4); [|apply apply_health_directive_ok|done].
  simpl. split_and!;
    [destruct (hd_timeout a0)|destruct (hd_interval a0)|destruct (hd_consecutive_success a0)|destruct (hd_consecutive_failure a0)];
    simpl; auto; done.
Qed.


Lemma lower_upstream_lowered `{Crates} b u : lower_upstream b = Ok u -> upstream_lowered u.
Proof.
  unfold lower_upstream. intros Hl. inv_lower.
  eapply (try_fold_inv upstream_lowered _ _ _ _ _ _ Hl). Unshelve.
  - intros [ae n p k s d c] child u' _ [Hn Ha Hs Hd Hc] Hu. simpl in Hn, Ha, Hs, Hd, Hc.
    destruct child as [x|name args ch]; simpl in Hu.
    + unfold apply_upstream_directive in Hu. split_names; constructor; simpl; try done.
      apply Forall_app. split; [done|]. constructor; [by eapply parse_upstream_server_lowered|constructor].
    + split_names; constructor; simpl; try done.
      * intros ? [= <-]. by eapply lower_health_check_ok.
      * intros ? [= <-]. by eapply lower_nrf_discovery_ok.
  - destruct (blk_args b) as [|n [|]]; try done. destruct (is_empty (trim n)) eqn:E; inv_lower.
    constructor; simpl; try done; constructor.
Qed.

(** A whole number of milliseconds that fits 64 bits. *)
Definition whole_millis (d : N) : Prop := exists ms, ms <= u64_max /\ d = from_millis ms.

Definition cache_lowered (c : CacheConfig) : Prop :=
  (forall n, min_uses c = Some n -> 1 <= n) /\ valid_statuses c <> [] /\ Forall (fun s => s <= u16_max) (valid_statuses c).

Lemma mapM_status_bound args l : mapM parse_status args = Ok l -> Forall (fun s => s <= u16_max) l.
Proof.
  intros Hm. apply mapM_Ok in Hm. induction Hm as [|a s args l Hp _ IH]; constructor; [|done].
  unfold parse_status in Hp. destruct (parse_uint u16_max a) eqn:E; inv_lower. by eapply parse_uint_bound.
Qed.

Lemma cache_default_lowered : cache_lowered CacheConfig_default /\ cache_lowered CacheConfig_disabled.
Proof. split; (split; [done|]; split; [done|]; repeat constructor; done). Qed.

Lemma apply_cache_directive_lowered d existing r c :
  apply_cache_directive d existing = Ok r -> (forall c, existing = Some c -> cache_lowered c) ->
  r = Some c -> cache_lowered c.
Proof.
  destruct cache_default_lowered as [Hd Hdis].
  unfold apply_cache_directive, proxy_cache_switch. intros Ha He ->. split_names; try done;
    destruct existing as [e|]; simplify_eq/=; destruct (He e eq_refl) as (Hm & Hn & Hs); split_and!; simpl; try done.
  - intros ? [= <-]. by eapply parse_positive_usize_bound.
  - by destruct a.
  - by eapply mapM_status_bound.
Qed.

Lemma parse_proxy_cache_block_lowered b c : parse_proxy_cache_block b = Ok c -> cache_lowered c.
Proof.
  unfold parse_proxy_cache_block. intros Hp. inv_lower.
  refine (apply_directives_inv cache_lowered _ _ _ _ _ _ Hp _); [|apply cache_default_lowered].
  intros s d s' Hd Hs. inv_lower. destruct a as [c'|]; [|done].
  eapply apply_cache_directive_lowered; [exact Hok0|by intros ? [= <-]|done].
Qed.

Section lowered.
Context `{Crates}.

(** The directives a location of a configuration file can have. *)
Definition directive_lowered (d : LocationDirective) : Prop :=
  match d with
  | Return_ status _ => 300 <= status <= 399
  | AllowMethods methods => methods <> []
  | ClientBodyTimeout t | SendTimeout t | ProxyConnectTimeout t | ProxyReadTimeout t | ProxyWriteTimeout t => whole_millis t
  | ClientMaxBodySize n => n <= u64_max
  | ProxyHttp2MaxConcurrentStreams n => 1 <= n <= u32_max
  | ProxyHttp2StreamWindowSize n | ProxyHttp2ConnectionWindowSize n => 1 <= n <= i32_max
  | Root _ | TryFiles _ | WeightedBackends _ | DirectResponse _ | DHttpRedirect _ | DUrlRewrite _
  | ProxyPass (PpUpstreamGroup _ _) => False
  | _ => True
  end.

Record location_lowered (l : Location) : Prop := mkLocationLowered {
  ll_directives : Forall directive_lowered (loc_directives l);
  ll_cache : forall c, loc_cache l = Some c -> cache_lowered c;
  ll_matcher : match loc_matcher l with LmHttp _ => False | _ => True end
}.

Lemma parse_size_bound raw d n : parse_size_literal raw d = Ok n -> n <= u64_max.
Proof.
  unfold parse_size_literal. intros Hp. split_names.
  match goal with E : checked_mul _ _ _ = Some _ |- _ => apply checked_mul_Some in E as [-> ?] end. done.
Qed.

Lemma apply_location_directive_lowered d x : apply_location_directive d = Ok x -> directive_lowered x.
Proof.
  unfold apply_location_directive. destruct d as [name args]. cbn [dir_name dir_args]. intros Ha.
  repeat match type of Ha with
  | (if String.eqb ?n ?s then _ else _) = _ => destruct (String.eqb_spec n s) as [->|?]
  end; inv_lower; simpl; try done.
  - destruct args; simpl in Ha; inv_lower; done.
  - by eapply parse_size_bound.
  - by eapply parse_single_duration_millis.
  - by eapply parse_single_duration_millis.
  - by apply parse_http2_value_bound in Hok.
  - by apply parse_http2_value_bound in Hok.
  - by apply parse_http2_value_bound in Hok.
  - unfold proxy_pass_directive in Ha. by split_names.
  - by eapply parse_single_duration_millis.
  - by eapply parse_single_duration_millis.
  - by eapply parse_single_duration_millis.
  - unfold return_directive in Ha. split_names. apply andb_true_iff in Heqb as [H1 H2].
    apply N.leb_le in H1, H2. done.
Qed.

Lemma lower_location_lowered b l : lower_location b = Ok l -> location_lowered l.
Proof.
  unfold lower_location, parse_location_contents. intros Hl. inv_lower.
  assert (Forall directive_lowered (lc_directives a0) /\ forall c, lc_cache a0 = Some c -> cache_lowered c) as [Hd Hc].
  { eapply (try_fold_inv (fun s => Forall directive_lowered (lc_directives s) /\
      forall c, lc_cache s = Some c -> cache_lowered c) _ _ _ _ _ _ Hok0). Unshelve.
    - intros [ds ps c rs] n s' _ [Hd Hc] Hn. simpl in Hd, Hc. unfold location_node in Hn. split_names; simpl; split; try done.
      + intros ? [= <-]. by eapply apply_cache_directive_lowered.
      + apply Forall_app. split; [done|]. constructor; [by eapply apply_location_directive_lowered|constructor].
      + intros ? [= <-]. by eapply parse_proxy_cache_block_lowered.
    - split; [constructor|done]. }
  constructor; [done|done|]. simpl. unfold parse_location_matcher in Hok. by split_names.
Qed.

(** ** Servers *)

Definition listen_lowered (l : Listen) : Prop :=
  l_port l <= u16_max /\ (l_http2_only l = true -> l_http2 l = true) /\ (l_http2 l = true -> l_ssl l = true).

Lemma parse_listen_lowered args l : parse_listen_directives args = Ok l -> listen_lowered l.
Proof.
  unfold parse_listen_directives. destruct args as [|endpoint params]; [done|]. intros Hp. inv_lower.
  destruct a as [addr port]. inv_lower.
  assert (port <= u16_max) as Hport.
  { unfold listen_endpoint in Hok. split_names; simplify_eq.
    all: first [by eapply parse_uint_bound|by eapply parse_socket_addr_port]. }
  assert (l_port l = port /\ (l_http2_only l = true -> l_http2 l = true)) as [Hpt Ho].
  { eapply (try_fold_inv (fun l => l_port l = port /\ (l_http2_only l = true -> l_http2 l = true)) _ _ _ _ _ _ Hok0). Unshelve.
    - intros [ad po ss de h2 ho] p l' _ [Hl1 Hl2] Hx. simpl in *. unfold listen_param in Hx. by split_names.
    - done. }
  split_and!; [by rewrite Hpt|done|]. intros Hh. rewrite Hh in Hok1. by apply andb_false_iff in Hok1 as [|?%negb_false_iff].
Qed.

Record server_lowered (s : Server) : Prop := mkServerLowered {
  sl_listens : Forall listen_lowered (listens s);
  sl_locations : Forall location_lowered (locations s)
}.

Definition client_verified (s : Server) : Prop :=
  verify_client (tls_options s) <> VerifyOff -> is_Some (dt_client_certificate (tls_options s)).

Lemma lower_server_lowered b s : lower_server b = Ok s -> server_lowered s /\ client_verified s.
Proof.
  unfold lower_server. intros Hl. inv_lower. split.
  - eapply (try_fold_inv server_lowered _ _ _ _ _ _ Hok). Unshelve.
    + intros [names locs lis t opts] child s' _ [Hli Hlo] Hc. simpl in Hli, Hlo.
      destruct child as [d|name args ch]; simpl in Hc.
      * unfold apply_server_directive in Hc. split_names; constructor; simpl; try done.
        apply Forall_app. split; [done|]. constructor; [by eapply parse_listen_lowered|constructor].
      * split_names. constructor; simpl; [done|]. apply Forall_app. split; [done|].
        constructor; [by eapply lower_location_lowered|constructor].
    + by constructor.
  - unfold validate_server in Hok0. inv_lower. intros Hv. apply andb_false_iff in Hok0 as [Hx|Hx].
    + by apply negb_false_iff, bool_decide_eq_true in Hx.
    + destruct (dt_client_certificate (tls_options s)); [eauto|done].
Qed.

(** ** The http block *)

(** What the loop over the children keeps. *)
Record http_building (h : Http) : Prop := mkHttpBuilding {
  hb_http2 : Http2Options_validate (http2 h) = Ok tt;
  hb_real_ip : forall c, real_ip h = Some c -> RealIpConfig_validate c = Ok tt;
  hb_timeouts : Forall (fun t => validate_client_timeout t = Ok tt)
    [client_header_timeout h; client_body_timeout h; send_timeout h];
  hb_geoip : forall c, geoip h = Some c -> GeoIpConfig_validate c = Ok tt;
  hb_upstreams : Forall upstream_lowered (upstreams h);
  hb_servers : Forall (fun s => server_lowered s /\ client_verified s) (servers h)
}.

Lemma http2_validate_bounds o :
  Http2Options_validate o = Ok tt <->
  (forall n, max_concurrent_streams o = Some n -> 1 <= n <= u32_max) /\
  (forall n, max_header_list_size o = Some n -> 1 <= n <= u32_max) /\
  (forall n, stream_window_size o = Some n -> 1 <= n <= i32_max) /\
  (forall n, connection_window_size o = Some n -> 1 <= n <= i32_max).
Proof.
  unfold Http2Options_validate. split.
  - intros Hv. inv_ok. rewrite !validate_http2_value_ok in *. done.
  - intros (H1 & H2 & H3 & H4). rewrite <- (validate_http2_value_ok _ _ "http2_max_concurrent_streams") in H1.
    rewrite <- (validate_http2_value_ok _ _ "http2_max_header_list_size") in H2.
    rewrite <- (validate_http2_value_ok _ _ "http2_stream_window_size") in H3.
    rewrite <- (validate_http2_value_ok _ _ "http2_connection_window_size") in H4.
    by rewrite H1, H2, H3, H4.
Qed.

Lemma replace_once_Ok {A} (slot : option A) v n r : replace_once slot v n = Ok r -> r = Some v.
Proof. unfold replace_once. destruct slot; simpl; [done|congruence]. Qed.

Lemma set_http2_slot_valid o d v o' :
  is_http2_slot (dir_name d) = true -> parse_http2_value d = Ok v -> set_http2_slot o (dir_name d) v = Ok o' ->
  Http2Options_validate o = Ok tt -> Http2Options_validate o' = Ok tt.
Proof.
  rewrite !http2_validate_bounds. intros Hs Hv Ho (H1 & H2 & H3 & H4). apply parse_http2_value_bound in Hv.
  destruct o as [s hd w c]. destruct d as [name args]. cbn [dir_name] in *. unfold set_http2_slot in Ho.
  repeat match type of Ho with
  | (if String.eqb ?n ?s then _ else _) = _ => destruct (String.eqb_spec n s) as [->|?]
  end; inv_lower; apply replace_once_Ok in Hok; subst; simpl in *; split_and!; try done; intros ? [= <-]; try done.
  unfold is_http2_slot in Hs. simpl in Hs.
  repeat match type of Hs with orb (String.eqb ?n ?s) _ = true => destruct (String.eqb_spec n s); [done|]; simpl in Hs end.
  by destruct (String.eqb_spec name "http2_connection_window_size") as [->|]; [|done].
Qed.

Lemma duration_timeout_valid args n v : parse_single_duration_directive args n = Ok v -> validate_client_timeout (Some v) = Ok tt.
Proof. intros Hp. apply parse_single_duration_millis in Hp as (ms & Hms & ->). by apply validate_client_timeout_millis. Qed.

Lemma real_ip_default_valid h c :
  (forall c, real_ip h = Some c -> RealIpConfig_validate c = Ok tt) -> default RealIpConfig_default (real_ip h) = c ->
  RealIpConfig_validate c = Ok tt.
Proof. intros Hr <-. destruct (real_ip h); [by apply Hr|done]. Qed.

Lemma apply_http_directive_building h d h' : apply_http_directive h d = Ok h' -> http_building h -> http_building h'.
Proof.
  unfold apply_http_directive. intros Ha [H2 Hr Ht Hg Hu Hs].
  apply Forall_cons in Ht as [Ht1 Ht]. apply Forall_cons in Ht as [Ht2 Ht]. apply Forall_cons in Ht as [Ht3 _].
  split_names; constructor; simpl; try done; rewrite ?Forall_cons; try (by split_and!).
  - by eapply set_http2_slot_valid.
  - intros c [= <-]. by apply (real_ip_default_valid h _ Hr eq_refl).
  - intros c [= <-]. done.
  - intros c [= <-]. by apply (real_ip_default_valid h _ Hr eq_refl).
  - apply replace_once_Ok in Hok0 as ->. split_and!; try done. by eapply duration_timeout_valid.
  - apply replace_once_Ok in Hok0 as ->. split_and!; try done. by eapply duration_timeout_valid.
  - apply replace_once_Ok in Hok0 as ->. split_and!; try done. by eapply duration_timeout_valid.
Qed.

Lemma http_child_building h n h' : http_child h n = Ok h' -> http_building h -> http_building h'.
Proof.
  destruct n as [d|name args children]; simpl; [apply apply_http_directive_building|].
  intros Hc [H2 Hr Ht Hg Hu Hs]. split_names; constructor; simpl; try done.
  - intros c [= <-]. unfold lower_geoip in Hok0. inv_lower. done.
  - apply Forall_app. split; [done|]. constructor; [by eapply lower_server_lowered|constructor].
  - apply Forall_app. split; [done|]. constructor; [by eapply lower_upstream_lowered|constructor].
Qed.

(** Where a TLS server's certificate comes from. *)
Definition certificate_source (h : Http) (s : Server) : Prop :=
  match tls s with
  | Some (Custom id) => cert id <> PemPath "" /\ key id <> PemPath ""
  | Some LetsEncrypt => is_Some (ssl_provider h) /\ exists name, server_names s = [name]
  | None => False
  end.

(** A lowered [http] block. *)
Record http_lowered (h : Http) : Prop := mkHttpLowered {
  hl_building : http_building h;
  hl_tls : Forall (fun s => has_ssl_listener s = true -> certificate_source h s) (servers h)
}.

Lemma assign_provider_kept s : server_lowered s /\ client_verified s -> server_lowered (assign_provider s) /\ client_verified (assign_provider s).
Proof. intros [[Hl Hlo] Hv]. unfold assign_provider. destruct (_ && _); [|done]. by split. Qed.

Lemma check_server_tls_source h s : check_server_tls h s = Ok tt -> has_ssl_listener s = true -> certificate_source h s.
Proof.
  unfold check_server_tls, certificate_source. intros Hc Hs. rewrite Hs in Hc. simpl in Hc.
  destruct (tls s) as [[id|]|]; [| |done]; inv_lower.
  - apply bool_decide_eq_false in Hok, Hc. done.
  - split; [by destruct (ssl_provider h); [eexists|]|].
    apply N.ltb_ge in Hc. destruct (server_names s) as [|n [|m l]]; [done|eauto|simpl in Hc; lia].
Qed.

Lemma lower_http_lowered b h : lower_http b = Ok h -> http_lowered h.
Proof.
  unfold lower_http. intros Hl. inv_lower.
  assert (http_building a) as Hb.
  { eapply (try_fold_inv http_building _ _ _ _ _ _ Hok). Unshelve.
    - intros s n s' _ Hs Hn. by eapply http_child_building.
    - constructor; simpl; try done; repeat constructor. }
  set (h := if is_some (ssl_provider a) then _ else a) in *. constructor.
  - unfold h. destruct (is_some (ssl_provider a)); [|done]. destruct Hb as [H2 Hr Ht Hg Hu Hs]. constructor; simpl; try done.
    apply Forall_fmap. eapply Forall_impl; [exact Hs|]. intros s. apply assign_provider_kept.
  - assert (forall l, try_fold (fun _ s => check_server_tls h s) tt l = Ok tt ->
      Forall (fun s => has_ssl_listener s = true -> certificate_source h s) l) as Hall; [|by apply Hall].
    induction l as [|s l IH]; intros Hf; [constructor|]. cbn [try_fold] in Hf. inv_ok.
    constructor; [by apply check_server_tls_source|by apply IH].
Qed.

Lemma from_ast_lowered ast ir h : from_ast ast = Ok ir -> http ir = Some h -> http_lowered h.
Proof.
  unfold from_ast. intros Hf Hh. inv_lower. simpl in Hh. subst.
  refine (try_fold_inv (fun a => forall h, a = Some h -> http_lowered h) _ _ _ _ _ _ Hok h eq_refl); [|done].
  intros acc [d|name args children] acc' _ Hacc Hn; simpl in Hn; [by inv_lower|].
  split_names; [|by auto]. intros h0 [= <-]. by eapply lower_http_lowered.
Qed.

(** ** Theorems *)

(** C17: whatever configuration file lowers has established everything the later
    stages check again or rely on: HTTP/2 limits, timeouts, the real-IP and GeoIP
    settings are valid, upstream servers have a host, a port and a weight in range
    and non-zero check periods, listeners offer HTTP/2 only over TLS, client
    verification has its certificate, locations have only well-formed directives, and
    every TLS server has a certificate: its own certificate and key, or Let's Encrypt
    with a configured provider and exactly one name. *)
Theorem lowering_establishes ast ir h :
  from_ast ast = Ok ir -> http ir = Some h ->
  http_building h /\ Forall (fun s => has_ssl_listener s = true -> certificate_source h s) (servers h).
Proof. intros Hf Hh. by destruct (from_ast_lowered ast ir h Hf Hh). Qed.

(** inside a location the stand-alone cache directives cannot be combined: after
    [proxy_cache on] any directive that sets a cache parameter is refused as a
    duplicate, and without it the parameter directive is refused as unknown; the
    parameters only take effect inside a [proxy_cache] block. *)
Theorem cache_parameters_need_block d c field contents :
  apply_cache_directive d (Some c) = Ok (Some field) ->
  String.eqb (dir_name d) "proxy_cache" = false ->
  lc_cache contents = Some c ->
  location_node contents (NDirective d) = lerr "duplicate proxy_cache directive in location" /\
  location_node (mkContents [] [] None []) (NDirective d) = lerr ("unknown directive in location: " +:+ dir_name d).
Proof.
  intros Ha Hn Hc. destruct contents as [ds ps c' rs]. simpl in Hc. subst c'. split.
  - simpl. by rewrite Ha.
  - unfold location_node. destruct d as [name args]. cbn [dir_name] in *.
    assert (name ∈ ["proxy_cache_ttl"; "proxy_cache_stale_if_error"; "proxy_cache_key"; "proxy_cache_min_uses";
                    "proxy_cache_valid"; "proxy_cache_max_size"] /\
            apply_cache_directive (mkDirective name args) None = Ok None) as [Hin ->].
    { unfold apply_cache_directive in *. cbn [dir_name dir_args] in *. rewrite Hn in *.
      repeat match type of Ha with
      | (if String.eqb ?n ?s then _ else _) = _ => destruct (String.eqb_spec n s) as [->|?]; [split; [set_solver|]|]
      end; [..|done].
      all: inv_lower; rewrite ?Hok; cbn [mbind result_bind]; try rewrite Hok0; try done.
      all: by rewrite Hok0. }
    cbn [mbind result_bind]. repeat (apply elem_of_cons in Hin as [->|Hin]; [reflexivity|]). set_solver.
Qed.
End lowered.

(** ** A configuration *)

Module LoweringSample.
Definition text : string :=
  "upstream_ignored on; http { h2c on; client_header_timeout 5s; upstream web { server 10.0.0.1:80 weight=3; server [fc00]:81; } server { listen *:443 ssl http2; server_name a.test; ssl_certificate /c.pem; ssl_certificate_key /k.pem; location = /x { proxy_pass http://web; allow 10.0.0.1; deny all; proxy_cache { proxy_cache_ttl 5m; proxy_cache_valid 200 301; } rate-limit { rate 10; } } location / { return 301 /new; } } }".
Definition ast : Ast := match parse_config text with Some (Ok a) => a | _ => mkAst [] end.
Definition lowered : lower (@Ir Toy.crates) := from_ast ast.
Definition ir : @Ir Toy.crates := match lowered with Ok i => i | Err _ => mkIr None end.
Definition block : @Http Toy.crates := default Http_default (http ir).

Lemma lowered_ok : is_ok lowered && is_some (http ir) = true.
Proof. vm_compute. reflexivity. Qed.
Lemma lowers : lowered = Ok ir /\ http ir = Some block.
Proof.
  pose proof lowered_ok as Hb. apply andb_true_iff in Hb as [H1 H2]. split.
  - exact (is_ok_default lowered (mkIr None) H1).
  - exact (is_some_default (http ir) Http_default H2).
Qed.
Example upstream_servers : concat (up_servers <$> upstreams block) =
  [mkUpstreamServer "10.0.0.1" 80 3; mkUpstreamServer "fc00" 81 1].
Proof. vm_compute. reflexivity. Qed.
End LoweringSample.

Lemma lowering_establishes_witness :
  http_building LoweringSample.block /\
  Forall (fun s => has_ssl_listener s = true -> certificate_source LoweringSample.block s) (servers LoweringSample.block).
Proof.
  apply (@lowering_establishes Toy.crates LoweringSample.ast LoweringSample.ir LoweringSample.block); apply LoweringSample.lowers.
Defined.

Lemma cache_parameters_need_block_witness :
  @location_node Toy.crates (mkContents [] [] (Some CacheConfig_default) []) (NDirective (mkDirective "proxy_cache_ttl" ["5m"]))
  = lerr "duplicate proxy_cache directive in location".
Proof.
  refine (proj1 (@cache_parameters_need_block Toy.crates (mkDirective "proxy_cache_ttl" ["5m"]) CacheConfig_default
    (set_ttl (from_secs 300) CacheConfig_default) (mkContents [] [] (Some CacheConfig_default) []) _ _ _)); reflexivity.
Defined.
