(* ===== verification/Types.v ===== *)
(** * The compiled routing model (crates/ngxora-runtime/src/upstreams/types.rs)

    The immutable router consumed at request time.  A [HashMap] is a [gmap]; where
    the code iterates over one, the iteration order is a parameter of the model. *)

From S2P Require Import Prelude RustStr NetAddr Crates Ir.

Open Scope N_scope.

Record ListenKey := mkListenKey { addr : IpAddr; port : N; ssl : bool }.

#[global] Instance ListenKey_eq_dec : EqDecision ListenKey.
Proof. solve_decision. Defined.
#[global] Instance ListenKey_countable : Countable ListenKey.
Proof.
  refine (inj_countable' (fun k => (addr k, port k, ssl k))
    (fun '(a, p, s) => mkListenKey a p s) _). by intros [].
Defined.

(** [ListenKey::from(&Listen)]. *)
Definition ListenKey_from (l : Listen) : ListenKey := mkListenKey (l_addr l) (l_port l) (l_ssl l).

Inductive RouteTarget :=
| RtWeightedBackends (backends : list CompiledWeightedBackend)
| RtDirectResponse (status : N)
| RtHttpRedirect (r : HttpRedirect)
| RtScp (profile : string)
| RtProxyPass (host : string) (port : N) (tls : bool) (sni : string)
| RtUpstreamGroup (name : string) (tls : bool)
| RtReturn (status : N) (location : string)
with CompiledWeightedBackend :=
| mkCompiledWeightedBackend (weight : N) (target : RouteTarget).

Definition cwb_weight (b : CompiledWeightedBackend) : N := let 'mkCompiledWeightedBackend w _ := b in w.
Definition cwb_target (b : CompiledWeightedBackend) : RouteTarget := let 'mkCompiledWeightedBackend _ t := b in t.

Record NrfServiceMetadata := mkNrfServiceMetadata {
  authority : option string;
  nf_instance_id : string;
  service_instance_id : string;
  priority : N;
  capacity : N
}.

Record CompiledUpstreamServer := mkCompiledUpstreamServer {
  cs_host : string;
  cs_port : N;
  cs_weight : N;
  api_prefix : option string;
  nrf_service : option NrfServiceMetadata
}.

(** [Display] of a server. *)
Definition show_server (s : CompiledUpstreamServer) : string :=
  cs_host s +:+ ":" +:+ pretty (cs_port s) +:+ default "" (api_prefix s).

Inductive HealthCheckType := HcTcp | HcHttp (host path : string) (use_tls : bool).

Record CompiledHealthCheck := mkCompiledHealthCheck {
  check_type : HealthCheckType;
  hc_timeout : N;
  hc_interval : N;
  consecutive_success : N;
  consecutive_failure : N
}.

#[global] Instance NrfServiceMetadata_eq_dec : EqDecision NrfServiceMetadata.
Proof. solve_decision. Defined.
#[global] Instance CompiledUpstreamServer_eq_dec : EqDecision CompiledUpstreamServer.
Proof. solve_decision. Defined.
#[global] Instance HealthCheckType_eq_dec : EqDecision HealthCheckType.
Proof. solve_decision. Defined.
#[global] Instance CompiledHealthCheck_eq_dec : EqDecision CompiledHealthCheck.
Proof. solve_decision. Defined.

Inductive CompiledMatcher :=
| CmHttp (m : HttpMatch)
| CmPrefix (p : string)
| CmExact (p : string)
| CmRegex (pattern : string) (case_insensitive : bool)
| CmPreferPrefix (p : string)
| CmNamed (name : string).

Record ListenerProtocolConfig := mkListenerProtocolConfig { lp_http2 : bool; lp_http2_only : bool }.
Definition ListenerProtocolConfig_default := mkListenerProtocolConfig false false.

Record ListenerTlsSettings := mkListenerTlsSettings {
  ts_protocols : option TlsProtocolBounds;
  ts_verify_client : TlsVerifyClient;
  ts_client_certificate : option PemSource
}.
(** [ListenerTlsSettings::from(&DownstreamTlsOptions)]. *)
Definition ListenerTlsSettings_from (o : DownstreamTlsOptions) : ListenerTlsSettings :=
  mkListenerTlsSettings (protocols o) (verify_client o) (dt_client_certificate o).

Record ListenerTlsConfig := mkListenerTlsConfig {
  tls_named : gmap string TlsIdentity;
  tls_default : option TlsIdentity;
  settings : ListenerTlsSettings
}.

#[global] Instance ListenerProtocolConfig_eq_dec : EqDecision ListenerProtocolConfig.
Proof. solve_decision. Defined.
#[global] Instance ListenerTlsSettings_eq_dec : EqDecision ListenerTlsSettings.
Proof. solve_decision. Defined.

Section types.
Context `{Crates}.

Record CompiledNrfDiscovery := mkCompiledNrfDiscovery {
  cn_api_root : Url;
  cn_target_nf_type : string;
  cn_requester_nf_type : string;
  cn_service_name : string;
  cn_endpoint_scheme : NrfEndpointScheme;
  cn_timeout : N;
  cn_stale_if_error : N;
  cn_tls_options : UpstreamSslOptions
}.

Record CompiledUpstreamGroup := mkCompiledUpstreamGroup {
  g_allow_empty : bool;
  g_name : string;
  g_policy : UpstreamSelectionPolicy;
  g_hash_key : option UpstreamHashKey;
  g_servers : list CompiledUpstreamServer;
  g_nrf_discovery : option CompiledNrfDiscovery;
  g_health_check : option CompiledHealthCheck
}.

Record CompiledLocation := mkCompiledLocation {
  client_limits : ClientLimits;
  url_rewrite : option UrlRewrite;
  route_id : N;
  matcher : CompiledMatcher;
  access_rules : list LocationIpRule;
  target : RouteTarget;
  upstream_timeouts : UpstreamTimeouts;
  upstream_protocol : option UpstreamHttpProtocol;
  upstream_http2 : UpstreamHttp2Options;
  upstream_ssl_options : UpstreamSslOptions;
  plugins : list PluginSpec;
  cache : option CacheConfig
}.

Record ServerRoutes := mkServerRoutes { sr_locations : list CompiledLocation }.

Record VirtualHostRoutes := mkVirtualHostRoutes {
  named : gmap string ServerRoutes;
  default_routes : option ServerRoutes
}.
Definition VirtualHostRoutes_default : VirtualHostRoutes := mkVirtualHostRoutes ∅ None.

Record HttpRuntimeOptions := mkHttpRuntimeOptions {
  ro_real_ip : option RealIpConfig;
  ro_client_header_timeout : option N;
  ro_client_body_timeout : option N;
  ro_send_timeout : option N;
  downstream_keepalive_timeout : option N;
  ro_keepalive_requests : option N;
  ro_client_max_body_size : option N;
  ro_proxy_cache_max_size : option N;
  ro_tcp_nodelay : bool;
  ro_allow_connect_method_proxying : bool;
  ro_h2c : bool;
  ro_http2 : Http2Options
}.

Record CompiledRouter := mkCompiledRouter {
  r_geoip : option GeoIpConfig;
  r_scp_profiles : gmap string ScpProfile;
  r_upstreams : gmap string CompiledUpstreamGroup;
  r_listeners : gmap ListenKey VirtualHostRoutes;
  r_listener_protocols : gmap ListenKey ListenerProtocolConfig;
  r_listener_tls : gmap ListenKey ListenerTlsConfig;
  r_http_options : HttpRuntimeOptions;
  r_le_config : option LetsEncryptConfig
}.

(** The virtual servers of a listener. *)
Definition vhost_of (vhosts : VirtualHostRoutes) (routes : ServerRoutes) : Prop :=
  default_routes vhosts = Some routes \/ exists name, named vhosts !! name = Some routes.

(** The locations a router can answer with. *)
Definition router_location (router : CompiledRouter) (l : CompiledLocation) : Prop :=
  exists key vhosts routes, r_listeners router !! key = Some vhosts /\ vhost_of vhosts routes /\
    l ∈ sr_locations routes.
End types.

#[global] Instance CompiledNrfDiscovery_eq_dec `{Crates} : EqDecision CompiledNrfDiscovery.
Proof. solve_decision. Defined.
#[global] Instance CompiledUpstreamGroup_eq_dec `{Crates} : EqDecision CompiledUpstreamGroup.
Proof. solve_decision. Defined.
