(* ===== verification/HttpRoutes.v ===== *)
(** * HTTP route matching and rewriting (crates/ngxora-runtime/src/upstreams/http_routes.rs) *)

From S2P Require Import Prelude RustStr NetAddr Crates Ir Types.

Open Scope N_scope.

(** ** Host names *)

Definition normalize_hostname (host : string) : string :=
  to_ascii_lowercase (trim_end_matches "." host).

(** The score of a virtual host's name pattern, ordered lexicographically. *)
Definition score := (bool * N)%type.

Definition hostname_score (pattern host : string) : option score :=
  if String.eqb pattern host then Some (true, str_len pattern)
  else
    match strip_prefix "*" pattern with
    | None => None
    | Some suffix =>
        then_some (starts_with "." suffix && (str_len suffix <? str_len host) && ends_with suffix host)
          (false, str_len suffix)
    end.

Definition valid_label (label : string) : bool :=
  negb (is_empty label
        || (63 <? str_len label)
        || starts_with "-" label
        || ends_with "-" label
        || negb (str_all (fun b => is_ascii_alphanumeric b || char_eqb b "-") label)).

Definition validate_hostname (host : string) : result string unit :=
  fail_if (is_empty host || (253 <? str_len host)
           || existsb (fun label => negb (valid_label label)) (split_on "." host))
    ("invalid hostname `" +:+ host +:+ "`").

(** ** Matching *)

Definition prefix_matches (prefix path : string) : bool :=
  let prefix := trim_end_matches "/" prefix in
  String.eqb path prefix
  || match strip_prefix prefix path with Some tail => starts_with "/" tail | None => false end.

(** [retain(|(name, _)| seen.insert(name.clone()))]: the first entry of each name. *)
Fixpoint retain_first (seen : list string) (l : list (string * string)) : list (string * string) :=
  match l with
  | [] => []
  | (name, value) :: l' =>
      if bool_decide (name ∈ seen) then retain_first seen l'
      else (name, value) :: retain_first (name :: seen) l'
  end.

(** The lexicographic score of a rule: exactness, path length, method, headers,
    query parameters. *)
Record rule_score := mkRuleScore {
  rs_exact : bool; rs_len : N; rs_method : bool; rs_headers : N; rs_query : N
}.

Definition match_score (m : HttpMatch) : rule_score :=
  let '(exact, len) := match m_path m with
                       | PathExact path => (true, str_len path)
                       | PathPrefix path => (false, str_len path)
                       end in
  mkRuleScore exact len (is_some (m_method m))
    (N.of_nat (length (m_headers m))) (N.of_nat (length (m_query_params m))).

Definition bool_to_N (b : bool) : N := if b then 1 else 0.
Definition score_key (s : rule_score) : list N :=
  [bool_to_N (rs_exact s); rs_len s; bool_to_N (rs_method s); rs_headers s; rs_query s].

(** Lexicographic [>] on tuples. *)
Fixpoint lex_gt (a b : list N) : bool :=
  match a, b with
  | x :: a', y :: b' => (y <? x) || ((x =? y) && lex_gt a' b')
  | _, _ => false
  end.
Definition score_gt (a b : rule_score) : bool := lex_gt (score_key a) (score_key b).

(** What routing reads of a request: the URI, the method and the header values
    by (lower-case) name. *)
Record Request `{Crates} := mkRequest {
  req_method : string;
  req_uri : Uri;
  req_header : string -> list string
}.

Section http_routes.
Context `{Crates}.

Definition validate_path (path : string) : result string unit :=
  fail_if (negb (starts_with "/" path)
           || contains_any "?#" path
           || contains_str "//" path
           || negb (path_and_query_ok path))
    ("invalid HTTP path `" +:+ path +:+ "`").

Definition compile_headers (l : list (string * string)) : result string (list (string * string)) :=
  mapM (fun '(name, value) =>
    name' ← ok_or (header_name_from name) "invalid HTTP match header name";
    _ ← fail_if (negb (header_value_ok value)) "invalid HTTP match header value";
    Ok (name', value)) l.

Definition compile_match (input : HttpMatch) : result string HttpMatch :=
  _ ← validate_path (match m_path input with PathExact p | PathPrefix p => p end);
  let path := match m_path input with
              | PathPrefix p =>
                  let p' := trim_end_matches "/" p in PathPrefix (if is_empty p' then "/" else p')
              | PathExact p => PathExact p
              end in
  _ ← fail_if (match m_method input with Some m => negb (method_ok m) | None => false end)
        "invalid HTTP match method";
  headers ← compile_headers (m_headers input);
  Ok (mkHttpMatch path (m_method input) (retain_first [] headers) (retain_first [] (m_query_params input))).

Definition matches (m : HttpMatch) (request : Request) : bool :=
  match m_path m with
  | PathExact path => String.eqb path (uri_path (req_uri request))
  | PathPrefix path => prefix_matches path (uri_path (req_uri request))
  end
  && match m_method m with Some method => String.eqb method (req_method request) | None => true end
  && forallb (fun '(name, value) =>
       match head (req_header request name) with Some v => String.eqb v value | None => false end)
       (m_headers m)
  && forallb (fun '(name, value) =>
       match find (fun '(k, _) => String.eqb k name)
               (form_urlencoded (default "" (uri_query (req_uri request)))) with
       | Some (_, actual) => String.eqb actual value
       | None => false
       end)
       (m_query_params m).

(** ** Rewriting *)

Definition validate_modifier (modifier : option PathModifier) (matcher : CompiledMatcher)
  : result string unit :=
  match modifier with
  | None => Ok tt
  | Some (ReplaceFullPath path) => validate_path path
  | Some (ReplacePrefixMatch path) =>
      _ ← fail_if (match matcher with CmHttp (mkHttpMatch (PathPrefix _) _ _ _) => false | _ => true end)
            "ReplacePrefixMatch requires an HTTP PathPrefix match";
      if is_empty path then Ok tt else validate_path path
  end.

(** The path of [rewrite_uri] before the query is appended. *)
Definition rewrite_path_text (uri : Uri) (modifier : option PathModifier) (prefix : option string)
  : result string string :=
  match modifier with
  | None => Ok (uri_path uri)
  | Some (ReplaceFullPath path) => Ok path
  | Some (ReplacePrefixMatch replacement) =>
      prefix ← ok_or prefix "missing matched path prefix";
      suffix ← ok_or (strip_prefix (trim_end_matches "/" prefix) (uri_path uri))
                 "path does not match rewrite prefix";
      let path := if is_empty suffix then replacement
                  else trim_end_matches "/" replacement +:+ suffix in
      Ok (if is_empty path then "/" else path)
  end.

Definition rewrite_uri (uri : Uri) (modifier : option PathModifier) (prefix : option string)
  : result string Uri :=
  path ← rewrite_path_text uri modifier prefix;
  map_err (fun e => "invalid rewritten URI: " +:+ e)
    (uri_parse (match uri_query uri with Some q => path +:+ "?" +:+ q | None => path end)).

Definition redirect_location (config : HttpRedirect) (uri : Uri) (host scheme : string)
    (listener_port : N) (prefix : option string) : result string string :=
  let scheme' := default scheme (redirect_scheme config) in
  let port := default (match redirect_scheme config with
                       | Some s => if String.eqb s "https" then 443
                                   else if String.eqb s "http" then 80 else listener_port
                       | None => listener_port
                       end) (redirect_port config) in
  let host := default host (redirect_hostname config) in
  let host := if contains_char ":" host then "[" +:+ host +:+ "]" else host in
  let authority :=
    if (String.eqb scheme' "http" && (port =? 80)) || (String.eqb scheme' "https" && (port =? 443))
    then host else host +:+ ":" +:+ pretty port in
  uri ← rewrite_uri uri (redirect_path config) prefix;
  Ok (scheme' +:+ "://" +:+ authority +:+ uri_to_string uri).
End http_routes.

(** ** Return templates *)

Definition variable_char (c : ascii) : bool := is_ascii_alphanumeric c || char_eqb c "_".

(** The loop of [expand_return]; one [$] is consumed per round, so the length of
    the template is enough fuel ([expand_return_fuel]). *)
Fixpoint expand_return_loop (fuel : nat) (rest host uri scheme out : string) : option (result string string) :=
  match fuel with
  | O => None
  | S fuel' =>
      match split_once "$" rest with
      | None => Some (Ok (out +:+ rest))
      | Some (before, rest1) =>
          let out := out +:+ before in
          match strip_prefix "$" rest1 with
          | Some tail => expand_return_loop fuel' tail host uri scheme (out +:+ "$")
          | None =>
              let '(name, rest2) := span variable_char rest1 in
              let value := if String.eqb name "host" then Some host
                           else if String.eqb name "request_uri" then Some uri
                           else if String.eqb name "scheme" then Some scheme
                           else None in
              match value with
              | None => Some (Err ("unsupported return variable `$" +:+ name +:+ "`"))
              | Some v => expand_return_loop fuel' rest2 host uri scheme (out +:+ v)
              end
          end
      end
  end.
Definition expand_return (template host uri scheme : string) : option (result string string) :=
  expand_return_loop (S (String.length template)) template host uri scheme "".

(** ** Host name lemmas *)

Lemma hostname_score_wildcard pattern host s :
  hostname_score pattern host = Some (false, s) <->
  pattern <> host /\ exists pre rest, pattern = "*." +:+ rest /\ host = pre +:+ "." +:+ rest /\
    pre <> "" /\ s = str_len ("." +:+ rest).
Proof.
  unfold hostname_score, then_some. destruct (String.eqb_spec pattern host) as [->|Hne]; [naive_solver|].
  split.
  - intros Hs. destruct (strip_prefix "*" pattern) as [suffix|] eqn:Ep; [|done].
    apply strip_prefix_Some in Ep as ->. case_match eqn:Eb; simplify_eq.
    rewrite !andb_true_iff, starts_with_spec, ends_with_spec, N.ltb_lt in Eb.
    destruct Eb as [[[rest ->] Hlen] [pre ->]]. split; [done|]. exists pre, rest.
    repeat split. intros ->. simpl in Hlen. lia.
  - intros (_ & pre & rest & -> & -> & Hpre & ->).
    change (strip_prefix "*" ("*." +:+ rest)) with (Some ("." +:+ rest)).
    change (starts_with "." ("." +:+ rest)) with true.
    cbv beta iota. set (suffix := "." +:+ rest).
    rewrite (proj2 (ends_with_spec suffix (pre +:+ suffix))) by eauto.
    destruct (N.ltb_spec (str_len suffix) (str_len (pre +:+ suffix))) as [_|Hlt]; [done|].
    rewrite str_len_append in Hlt. destruct pre; [done|]. unfold str_len in Hlt. simpl in Hlt. lia.
Qed.

Lemma hostname_score_exact pattern host s :
  hostname_score pattern host = Some (true, s) <-> pattern = host /\ s = str_len pattern.
Proof.
  unfold hostname_score, then_some. destruct (String.eqb_spec pattern host) as [->|Hne]; [naive_solver|].
  split; [|naive_solver]. repeat case_match; naive_solver.
Qed.

(** A score determines the pattern: no two names tie for one host. *)
Lemma hostname_score_inj p q host s :
  hostname_score p host = Some s -> hostname_score q host = Some s -> p = q.
Proof.
  destruct s as [[] n].
  - rewrite !hostname_score_exact. naive_solver.
  - rewrite !hostname_score_wildcard.
    intros (_ & pre & rest & -> & -> & _ & ->) (_ & pre' & rest' & -> & Heq & _ & Hn).
    unfold str_len in Hn. apply (append_suffix_unique _ _ _ _) in Heq; [|lia].
    change ("*" +:+ ("." +:+ rest) = "*" +:+ ("." +:+ rest')). by rewrite Heq.
Qed.

(** A matching name never has the default host's score [(false, 0)]. *)
Lemma hostname_score_not_default p host : hostname_score p host <> Some (false, 0).
Proof.
  intros Hs. apply hostname_score_wildcard in Hs as (_ & pre & rest & _ & _ & _ & Hs).
  unfold str_len in Hs. simpl in Hs. lia.
Qed.

Lemma normalize_hostname_lower host : to_ascii_lowercase (normalize_hostname host) = normalize_hostname host.
Proof. apply to_ascii_lowercase_idemp. Qed.

(** ** Prefix lemmas *)

Lemma prefix_matches_spec prefix path :
  prefix_matches prefix path = true <->
  exists suffix, path = trim_end_matches "/" prefix +:+ suffix /\ (suffix = "" \/ exists t, suffix = "/" +:+ t).
Proof.
  unfold prefix_matches. rewrite orb_true_iff, String.eqb_eq. split.
  - intros [->|Hm].
    + exists "". rewrite append_nil_r. auto.
    + destruct (strip_prefix _ path) as [tail|] eqn:E; [|done].
      apply strip_prefix_Some in E. apply starts_with_spec in Hm as [t ->]. eauto.
  - intros (suffix & -> & [->|[t ->]]); [left; by rewrite append_nil_r|right].
    rewrite (proj2 (strip_prefix_Some _ _ _) eq_refl). done.
Qed.

Lemma trim_end_compiled p :
  let p' := trim_end_matches "/" p in
  trim_end_matches "/" (if is_empty p' then "/" else p') = p'.
Proof.
  intros p'. destruct (is_empty p') eqn:E.
  - by destruct p'.
  - apply trim_end_matches_idemp.
Qed.

Section http_theorems.
Context `{Crates}.

Lemma retain_first_names seen l :
  NoDup (fst <$> retain_first seen l) /\ forall n, n ∈ fst <$> retain_first seen l -> n ∉ seen.
Proof.
  revert seen. induction l as [|[n v] l IH]; intros seen; simpl; [split; [constructor|set_solver]|].
  case_bool_decide as Hn; [apply IH|]. destruct (IH (n :: seen)) as [Hnd Hs]. simpl. split.
  - constructor; [|done]. intros Hin. apply Hs in Hin. set_solver.
  - intros m. rewrite elem_of_cons. intros [->|Hm]; [done|]. apply Hs in Hm. set_solver.
Qed.

Lemma compile_match_prefix input m p :
  compile_match input = Ok m -> m_path m = PathPrefix p ->
  exists raw, m_path input = PathPrefix raw /\ trim_end_matches "/" p = trim_end_matches "/" raw.
Proof.
  unfold compile_match. intros Hm Hp. inv_ok. cbn [m_path] in Hp.
  destruct (m_path input) as [?|raw]; [done|]. injection Hp as <-. exists raw. split; [done|].
  apply trim_end_compiled.
Qed.

(** a request path matched by a rule's path prefix can always be rewritten by
    that rule's [ReplacePrefixMatch]: the matched prefix is found again, the rest
    of the path is kept and the replacement stands in for the prefix (with [/] for
    an empty result). *)
Theorem prefix_rewrite_after_match prefix replacement uri :
  prefix_matches prefix (uri_path uri) = true ->
  exists suffix, uri_path uri = trim_end_matches "/" prefix +:+ suffix /\
    (suffix = "" \/ exists t, suffix = "/" +:+ t) /\
    rewrite_path_text uri (Some (ReplacePrefixMatch replacement)) (Some prefix) =
    Ok (if is_empty suffix then (if is_empty replacement then "/" else replacement)
        else trim_end_matches "/" replacement +:+ suffix).
Proof.
  intros Hm. apply prefix_matches_spec in Hm as (suffix & Hp & Hs). exists suffix.
  split; [done|]. split; [done|]. unfold rewrite_path_text. simpl.
  rewrite Hp, (proj2 (strip_prefix_Some _ _ _) eq_refl). simpl.
  destruct (is_empty suffix) eqn:E; [done|].
  destruct Hs as [->|[t ->]]; [done|]. by destruct (trim_end_matches "/" replacement).
Qed.
End http_theorems.

Lemma prefix_rewrite_after_match_witness :
  exists suffix, Toy.u_path (Toy.parse_uri "/foo/a%2Fb?q=1") = "/foo" +:+ suffix /\
    (suffix = "" \/ exists t, suffix = "/" +:+ t) /\
    @rewrite_path_text Toy.crates (Toy.parse_uri "/foo/a%2Fb?q=1") (Some (ReplacePrefixMatch "/bar/")) (Some "/foo/")
    = Ok (if is_empty suffix then "/bar/" else "/bar" +:+ suffix).
Proof.
  apply (@prefix_rewrite_after_match Toy.crates "/foo/" "/bar/" (Toy.parse_uri "/foo/a%2Fb?q=1")).
  vm_compute. reflexivity.
Defined.

(** ** Return templates *)

Lemma split_once_length c s a b : split_once c s = Some (a, b) -> (String.length b < String.length s)%nat.
Proof.
  revert a b. induction s as [|x s IH]; simpl; intros a b Hs; [done|].
  destruct (char_eqb x c); [simplify_eq; lia|].
  destruct (split_once c s) as [[p r]|]; [|done]. simplify_eq. specialize (IH _ _ eq_refl). lia.
Qed.

(** Which variables a template uses decides whether it expands; what it expands to
    does not. *)
Lemma expand_return_loop_uniform fuel rest h u s h' u' s' out out' :
  (String.length rest < fuel)%nat ->
  match expand_return_loop fuel rest h u s out, expand_return_loop fuel rest h' u' s' out' with
  | Some (Ok _), Some (Ok _) => True
  | Some (Err e), Some (Err e') => e = e'
  | _, _ => False
  end.
Proof.
  revert rest out out'. induction fuel as [|fuel IH]; intros rest out out' Hf; [lia|].
  cbn [expand_return_loop]. destruct (split_once "$" rest) as [[b r1]|] eqn:E; [|done].
  apply split_once_length in E.
  destruct (strip_prefix "$" r1) as [tail|] eqn:Et.
  - apply strip_prefix_Some in Et. apply (f_equal String.length) in Et. rewrite length_append in Et.
    apply IH. lia.
  - destruct (span variable_char r1) as [name r2] eqn:Es. apply span_spec in Es as [Es _].
    apply (f_equal String.length) in Es. rewrite length_append in Es.
    destruct (String.eqb name "host"); [apply IH; lia|].
    destruct (String.eqb name "request_uri"); [apply IH; lia|].
    destruct (String.eqb name "scheme"); [apply IH; lia|]. done.
Qed.

(** A [return] template that expands for the probe values used when the
    configuration is compiled expands for every request, and one that does not is
    rejected with the same error for every request; expansion always terminates. *)
Theorem expand_return_validated template host uri scheme :
  match expand_return template "example.com" "/" "http" with
  | Some (Ok _) => exists out, expand_return template host uri scheme = Some (Ok out)
  | Some (Err e) => expand_return template host uri scheme = Some (Err e)
  | None => False
  end.
Proof.
  unfold expand_return.
  pose proof (expand_return_loop_uniform (S (String.length template)) template
    "example.com" "/" "http" host uri scheme "" "" ltac:(lia)) as Hu.
  repeat case_match; subst; try done. eauto.
Qed.
