(* ===== verification/Routing.v ===== *)
(** * Request routing (crates/ngxora-runtime/src/upstreams/routing.rs)

    A request is routed in four steps: the accepted socket picks the listener's
    virtual hosts, the TLS server name is checked against the HTTP host, HTTP rules
    are ranked across the matching host names, and nginx-style locations of the
    selected virtual server are matched last.

    [HashMap] iteration has no specified order: [HashIter] is any order, and the
    theorems below hold for all of them. *)

From S2P Require Import Prelude RustStr NetAddr Crates Headers Ir Types HttpRoutes.

Open Scope N_scope.

(** [pingora::Error]: its type and explanation. *)
Inductive ErrorType := HTTPStatus (code : N) | InternalError | InvalidHTTPHeader.
Record PError := mkPError { etype : ErrorType; context : string }.
(** [insert_header] of a Pingora message: the value must be one. *)
Definition insert_header `{Crates} (n v : string) (h : HeaderMap) : result PError HeaderMap :=
  if header_value_ok v then Ok (header_insert n v h) else Err (mkPError InvalidHTTPHeader "invalid header value").

(** [Ord] on [(bool, usize)]. *)
Definition score_leb (a b : score) : bool :=
  match a, b with
  | (false, x), (false, y) | (true, x), (true, y) => x <=? y
  | (false, _), (true, _) => true
  | (true, _), (false, _) => false
  end.

(** What routing reads of a downstream session: [None] for a missing server
    address, [Some None] for one that is not an IP socket; the host header is
    [Some None] when its bytes are not visible ASCII. *)
Record Session `{Crates} := mkSession {
  s_server_addr : option (option (IpAddr * N));
  s_tls : bool;
  s_sni : option string;
  s_host : option (option string);
  s_request : Request
}.

Section routing.
Context `{Crates}.

(** ** Locations *)

Definition best := option (CompiledLocation * N).
Definition longer (b : best) (len : N) : bool :=
  match b with None => true | Some (_, l) => l <? len end.

(** The first loop of [select_route_target]: an exact match returns at once. *)
Fixpoint scan_prefixes (path : string) (locs : list CompiledLocation) (best_prefix best_prefer_prefix : best)
  : CompiledLocation + best * best :=
  match locs with
  | [] => inr (best_prefix, best_prefer_prefix)
  | location :: locs' =>
      match matcher location with
      | CmExact p =>
          if String.eqb path p then inl location
          else scan_prefixes path locs' best_prefix best_prefer_prefix
      | CmPrefix p =>
          if starts_with p path && longer best_prefix (str_len p) then
            scan_prefixes path locs' (Some (location, str_len p)) best_prefer_prefix
          else scan_prefixes path locs' best_prefix best_prefer_prefix
      | CmPreferPrefix p =>
          if starts_with p path && longer best_prefer_prefix (str_len p) then
            scan_prefixes path locs' best_prefix (Some (location, str_len p))
          else scan_prefixes path locs' best_prefix best_prefer_prefix
      | _ => scan_prefixes path locs' best_prefix best_prefer_prefix
      end
  end.

Definition regex_location (path : string) (location : CompiledLocation) : bool :=
  match matcher location with CmRegex pattern ci => regex_is_match pattern ci path | _ => false end.

Definition select_route_target (routes : ServerRoutes) (path : string) : option CompiledLocation :=
  match scan_prefixes path (sr_locations routes) None None with
  | inl location => Some location
  | inr (best_prefix, best_prefer_prefix) =>
      match best_prefer_prefix with
      | Some (location, _) => Some location
      | None =>
          match find (regex_location path) (sr_locations routes) with
          | Some location => Some location
          | None => fst <$> best_prefix
          end
      end
  end.

(** ** Hosts *)

Definition normalize_authority_host (value : string) : string :=
  to_ascii_lowercase (trim_end_matches "." value).
Definition invalid_host_header : PError := mkPError (HTTPStatus 400) "invalid host header value".

Definition normalize_request_host (value : string) : result PError string :=
  _ ← fail_if (contains_char "@" value || contains_char "," value) invalid_host_header;
  host ← ok_or (authority_host value) invalid_host_header;
  let host := match strip_prefix "[" host with
              | Some v => default host (strip_suffix_char "]" v)
              | None => host
              end in
  _ ← fail_if (is_empty host) invalid_host_header;
  Ok (normalize_authority_host host).

Definition request_host (session : Session) : result PError (option string) :=
  match s_host session with
  | None => Ok None
  | Some None => Err (mkPError (HTTPStatus 400) "invalid host header encoding")
  | Some (Some host) => Some <$> normalize_request_host host
  end.

Definition validate_sni_host_consistency (host sni : option string) : result PError unit :=
  match host, sni with
  | Some h, Some s =>
      fail_if (negb (String.eqb h s))
        (mkPError (HTTPStatus 421)
          ("tls sni `" +:+ s +:+ "` does not match http host `" +:+ h +:+ "`"))
  | _, _ => Ok tt
  end.

Definition session_listen_key (session : Session) : result PError ListenKey :=
  server_addr ← ok_or (s_server_addr session) (mkPError InternalError "missing downstream server addr");
  inet ← ok_or server_addr (mkPError InternalError "downstream server addr is not inet (likely UDS)");
  Ok (mkListenKey (fst inet) (snd inet) (s_tls session)).

Definition wildcard_listen_key (key : ListenKey) : ListenKey :=
  mkListenKey (match addr key with V4 _ => UNSPECIFIED_V4 | V6 _ => UNSPECIFIED_V6 end) (port key) (ssl key).

Definition listener_routes (router : CompiledRouter) (key : ListenKey) : option VirtualHostRoutes :=
  match r_listeners router !! key with
  | Some v => Some v
  | None =>
      let wildcard := wildcard_listen_key key in
      if bool_decide (wildcard = key) then None else r_listeners router !! wildcard
  end.

(** The host names of a listener that match, with their scores, in map order. *)
Definition scored_hosts `{HashIter} (vhosts : VirtualHostRoutes) (host : string) : list (score * ServerRoutes) :=
  omap (fun '(name, routes) => (fun s => (s, routes)) <$> hostname_score name host) (iter (named vhosts)).

Definition select_server_routes `{HashIter} (vhosts : VirtualHostRoutes) (host : option string)
  : option ServerRoutes :=
  option_or
    (value ← host;
     snd <$> max_by (fun a b => score_leb (fst a) (fst b)) (scored_hosts vhosts value))
    (default_routes vhosts).

Record ResolvedLocation := mkResolvedLocation { rl_location : CompiledLocation; rl_host : option string }.

(** ** HTTP rules *)

Definition is_http (location : CompiledLocation) : bool :=
  match matcher location with CmHttp _ => true | _ => false end.

(** The best matching HTTP rule of one virtual host: the first of the highest score. *)
Definition better_rule (request : Request) (b : option (rule_score * CompiledLocation)) (location : CompiledLocation)
  : option (rule_score * CompiledLocation) :=
  match matcher location with
  | CmHttp m =>
      if matches m request then
        let s := match_score m in
        if match b with None => true | Some (previous, _) => score_gt s previous end
        then Some (s, location) else b
      else b
  | _ => b
  end.
Definition best_rule (request : Request) (locs : list CompiledLocation) : option CompiledLocation :=
  snd <$> foldl (better_rule request) None locs.

(** Walks the ranked candidates: a virtual host with HTTP rules but no match falls
    through to the next, one without HTTP rules ends the walk. *)
Fixpoint ranked_rule (request : Request) (candidates : list (score * ServerRoutes)) : option CompiledLocation :=
  match candidates with
  | [] => None
  | (_, routes) :: candidates' =>
      if existsb is_http (sr_locations routes) then
        match best_rule request (sr_locations routes) with
        | Some location => Some location
        | None => ranked_rule request candidates'
        end
      else None
  end.

Definition candidates `{HashIter} (vhosts : VirtualHostRoutes) (host : option string) : list (score * ServerRoutes) :=
  stable_sort (fun a b => score_leb (fst b) (fst a))
    (match host with Some h => scored_hosts vhosts h | None => [] end
     ++ match default_routes vhosts with Some d => [((false, 0), d)] | None => [] end).

Definition resolve_route `{HashIter} (router : CompiledRouter) (session : Session)
  : result PError (option ResolvedLocation) :=
  listen_key ← session_listen_key session;
  match listener_routes router listen_key with
  | None => Ok None
  | Some vhosts =>
      host ← request_host session;
      let sni := if ssl listen_key then s_sni session else None in
      _ ← validate_sni_host_consistency host sni;
      let routing_host := option_or host sni in
      match ranked_rule (s_request session) (candidates vhosts routing_host) with
      | Some location => Ok (Some (mkResolvedLocation location host))
      | None =>
          match select_server_routes vhosts routing_host with
          | None => Ok None
          | Some server_routes =>
              Ok ((fun l => mkResolvedLocation l host) <$>
                    select_route_target server_routes (uri_path (req_uri (s_request session))))
          end
      end
  end.
End routing.

(** ** Orders and maxima *)

Lemma score_leb_total a b : score_leb a b = true \/ score_leb b a = true.
Proof. destruct a as [[] x], b as [[] y]; simpl; rewrite ?N.leb_le; auto; lia. Qed.

Lemma score_leb_trans a b c : score_leb a b = true -> score_leb b c = true -> score_leb a c = true.
Proof. destruct a as [[] x], b as [[] y], c as [[] z]; simpl; rewrite ?N.leb_le; try done; lia. Qed.

Lemma score_leb_antisymm a b : score_leb a b = true -> score_leb b a = true -> a = b.
Proof. destruct a as [[] x], b as [[] y]; simpl; rewrite ?N.leb_le; try done; intros; f_equal; lia. Qed.

(** [max_by] returns an element that no other exceeds. *)
Section max_by_spec.
Context {A : Type} (leb : A -> A -> bool).
Context (leb_total : forall x y, leb x y = true \/ leb y x = true).
Context (leb_trans : forall x y z, leb x y = true -> leb y z = true -> leb x z = true).

Lemma max_by_go l b x :
  foldl (max_by_step leb) (Some b) l = Some x ->
  x ∈ b :: l /\ leb b x = true /\ forall y, y ∈ l -> leb y x = true.
Proof using Type*.
  revert b. induction l as [|z l IH]; simpl; intros b Hx.
  - simplify_eq. split; [set_solver|]. split; [by destruct (leb_total x x)|set_solver].
  - destruct (leb b z) eqn:E; apply IH in Hx as (Hin & Hb & Hl).
    + split; [set_solver|]. split; [by eapply leb_trans|].
      intros y. rewrite elem_of_cons. intros [->|?]; auto.
    + split; [set_solver|]. split; [done|]. intros y. rewrite elem_of_cons. intros [->|?]; [|auto].
      destruct (leb_total b z); [congruence|]. by eapply leb_trans.
Qed.

Lemma max_by_Some l x : max_by leb l = Some x -> x ∈ l /\ forall y, y ∈ l -> leb y x = true.
Proof using Type*.
  destruct l as [|b l]; [done|]. intros Hx. apply (max_by_go l b x) in Hx as (Hin & Hb & Hl).
  split; [done|]. intros y. rewrite elem_of_cons. intros [->|?]; auto.
Qed.

Lemma max_by_None l : max_by leb l = None <-> l = [].
Proof using Type.
  assert (Hgo : forall b, foldl (max_by_step leb) (Some b) l <> None).
  { induction l as [|z l IH]; simpl; intros b; [done|]. destruct (leb b z); apply IH. }
  destruct l as [|b l]; [done|]. split; [|done]. unfold max_by. simpl. intros Hn.
  exfalso. apply (Hgo b). simpl. destruct (leb b b) eqn:E; [exact Hn|exact Hn].
Qed.

(** The maximum of a list with distinct keys does not depend on its order. *)
Lemma max_by_perm l k :
  (forall x y, x ∈ l -> y ∈ l -> leb x y = true -> leb y x = true -> x = y) ->
  l ≡ₚ k -> max_by leb l = max_by leb k.
Proof using Type*.
  intros Hanti Hp. destruct (max_by leb l) as [x|] eqn:El, (max_by leb k) as [y|] eqn:Ek.
  - apply max_by_Some in El as [Hx Hlx]. apply max_by_Some in Ek as [Hy Hky]. f_equal.
    rewrite <- Hp in Hy. apply Hanti; [done|done| |by apply Hlx]. apply Hky. by rewrite <- Hp.
  - apply max_by_None in Ek as ->. apply Permutation_nil_r in Hp as ->. done.
  - apply max_by_None in El as ->. symmetry in Hp. apply Permutation_nil_r in Hp as ->. done.
  - done.
Qed.
End max_by_spec.

Section routing_lemmas.
Context `{Crates}.

(** *** Virtual hosts *)

Lemma scored_hosts_elem `{HashIter} vhosts host s routes :
  (s, routes) ∈ scored_hosts vhosts host <->
  exists name, named vhosts !! name = Some routes /\ hostname_score name host = Some s.
Proof.
  unfold scored_hosts. rewrite list_elem_of_omap. split.
  - intros ([name r] & Hin & Hs). rewrite iter_perm, elem_of_map_to_list in Hin.
    destruct (hostname_score name host) eqn:E; simpl in Hs; simplify_eq. eauto.
  - intros (name & Hn & Hs). exists (name, routes). rewrite iter_perm, elem_of_map_to_list.
    by rewrite Hs.
Qed.

(** Distinct matching names have distinct scores. *)
Lemma scored_hosts_unique `{HashIter} vhosts host s r1 r2 :
  (s, r1) ∈ scored_hosts vhosts host -> (s, r2) ∈ scored_hosts vhosts host -> r1 = r2.
Proof.
  rewrite !scored_hosts_elem. intros (n1 & Hn1 & Hs1) (n2 & Hn2 & Hs2).
  assert (n1 = n2) as -> by by eapply hostname_score_inj. congruence.
Qed.

Lemma scored_hosts_perm (I J : HashIter) vhosts host :
  @scored_hosts _ I vhosts host ≡ₚ @scored_hosts _ J vhosts host.
Proof. unfold scored_hosts. by rewrite (@iter_perm I), (@iter_perm J). Qed.

Lemma select_server_routes_order (I J : HashIter) vhosts host :
  @select_server_routes _ I vhosts host = @select_server_routes _ J vhosts host.
Proof.
  unfold select_server_routes. destruct host as [h|]; simpl; [|done]. do 2 f_equal.
  apply max_by_perm; [| | |apply scored_hosts_perm].
  - intros x y. apply score_leb_total.
  - intros x y z. apply score_leb_trans.
  - intros [s r] [s' r'] Hx Hy Hle Hge. assert (s = s') as <- by by apply score_leb_antisymm.
    f_equal. by eapply (@scored_hosts_unique I).
Qed.

Lemma candidates_order (I J : HashIter) vhosts host :
  @candidates _ I vhosts host = @candidates _ J vhosts host.
Proof.
  unfold candidates.
  eapply (StronglySorted_unique_strong (le_prop (fun a b => score_leb (fst b) (fst a)))).
  2, 3: apply stable_sort_sorted;
    [intros x y; apply score_leb_total|intros x y z Hxy Hyz; by eapply score_leb_trans].
  - intros [s r] [s' r']. rewrite !stable_sort_perm. unfold le_prop. simpl. intros Hx Hy Hle Hge.
    assert (s = s') as <- by by apply score_leb_antisymm. f_equal.
    destruct host as [h|].
    + rewrite (scored_hosts_perm I J) in Hx. apply elem_of_app in Hx, Hy.
      assert (forall s r, (s, r) ∈ match default_routes vhosts with
                Some d => [((false, 0), d)] | None => [] end ->
              s = (false, 0) /\ default_routes vhosts = Some r) as Hd.
      { intros s0 r0. destruct (default_routes vhosts); set_solver. }
      assert (forall r, ((false, 0), r) ∉ @scored_hosts _ J vhosts h) as Hn.
      { intros r0. rewrite scored_hosts_elem. intros (n & _ & Hs). by eapply hostname_score_not_default. }
      destruct Hx as [Hx|Hx%Hd], Hy as [Hy|Hy%Hd].
      * by eapply (@scored_hosts_unique J).
      * destruct Hy as [-> _]. by eapply Hn in Hx.
      * destruct Hx as [-> _]. by eapply Hn in Hy.
      * destruct Hx as [_ Hx], Hy as [_ Hy]. congruence.
    + simpl in Hx, Hy. destruct (default_routes vhosts); set_solver.
  - rewrite !stable_sort_perm. destruct host; [|done]. by rewrite (scored_hosts_perm I J).
Qed.
End routing_lemmas.

(** ** The documented precedence of locations

    exact > longest [^~] prefix > first matching regex > longest plain prefix. *)

Section precedence.
Context `{Crates}.

Definition exact_match (path : string) (l : CompiledLocation) : bool :=
  match matcher l with CmExact p => String.eqb path p | _ => false end.
Definition prefix_len (path : string) (l : CompiledLocation) : option N :=
  match matcher l with CmPrefix p => then_some (starts_with p path) (str_len p) | _ => None end.
Definition prefer_len (path : string) (l : CompiledLocation) : option N :=
  match matcher l with CmPreferPrefix p => then_some (starts_with p path) (str_len p) | _ => None end.

Definition no_match (f : CompiledLocation -> option N) (locs : list CompiledLocation) : Prop :=
  Forall (fun x => f x = None) locs.
(** [l] is the first of the locations of [locs] that match with maximal length [n]. *)
Definition is_longest (f : CompiledLocation -> option N) (locs : list CompiledLocation) (l : CompiledLocation) (n : N)
  : Prop :=
  exists pre post, locs = pre ++ l :: post /\ f l = Some n /\
    Forall (fun x => forall k, f x = Some k -> k < n) pre /\
    Forall (fun x => forall k, f x = Some k -> k <= n) post.

Inductive selects (path : string) (locs : list CompiledLocation) : option CompiledLocation -> Prop :=
| sel_exact pre l post :
    locs = pre ++ l :: post -> exact_match path l = true ->
    Forall (fun x => exact_match path x = false) pre -> selects path locs (Some l)
| sel_prefer l n :
    Forall (fun x => exact_match path x = false) locs ->
    is_longest (prefer_len path) locs l n -> selects path locs (Some l)
| sel_regex pre l post :
    Forall (fun x => exact_match path x = false) locs -> no_match (prefer_len path) locs ->
    locs = pre ++ l :: post -> regex_location path l = true ->
    Forall (fun x => regex_location path x = false) pre -> selects path locs (Some l)
| sel_prefix l n :
    Forall (fun x => exact_match path x = false) locs -> no_match (prefer_len path) locs ->
    Forall (fun x => regex_location path x = false) locs ->
    is_longest (prefix_len path) locs l n -> selects path locs (Some l)
| sel_none :
    Forall (fun x => exact_match path x = false) locs -> no_match (prefer_len path) locs ->
    Forall (fun x => regex_location path x = false) locs -> no_match (prefix_len path) locs ->
    selects path locs None.

(** What a running maximum knows about the locations seen so far. *)
Definition tracks (f : CompiledLocation -> option N) (seen : list CompiledLocation) (b : best) : Prop :=
  match b with None => no_match f seen | Some (l, n) => is_longest f seen l n end.

Definition track_step (f : CompiledLocation -> option N) (b : best) (x : CompiledLocation) : best :=
  match f x with Some n => if longer b n then Some (x, n) else b | None => b end.

Lemma tracks_step f seen b x : tracks f seen b -> tracks f (seen ++ [x]) (track_step f b x).
Proof.
  intros Ht. unfold track_step. destruct (f x) as [n|] eqn:Ex.
  - destruct b as [[l m]|]; simpl in Ht |- *.
    + destruct Ht as (pre & post & -> & Hl & Hpre & Hpost).
      destruct (N.ltb_spec m n); simpl.
      * exists (pre ++ l :: post), []. split; [done|]. split; [done|]. split; [|constructor].
        apply Forall_app. split; [eapply Forall_impl; [exact Hpre|]; simpl; intros y Hy k Hk; specialize (Hy k Hk); lia|].
        constructor; [intros k Hk; assert (k = m) by congruence; lia|].
        eapply Forall_impl; [exact Hpost|]. simpl. intros y Hy k Hk. specialize (Hy k Hk). lia.
      * exists pre, (post ++ [x]). split; [by rewrite <- app_assoc|]. split; [done|]. split; [done|].
        apply Forall_app. split; [done|]. constructor; [|constructor]. intros k Hk.
        assert (k = n) by congruence. lia.
    + exists seen, []. split; [done|]. split; [done|]. split; [|constructor].
      eapply Forall_impl; [exact Ht|]. simpl. congruence.
  - destruct b as [[l m]|]; simpl in Ht |- *.
    + destruct Ht as (pre & post & -> & Hl & Hpre & Hpost).
      exists pre, (post ++ [x]). split; [by rewrite <- app_assoc|]. split; [done|]. split; [done|].
      apply Forall_app. split; [done|]. constructor; [|constructor]. congruence.
    + apply Forall_app. split; [done|]. by constructor.
Qed.

(** The loop body is an exact check followed by the two running maxima. *)
Lemma scan_prefixes_cons path x locs bp bpp :
  scan_prefixes path (x :: locs) bp bpp =
  if exact_match path x then inl x
  else scan_prefixes path locs (track_step (prefix_len path) bp x) (track_step (prefer_len path) bpp x).
Proof.
  cbn [scan_prefixes]. unfold track_step, exact_match, prefix_len, prefer_len, then_some.
  destruct (matcher x); try done;
    destruct (starts_with p path); simpl; try done; by destruct (longer _ _).
Qed.

Lemma scan_prefixes_spec path seen locs bp bpp :
  tracks (prefix_len path) seen bp -> tracks (prefer_len path) seen bpp ->
  match scan_prefixes path locs bp bpp with
  | inl l => exists pre post, locs = pre ++ l :: post /\ exact_match path l = true /\
               Forall (fun x => exact_match path x = false) pre
  | inr (bp', bpp') =>
      Forall (fun x => exact_match path x = false) locs /\
      tracks (prefix_len path) (seen ++ locs) bp' /\ tracks (prefer_len path) (seen ++ locs) bpp'
  end.
Proof.
  revert seen bp bpp. induction locs as [|x locs IH]; intros seen bp bpp Hp Hpp.
  - simpl. rewrite app_nil_r. auto.
  - rewrite scan_prefixes_cons. destruct (exact_match path x) eqn:Ex.
    + exists [], locs. repeat split; [done|constructor].
    + specialize (IH (seen ++ [x]) _ _ (tracks_step _ _ _ x Hp) (tracks_step _ _ _ x Hpp)).
      rewrite <- app_assoc in IH. simpl in IH. case_match.
      * destruct IH as (pre & post & -> & Hl & Hf). exists (x :: pre), post. by repeat constructor.
      * case_match. destruct IH as (Hf & Ht). split; [by constructor|done].
Qed.

Lemma find_split {A} (f : A -> bool) l :
  match find f l with
  | Some x => exists pre post, l = pre ++ x :: post /\ f x = true /\ Forall (fun y => f y = false) pre
  | None => Forall (fun y => f y = false) l
  end.
Proof.
  induction l as [|y l IH]; simpl; [constructor|]. destruct (f y) eqn:Ey.
  - exists [], l. by repeat constructor.
  - destruct (find f l); [|by constructor].
    destruct IH as (pre & post & -> & Hx & Hf). exists (y :: pre), post. by repeat constructor.
Qed.

Lemma select_route_target_selects routes path :
  selects path (sr_locations routes) (select_route_target routes path).
Proof.
  unfold select_route_target.
  pose proof (scan_prefixes_spec path [] (sr_locations routes) None None
    ltac:(constructor) ltac:(constructor)) as Hs.
  destruct (scan_prefixes _ _ _ _) as [l|[bp bpp]].
  - destruct Hs as (pre & post & ? & ? & ?). by eapply sel_exact.
  - destruct Hs as (He & Hp & Hpp). simpl in Hp, Hpp.
    destruct bpp as [[l n]|]; [by eapply sel_prefer|].
    pose proof (find_split (regex_location path) (sr_locations routes)) as Hr.
    destruct (find _ _) as [l|].
    + destruct Hr as (pre & post & ? & ? & ?). by eapply sel_regex.
    + destruct bp as [[l n]|]; [by eapply sel_prefix|by eapply sel_none].
Qed.
End precedence.

(** ** Isolation *)

Section isolation.
Context `{Crates}.

(** *** Which virtual server, and which of its rules, serves a host *)

(** The virtual server [routes] of a listener is offered to [host] with a rank: the score
    of its name, or the lowest rank for the default one. *)
Definition offers (vhosts : VirtualHostRoutes) (host : option string) (rank : score) (routes : ServerRoutes) : Prop :=
  (exists h name, host = Some h /\ named vhosts !! name = Some routes /\ hostname_score name h = Some rank) \/
  (rank = (false, 0) /\ default_routes vhosts = Some routes).

Definition rule_applies (request : Request) (l : CompiledLocation) : bool :=
  match matcher l with CmHttp m => matches m request | _ => false end.

(** An HTTP rule that serves the request: it matches, none of its virtual server that
    matches is more specific, and every virtual server of a higher rank has HTTP rules,
    none of which matches. *)
Definition rule_serves (vhosts : VirtualHostRoutes) (host : option string) (request : Request) (location : CompiledLocation) : Prop :=
  exists rank routes m, offers vhosts host rank routes /\ location ∈ sr_locations routes /\
    matcher location = CmHttp m /\ matches m request = true /\
    (forall l m', l ∈ sr_locations routes -> matcher l = CmHttp m' -> matches m' request = true -> score_gt (match_score m') (match_score m) = false) /\
    (forall rank' routes', offers vhosts host rank' routes' -> score_leb rank' rank = false ->
       existsb is_http (sr_locations routes') = true /\ Forall (fun l => rule_applies request l = false) (sr_locations routes')).

(** The location a listener serves a request for [host] with: an HTTP rule, or, when none
    serves it, the location of the best virtual server that the documented order selects. *)
Inductive routed_in (vhosts : VirtualHostRoutes) (host : option string) (request : Request) (location : CompiledLocation) : Prop :=
| routed_rule : rule_serves vhosts host request location -> routed_in vhosts host request location
| routed_location rank routes :
    (forall l, ~ rule_serves vhosts host request l) ->
    offers vhosts host rank routes -> (forall rank' routes', offers vhosts host rank' routes' -> score_leb rank' rank = true) ->
    selects (uri_path (req_uri request)) (sr_locations routes) (Some location) -> routed_in vhosts host request location.

Lemma lex_gt_irrefl a : lex_gt a a = false.
Proof. induction a as [|x a IH]; simpl; [done|]. rewrite N.ltb_irrefl, N.eqb_refl. exact IH. Qed.
Lemma lex_gt_le_lt a b c : length a = length b -> length c = length b -> lex_gt a b = false -> lex_gt c b = true -> lex_gt a c = false.
Proof.
  revert b c. induction a as [|x a IH]; intros [|y b] [|z c]; simpl; try done. intros [= Ha] [= Hc].
  rewrite !orb_false_iff, orb_true_iff, !andb_false_iff, andb_true_iff, !N.ltb_ge, !N.ltb_lt, !N.eqb_eq, !N.eqb_neq.
  intros [Hxy Hab] [Hyz|[-> Hcb]].
  - split; [lia|]. left. lia.
  - split; [done|]. destruct Hab as [Hne|Hab]; [by left|]. right. by apply (IH b).
Qed.
Lemma score_gt_le_lt a b c : score_gt a b = false -> score_gt c b = true -> score_gt a c = false.
Proof. by apply lex_gt_le_lt. Qed.

(** The best rule of the locations [locs]. *)
Definition best_of (request : Request) (locs : list CompiledLocation) (b : option (rule_score * CompiledLocation)) : Prop :=
  match b with
  | None => Forall (fun l => rule_applies request l = false) locs
  | Some (s, l) => exists m, l ∈ locs /\ matcher l = CmHttp m /\ matches m request = true /\ s = match_score m /\
      forall l' m', l' ∈ locs -> matcher l' = CmHttp m' -> matches m' request = true -> score_gt (match_score m') s = false
  end.

Lemma elem_of_snoc {A} (x y : A) l : x ∈ l ++ [y] -> x ∈ l \/ x = y.
Proof. set_solver. Qed.
Lemma best_of_step request seen b x : best_of request seen b -> best_of request (seen ++ [x]) (better_rule request b x).
Proof.
  intros Hb. assert (rule_applies request x = false -> best_of request (seen ++ [x]) b) as Hskip.
  { intros Hx. destruct b as [[s l]|]; simpl in *; [|apply Forall_app; split; [done|by constructor]].
    destruct Hb as (m & Hin & Hm & Hr & Hs & Hbest). exists m. split_and!; [set_solver|done..|].
    intros l' m' [Hl| ->]%elem_of_snoc Hm' Hr'; [by eapply Hbest|].
    unfold rule_applies in Hx. rewrite Hm' in Hx. congruence. }
  unfold better_rule, rule_applies in *. destruct (matcher x) as [mx| | | | |] eqn:Ex; try by apply Hskip.
  destruct (matches mx request) eqn:Emx; [|by apply Hskip].
  destruct b as [[s l]|]; simpl in Hb.
  - destruct Hb as (m & Hin & Hm & Hr & Hs & Hbest). destruct (score_gt (match_score mx) s) eqn:Eg; simpl.
    + exists mx. split_and!; [set_solver|done..|]. intros l' m' [Hl| ->]%elem_of_snoc Hm' Hr'.
      * eapply score_gt_le_lt; [by eapply Hbest|done].
      * assert (m' = mx) as -> by congruence. apply lex_gt_irrefl.
    + exists m. split_and!; [set_solver|done..|]. intros l' m' [Hl| ->]%elem_of_snoc Hm' Hr'; [by eapply Hbest|congruence].
  - simpl. exists mx. split_and!; [set_solver|done..|]. intros l' m' [Hl| ->]%elem_of_snoc Hm' Hr'.
    + rewrite Forall_forall in Hb. specialize (Hb l' Hl). unfold rule_applies in Hb. rewrite Hm' in Hb. congruence.
    + assert (m' = mx) as -> by congruence. apply lex_gt_irrefl.
Qed.

Lemma best_of_foldl request seen b locs : best_of request seen b -> best_of request (seen ++ locs) (foldl (better_rule request) b locs).
Proof.
  revert seen b. induction locs as [|x locs IH]; intros seen b Hb; simpl; [by rewrite app_nil_r|].
  change (x :: locs) with ([x] ++ locs). rewrite app_assoc. by apply IH, best_of_step.
Qed.

Lemma best_rule_spec request locs :
  match best_rule request locs with
  | None => Forall (fun l => rule_applies request l = false) locs
  | Some l => exists m, l ∈ locs /\ matcher l = CmHttp m /\ matches m request = true /\
      forall l' m', l' ∈ locs -> matcher l' = CmHttp m' -> matches m' request = true -> score_gt (match_score m') (match_score m) = false
  end.
Proof.
  unfold best_rule. pose proof (best_of_foldl request [] None locs ltac:(constructor)) as Hb. simpl in Hb.
  destruct (foldl _ None locs) as [[s l]|]; simpl in *; [|done]. destruct Hb as (m & ? & ? & ? & -> & ?). by exists m.
Qed.

(** The walk over the ranked candidates: the virtual servers it passed, and where it stopped. *)
Definition passes (request : Request) (e : score * ServerRoutes) : Prop :=
  existsb is_http (sr_locations (snd e)) = true /\ Forall (fun l => rule_applies request l = false) (sr_locations (snd e)).
Lemma ranked_rule_spec request cands :
  exists pre post, cands = pre ++ post /\ Forall (passes request) pre /\
    match ranked_rule request cands, post with
    | Some l, (_, routes) :: _ => best_rule request (sr_locations routes) = Some l
    | Some _, [] => False
    | None, (_, routes) :: _ => existsb is_http (sr_locations routes) = false
    | None, [] => True
    end.
Proof.
  induction cands as [|[rank routes] cands IH]; [by exists [], []|]. cbn [ranked_rule].
  destruct (existsb is_http (sr_locations routes)) eqn:Eh; [|by exists [], ((rank, routes) :: cands)].
  pose proof (best_rule_spec request (sr_locations routes)) as Hb.
  destruct (best_rule request (sr_locations routes)) as [l|] eqn:Eb; [by exists [], ((rank, routes) :: cands)|].
  destruct IH as (pre & post & -> & Hpre & Hpost). exists ((rank, routes) :: pre), post. split; [done|]. split; [|done].
  constructor; [by split|done].
Qed.

Lemma candidates_offers `{HashIter} vhosts host rank routes :
  (rank, routes) ∈ candidates vhosts host <-> offers vhosts host rank routes.
Proof.
  unfold candidates, offers. rewrite stable_sort_perm, elem_of_app. split.
  - intros [Hin|Hin]; [left|right; destruct (default_routes vhosts); set_solver].
    destruct host as [h|]; [|set_solver]. apply scored_hosts_elem in Hin as (n & Hn & Hs). by exists h, n.
  - intros [(h & name & -> & Hn & Hs)|[-> ->]]; [left|right; set_solver]. apply scored_hosts_elem. by exists name.
Qed.
Lemma offers_unique vhosts host rank r1 r2 : offers vhosts host rank r1 -> offers vhosts host rank r2 -> r1 = r2.
Proof.
  intros [(h & n1 & -> & Hn1 & Hs1)|[-> Hd1]] [(h2 & n2 & Eh & Hn2 & Hs2)|[E Hd2]].
  - injection Eh as <-. assert (n1 = n2) as -> by by eapply hostname_score_inj. congruence.
  - subst rank. by apply hostname_score_not_default in Hs1.
  - by apply hostname_score_not_default in Hs2.
  - congruence.
Qed.
Lemma candidates_sorted `{HashIter} vhosts host :
  StronglySorted (le_prop (fun a b => score_leb (fst b) (fst a))) (candidates vhosts host).
Proof. apply stable_sort_sorted; [intros x y; apply score_leb_total|intros x y z Hxy Hyz; by eapply score_leb_trans]. Qed.
(** What stands behind an element of the walk ranks no higher. *)
Lemma candidates_behind `{HashIter} vhosts host pre e post e' :
  candidates vhosts host = pre ++ e :: post -> e' ∈ post -> score_leb (fst e') (fst e) = true.
Proof.
  intros Hc Hin. pose proof (candidates_sorted vhosts host) as Hs. rewrite Hc in Hs. apply StronglySorted_app in Hs as (_ & _ & Hs).
  inversion Hs as [|? ? _ Hf]; subst. eapply Forall_forall in Hf; [exact Hf|done].
Qed.

Lemma ranked_rule_serves `{HashIter} vhosts host request :
  match ranked_rule request (candidates vhosts host) with
  | Some l => rule_serves vhosts host request l
  | None => forall l, ~ rule_serves vhosts host request l
  end.
Proof.
  destruct (ranked_rule_spec request (candidates vhosts host)) as (pre & post & Hc & Hpre & Hpost).
  destruct (ranked_rule request (candidates vhosts host)) as [l|].
  - destruct post as [|[rank routes] post]; [done|]. pose proof (best_rule_spec request (sr_locations routes)) as Hb.
    rewrite Hpost in Hb. destruct Hb as (m & Hin & Hm & Hr & Hbest). exists rank, routes, m. split_and!; [|done..|].
    + apply candidates_offers. rewrite Hc. set_solver.
    + intros rank' routes' Ho Hlt. apply candidates_offers in Ho. rewrite Hc in Ho.
      apply elem_of_app in Ho as [Ho|[[= -> ->]|Ho]%elem_of_cons].
      * eapply Forall_forall in Hpre; [|exact Ho]. exact Hpre.
      * destruct (score_leb_total rank rank); congruence.
      * pose proof (candidates_behind _ _ _ _ _ _ Hc Ho) as Hle. simpl in Hle. congruence.
  - intros l (rank & routes & m & Ho & Hin & Hm & Hr & _ & Hbetter).
    pose proof Ho as Ho'. apply candidates_offers in Ho'. rewrite Hc in Ho'. apply elem_of_app in Ho' as [Ho'|Ho'].
    + eapply Forall_forall in Hpre; [|exact Ho']. destruct Hpre as [_ Hf]. eapply Forall_forall in Hf; [|exact Hin].
      unfold rule_applies in Hf. rewrite Hm in Hf. congruence.
    + destruct post as [|[r0 s0] post]; [set_solver|].
      assert (offers vhosts host r0 s0) as Ho0 by (apply candidates_offers; rewrite Hc; set_solver).
      assert (s0 = routes) as ->.
      { apply elem_of_cons in Ho' as [[= -> ->]|Ho']; [done|]. pose proof (candidates_behind _ _ _ _ _ _ Hc Ho') as Hle. simpl in Hle.
        destruct (score_leb r0 rank) eqn:E; [|destruct (Hbetter r0 s0 Ho0 E); congruence].
        assert (r0 = rank) as -> by by apply score_leb_antisymm. by eapply offers_unique. }
      assert (existsb is_http (sr_locations routes) = true) as Hx; [|congruence].
      apply existsb_exists. exists l. rewrite <- list_elem_of_In. split; [done|]. unfold is_http. by rewrite Hm.
Qed.

Lemma select_server_routes_best `{HashIter} vhosts host routes :
  select_server_routes vhosts host = Some routes ->
  exists rank, offers vhosts host rank routes /\ forall rank' routes', offers vhosts host rank' routes' -> score_leb rank' rank = true.
Proof.
  assert (forall b : bool * N, score_leb (false, 0) b = true) as Hlow by (intros [[] n]; simpl; [done|apply N.leb_le; lia]).
  unfold select_server_routes. destruct host as [h|]; simpl; cycle 1.
  { intros Hd. exists (false, 0). split; [by right|]. intros rank' routes' [(? & ? & [=] & _)|[-> _]]. apply Hlow. }
  destruct (max_by _ _) as [[s r]|] eqn:E; simpl.
  - intros [= <-]. apply max_by_Some in E as [Hin Hmax]; [|intros; apply score_leb_total|intros ???; apply score_leb_trans].
    exists s. apply scored_hosts_elem in Hin as (n & Hn & Hs). split; [left; by exists h, n|].
    intros rank' routes' [(h' & n' & [= <-] & Hn' & Hs')|[-> _]]; [|apply Hlow].
    apply (Hmax (rank', routes')). apply scored_hosts_elem. by exists n'.
  - intros Hd. apply max_by_None in E. exists (false, 0). split; [by right|].
    intros rank' routes' [(h' & n' & [= <-] & Hn' & Hs')|[-> _]]; [|apply Hlow].
    assert ((rank', routes') ∈ scored_hosts vhosts h) as Hin by (apply scored_hosts_elem; by exists n'). rewrite E in Hin. set_solver.
Qed.

End isolation.

(** ** Theorems *)

Section theorems.
Context `{Crates}.

(** Which location a request is routed to does not depend on the iteration
    order of the virtual-host map: distinct host names never tie for one host, so
    ranking HTTP rules and choosing the virtual server are deterministic. *)
Theorem resolve_route_order_independent (I J : HashIter) router session :
  @resolve_route _ I router session = @resolve_route _ J router session.
Proof.
  unfold resolve_route. destruct (session_listen_key session) as [k|]; simpl; [|done].
  case_match; [|done]. destruct (request_host session) as [h|]; simpl; [|done].
  destruct (validate_sni_host_consistency _ _); simpl; [|done].
  by rewrite (candidates_order I J), (select_server_routes_order I J).
Qed.

(** C19: the location chosen inside a virtual server follows the documented order:
    the first exact match, else the longest [^~] prefix, else the first matching
    regex, else the longest plain prefix, else none. *)
Theorem location_precedence routes path :
  selects path (sr_locations routes) (select_route_target routes path).
Proof. apply select_route_target_selects. Qed.

Lemma resolve_route_inv `{HashIter} router session key loc :
  session_listen_key session = Ok key ->
  resolve_route router session = Ok (Some loc) ->
  (exists k vhosts, (k = key \/ k = wildcard_listen_key key /\ r_listeners router !! key = None) /\
     r_listeners router !! k = Some vhosts /\
     routed_in vhosts (option_or (rl_host loc) (if ssl key then s_sni session else None)) (s_request session) (rl_location loc)) /\
  request_host session = Ok (rl_host loc) /\
  (forall h s, ssl key = true -> rl_host loc = Some h -> s_sni session = Some s -> h = s).
Proof.
  intros Hk Hr. unfold resolve_route in Hr. rewrite Hk in Hr. simpl in Hr.
  destruct (listener_routes router key) as [vhosts|] eqn:El; [|done].
  inv_ok. assert (Hv : exists k, (k = key \/ k = wildcard_listen_key key /\ r_listeners router !! key = None) /\ r_listeners router !! k = Some vhosts).
  { unfold listener_routes in El. destruct (r_listeners router !! key) eqn:E; [naive_solver|].
    case_bool_decide; [done|]. eauto. }
  destruct Hv as (k & Hkk & Hv). set (host := option_or a _) in *.
  assert (Hloc : routed_in vhosts host (s_request session) (rl_location loc) /\ rl_host loc = a).
  { pose proof (ranked_rule_serves vhosts host (s_request session)) as Hrule. destruct (ranked_rule _ _) as [l|].
    - inv_ok. simplify_eq. simpl. split; [by apply routed_rule|done].
    - destruct (select_server_routes vhosts _) as [routes|] eqn:Es; [|done]. inv_ok.
      destruct (select_route_target routes _) as [l|] eqn:Et; [|done]. simpl in Hr. simplify_eq. simpl. split; [|done].
      apply select_server_routes_best in Es as (rank & Ho & Hbest). eapply routed_location; [done..|].
      rewrite <- Et. apply select_route_target_selects. }
  destruct Hloc as [Hin Hh]. subst host. rewrite <- Hh in Hin.
  split; [exists k, vhosts; auto|]. split; [by rewrite Hh|].
  intros h s Hssl Hrl Hsni. rewrite Hrl in Hh. subst a. rewrite Hssl, Hsni in Hok0. simpl in Hok0. inv_ok.
  by destruct (String.eqb_spec h s).
Qed.

Lemma routed_in_vhost vhosts host request l :
  routed_in vhosts host request l -> exists routes, vhost_of vhosts routes /\ l ∈ sr_locations routes.
Proof.
  assert (forall rank routes, offers vhosts host rank routes -> vhost_of vhosts routes) as Hvh.
  { intros rank routes [(h & name & _ & Hn & _)|[_ Hd]]; [right; by exists name|by left]. }
  intros [(rank & routes & m & Ho & Hin & _)|rank routes _ Ho _ Hsel]; exists routes; (split; [by eapply Hvh|]); [done|].
  inversion Hsel as [pre l' post Heq| l' n ? (pre & post & Heq & _)|pre l' post ? ? Heq
    | l' n ? ? ? (pre & post & Heq & _) |]; subst; rewrite Heq; set_solver.
Qed.

Lemma resolve_route_location `{HashIter} router session loc :
  resolve_route router session = Ok (Some loc) -> router_location router (rl_location loc).
Proof.
  intros Hr. pose proof Hr as Hr'. unfold resolve_route in Hr'. apply bind_Ok_inv in Hr' as (key & Hk & _).
  destruct (resolve_route_inv _ _ _ _ Hk Hr) as [(k & vhosts & _ & Hv & Hl) _].
  apply routed_in_vhost in Hl as (routes & Hvh & Hl). by exists k, vhosts, routes.
Qed.

(** C18: a routed request stays inside the listener that accepted it (the exact socket
    address, or the wildcard address of its family and port only when that socket has no
    listener of its own) and, in it, inside the virtual server of the authority the client
    asked for: the host, or the TLS server name when there is none, and the two agree when
    both are present.  The location is an HTTP rule that matches, the most specific of its
    virtual server, which is the best match for the host but for better ones whose HTTP
    rules all fail to match; or, when no rule serves the request, the one the documented
    order selects in the best matching virtual server, the default one if no name matches. *)
Theorem resolve_route_isolation `{HashIter} router session key loc :
  session_listen_key session = Ok key ->
  resolve_route router session = Ok (Some loc) ->
  (exists k vhosts, (k = key \/ k = wildcard_listen_key key /\ r_listeners router !! key = None) /\
     r_listeners router !! k = Some vhosts /\
     routed_in vhosts (option_or (rl_host loc) (if ssl key then s_sni session else None)) (s_request session) (rl_location loc)) /\
  request_host session = Ok (rl_host loc) /\
  (forall h s, ssl key = true -> rl_host loc = Some h -> s_sni session = Some s -> h = s).
Proof. apply resolve_route_inv. Qed.
End theorems.

(** A listener on 127.0.0.1:443 whose only virtual host is [a.test]. *)
Module Sample.
Definition key : ListenKey := mkListenKey (ipv4 127 0 0 1) 443 true.
Definition location : @CompiledLocation Toy.crates :=
  mkCompiledLocation ClientLimits_default None 1 (CmPrefix "/") [] (RtUpstreamGroup "web" false)
    UpstreamTimeouts_default None UpstreamHttp2Options_default UpstreamSslOptions_default [] None.
Definition router : @CompiledRouter Toy.crates :=
  mkCompiledRouter None ∅ ∅ {[ key := mkVirtualHostRoutes {[ "a.test" := mkServerRoutes [location] ]} None ]}
    ∅ ∅ (mkHttpRuntimeOptions None None None None None None None None true false false Http2Options_default) None.
Definition session : @Session Toy.crates :=
  mkSession Toy.crates (Some (Some (ipv4 127 0 0 1, 443))) true (Some "a.test") (Some (Some "A.test."))
    (mkRequest Toy.crates "GET" (Toy.parse_uri "/x") (fun _ => [])).
End Sample.

Lemma resolve_route_isolation_witness :
  (exists k vhosts, (k = Sample.key \/ k = wildcard_listen_key Sample.key /\ r_listeners Sample.router !! Sample.key = None) /\
     r_listeners Sample.router !! k = Some vhosts /\
     routed_in vhosts (Some "a.test") (s_request Sample.session) Sample.location) /\
  request_host Sample.session = Ok (Some "a.test") /\
  (forall h s, ssl Sample.key = true -> Some "a.test" = Some h -> s_sni Sample.session = Some s -> h = s).
Proof.
  apply (@resolve_route_isolation Toy.crates iter_forward Sample.router Sample.session Sample.key
    (mkResolvedLocation Sample.location (Some "a.test"))); reflexivity.
Defined.
