(* ===== verification/Cache.v ===== *)
(** * The response cache (crates/ngxora-runtime/src/cache.rs)

    Each route has a [LocationCache] of responses and admission counters whose
    sizes are accounted in [current_size].  The backend maps routes to shared
    handles ([Arc<Mutex<LocationCache>>]): a handle taken before a configuration
    change may be used after it, so the handles live in a heap of their own and
    the backend's operations are sequences of lock acquisitions.

    The clock is an argument [now] of each critical section. *)

From S2P Require Import Prelude RustStr NetAddr Crates Headers Ir.

Open Scope N_scope.

(** ** Keys and responses *)

Record CacheKey := mkCacheKey {
  ck_generation : N;
  ck_route_id : N;
  ck_host : string;
  ck_method : string;
  ck_uri : string
}.

#[global] Instance CacheKey_eq_dec : EqDecision CacheKey.
Proof. solve_decision. Defined.
#[global] Instance CacheKey_countable : Countable CacheKey.
Proof.
  refine (inj_countable' (fun k => (ck_generation k, ck_route_id k, ck_host k, ck_method k, ck_uri k))
    (fun '(g, r, h, m, u) => mkCacheKey g r h m u) _). by intros [].
Defined.

Record CachedResponse := mkCachedResponse {
  cr_status : N;
  cr_headers : HeaderMap;
  cr_body : string;
  created_at : N
}.

Definition estimated_headers_size (headers : HeaderMap) : N :=
  foldl (fun size '(name, value) =>
    saturating_add64 (saturating_add64 size (str_len name)) (str_len value)) 0 headers.

(** [CachedResponse::estimated_size] and [CacheKey::estimated_size]. *)
Definition response_size (r : CachedResponse) : N :=
  saturating_add64 (saturating_add64 (str_len (cr_body r)) (estimated_headers_size (cr_headers r))) 128.
Definition key_size (k : CacheKey) : N :=
  saturating_add64 (saturating_add64 (saturating_add64 (str_len (ck_host k)) (str_len (ck_method k)))
    (str_len (ck_uri k))) 128.

Record MissCount := mkMissCount { mc_count : N; last_seen : N }.

(** The accounted size of a stored response and of an admission counter. *)
Definition entry_size (k : CacheKey) (r : CachedResponse) : N := saturating_add64 (key_size k) (response_size r).
Definition count_size (k : CacheKey) (_ : MissCount) : N := saturating_add64 (key_size k) 64.

(** ** One location's cache *)

Record LocationCache := mkLocationCache {
  lc_ttl : N;
  lc_retention : N;
  lc_max_size : N;
  lc_current_size : N;
  lc_entries : gmap CacheKey CachedResponse;
  lc_request_counts : gmap CacheKey MissCount;
  lc_last_sweep : N
}.

Definition default_ttl : N := from_secs 60.
Definition config_ttl (cfg : CacheConfig) : N := default default_ttl (ttl cfg).
Definition config_retention (cfg : CacheConfig) : N :=
  duration_saturating_add (config_ttl cfg) (default 0 (stale_if_error cfg)).

(** [LocationCache::new]. *)
Definition LocationCache_new (now : N) (cfg : CacheConfig) (max_size : N) : LocationCache :=
  mkLocationCache (config_ttl cfg) (config_retention cfg) max_size 0 ∅ ∅ now.

Section location_cache.
Context `{HashIter}.

(** Subtraction and addition on [u64] wrap in a release build; the invariant below
    shows that they never do. *)
Definition remove_response (c : LocationCache) (k : CacheKey) : LocationCache :=
  match lc_entries c !! k with
  | Some value =>
      mkLocationCache (lc_ttl c) (lc_retention c) (lc_max_size c)
        (wrapping_sub64 (lc_current_size c) (entry_size k value))
        (delete k (lc_entries c)) (lc_request_counts c) (lc_last_sweep c)
  | None => c
  end.

Definition remove_count (c : LocationCache) (k : CacheKey) : LocationCache :=
  match lc_request_counts c !! k with
  | Some value =>
      mkLocationCache (lc_ttl c) (lc_retention c) (lc_max_size c)
        (wrapping_sub64 (lc_current_size c) (count_size k value))
        (lc_entries c) (delete k (lc_request_counts c)) (lc_last_sweep c)
  | None => c
  end.

(** The [while] loop of [make_room]; each round drops one item, so one more round
    than there are items is enough ([make_room_loop_exit]). *)
Fixpoint make_room_loop (fuel : nat) (c : LocationCache) (size : N) : LocationCache :=
  match fuel with
  | O => c
  | S fuel' =>
      if lc_max_size c - size <? lc_current_size c then
        match head (iter_keys (lc_request_counts c)) with
        | Some k => make_room_loop fuel' (remove_count c k) size
        | None =>
            match head (iter_keys (lc_entries c)) with
            | Some k => make_room_loop fuel' (remove_response c k) size
            | None => c
            end
        end
      else c
  end.
Definition items (c : LocationCache) : nat := (base.size (lc_entries c) + base.size (lc_request_counts c))%nat.
Definition make_room (c : LocationCache) (size : N) : LocationCache * bool :=
  if lc_max_size c <? size then (c, false) else (make_room_loop (S (items c)) c size, true).

Definition with_count (c : LocationCache) (k : CacheKey) (v : MissCount) (current_size : N) : LocationCache :=
  mkLocationCache (lc_ttl c) (lc_retention c) (lc_max_size c) current_size
    (lc_entries c) (<[k := v]> (lc_request_counts c)) (lc_last_sweep c).

(** [LocationCache::record_miss]; [min_uses] is a [usize]. *)
Definition record_miss (now : N) (c : LocationCache) (k : CacheKey) (min_uses : N) : LocationCache * bool :=
  if min_uses <=? 1 then (c, true) else
  match lc_request_counts c !! k with
  | Some value =>
      let count := if lc_ttl c <=? elapsed now (last_seen value) then 0 else mc_count value in
      let count := saturating_add64 count 1 in
      (with_count c k (mkMissCount count now) (lc_current_size c), min_uses <=? count)
  | None =>
      let size := saturating_add64 (key_size k) 64 in
      let '(c, room) := make_room c size in
      if negb room then (c, false)
      else (with_count c k (mkMissCount 1 now) (wrapping_add64 (lc_current_size c) size), false)
  end.

(** [LocationCache::put]. *)
Definition put (c : LocationCache) (k : CacheKey) (r : CachedResponse) : LocationCache :=
  let c := remove_response (remove_count c k) k in
  let size := saturating_add64 (key_size k) (response_size r) in
  let '(c, room) := make_room c size in
  if room then
    mkLocationCache (lc_ttl c) (lc_retention c) (lc_max_size c)
      (wrapping_add64 (lc_current_size c) size)
      (<[k := r]> (lc_entries c)) (lc_request_counts c) (lc_last_sweep c)
  else c.

(** The two [retain] loops of [LocationCache::evict_stale]. *)
Definition retain_entry (now : N) (c : LocationCache) (k : CacheKey) : LocationCache :=
  match lc_entries c !! k with
  | Some entry => if lc_retention c <=? elapsed now (created_at entry) then remove_response c k else c
  | None => c
  end.
Definition retain_count (now : N) (c : LocationCache) (k : CacheKey) : LocationCache :=
  match lc_request_counts c !! k with
  | Some entry => if lc_ttl c <=? elapsed now (last_seen entry) then remove_count c k else c
  | None => c
  end.
Definition evict_stale (now : N) (c : LocationCache) : LocationCache :=
  let c := foldl (retain_entry now) c (iter_keys (lc_entries c)) in
  let c := foldl (retain_count now) c (iter_keys (lc_request_counts c)) in
  mkLocationCache (lc_ttl c) (lc_retention c) (lc_max_size c) (lc_current_size c)
    (lc_entries c) (lc_request_counts c) now.

Definition sync_limits (now : N) (c : LocationCache) (cfg : CacheConfig) (max_size : N) : LocationCache :=
  let c := mkLocationCache (config_ttl cfg) (config_retention cfg) max_size (lc_current_size c)
             (lc_entries c) (lc_request_counts c) (lc_last_sweep c) in
  let c := if from_secs 1 <=? elapsed now (lc_last_sweep c) then evict_stale now c else c in
  fst (make_room c 0).
End location_cache.

(** ** The accounting invariant *)

Definition total (c : LocationCache) : N :=
  map_sum entry_size (lc_entries c) + map_sum count_size (lc_request_counts c).

(** [current_size] is the sum of the sizes of what is stored, exactly. *)
Definition accounted (c : LocationCache) : Prop := lc_current_size c = total c /\ total c <= u64_max.
Definition cache_ok (c : LocationCache) : Prop :=
  accounted c /\ lc_current_size c <= lc_max_size c /\ lc_max_size c <= u64_max.

(** [c'] holds part of what [c] holds, under the same limits. *)
Record shrinks (c c' : LocationCache) : Prop := mkShrinks {
  sh_entries : lc_entries c' ⊆ lc_entries c;
  sh_counts : lc_request_counts c' ⊆ lc_request_counts c;
  sh_ttl : lc_ttl c' = lc_ttl c;
  sh_retention : lc_retention c' = lc_retention c;
  sh_max : lc_max_size c' = lc_max_size c
}.

#[global] Instance shrinks_preorder : PreOrder shrinks.
Proof.
  split.
  - by intros c; constructor.
  - intros a b c [] []. constructor; [by etrans|by etrans|congruence..].
Qed.

Section accounting.
Context `{HashIter}.

Lemma remove_response_shrinks c k : shrinks c (remove_response c k).
Proof.
  unfold remove_response. case_match; [|done]. constructor; simpl; [apply delete_subseteq|done..].
Qed.

Lemma remove_count_shrinks c k : shrinks c (remove_count c k).
Proof.
  unfold remove_count. case_match; [|done]. constructor; simpl; [done|apply delete_subseteq|done..].
Qed.

Lemma remove_response_accounted c k : accounted c -> accounted (remove_response c k).
Proof.
  unfold remove_response, accounted, total. intros [Hc Hb].
  destruct (lc_entries c !! k) as [v|] eqn:E; simpl; [|done].
  rewrite (map_sum_delete entry_size _ _ _ E) in Hc, Hb.
  rewrite wrapping_sub64_exact by lia. lia.
Qed.

Lemma remove_count_accounted c k : accounted c -> accounted (remove_count c k).
Proof.
  unfold remove_count, accounted, total. intros [Hc Hb].
  destruct (lc_request_counts c !! k) as [v|] eqn:E; simpl; [|done].
  rewrite (map_sum_delete count_size _ _ _ E) in Hc, Hb.
  rewrite wrapping_sub64_exact by lia. lia.
Qed.

Lemma shrinks_total c c' : accounted c -> accounted c' -> shrinks c c' -> total c' <= total c.
Proof.
  intros _ _ [He Hc _ _ _]. unfold total.
  apply (map_sum_mono entry_size) in He. apply (map_sum_mono count_size) in Hc. lia.
Qed.

Lemma head_keys_None {V} (m : gmap CacheKey V) : head (iter_keys m) = None -> m = ∅.
Proof.
  intros Hh. apply map_empty. intros k. apply eq_None_not_Some. intros Hk.
  apply elem_of_iter_keys in Hk. destruct (iter_keys m); [set_solver|done].
Qed.

Lemma head_keys_Some {V} (m : gmap CacheKey V) k : head (iter_keys m) = Some k -> is_Some (m !! k).
Proof. intros Hh. apply elem_of_iter_keys. destruct (iter_keys m); [done|]. simpl in Hh. simplify_eq. set_solver. Qed.

Lemma remove_count_items c k : is_Some (lc_request_counts c !! k) -> S (items (remove_count c k)) = items c.
Proof.
  intros [v Hv]. unfold remove_count, items. rewrite Hv. simpl.
  rewrite map_size_delete, Hv. assert (base.size (lc_request_counts c) ≠ 0%nat); [|lia].
  apply (map_size_ne_0_lookup_2 _ k). eauto.
Qed.

Lemma remove_response_items c k : is_Some (lc_entries c !! k) -> S (items (remove_response c k)) = items c.
Proof.
  intros [v Hv]. unfold remove_response, items. rewrite Hv. simpl.
  rewrite map_size_delete, Hv. assert (base.size (lc_entries c) ≠ 0%nat); [|lia].
  apply (map_size_ne_0_lookup_2 _ k). eauto.
Qed.

Lemma make_room_loop_shrinks fuel c size :
  shrinks c (make_room_loop fuel c size) /\ (accounted c -> accounted (make_room_loop fuel c size)).
Proof.
  revert c. induction fuel as [|fuel IH]; intros c; simpl; [done|]. repeat case_match; try done.
  - destruct (IH (remove_count c c0)).
    split; [|eauto using remove_count_accounted]. etrans; [apply remove_count_shrinks|done].
  - destruct (IH (remove_response c c0)).
    split; [|eauto using remove_response_accounted]. etrans; [apply remove_response_shrinks|done].
Qed.

(** The loop ends with enough room, or with nothing left to drop. *)
Lemma make_room_loop_exit fuel c size :
  (items c < fuel)%nat ->
  let c' := make_room_loop fuel c size in
  lc_current_size c' <= lc_max_size c' - size \/ (lc_entries c' = ∅ /\ lc_request_counts c' = ∅).
Proof.
  revert c. induction fuel as [|fuel IH]; intros c Hf; [lia|]. simpl.
  destruct (N.ltb_spec (lc_max_size c - size) (lc_current_size c)) as [_|Hle]; [|by left].
  destruct (head (iter_keys (lc_request_counts c))) as [k|] eqn:Ek.
  - apply IH. apply head_keys_Some, remove_count_items in Ek. lia.
  - destruct (head (iter_keys (lc_entries c))) as [k|] eqn:Ek'.
    + apply IH. apply head_keys_Some, remove_response_items in Ek'. lia.
    + right. split; by apply head_keys_None.
Qed.

Lemma make_room_spec c size c' b :
  make_room c size = (c', b) -> accounted c ->
  shrinks c c' /\ accounted c' /\ b = (size <=? lc_max_size c) /\
  (b = true -> lc_current_size c' + size <= lc_max_size c) /\ (b = false -> c' = c).
Proof.
  unfold make_room. intros Hm Hc. destruct (N.ltb_spec (lc_max_size c) size) as [Hlt|Hle]; simplify_eq.
  - split; [done|]. split; [done|]. split; [|done]. by destruct (N.leb_spec size (lc_max_size c')); [lia|].
  - destruct (make_room_loop_shrinks (S (items c)) c size) as [Hs Ha].
    specialize (Ha Hc). split; [done|]. split; [done|].
    split; [by destruct (N.leb_spec size (lc_max_size c)); [|lia]|]. split; [|done]. intros _.
    pose proof (make_room_loop_exit (S (items c)) c size ltac:(lia)) as He. cbn zeta in He.
    rewrite (sh_max _ _ Hs) in He. destruct He as [He|[He1 He2]]; [lia|].
    destruct Ha as [-> _]. unfold total. rewrite He1, He2, !map_sum_empty. lia.
Qed.
End accounting.

(** Every key stored in a cache satisfies [P]. *)
Definition keys_in (P : CacheKey -> Prop) (c : LocationCache) : Prop :=
  (forall k, is_Some (lc_entries c !! k) -> P k) /\ (forall k, is_Some (lc_request_counts c !! k) -> P k).

Lemma keys_in_shrinks P c c' : shrinks c c' -> keys_in P c -> keys_in P c'.
Proof.
  intros [He Hc _ _ _] [H1 H2]. split; intros k [v Hv]; [apply H1|apply H2]; eauto using lookup_weaken.
Qed.

Section operations.
Context `{HashIter}.

Lemma foldl_shrinks (f : LocationCache -> CacheKey -> LocationCache) l c :
  (forall c k, shrinks c (f c k) /\ (accounted c -> accounted (f c k))) ->
  shrinks c (foldl f c l) /\ (accounted c -> accounted (foldl f c l)).
Proof.
  intros Hf. revert c. induction l as [|k l IH]; intros c; simpl; [done|].
  destruct (Hf c k), (IH (f c k)). split; [by etrans|auto].
Qed.

Lemma retain_entry_shrinks now c k :
  shrinks c (retain_entry now c k) /\ (accounted c -> accounted (retain_entry now c k)).
Proof.
  unfold retain_entry. repeat case_match; try done.
  split; [apply remove_response_shrinks|apply remove_response_accounted].
Qed.

Lemma retain_count_shrinks now c k :
  shrinks c (retain_count now c k) /\ (accounted c -> accounted (retain_count now c k)).
Proof.
  unfold retain_count. repeat case_match; try done.
  split; [apply remove_count_shrinks|apply remove_count_accounted].
Qed.

Lemma evict_stale_shrinks now c :
  shrinks c (evict_stale now c) /\ (accounted c -> accounted (evict_stale now c)).
Proof.
  unfold evict_stale. set (c1 := foldl (retain_entry now) c _).
  set (c2 := foldl (retain_count now) c1 _).
  destruct (foldl_shrinks _ (iter_keys (lc_entries c)) c (retain_entry_shrinks now)) as [S1 A1].
  destruct (foldl_shrinks _ (iter_keys (lc_request_counts c1)) c1 (retain_count_shrinks now)) as [S2 A2].
  fold c1 in S1, A1. fold c2 in S2, A2.
  assert (shrinks c c2) as [] by (by etrans). split; [by constructor|]. intros Hc. apply A2, A1, Hc.
Qed.

Lemma shrinks_ok c c' : shrinks c c' -> accounted c' -> cache_ok c -> cache_ok c'.
Proof.
  intros Hs Ha' [Ha [Hf Hm]]. pose proof (shrinks_total _ _ Ha Ha' Hs). split; [done|].
  destruct Ha as [Ha _], Ha' as [Ha' _]. rewrite (sh_max _ _ Hs). lia.
Qed.

Lemma evict_stale_ok now c : cache_ok c -> cache_ok (evict_stale now c).
Proof. destruct (evict_stale_shrinks now c) as [Hs Ha]. intros Hc. eapply shrinks_ok; [done| |done]. apply Ha, Hc. Qed.

Lemma LocationCache_new_ok now cfg m : m <= u64_max -> cache_ok (LocationCache_new now cfg m).
Proof.
  intros Hm. unfold cache_ok, accounted, total. simpl. rewrite !map_sum_empty. unfold u64_max in *. lia.
Qed.

Lemma sync_limits_spec now c cfg m :
  accounted c -> m <= u64_max ->
  let c' := sync_limits now c cfg m in
  cache_ok c' /\ lc_max_size c' = m /\ lc_ttl c' = config_ttl cfg /\
  lc_entries c' ⊆ lc_entries c /\ lc_request_counts c' ⊆ lc_request_counts c.
Proof.
  intros Hc Hm. unfold sync_limits.
  set (c1 := mkLocationCache (config_ttl cfg) _ _ _ _ _ _).
  set (c2 := if from_secs 1 <=? elapsed now (lc_last_sweep c1) then evict_stale now c1 else c1).
  assert (shrinks c1 c2 /\ (accounted c1 -> accounted c2)) as [Hs Ha].
  { unfold c2. case_match; [apply evict_stale_shrinks|done]. }
  specialize (Ha Hc). destruct (make_room c2 0) as [c3 b] eqn:E.
  destruct (make_room_spec _ _ _ _ E Ha) as (Hs3 & Ha3 & Hb & Hfit & _).
  assert (shrinks c1 c3) as [] by (by etrans). simpl in *. rewrite (sh_max _ _ Hs) in Hb, Hfit.
  assert (b = true) as -> by (rewrite Hb; apply N.leb_le; lia). specialize (Hfit eq_refl). simpl in Hfit.
  unfold cache_ok. split_and!; try done; simpl in *; lia.
Qed.

Lemma remove_response_lookup c k : lc_entries (remove_response c k) !! k = None.
Proof. unfold remove_response. destruct (lc_entries c !! k) eqn:E; [apply lookup_delete_eq|done]. Qed.

Lemma put_ok c k r : cache_ok c -> cache_ok (put c k r).
Proof.
  intros Hc. unfold put. set (c1 := remove_response (remove_count c k) k).
  assert (shrinks c c1) as Hs1.
  { etrans; [apply remove_count_shrinks|apply remove_response_shrinks]. }
  assert (accounted c1) as Ha1 by apply remove_response_accounted, remove_count_accounted, Hc.
  assert (lc_entries c1 !! k = None) as Hk.
  { apply remove_response_lookup. }
  destruct (make_room c1 _) as [c2 b] eqn:E. fold (entry_size k r) in *.
  destruct (make_room_spec _ _ _ _ E Ha1) as (Hs2 & [Ha2 Hb2] & Hb & Hfit & _).
  assert (cache_ok c2) as Hc2.
  { eapply shrinks_ok; [transitivity c1; done|done|done]. }
  destruct b; [|done]. specialize (Hfit eq_refl). rewrite (sh_max _ _ Hs1) in Hfit.
  destruct Hc as (_ & _ & Hm).
  unfold cache_ok, accounted, total. simpl. rewrite (sh_max _ _ Hs2), (sh_max _ _ Hs1).
  rewrite map_sum_insert_fresh.
  - rewrite wrapping_add64_exact by lia. unfold total in Ha2. lia.
  - eapply lookup_weaken_None; [done|apply Hs2].
Qed.

Lemma record_miss_ok now c k n : cache_ok c -> cache_ok (fst (record_miss now c k n)).
Proof.
  intros Hc. unfold record_miss. destruct (n <=? 1); [done|].
  destruct (lc_request_counts c !! k) as [v|] eqn:Ek.
  - destruct Hc as ([Ha Hb] & Hf & Hm). unfold cache_ok, accounted, total in *. simpl.
    rewrite <- (insert_delete_eq (lc_request_counts c) k), map_sum_insert_fresh by apply lookup_delete_eq.
    rewrite (map_sum_delete count_size _ _ _ Ek) in Ha, Hb.
    change (count_size k v) with (count_size k (mkMissCount (saturating_add64
      (if lc_ttl c <=? elapsed now (last_seen v) then 0 else mc_count v) 1) now)) in Ha, Hb. lia.
  - destruct (make_room c _) as [c2 b] eqn:E.
    destruct (make_room_spec _ _ _ _ E (proj1 Hc)) as (Hs2 & [Ha2 Hb2] & Hb & Hfit & _).
    assert (cache_ok c2) as Hc2 by (eapply shrinks_ok; done).
    destruct b; [|done]. specialize (Hfit eq_refl). destruct Hc as (_ & _ & Hm).
    unfold cache_ok, accounted, total. simpl. rewrite (sh_max _ _ Hs2).
    rewrite map_sum_insert_fresh by (eapply lookup_weaken_None; [done|apply Hs2]).
    unfold count_size at 1 3. rewrite wrapping_add64_exact by lia. unfold total in Ha2. lia.
Qed.
End operations.

(** ** The backend

    [b_locations] maps a route to its handle, [b_heap] a handle to the cache behind
    its mutex.  A handle stays valid after its route is dropped (reference
    counting), so the heap is never shrunk here. *)

Abbreviation handle := N.

Record CacheBackend := mkCacheBackend {
  b_generation : N;
  b_locations : gmap N handle;
  b_heap : gmap handle LocationCache;
  b_next : handle;
  b_default_max_size : N
}.

Definition CacheBackend_new (default_max_size : N) : CacheBackend := mkCacheBackend 0 ∅ ∅ 0 default_max_size.
Definition set_default_max_size (b : CacheBackend) (size : N) : CacheBackend :=
  mkCacheBackend (b_generation b) (b_locations b) (b_heap b) (b_next b) size.
Definition max_size (b : CacheBackend) (cfg : CacheConfig) : N := default (b_default_max_size b) (cache_max_size cfg).

Definition set_cache (b : CacheBackend) (h : handle) (c : LocationCache) : CacheBackend :=
  mkCacheBackend (b_generation b) (b_locations b) (<[h := c]> (b_heap b)) (b_next b) (b_default_max_size b).

(** [advance_generation]: a check under the read lock, then the change under the
    write lock (with the check repeated). *)
Definition advance_read (b : CacheBackend) (generation : N) : bool := b_generation b <? generation.
Definition advance_write (b : CacheBackend) (generation : N) : CacheBackend :=
  if b_generation b <? generation then
    mkCacheBackend generation ∅ (b_heap b) (b_next b) (b_default_max_size b)
  else b.
Definition advance_generation (b : CacheBackend) (generation : N) : CacheBackend :=
  if advance_read b generation then advance_write b generation else b.

(** [store]: what it finds under the read lock, and what it does under the write
    lock when it may create. *)
Inductive store_read_result := StoreDone (h : option handle) | StoreCreate.
Definition store_read (b : CacheBackend) (k : CacheKey) (cfg : CacheConfig) (create : bool) : store_read_result :=
  if negb (enabled cfg) then StoreDone None
  else if ck_generation k <? b_generation b then StoreDone None
  else match b_locations b !! ck_route_id k with
       | Some h => StoreDone (Some h)
       | None => if create then StoreCreate else StoreDone None
       end.
Definition store_write (now : N) (b : CacheBackend) (k : CacheKey) (cfg : CacheConfig)
  : CacheBackend * option handle :=
  if ck_generation k <? b_generation b then (b, None)
  else match b_locations b !! ck_route_id k with
       | Some h => (b, Some h)
       | None =>
           let h := b_next b in
           (mkCacheBackend (b_generation b) (<[ck_route_id k := h]> (b_locations b))
              (<[h := LocationCache_new now cfg (max_size b cfg)]> (b_heap b)) (h + 1) (b_default_max_size b),
            Some h)
       end.
Definition store (now : N) (b : CacheBackend) (k : CacheKey) (cfg : CacheConfig) (create : bool)
  : CacheBackend * option handle :=
  match store_read b k cfg create with
  | StoreDone h => (b, h)
  | StoreCreate => store_write now b k cfg
  end.

Definition invalidate_route (b : CacheBackend) (route : N) : CacheBackend :=
  mkCacheBackend (b_generation b) (delete route (b_locations b)) (b_heap b) (b_next b) (b_default_max_size b).

Definition total_entries (b : CacheBackend) : N :=
  map_sum (fun _ h => match b_heap b !! h with Some c => N.of_nat (base.size (lc_entries c)) | None => 0 end)
    (b_locations b).

(** *** Calls, as sequences of lock acquisitions *)

Inductive Call :=
| CallGet (k : CacheKey) (cfg : CacheConfig)
| CallGetStale (k : CacheKey) (cfg : CacheConfig)
| CallRecordMiss (k : CacheKey) (cfg : CacheConfig)
| CallPut (k : CacheKey) (r : CachedResponse) (cfg : CacheConfig)
| CallEvictStale
| CallAdvance (generation : N)
| CallInvalidate (route : N)
| CallSetDefault (size : N).

Inductive Answer := NoAnswer | AnswerBool (b : bool) | AnswerResponse (r : option CachedResponse).

(** Where a thread is inside a call. *)
Inductive Pc :=
| Start (c : Call)
| StoreWriting (c : Call)
| Holding (c : Call) (h : handle)
| AdvanceWriting (generation : N)
| Evicting (hs : list handle)
| Finished (a : Answer).

(** The key, configuration and creation flag of the calls that use [store]. *)
Definition call_store (c : Call) : option (CacheKey * CacheConfig * bool) :=
  match c with
  | CallGet k cfg | CallGetStale k cfg => Some (k, cfg, false)
  | CallRecordMiss k cfg | CallPut k _ cfg => Some (k, cfg, true)
  | _ => None
  end.

(** The answer when [store] yields no handle. *)
Definition call_none (c : Call) : Answer :=
  match c with
  | CallGet _ _ | CallGetStale _ _ => AnswerResponse None
  | CallRecordMiss _ _ => AnswerBool false
  | _ => NoAnswer
  end.

Definition fresh_response (now : N) (c : LocationCache) (k : CacheKey) (lifetime : N) : option CachedResponse :=
  response ← lc_entries c !! k;
  then_some (elapsed now (created_at response) <? lifetime) response.

Section threads.
Context `{HashIter}.

(** What a call does with the handle, under the location's mutex.  [limit] is
    [self.max_size(cfg)]. *)
Definition call_locked (now : N) (limit : N) (c : Call) (cache : LocationCache) : LocationCache * Answer :=
  match c with
  | CallGet k cfg => (cache, AnswerResponse (fresh_response now cache k (config_ttl cfg)))
  | CallGetStale k cfg =>
      (cache, AnswerResponse (stale ← stale_if_error cfg;
                fresh_response now cache k (duration_saturating_add (config_ttl cfg) stale)))
  | CallRecordMiss k cfg =>
      let cache := sync_limits now cache cfg limit in
      let '(cache, b) := record_miss now cache k (default 1 (min_uses cfg)) in (cache, AnswerBool b)
  | CallPut k r cfg =>
      let cache := sync_limits now cache cfg limit in (put cache k r, NoAnswer)
  | _ => (cache, NoAnswer)
  end.

Definition call_limit (b : CacheBackend) (c : Call) : N :=
  match call_store c with Some (_, cfg, _) => max_size b cfg | None => 0 end.

Definition holding (c : Call) (h : option handle) : Pc :=
  match h with Some h => Holding c h | None => Finished (call_none c) end.

Definition start_call (b : CacheBackend) (c : Call) : CacheBackend * Pc :=
  match c with
  | CallAdvance g => (b, if advance_read b g then AdvanceWriting g else Finished NoAnswer)
  | CallEvictStale => (b, Evicting (iter_values (b_locations b)))
  | CallInvalidate r => (invalidate_route b r, Finished NoAnswer)
  | CallSetDefault n => (set_default_max_size b n, Finished NoAnswer)
  | _ =>
      match call_store c with
      | Some (k, cfg, create) =>
          match c, stale_if_error cfg with
          | CallGetStale _ _, None => (b, Finished (AnswerResponse None))
          | _, _ =>
              match store_read b k cfg create with
              | StoreDone h => (b, holding c h)
              | StoreCreate => (b, StoreWriting c)
              end
          end
      | None => (b, Finished NoAnswer)
      end
  end.

(** One critical section of a thread. *)
Definition thread_step (now : N) (b : CacheBackend) (p : Pc) : CacheBackend * Pc :=
  match p with
  | Start c => start_call b c
  | StoreWriting c =>
      match call_store c with
      | Some (k, cfg, _) => let '(b, h) := store_write now b k cfg in (b, holding c h)
      | None => (b, Finished NoAnswer)
      end
  | Holding c h =>
      match b_heap b !! h with
      | Some cache =>
          let '(cache, a) := call_locked now (call_limit b c) c cache in (set_cache b h cache, Finished a)
      | None => (b, Finished NoAnswer)
      end
  | AdvanceWriting g => (advance_write b g, Finished NoAnswer)
  | Evicting [] => (b, Finished NoAnswer)
  | Evicting (h :: hs) =>
      match b_heap b !! h with
      | Some cache => (set_cache b h (evict_stale now cache), Evicting hs)
      | None => (b, Evicting hs)
      end
  | Finished a => (b, Finished a)
  end.

(** Threads calling the backend in any interleaving. *)
Inductive sys_step : CacheBackend * list Pc -> CacheBackend * list Pc -> Prop :=
| sys_spawn b pool c :
    (forall k cfg create n, call_store c = Some (k, cfg, create) -> cache_max_size cfg = Some n -> n <= u64_max) ->
    (forall n, c = CallSetDefault n -> n <= u64_max) ->
    sys_step (b, pool) (b, Start c :: pool)
| sys_run b pool i now p b' p' :
    pool !! i = Some p -> thread_step now b p = (b', p') ->
    sys_step (b, pool) (b', <[i := p']> pool).
End threads.

(** *** The methods, when no other thread interferes *)

Section methods.
Context `{HashIter}.

Definition CacheBackend_get (now : N) (b : CacheBackend) (k : CacheKey) (cfg : CacheConfig)
  : option CachedResponse :=
  h ← snd (store now b k cfg false);
  guard ← b_heap b !! h;
  response ← lc_entries guard !! k;
  then_some (elapsed now (created_at response) <? default default_ttl (ttl cfg)) response.

Definition CacheBackend_record_miss (now : N) (b : CacheBackend) (k : CacheKey) (cfg : CacheConfig)
  : CacheBackend * bool :=
  match store now b k cfg true with
  | (b, None) => (b, false)
  | (b, Some h) =>
      match b_heap b !! h with
      | Some guard =>
          let guard := sync_limits now guard cfg (max_size b cfg) in
          let '(guard, r) := record_miss now guard k (default 1 (min_uses cfg)) in (set_cache b h guard, r)
      | None => (b, false)
      end
  end.

Definition CacheBackend_get_stale (now : N) (b : CacheBackend) (k : CacheKey) (cfg : CacheConfig)
  : option CachedResponse :=
  stale ← stale_if_error cfg;
  let retention := duration_saturating_add (default default_ttl (ttl cfg)) stale in
  h ← snd (store now b k cfg false);
  guard ← b_heap b !! h;
  response ← lc_entries guard !! k;
  then_some (elapsed now (created_at response) <? retention) response.

Definition CacheBackend_put (now : N) (b : CacheBackend) (k : CacheKey) (r : CachedResponse) (cfg : CacheConfig)
  : CacheBackend :=
  match store now b k cfg true with
  | (b, None) => b
  | (b, Some h) =>
      match b_heap b !! h with
      | Some guard => set_cache b h (put (sync_limits now guard cfg (max_size b cfg)) k r)
      | None => b
      end
  end.

Fixpoint run (n : nat) (now : N) (b : CacheBackend) (p : Pc) : CacheBackend * Pc :=
  match n with
  | O => (b, p)
  | S n' => let '(b, p) := thread_step now b p in run n' now b p
  end.

Lemma set_cache_id b h c : b_heap b !! h = Some c -> set_cache b h c = b.
Proof. intros Hh. destruct b. unfold set_cache. simpl in *. by rewrite insert_id. Qed.

Lemma run_done n now b a : run n now b (Finished a) = (b, Finished a).
Proof. induction n; simpl; auto. Qed.
End methods.

(** ** The backend's invariant *)

Section backend_invariant.
Context `{HashIter}.

(** A key that may be stored for route [r] while the backend is at its generation. *)
Definition admitted (b : CacheBackend) (r : N) (k : CacheKey) : Prop :=
  ck_route_id k = r /\ b_generation b <= ck_generation k.

Definition pc_call (p : Pc) : option Call :=
  match p with Start c | StoreWriting c | Holding c _ => Some c | _ => None end.

Definition call_bounded (c : Call) : Prop :=
  (forall k cfg create n, call_store c = Some (k, cfg, create) -> cache_max_size cfg = Some n -> n <= u64_max) /\
  (forall n, c = CallSetDefault n -> n <= u64_max).

Definition pc_ok (b : CacheBackend) (p : Pc) : Prop :=
  (forall c, pc_call p = Some c -> call_bounded c) /\
  (forall c h, p = Holding c h -> h < b_next b /\
     exists k cfg create, call_store c = Some (k, cfg, create) /\
       forall r, b_locations b !! r = Some h -> admitted b r k).

Record backend_ok (b : CacheBackend) : Prop := mkBackendOk {
  ok_default : b_default_max_size b <= u64_max;
  ok_caches : forall h c, b_heap b !! h = Some c -> cache_ok c;
  ok_next : forall h, is_Some (b_heap b !! h) <-> h < b_next b;
  ok_routes : forall r h, b_locations b !! r = Some h ->
    exists c, b_heap b !! h = Some c /\ keys_in (admitted b r) c;
  ok_inj : forall r r' h, b_locations b !! r = Some h -> b_locations b !! r' = Some h -> r = r'
}.

Lemma max_size_bounded b c k cfg create :
  backend_ok b -> call_bounded c -> call_store c = Some (k, cfg, create) -> max_size b cfg <= u64_max.
Proof.
  intros Hb [Hc _] Hs. unfold max_size. destruct (cache_max_size cfg) as [n|] eqn:E; simpl; [eauto|apply Hb].
Qed.

(** A step at another thread keeps what a thread relies on: locations only go
    away, or are new handles. *)
Definition evolves (b b' : CacheBackend) : Prop :=
  b_next b <= b_next b' /\
  forall r h, b_locations b' !! r = Some h -> h < b_next b ->
    b_locations b !! r = Some h /\ b_generation b' = b_generation b.

Lemma pc_ok_evolves b b' p : evolves b b' -> pc_ok b p -> pc_ok b' p.
Proof.
  intros [Hn He] [H1 H2]. split; [done|]. intros c h ->.
  destruct (H2 c h eq_refl) as (Hh & k & cfg & create & Hc & Hr). split; [lia|].
  exists k, cfg, create. split; [done|]. intros r Hr'. destruct (He r h Hr' Hh) as [Hl Hg].
  unfold admitted. rewrite Hg. by apply Hr.
Qed.

Lemma evolves_refl b : evolves b b.
Proof. split; [lia|done]. Qed.

Lemma set_cache_evolves b h c : evolves b (set_cache b h c).
Proof. split; simpl; [lia|done]. Qed.

(** Replacing the cache behind a live handle. *)
Lemma set_cache_ok b h c :
  backend_ok b -> h < b_next b -> cache_ok c ->
  (forall r, b_locations b !! r = Some h -> keys_in (admitted b r) c) ->
  backend_ok (set_cache b h c).
Proof.
  intros [Hd Hc Hn Hr Hi] Hh Hok Hk. constructor; simpl; [done|..|done].
  - intros h' c'. rewrite lookup_insert_Some. naive_solver.
  - intros h'. rewrite <- Hn. rewrite lookup_insert_is_Some'. split; [|by right].
    intros [<-|?]; [by apply Hn|done].
  - intros r h' Hl. destruct (decide (h = h')) as [->|Hne].
    + exists c. rewrite lookup_insert_eq. split; [done|]. by apply Hk.
    + rewrite lookup_insert_ne by done. by apply Hr.
Qed.

Lemma advance_write_ok b g : backend_ok b -> backend_ok (advance_write b g).
Proof. intros Hb. unfold advance_write. case_match; [|done]. destruct Hb. constructor; simpl; try done. Qed.

Lemma advance_write_evolves b g : evolves b (advance_write b g).
Proof. unfold advance_write. case_match; [|apply evolves_refl]. split; simpl; [lia|]. intros r h. by rewrite lookup_empty. Qed.

Lemma invalidate_route_ok b r : backend_ok b -> backend_ok (invalidate_route b r).
Proof.
  intros []. constructor; simpl; try done.
  - intros r' h. rewrite lookup_delete_Some. intros [_ Hl]. eauto.
  - intros r1 r2 h. rewrite !lookup_delete_Some. naive_solver.
Qed.

Lemma invalidate_route_evolves b r : evolves b (invalidate_route b r).
Proof. split; simpl; [lia|]. intros r' h. rewrite lookup_delete_Some. naive_solver. Qed.

(** A registered handle is held on behalf of its own route. *)
Lemma holding_ok b c k cfg create h :
  backend_ok b -> call_bounded c -> call_store c = Some (k, cfg, create) ->
  b_generation b <= ck_generation k -> b_locations b !! ck_route_id k = Some h ->
  pc_ok b (Holding c h).
Proof.
  intros [Hd Hcs Hn Hr Hi] Hc Hs Hg El. split; [naive_solver|]. intros ? ? [= <- <-].
  destruct (Hr _ _ El) as (cache & Hh & _). split; [apply Hn; eauto|].
  exists k, cfg, create. split; [done|]. intros r Hl. split; [by eapply Hi|done].
Qed.

Lemma store_write_spec now b c k cfg create b' h :
  backend_ok b -> call_bounded c -> call_store c = Some (k, cfg, create) ->
  store_write now b k cfg = (b', h) ->
  backend_ok b' /\ evolves b b' /\ pc_ok b' (holding c h).
Proof.
  intros Hb Hc Hs Hw. pose proof (max_size_bounded _ _ _ _ _ Hb Hc Hs) as Hm. unfold store_write in Hw.
  destruct (N.ltb_spec (ck_generation k) (b_generation b)) as [_|Hg]; [injection Hw as <- <-|].
  { split_and!; [done|apply evolves_refl|]. by split. }
  pose proof Hb as [Hd Hcs Hn Hr Hi]. destruct (b_locations b !! ck_route_id k) as [h'|] eqn:El; injection Hw as <- <-.
  - split_and!; [done|apply evolves_refl|by apply (holding_ok b c k cfg create)].
  - assert (forall r h, b_locations b !! r = Some h -> h < b_next b) as Hlt.
    { intros r h Hl. destruct (Hr _ _ Hl) as (cache & Hh & _). apply Hn. eauto. }
    split_and!.
    + constructor; simpl; [done|..].
      * intros h c'. rewrite lookup_insert_Some. intros [[<- <-]|[_ Hh]]; [by apply LocationCache_new_ok|eauto].
      * intros h. rewrite lookup_insert_is_Some', Hn. lia.
      * intros r h. rewrite lookup_insert_Some. intros [[<- <-]|[_ Hl]].
        { eexists. rewrite lookup_insert_eq. split; [done|]. split; intros ?; simpl; rewrite lookup_empty; by intros [? ?]. }
        rewrite lookup_insert_ne by (specialize (Hlt _ _ Hl); lia). eauto.
      * intros r1 r2 h. rewrite !lookup_insert_Some.
        intros [[<- <-]|[_ H1]] [[<- H2]|[_ H2]]; [done|..|eauto]; subst;
          (apply Hlt in H1 || apply Hlt in H2); lia.
    + split; simpl; [lia|]. intros r h. rewrite lookup_insert_Some. intros [[<- <-]|[_ Hl]]; [lia|done].
    + split; [naive_solver|]. intros ? ? [= <- <-]. simpl. split; [lia|].
      exists k, cfg, create. split; [done|]. intros r. rewrite lookup_insert_Some. intros [[<- _]|[_ Hl]]; [done|].
      apply Hlt in Hl. lia.
Qed.

Lemma put_keys P c k r : P k -> keys_in P c -> keys_in P (put c k r).
Proof.
  intros Hk Hc. unfold put. set (c1 := remove_response (remove_count c k) k).
  assert (shrinks c c1) as Hs1.
  { etrans; [apply remove_count_shrinks|apply remove_response_shrinks]. }
  unfold make_room. destruct (lc_max_size c1 <? _); [by eapply keys_in_shrinks|].
  destruct (make_room_loop_shrinks (S (items c1)) c1 (saturating_add64 (key_size k) (response_size r))) as [Hs _].
  assert (keys_in P (make_room_loop (S (items c1)) c1 (saturating_add64 (key_size k) (response_size r)))) as [He Hn].
  { eapply keys_in_shrinks; [transitivity c1; done|done]. }
  split; cbn [lc_entries lc_request_counts]; [|done]. intros k'. rewrite lookup_insert_is_Some'.
  intros [<-|?]; auto.
Qed.

Lemma record_miss_keys P now c k n : P k -> keys_in P c -> keys_in P (fst (record_miss now c k n)).
Proof.
  intros Hk Hc. unfold record_miss. destruct (n <=? 1); [done|].
  assert (forall c' v z, keys_in P c' -> keys_in P (with_count c' k v z)) as Hw.
  { intros c' v z [He Hn]. split; simpl; [done|]. intros k'. rewrite lookup_insert_is_Some'. intros [<-|?]; auto. }
  destruct (lc_request_counts c !! k); [by apply Hw|].
  unfold make_room. destruct (lc_max_size c <? _); [done|]. simpl negb. cbv iota. apply Hw.
  eapply keys_in_shrinks; [apply make_room_loop_shrinks|done].
Qed.

Lemma sync_limits_keys P now c cfg m : keys_in P c -> keys_in P (sync_limits now c cfg m).
Proof.
  intros Hc. unfold sync_limits.
  set (c1 := mkLocationCache (config_ttl cfg) _ _ _ _ _ _).
  set (c2 := if from_secs 1 <=? elapsed now (lc_last_sweep c1) then evict_stale now c1 else c1).
  assert (keys_in P c2) as Hc2.
  { unfold c2. case_match; [|exact Hc]. eapply keys_in_shrinks; [apply evict_stale_shrinks|exact Hc]. }
  unfold make_room. destruct (lc_max_size c2 <? 0); [done|].
  eapply keys_in_shrinks; [apply make_room_loop_shrinks|done].
Qed.

Lemma call_locked_spec now limit c k cfg create cache :
  call_store c = Some (k, cfg, create) -> limit <= u64_max -> cache_ok cache ->
  cache_ok (fst (call_locked now limit c cache)) /\
  forall P : CacheKey -> Prop, P k -> keys_in P cache -> keys_in P (fst (call_locked now limit c cache)).
Proof.
  intros Hs Hl Hc. destruct c; simplify_eq/=; try (split; [exact Hc|done]).
  - destruct (sync_limits_spec now cache cfg limit (proj1 Hc) Hl) as [Hok _].
    pose proof (record_miss_ok now _ k (default 1 (min_uses cfg)) Hok) as Hr.
    destruct (record_miss now _ k _) as [c' b] eqn:E. simpl in *. split; [done|].
    intros P Hk Hin. replace c' with (fst (record_miss now (sync_limits now cache cfg limit) k (default 1 (min_uses cfg))))
      by (by rewrite E). by apply record_miss_keys, sync_limits_keys.
  - destruct (sync_limits_spec now cache cfg limit (proj1 Hc) Hl) as [Hok _].
    split; [by apply put_ok|]. intros P Hk Hin. by apply put_keys, sync_limits_keys.
Qed.

Lemma start_call_ok b c b' p' :
  backend_ok b -> call_bounded c -> start_call b c = (b', p') ->
  backend_ok b' /\ evolves b b' /\ pc_ok b' p'.
Proof.
  intros Hb Hc Hst.
  assert (forall k cfg create, call_store c = Some (k, cfg, create) ->
    match store_read b k cfg create with
    | StoreDone h => (b, holding c h) | StoreCreate => (b, StoreWriting c) end = (b', p') ->
    backend_ok b' /\ evolves b b' /\ pc_ok b' p') as Hstore.
  { intros k cfg create Hs Hr. unfold store_read in Hr.
    destruct (negb (enabled cfg)); [simplify_eq; by split_and!; [|apply evolves_refl|]|].
    destruct (N.ltb_spec (ck_generation k) (b_generation b)) as [_|Hg];
      [simplify_eq; by split_and!; [|apply evolves_refl|]|].
    destruct (b_locations b !! ck_route_id k) as [h|] eqn:El; [|destruct create]; injection Hr as <- <-;
      (split_and!; [done|apply evolves_refl|]); [by eapply holding_ok| |done].
    split; [naive_solver|done]. }
  destruct c; simpl in Hst; try (by eapply Hstore).
  - destruct (stale_if_error cfg); [by eapply Hstore|]. simplify_eq. by split_and!; [|apply evolves_refl|].
  - simplify_eq. by split_and!; [|apply evolves_refl|].
  - injection Hst as <- <-. split_and!; [done|apply evolves_refl|]. by case_match.
  - simplify_eq. split_and!; [by apply invalidate_route_ok|apply invalidate_route_evolves|done].
  - simplify_eq. split_and!; [|split; simpl; [lia|done]|done]. destruct Hb, Hc as [_ Hc].
    constructor; simpl; try done. by apply Hc.
Qed.

Lemma thread_step_ok now b p b' p' :
  backend_ok b -> pc_ok b p -> thread_step now b p = (b', p') ->
  backend_ok b' /\ evolves b b' /\ pc_ok b' p'.
Proof.
  intros Hb [Hp Hh] Hst. destruct p as [c|c|c h|g|[|h hs]|a]; simpl in Hst.
  - eapply start_call_ok; eauto.
  - destruct (call_store c) as [[[k cfg] create]|] eqn:Es.
    + destruct (store_write now b k cfg) as [b1 h] eqn:E. simplify_eq. eapply store_write_spec; eauto.
    + simplify_eq. by split_and!; [|apply evolves_refl|].
  - destruct (Hh c h eq_refl) as (Hlt & k & cfg & create & Hs & Hr).
    pose proof Hb as [_ Hcs Hn Hrs _]. apply Hn in Hlt as [cache Hcache]. rewrite Hcache in Hst.
    assert (call_limit b c <= u64_max) as Hl.
    { unfold call_limit. rewrite Hs. eapply max_size_bounded; eauto. }
    destruct (call_locked_spec now _ c k cfg create cache Hs Hl (Hcs _ _ Hcache)) as [Hok Hk].
    destruct (call_locked now (call_limit b c) c cache) as [cache' a]. simplify_eq. simpl in *.
    split_and!; [|apply set_cache_evolves|done]. apply set_cache_ok; [done|apply Hn; eauto|done|].
    intros r Hl'. apply Hk; [by apply Hr|]. destruct (Hrs _ _ Hl') as (? & ? & ?). by simplify_eq.
  - simplify_eq. split_and!; [by apply advance_write_ok|apply advance_write_evolves|done].
  - simplify_eq. by split_and!; [|apply evolves_refl|].
  - destruct (b_heap b !! h) as [cache|] eqn:E; simplify_eq; [|by split_and!; [|apply evolves_refl|]].
    pose proof Hb as [_ Hcs Hn Hrs _]. split_and!; [|apply set_cache_evolves|done].
    apply set_cache_ok; [done|apply Hn; eauto|by eapply evict_stale_ok, Hcs|].
    intros r Hl'. destruct (Hrs _ _ Hl') as (? & ? & ?). simplify_eq.
    eapply keys_in_shrinks; [apply evict_stale_shrinks|done].
  - simplify_eq. by split_and!; [|apply evolves_refl|].
Qed.

Definition sys_ok (s : CacheBackend * list Pc) : Prop := backend_ok (fst s) /\ Forall (pc_ok (fst s)) (snd s).

Lemma sys_step_ok s s' : sys_step s s' -> sys_ok s -> sys_ok s'.
Proof.
  intros Hst [Hb Hp]. destruct Hst as [b pool c H1 H2|b pool i now p b' p' Hi Hst]; simpl in *.
  - split; [done|]. simpl. constructor; [|done]. split; [|done]. intros ? [= <-]. by split.
  - pose proof (proj1 (Forall_lookup _ _) Hp _ _ Hi) as Hpi.
    destruct (thread_step_ok _ _ _ _ _ Hb Hpi Hst) as (Hb' & He & Hp'). split; [done|]. simpl.
    apply Forall_insert; [|done]. eapply Forall_impl; [exact Hp|]. intros q. by apply pc_ok_evolves.
Qed.

Lemma CacheBackend_new_ok n : n <= u64_max -> sys_ok (CacheBackend_new n, []).
Proof.
  intros Hn. split; [|constructor]. constructor; simpl; [done|..].
  - intros h c. by rewrite lookup_empty.
  - intros h. rewrite lookup_empty. split; [by intros []|lia].
  - intros r h. by rewrite lookup_empty.
  - intros r r' h. by rewrite lookup_empty.
Qed.

Lemma reachable_ok n s : n <= u64_max -> rtc sys_step (CacheBackend_new n, []) s -> sys_ok s.
Proof.
  intros Hn Hr. remember (CacheBackend_new n, []) as s0 eqn:E0.
  assert (sys_ok s0) as H0 by (rewrite E0; by apply CacheBackend_new_ok). clear E0.
  induction Hr; [done|]. eauto using sys_step_ok.
Qed.
End backend_invariant.

(** ** What may be cached *)

Section cacheable.
Context `{Crates}.

Definition build_cache_key (method uri : string) (generation route_id : N) (host : string) (cfg : CacheConfig)
  : CacheKey :=
  let uri_key := match cache_key cfg with
                 | KeyUri | KeyNormalizedUri => uri
                 | KeyUriAndMethod => method +:+ " " +:+ uri
                 end in
  mkCacheKey generation route_id (to_ascii_lowercase host) method uri_key.

(** One comma-separated directive, lower-cased: its name and unquoted value. *)
Definition dquote : ascii := ascii_of_N 34.
Definition cache_directive (directive : string) : string * option string :=
  let directive := to_ascii_lowercase (trim directive) in
  match split_once "=" directive with
  | Some (name, value) => (trim name, Some (trim_start_matches dquote (trim_end_matches dquote (trim value))))
  | None => (directive, None)
  end.
Definition forbidding (directives : list string) (d : string * option string) : bool :=
  existsb (String.eqb (fst d)) directives
  || (String.eqb (fst d) "max-age" && match snd d with Some v => String.eqb v "0" | None => false end).

(** The loop over the [Cache-Control] values; an undecodable value is an error. *)
Fixpoint cache_control_loop (directives : list string) (values : list string) : result unit bool :=
  match values with
  | [] => Ok false
  | value :: values' =>
      value ← ok_or (header_to_str value) tt;
      if existsb (fun d => forbidding directives (cache_directive d)) (split_on "," value) then Ok true
      else cache_control_loop directives values'
  end.
Definition has_cache_control_directive (headers : HeaderMap) (directives : list string) : result unit bool :=
  cache_control_loop directives (get_all "cache-control" headers).

Definition PRIVATE_REQUEST_HEADERS : list string :=
  ["authorization"; "cookie"; "range"; "if-match"; "if-none-match"; "if-modified-since";
   "if-unmodified-since"; "if-range"; "proxy-authorization"].

Definition pragma_no_cache (value : string) : bool :=
  existsb (fun directive => eq_ignore_ascii_case (trim directive) "no-cache") (split_on "," value).
Fixpoint pragma_loop (values : list string) : bool :=
  match values with
  | [] => true
  | value :: values' =>
      match header_to_str value with
      | None => false
      | Some value => if pragma_no_cache value then false else pragma_loop values'
      end
  end.

Definition is_cacheable_request (method : string) (headers : HeaderMap) : bool :=
  if negb (String.eqb method "GET") then false
  else if existsb (fun h => contains_key h headers) PRIVATE_REQUEST_HEADERS then false
  else match has_cache_control_directive headers ["no-cache"; "no-store"] with
       | Ok true | Err _ => false
       | Ok false => pragma_loop (get_all "pragma" headers)
       end.

Definition is_cacheable (status : N) (headers : HeaderMap) (cfg : CacheConfig) : bool :=
  if negb (existsb (N.eqb status) (valid_statuses cfg)) then false
  else match has_cache_control_directive headers ["no-store"; "private"; "no-cache"] with
       | Ok true | Err _ => false
       | Ok false =>
           if contains_key "set-cookie" headers || contains_key "vary" headers then false else true
       end.

Lemma cache_control_loop_false ds values :
  cache_control_loop ds values = Ok false <->
  Forall (fun raw => exists value, header_to_str raw = Some value /\
    Forall (fun d => forbidding ds (cache_directive d) = false) (split_on "," value)) values.
Proof.
  induction values as [|raw values IH]; simpl; [split; [constructor|done]|].
  rewrite Forall_cons. destruct (header_to_str raw) as [value|] eqn:E; simpl; [|naive_solver].
  destruct (existsb _ (split_on "," value)) eqn:Ex.
  - split; [done|]. intros [(v & [= <-] & Hf) _]. apply existsb_exists in Ex as (d & Hd & Hfd).
    apply list_elem_of_In in Hd. rewrite Forall_forall in Hf. rewrite Hf in Hfd by done. done.
  - rewrite IH. split; [intros Hv; split; [|done]|tauto]. exists value. split; [done|].
    apply Forall_forall. intros d Hd. destruct (forbidding ds (cache_directive d)) eqn:Ef; [|done].
    rewrite <- Ex. symmetry. apply existsb_exists. exists d. split; [by apply list_elem_of_In|done].
Qed.
End cacheable.

(** ** Round trips and admission *)

Section behaviour.
Context `{HashIter}.

Lemma put_max c k : lc_max_size (remove_response (remove_count c k) k) = lc_max_size c.
Proof.
  rewrite (sh_max _ _ (remove_response_shrinks _ _)). apply (sh_max _ _ (remove_count_shrinks _ _)).
Qed.

Lemma put_lookup c k r :
  lc_entries (put c k r) !! k = if entry_size k r <=? lc_max_size c then Some r else None.
Proof.
  unfold put, make_room. rewrite (put_max c k). fold (entry_size k r).
  destruct (N.leb_spec (entry_size k r) (lc_max_size c)) as [Hle|Hlt].
  - destruct (N.ltb_spec (lc_max_size c) (entry_size k r)); [lia|]. simpl. apply lookup_insert_eq.
  - destruct (N.ltb_spec (lc_max_size c) (entry_size k r)); [|lia]. simpl. apply remove_response_lookup.
Qed.

Lemma store_create now b k cfg :
  backend_ok b -> enabled cfg = true -> b_generation b <= ck_generation k -> max_size b cfg <= u64_max ->
  exists b1 h guard, store now b k cfg true = (b1, Some h) /\ b_heap b1 !! h = Some guard /\
    b_locations b1 !! ck_route_id k = Some h /\ cache_ok guard /\
    b_generation b1 = b_generation b /\ b_default_max_size b1 = b_default_max_size b.
Proof.
  intros [_ Hc _ Hr _] He Hg Hm. unfold store, store_read, store_write. rewrite He. simpl.
  destruct (N.ltb_spec (ck_generation k) (b_generation b)); [lia|].
  destruct (b_locations b !! ck_route_id k) as [h|] eqn:El.
  - destruct (Hr _ _ El) as (c & Hh & _). exists b, h, c. naive_solver.
  - do 3 eexists. split; [done|]. simpl. rewrite !lookup_insert_eq. split_and!; try done.
    by apply LocationCache_new_ok.
Qed.

(** What [get] and [get_stale] see of a backend. *)
Lemma get_lookup now b k cfg h guard :
  enabled cfg = true -> b_generation b <= ck_generation k ->
  b_locations b !! ck_route_id k = Some h -> b_heap b !! h = Some guard ->
  CacheBackend_get now b k cfg = fresh_response now guard k (config_ttl cfg) /\
  CacheBackend_get_stale now b k cfg =
    (stale ← stale_if_error cfg; fresh_response now guard k (duration_saturating_add (config_ttl cfg) stale)).
Proof.
  intros He Hg Hl Hh. unfold CacheBackend_get, CacheBackend_get_stale, store, store_read. rewrite He. simpl.
  destruct (N.ltb_spec (ck_generation k) (b_generation b)); [lia|]. rewrite Hl. simpl. rewrite Hh. simpl.
  split; [done|]. by destruct (stale_if_error cfg).
Qed.

Lemma get_retired now b k cfg :
  ck_generation k < b_generation b ->
  CacheBackend_get now b k cfg = None /\ CacheBackend_get_stale now b k cfg = None.
Proof.
  intros Hg. unfold CacheBackend_get, CacheBackend_get_stale, store, store_read.
  destruct (N.ltb_spec (ck_generation k) (b_generation b)); [|lia].
  destruct (stale_if_error cfg); destruct (enabled cfg); done.
Qed.

Lemma put_entry now b k r cfg :
  backend_ok b -> enabled cfg = true -> b_generation b <= ck_generation k -> max_size b cfg <= u64_max ->
  let b' := CacheBackend_put now b k r cfg in
  exists h guard, b_locations b' !! ck_route_id k = Some h /\ b_heap b' !! h = Some guard /\
    b_generation b' = b_generation b /\
    lc_entries guard !! k = if entry_size k r <=? max_size b cfg then Some r else None.
Proof.
  intros Hb He Hg Hm. destruct (store_create now b k cfg Hb He Hg Hm) as (b1 & h & guard & Hs & Hh & Hl & Hok & Hg1 & Hd).
  cbn zeta. unfold CacheBackend_put. rewrite Hs, Hh.
  assert (max_size b1 cfg = max_size b cfg) as Hmx by (unfold max_size; by rewrite Hd).
  destruct (sync_limits_spec now guard cfg (max_size b1 cfg) (proj1 Hok) ltac:(lia)) as (_ & Hmax & _).
  do 2 eexists. simpl. rewrite lookup_insert_eq. split_and!; [done|done|done|].
  rewrite put_lookup, Hmax. by rewrite Hmx.
Qed.

(** *** Admission counters *)

Lemma remove_count_other c k k' : k <> k' -> lc_request_counts (remove_count c k) !! k' = lc_request_counts c !! k'.
Proof. intros Hne. unfold remove_count. destruct (lc_request_counts c !! k); [|done]. simpl. by rewrite lookup_delete_ne. Qed.

Lemma remove_response_counts c k : lc_request_counts (remove_response c k) = lc_request_counts c.
Proof. unfold remove_response. by destruct (lc_entries c !! k). Qed.

(** A sweep keeps the counters seen within the lifetime. *)
Lemma evict_stale_count now c k v :
  lc_request_counts c !! k = Some v -> elapsed now (last_seen v) < lc_ttl c ->
  lc_request_counts (evict_stale now c) !! k = Some v.
Proof.
  intros Hk Hv. unfold evict_stale. simpl.
  set (c1 := foldl (retain_entry now) c (iter_keys (lc_entries c))).
  assert (lc_request_counts c1 !! k = Some v /\ lc_ttl c1 = lc_ttl c) as [H1 H2].
  { unfold c1. clear c1. generalize (iter_keys (lc_entries c)) as l. intros l. revert c Hk Hv.
    induction l as [|x l IH]; intros c Hk Hv; simpl; [done|].
    assert (lc_request_counts (retain_entry now c x) = lc_request_counts c) as Hc.
    { unfold retain_entry. repeat case_match; try done. apply remove_response_counts. }
    assert (lc_ttl (retain_entry now c x) = lc_ttl c) as Ht by apply (retain_entry_shrinks now c x).
    rewrite <- Ht. apply IH; [by rewrite Hc|by rewrite Ht]. }
  rewrite <- H2 in Hv. clear H2 Hk. generalize (iter_keys (lc_request_counts c1)) as l. intros l.
  revert H1 Hv. generalize c1. clear c1. induction l as [|x l IH]; intros c1 H1 Hv; simpl; [done|].
  assert (lc_ttl (retain_count now c1 x) = lc_ttl c1) as Ht by apply (retain_count_shrinks now c1 x).
  apply IH; [|by rewrite Ht]. unfold retain_count. destruct (lc_request_counts c1 !! x) as [w|] eqn:Ex; [|done].
  destruct (N.leb_spec (lc_ttl c1) (elapsed now (last_seen w))); [|done].
  rewrite remove_count_other; [done|]. intros ->. rewrite Ex in H1. simplify_eq. lia.
Qed.

(** Limits that did not change evict nothing but stale items. *)
Lemma sync_limits_count now c cfg k v :
  cache_ok c -> lc_request_counts c !! k = Some v -> elapsed now (last_seen v) < config_ttl cfg ->
  lc_request_counts (sync_limits now c cfg (lc_max_size c)) !! k = Some v.
Proof.
  intros Hc Hk Hv. unfold sync_limits.
  set (c1 := mkLocationCache (config_ttl cfg) _ _ _ _ _ _).
  set (c2 := if from_secs 1 <=? elapsed now (lc_last_sweep c1) then evict_stale now c1 else c1).
  assert (cache_ok c2 /\ lc_request_counts c2 !! k = Some v) as [Hc2 Hk2].
  { unfold c2. case_match; [|split; [exact Hc|done]]. split; [by apply evict_stale_ok|by apply evict_stale_count]. }
  unfold make_room. destruct (lc_max_size c2 <? 0); [done|]. simpl.
  destruct (N.ltb_spec (lc_max_size c2 - 0) (lc_current_size c2)); [|done].
  destruct Hc2 as (_ & Hf & _). lia.
Qed.

(** One admission check of a location: [sync_limits], then [record_miss]. *)
Definition miss (now : N) (c : LocationCache) (cfg : CacheConfig) (k : CacheKey) : LocationCache * bool :=
  record_miss now (sync_limits now c cfg (lc_max_size c)) k (default 1 (min_uses cfg)).

Lemma miss_ok now c cfg k : cache_ok c -> cache_ok (fst (miss now c cfg k)).
Proof. intros Hc. apply record_miss_ok. apply sync_limits_spec; [apply Hc|apply Hc]. Qed.

Lemma miss_next now c cfg k n j t :
  cache_ok c -> min_uses cfg = Some n -> 1 < n -> j < u64_max ->
  lc_request_counts c !! k = Some (mkMissCount j t) -> elapsed now t < config_ttl cfg ->
  snd (miss now c cfg k) = (n <=? j + 1) /\
  lc_max_size (fst (miss now c cfg k)) = lc_max_size c /\
  lc_request_counts (fst (miss now c cfg k)) !! k = Some (mkMissCount (j + 1) now).
Proof.
  intros Hc Hn Hn1 Hj Hk Ht. unfold miss, record_miss. rewrite Hn. simpl.
  destruct (N.leb_spec n 1); [lia|]. rewrite (sync_limits_count now c cfg k _ Hc Hk) by done.
  destruct (sync_limits_spec now c cfg (lc_max_size c) (proj1 Hc)) as (_ & Hm & Httl & _); [apply Hc|].
  rewrite Httl. simpl. destruct (N.leb_spec (config_ttl cfg) (elapsed now t)); [lia|].
  assert (saturating_add64 j 1 = j + 1) as -> by (unfold saturating_add64; lia).
  by rewrite lookup_insert_eq.
Qed.

Lemma miss_first now c cfg k n :
  cache_ok c -> min_uses cfg = Some n -> 1 < n -> lc_request_counts c !! k = None ->
  count_size k (mkMissCount 1 now) <= lc_max_size c ->
  snd (miss now c cfg k) = false /\
  lc_max_size (fst (miss now c cfg k)) = lc_max_size c /\
  lc_request_counts (fst (miss now c cfg k)) !! k = Some (mkMissCount 1 now).
Proof.
  intros Hc Hn Hn1 Hk Hs. unfold miss, record_miss. rewrite Hn. simpl.
  destruct (N.leb_spec n 1); [lia|].
  destruct (sync_limits_spec now c cfg (lc_max_size c) (proj1 Hc)) as (Hok & Hm & _ & _ & Hsub); [apply Hc|].
  rewrite (lookup_weaken_None _ _ _ Hk Hsub).
  destruct (make_room _ _) as [c2 b] eqn:E.
  destruct (make_room_spec _ _ _ _ E (proj1 Hok)) as (Hs2 & _ & Hb & _).
  rewrite Hm in Hb. unfold count_size in Hs. assert (b = true) as -> by (rewrite Hb; by apply N.leb_le).
  simpl. rewrite (sh_max _ _ Hs2), Hm, lookup_insert_eq. done.
Qed.

(** The answers of a run of misses at the given times. *)
Fixpoint misses (c : LocationCache) (cfg : CacheConfig) (k : CacheKey) (times : list N) : list bool :=
  match times with
  | [] => []
  | now :: times' => let '(c, admitted) := miss now c cfg k in admitted :: misses c cfg k times'
  end.

(** Each time is less than the lifetime after the one before it. *)
Fixpoint within (lifetime last : N) (times : list N) : bool :=
  match times with
  | [] => true
  | now :: times' => (elapsed now last <? lifetime) && within lifetime now times'
  end.

Lemma misses_from c cfg k n times j t :
  cache_ok c -> min_uses cfg = Some n -> 1 < n -> j + N.of_nat (length times) <= u64_max ->
  lc_request_counts c !! k = Some (mkMissCount j t) -> within (config_ttl cfg) t times = true ->
  misses c cfg k times = (fun i => n <=? i) <$> ((fun i => j + 1 + N.of_nat i) <$> seq 0 (length times)).
Proof.
  revert c j t. induction times as [|now times IH]; intros c j t Hc Hn Hn1 Hj Hk Hw; [done|].
  cbn [within] in Hw. apply andb_true_iff in Hw as [Ht Hw]. apply N.ltb_lt in Ht. simpl in Hj.
  destruct (miss_next now c cfg k n j t Hc Hn Hn1 ltac:(lia) Hk Ht) as (Ha & Hm & Hk').
  pose proof (miss_ok now c cfg k Hc) as Hok.
  cbn [misses]. destruct (miss now c cfg k) as [c' a]. simpl in Ha, Hm, Hk', Hok.
  rewrite (IH c' (j + 1) now Hok Hn Hn1 ltac:(lia) Hk' Hw). cbn [length seq]. rewrite !fmap_cons, Ha.
  f_equal; [f_equal; lia|]. rewrite <- seq_shift. rewrite <- !list_fmap_compose.
  apply list_fmap_ext. intros i x _. simpl. f_equal. lia.
Qed.
End behaviour.

(** ** Theorems *)

Section theorems.
Context `{HashIter}.

(** C9: in every state that threads calling the backend in any interleaving can
    reach, each location's [current_size] is exactly the sum of the sizes of its
    responses and admission counters, and stays within its limit: no subtraction
    or addition of the accounting ever wraps. *)
Theorem cache_accounting n b pool h c :
  n <= u64_max -> rtc sys_step (CacheBackend_new n, []) (b, pool) -> b_heap b !! h = Some c ->
  lc_current_size c = total c /\ lc_current_size c <= lc_max_size c /\ lc_max_size c <= u64_max.
Proof.
  intros Hn Hr Hh. destruct (reachable_ok _ _ Hn Hr) as [Hb _].
  destruct (ok_caches _ Hb _ _ Hh) as ([Hc _] & Hf & Hm). done.
Qed.

(** C10: old in-flight writes never reach a new configuration: in every reachable
    state the cache registered for a route holds only keys of that route and of the
    backend's generation or a later one, whatever calls were in flight when the
    generation advanced. *)
Theorem cache_generation_isolation n b pool r h c k :
  n <= u64_max -> rtc sys_step (CacheBackend_new n, []) (b, pool) ->
  b_locations b !! r = Some h -> b_heap b !! h = Some c ->
  is_Some (lc_entries c !! k) \/ is_Some (lc_request_counts c !! k) ->
  ck_route_id k = r /\ b_generation b <= ck_generation k.
Proof.
  intros Hn Hr Hl Hh Hk. destruct (reachable_ok _ _ Hn Hr) as [Hb _]. simpl in Hb.
  destruct (ok_routes _ Hb _ _ Hl) as (c' & Hh' & [He Hc]). simplify_eq.
  destruct Hk as [Hk|Hk]; [by apply He|by apply Hc].
Qed.

(** A stored response that fits its location's limit is what [get] answers
    until its lifetime ends and what [get_stale] answers until the stale period
    ends; one that does not fit replaces the old response by nothing; and no
    lookup answers it once its generation is retired. *)
Theorem put_then_get now now' b k r cfg :
  backend_ok b -> enabled cfg = true -> b_generation b <= ck_generation k -> max_size b cfg <= u64_max ->
  let b' := CacheBackend_put now b k r cfg in
  let stored lifetime :=
    then_some ((entry_size k r <=? max_size b cfg) && (elapsed now' (created_at r) <? lifetime)) r in
  CacheBackend_get now' b' k cfg = stored (config_ttl cfg) /\
  CacheBackend_get_stale now' b' k cfg =
    (stale ← stale_if_error cfg; stored (duration_saturating_add (config_ttl cfg) stale)) /\
  forall g, ck_generation k < g ->
    CacheBackend_get now' (advance_generation b' g) k cfg = None /\
    CacheBackend_get_stale now' (advance_generation b' g) k cfg = None.
Proof.
  intros Hb He Hg Hm b' stored.
  destruct (put_entry now b k r cfg Hb He Hg Hm) as (h & guard & Hl & Hh & Hg' & Hent). fold b' in Hl, Hh, Hg'.
  destruct (get_lookup now' b' k cfg h guard He ltac:(lia) Hl Hh) as [-> ->].
  assert (forall lifetime, fresh_response now' guard k lifetime = stored lifetime) as Hf.
  { intros lifetime. unfold fresh_response, stored. rewrite Hent. by destruct (entry_size k r <=? max_size b cfg). }
  split; [done|]. split; [by destruct (stale_if_error cfg); simpl|].
  intros g Hlt. apply get_retired. unfold advance_generation, advance_read, advance_write.
  destruct (N.ltb_spec (b_generation b') g) as [Hgen|]; [|lia].
  destruct (N.ltb_spec (b_generation b') g); [done|lia].
Qed.

(** admission by [min_uses]: starting without a counter, the i-th miss of a run
    of misses less than a lifetime apart is admitted exactly when i reaches
    [min_uses]. *)
Theorem cache_admission c cfg k n now times :
  cache_ok c -> min_uses cfg = Some n -> 1 < n -> lc_request_counts c !! k = None ->
  count_size k (mkMissCount 1 now) <= lc_max_size c -> 1 + N.of_nat (length times) <= u64_max ->
  within (config_ttl cfg) now times = true ->
  misses c cfg k (now :: times) =
    (fun i => n <=? 1 + N.of_nat i) <$> seq 0 (S (length times)).
Proof.
  intros Hc Hn Hn1 Hk Hs Hl Hw.
  destruct (miss_first now c cfg k n Hc Hn Hn1 Hk Hs) as (Ha & Hm & Hk').
  pose proof (miss_ok now c cfg k Hc) as Hok.
  cbn [misses]. destruct (miss now c cfg k) as [c' a]. simpl in Ha, Hm, Hk', Hok.
  rewrite (misses_from c' cfg k n times 1 now Hok Hn Hn1 Hl Hk' Hw). cbn [seq]. rewrite fmap_cons, Ha.
  f_equal; [symmetry; apply N.leb_gt; lia|]. rewrite <- seq_shift, <- !list_fmap_compose.
  apply list_fmap_ext. intros i x _. simpl. f_equal. lia.
Qed.
End theorems.

Section cacheable_theorems.
Context `{Crates}.

(** exactly which responses enter the shared cache: a configured status, no
    [Set-Cookie] or [Vary], and only decodable [Cache-Control] values none of whose
    directives is [no-store], [private], [no-cache] or [max-age=0]. *)
Theorem is_cacheable_spec status headers cfg :
  is_cacheable status headers cfg = true <->
  status ∈ valid_statuses cfg /\
  get_all "set-cookie" headers = [] /\ get_all "vary" headers = [] /\
  Forall (fun raw => exists value, header_to_str raw = Some value /\
    Forall (fun d => forbidding ["no-store"; "private"; "no-cache"] (cache_directive d) = false)
      (split_on "," value)) (get_all "cache-control" headers).
Proof.
  unfold is_cacheable, has_cache_control_directive. rewrite <- cache_control_loop_false, <- !get_all_absent.
  assert (existsb (N.eqb status) (valid_statuses cfg) = true <-> status ∈ valid_statuses cfg) as Hs.
  { rewrite existsb_exists, list_elem_of_In. setoid_rewrite N.eqb_eq. naive_solver. }
  rewrite <- Hs. destruct (existsb (N.eqb status) (valid_statuses cfg)); simpl; [|naive_solver].
  destruct (cache_control_loop _ _) as [[]|]; [naive_solver| |naive_solver].
  destruct (contains_key "set-cookie" headers), (contains_key "vary" headers); simpl; naive_solver.
Qed.

(** A cache key separates what it must: with one configuration, two requests
    with the same key agree on generation, route, method and URI, and on the host
    up to ASCII case. *)
Theorem build_cache_key_inj m u g r h m' u' g' r' h' cfg :
  build_cache_key m u g r h cfg = build_cache_key m' u' g' r' h' cfg ->
  m = m' /\ u = u' /\ g = g' /\ r = r' /\ eq_ignore_ascii_case h h' = true.
Proof.
  unfold build_cache_key, eq_ignore_ascii_case. intros Hk. injection Hk as -> -> Hh -> Hu.
  rewrite Hh, String.eqb_refl. split_and!; try done.
  destruct (cache_key cfg); [done| |done]. apply append_inj_l in Hu. by apply (append_inj_l " ").
Qed.
End cacheable_theorems.

(** ** Witnesses *)

Module CacheSample.
Definition cfg : CacheConfig := mkCacheConfig true (Some 1000) None (Some (from_secs 5)) KeyUri (Some 3) [200].
Definition k : CacheKey := mkCacheKey 1 7 "a.test" "GET" "/x".
Definition r : CachedResponse := mkCachedResponse 200 [("etag", "1")] "body" 0.
Definition b : CacheBackend := CacheBackend_new 1000.
End CacheSample.

Lemma put_then_get_witness :
  @CacheBackend_get (from_secs 59) (@CacheBackend_put iter_forward 0 CacheSample.b CacheSample.k CacheSample.r CacheSample.cfg)
    CacheSample.k CacheSample.cfg = Some CacheSample.r.
Proof.
  refine (proj1 (@put_then_get iter_forward 0 (from_secs 59) CacheSample.b CacheSample.k CacheSample.r CacheSample.cfg _ _ _ _));
    [|done..]. apply (CacheBackend_new_ok 1000). done.
Defined.

Lemma cache_admission_witness :
  @misses iter_forward (LocationCache_new 0 CacheSample.cfg 1000) CacheSample.cfg CacheSample.k [0; 1; 2; 3]
  = [false; false; true; true].
Proof.
  apply (@cache_admission iter_forward (LocationCache_new 0 CacheSample.cfg 1000) CacheSample.cfg CacheSample.k 3 0 [1; 2; 3]);
    [by apply LocationCache_new_ok|done..].
Defined.

Lemma build_cache_key_inj_witness :
  "GET" = "GET" /\ "/x" = "/x" /\ 1 = 1 /\ 7 = 7 /\ eq_ignore_ascii_case "A.test" "a.TEST" = true.
Proof. by apply (build_cache_key_inj "GET" "/x" 1 7 "A.test" "GET" "/x" 1 7 "a.TEST" CacheSample.cfg). Defined.

(** An executable schedule of calls. *)
Inductive event := Spawn (c : Call) | Run (i : nat) (now : N).

Fixpoint exec `{HashIter} (es : list event) (s : CacheBackend * list Pc) : option (CacheBackend * list Pc) :=
  match es with
  | [] => Some s
  | Spawn c :: es' => exec es' (fst s, Start c :: snd s)
  | Run i now :: es' =>
      p ← snd s !! i;
      let '(b', p') := thread_step now (fst s) p in exec es' (b', <[i := p']> (snd s))
  end.

Lemma exec_steps `{HashIter} es s s' :
  (forall c, Spawn c ∈ es -> call_bounded c) -> exec es s = Some s' -> rtc sys_step s s'.
Proof.
  revert s. induction es as [|e es IH]; intros [b pool] Hc He; simpl in *; [by simplify_eq|].
  destruct e as [c|i now].
  - eapply rtc_l; [|apply IH, He; set_solver]. destruct (Hc c) as [H1 H2]; [set_solver|]. by constructor.
  - destruct (pool !! i) as [p|] eqn:Ei; [|done]. simpl in He.
    destruct (thread_step now b p) as [b' p'] eqn:Et.
    eapply rtc_l; [by econstructor|]. apply IH, He. set_solver.
Qed.

(** A store of generation 1 is in flight while the generation advances to 2. *)
Module Schedule.
Definition k2 : CacheKey := mkCacheKey 2 7 "a.test" "GET" "/x".
Definition es : list event :=
  [Spawn (CallPut CacheSample.k CacheSample.r CacheSample.cfg); Run 0 0; Run 0 0;
   Spawn (CallAdvance 2); Run 0 0; Run 0 0;
   Spawn (CallPut k2 CacheSample.r CacheSample.cfg); Run 0 1; Run 0 1; Run 0 1; Run 2 2].
Definition final : CacheBackend * list Pc :=
  default (CacheSample.b, []) (@exec iter_forward es (CacheSample.b, [])).
Definition cache_of (h : handle) : LocationCache :=
  default (LocationCache_new 0 CacheSample.cfg 0) (b_heap (fst final) !! h).

Lemma bounded c : Spawn c ∈ es -> call_bounded c.
Proof.
  unfold es. rewrite !elem_of_cons, elem_of_nil. intros Hc.
  decompose [or] Hc; try done; simplify_eq; split; intros; simplify_eq/=; done.
Qed.

Lemma reached : rtc (@sys_step iter_forward) (CacheBackend_new 1000, []) (fst final, snd final).
Proof. apply (@exec_steps iter_forward es); [exact bounded|vm_compute; reflexivity]. Qed.
End Schedule.

Lemma cache_accounting_witness :
  lc_current_size (Schedule.cache_of 0) = total (Schedule.cache_of 0) /\
  lc_current_size (Schedule.cache_of 0) <= lc_max_size (Schedule.cache_of 0) /\
  lc_max_size (Schedule.cache_of 0) <= u64_max.
Proof.
  apply (@cache_accounting iter_forward 1000 (fst Schedule.final) (snd Schedule.final) 0);
    [done|exact Schedule.reached|vm_compute; reflexivity].
Defined.

Lemma cache_generation_isolation_witness :
  b_locations (fst Schedule.final) !! 7 = Some 1 /\
  ck_route_id Schedule.k2 = 7 /\ b_generation (fst Schedule.final) <= ck_generation Schedule.k2.
Proof.
  split; [vm_compute; reflexivity|].
  apply (@cache_generation_isolation iter_forward 1000 (fst Schedule.final) (snd Schedule.final) 7 1
    (Schedule.cache_of 1) Schedule.k2); [done|exact Schedule.reached|vm_compute; reflexivity..|].
  left. vm_compute. eauto.
Defined.
