(* ===== verification/Scp.v ===== *)
(** * SCP profiles (crates/ngxora-runtime/src/upstreams/scp/request.rs)

    The apiRoots of a service communication proxy and the validation of a profile
    against the compiled upstream groups. *)

From S2P Require Import Prelude RustStr NetAddr Crates Ir Types.

Open Scope N_scope.

Record ApiRoot := mkApiRoot { ar_scheme : string; ar_host : string; ar_port : N; ar_prefix : string }.

#[global] Instance ApiRoot_eq_dec : EqDecision ApiRoot.
Proof. solve_decision. Defined.

(** [s.split_once(pat)] for a pattern of any length. *)
Fixpoint split_once_str (pat s : string) : option (string * string) :=
  match strip_prefix pat s with
  | Some r => Some (EmptyString, r)
  | None =>
      match s with
      | EmptyString => None
      | String a s' => match split_once_str pat s' with Some (b, r) => Some (String a b, r) | None => None end
      end
  end.

Section scp.
Context `{Crates}.

Definition default_port (scheme : string) : N := if String.eqb scheme "https" then 443 else 80.

Definition ApiRoot_parse (value : string) : result string ApiRoot :=
  _ ← fail_if ((2048 <? str_len value)
               || str_any (fun b => (byte b <=? 32) || (127 <=? byte b)) value
               || contains_any "\%?#@" value)
        "apiRoot contains unsupported URI characters";
  uri ← map_err (fun _ => "invalid apiRoot") (uri_parse value);
  scheme ← ok_or (uri_scheme_str uri) "apiRoot requires http:// or https://";
  _ ← fail_if (negb (String.eqb scheme "http") && negb (String.eqb scheme "https")) "invalid apiRoot scheme";
  authority ← ok_or (uri_authority uri) "apiRoot requires an authority";
  let host := to_ascii_lowercase (trim_end_matches "]" (trim_start_matches "[" (default "" (uri_host uri)))) in
  _ ← fail_if (is_empty host || ends_with "." host || ends_with ":" authority) "invalid apiRoot host or port";
  let raw_port := if starts_with "[" authority then snd <$> split_once_str "]:" authority
                  else snd <$> split_once ":" authority in
  port ← transpose ((fun p => ok_or (parse_uint u16_max p) "invalid apiRoot port") <$> raw_port);
  let port := default (default_port scheme) port in
  _ ← fail_if (port =? 0) "apiRoot port must be nonzero";
  let prefix := trim_end_matches "/" (uri_path uri) in
  _ ← fail_if (contains_str "//" prefix
               || existsb (fun part => String.eqb part "." || String.eqb part "..") (split_on "/" prefix))
        "invalid apiRoot prefix";
  Ok (mkApiRoot scheme host port prefix).

Definition ApiRoot_authority (r : ApiRoot) : string :=
  let host := if contains_char ":" (ar_host r) then "[" +:+ ar_host r +:+ "]" else ar_host r in
  if ar_port r =? default_port (ar_scheme r) then host else host +:+ ":" +:+ pretty (ar_port r).

Definition ApiRoot_value (r : ApiRoot) : string :=
  ar_scheme r +:+ "://" +:+ ApiRoot_authority r +:+ ar_prefix r.

Definition ApiRoot_backend (r : ApiRoot) : CompiledUpstreamServer :=
  mkCompiledUpstreamServer (ar_host r) (ar_port r) 1
    (then_some (negb (is_empty (ar_prefix r))) (ar_prefix r)) None.

(** The loops of [validate_profile]: the discovery combinations seen so far, the
    target values seen so far. *)
Definition combination : Type := string * string * string.
Definition check_discovery (upstreams : gmap string CompiledUpstreamGroup) (seen : list combination) (name : string)
  : result string (list combination) :=
  group ← ok_or (upstreams !! name) ("scp references unknown discovery upstream `" +:+ name +:+ "`");
  nrf ← ok_or (g_nrf_discovery group) ("scp upstream `" +:+ name +:+ "` requires nrf_discovery");
  let c := (cn_target_nf_type nrf, cn_service_name nrf, cn_requester_nf_type nrf) in
  _ ← fail_if (bool_decide (c ∈ seen))
        "scp discovery upstreams have ambiguous NF/service/requester combinations";
  Ok (c :: seen).
Definition check_target (root : ApiRoot) (roots : list string) (value : string) : result string (list string) :=
  target ← ApiRoot_parse value;
  _ ← fail_if (String.eqb (ar_host target) (ar_host root) && (ar_port target =? ar_port root))
        "scp cannot target its own authority";
  _ ← fail_if (bool_decide (ApiRoot_value target ∈ roots)) "duplicate scp allowed target";
  Ok (ApiRoot_value target :: roots).

Definition validate_profile (profile : ScpProfile) (upstreams : gmap string CompiledUpstreamGroup)
  : result string unit :=
  _ ← fail_if (is_empty (scp_name profile)
               || negb (str_all (fun b => is_ascii_alphanumeric b || contains_char b "_-") (scp_name profile)))
        "scp name must contain only letters, digits, underscore or hyphen";
  root ← ApiRoot_parse (scp_api_root profile);
  _ ← try_fold (check_discovery upstreams) [] (discovery_upstreams profile);
  roots ← try_fold (check_target root) [] (allowed_target_api_roots profile);
  fail_if (is_nil (discovery_upstreams profile) && is_nil roots)
    "scp requires discovery_upstream or allow_target_api_root".
End scp.
