(* ===== verification/CompileUpstreams.v ===== *)
(** * Compiling upstream groups
    (crates/ngxora-runtime/src/upstreams/compile/upstream_groups.rs) *)

From S2P Require Import Prelude RustStr NetAddr Crates Ir Types.

Open Scope N_scope.

Definition normalize_upstream_name (name : string) : string :=
  to_ascii_lowercase (trim_end_matches "." name).

Definition compile_upstream_server (server : UpstreamServer) : result string CompiledUpstreamServer :=
  _ ← fail_if (is_empty (trim (us_host server))) "upstream server host cannot be empty";
  _ ← fail_if (us_port server =? 0)
        ("upstream server `" +:+ us_host server +:+ "` port must be greater than zero");
  Ok (mkCompiledUpstreamServer (us_host server) (us_port server) (us_weight server) None None).

(** The fold over the servers' weights; the total is a [u32]. *)
Definition add_weight (name : string) (total : N) (server : UpstreamServer) : result string N :=
  _ ← fail_if (us_weight server =? 0)
        ("upstream `" +:+ name +:+ "` backend `" +:+ us_host server +:+ ":" +:+ pretty (us_port server)
         +:+ "` weight must be greater than zero");
  Ok ((total + us_weight server) mod (u32_max + 1)).

Section compile_upstreams.
Context `{Crates}.

Definition compile_upstream_health_check (health_check : UpstreamHealthCheck) : result string CompiledHealthCheck :=
  _ ← fail_if (is_zero (uhc_timeout health_check)) "health_check timeout must be greater than zero";
  _ ← fail_if (is_zero (uhc_interval health_check)) "health_check interval must be greater than zero";
  _ ← fail_if (uhc_consecutive_success health_check =? 0)
        "health_check consecutive_success must be greater than zero";
  _ ← fail_if (uhc_consecutive_failure health_check =? 0)
        "health_check consecutive_failure must be greater than zero";
  check ← match uhc_check_type health_check with
          | UpTcp => Ok HcTcp
          | UpHttp host path use_tls =>
              _ ← fail_if (is_empty (trim host)) "health_check http host cannot be empty";
              uri ← map_err (fun err => "invalid health_check path `" +:+ path +:+ "`: " +:+ err) (uri_parse path);
              _ ← fail_if (is_some (uri_scheme_str uri) || is_some (uri_authority uri) || negb (starts_with "/" path))
                    ("health_check path `" +:+ path +:+ "` must be an origin-form path starting with `/`");
              Ok (HcHttp host path use_tls)
          end;
  Ok (mkCompiledHealthCheck check (uhc_timeout health_check) (uhc_interval health_check)
        (uhc_consecutive_success health_check) (uhc_consecutive_failure health_check)).

Definition compile_nrf_discovery (discovery : NrfDiscovery) : result string CompiledNrfDiscovery :=
  api_root ← map_err (fun err => "nrf_discovery api_root is invalid: " +:+ err) (url_parse (nrf_api_root discovery));
  _ ← fail_if (negb (String.eqb (url_scheme api_root) "http" || String.eqb (url_scheme api_root) "https"))
        "nrf_discovery api_root must use http or https";
  _ ← fail_if (is_none (url_host_str api_root) || url_cannot_be_a_base api_root)
        "nrf_discovery api_root must be an absolute HTTP URL";
  _ ← fail_if (is_some (url_query api_root) || is_some (url_fragment api_root))
        "nrf_discovery api_root must not contain a query or fragment";
  _ ← fail_if (is_zero (nrf_timeout discovery)) "nrf_discovery timeout must be greater than zero";
  _ ← fail_if (is_zero (nrf_stale_if_error discovery)) "nrf_discovery stale_if_error must be greater than zero";
  _ ← match client_certificate (nrf_tls_options discovery), client_certificate_key (nrf_tls_options discovery) with
      | Some _, Some _ | None, None => Ok tt
      | _, _ => Err "nrf_discovery ssl_certificate and ssl_certificate_key must be configured together"
      end;
  Ok (mkCompiledNrfDiscovery api_root
        (to_ascii_uppercase (trim (nrf_target_nf_type discovery)))
        (to_ascii_uppercase (trim (nrf_requester_nf_type discovery)))
        (trim (nrf_service_name discovery)) (nrf_endpoint_scheme discovery)
        (nrf_timeout discovery) (nrf_stale_if_error discovery) (nrf_tls_options discovery)).

(** One iteration of [compile_upstreams]. *)
Definition compile_upstream (compiled : gmap string CompiledUpstreamGroup) (upstream : UpstreamBlock)
  : result string (gmap string CompiledUpstreamGroup) :=
  let name := normalize_upstream_name (up_name upstream) in
  let quoted := "upstream `" +:+ up_name upstream +:+ "`" in
  _ ← fail_if (is_empty name) "upstream name cannot be empty";
  _ ← fail_if (is_nil (up_servers upstream) && is_none (up_nrf_discovery upstream) && negb (up_allow_empty upstream))
        (quoted +:+ " must define at least one server or nrf_discovery");
  _ ← fail_if (negb (is_nil (up_servers upstream)) && is_some (up_nrf_discovery upstream))
        (quoted +:+ " cannot combine server directives with nrf_discovery");
  _ ← fail_if (is_some (up_nrf_discovery upstream) && is_none (up_health_check upstream))
        (quoted +:+ " with nrf_discovery must define health_check");
  total_weight ← try_fold (add_weight (up_name upstream)) 0 (up_servers upstream);
  _ ← fail_if (u16_max <? total_weight)
        (quoted +:+ " total backend weight must not exceed " +:+ pretty u16_max);
  _ ← fail_if (is_some (up_hash_key upstream) && negb (bool_decide (up_policy upstream = ConsistentHash)))
        (quoted +:+ " hash_key requires policy consistent_hash");
  _ ← match up_hash_key upstream with
      | Some (HashHeader n) =>
          fail_if (is_none (header_name_from n))
            (quoted +:+ " hash_key has invalid HTTP header name `" +:+ n +:+ "`")
      | _ => Ok tt
      end;
  servers ← mapM compile_upstream_server (up_servers upstream);
  nrf ← transpose (compile_nrf_discovery <$> up_nrf_discovery upstream);
  health ← transpose (compile_upstream_health_check <$> up_health_check upstream);
  let group := mkCompiledUpstreamGroup (up_allow_empty upstream) (up_name upstream) (up_policy upstream)
                 (up_hash_key upstream) servers nrf health in
  _ ← fail_if (is_some (compiled !! name)) (quoted +:+ " is duplicated");
  Ok (<[name := group]> compiled).

Definition compile_upstreams (upstreams : list UpstreamBlock) : result string (gmap string CompiledUpstreamGroup) :=
  try_fold compile_upstream ∅ upstreams.

(** ** Lemmas *)

Lemma compile_upstream_Ok compiled upstream compiled' :
  compile_upstream compiled upstream = Ok compiled' ->
  exists group, compiled' = <[normalize_upstream_name (up_name upstream) := group]> compiled /\
    compiled !! normalize_upstream_name (up_name upstream) = None /\
    g_name group = up_name upstream /\
    Forall2 (fun s c => compile_upstream_server s = Ok c) (up_servers upstream) (g_servers group) /\
    (exists total, try_fold (add_weight (up_name upstream)) 0 (up_servers upstream) = Ok total /\ total <= u16_max) /\
    (is_some (g_nrf_discovery group) = true -> g_servers group = [] /\ is_some (g_health_check group) = true) /\
    (is_some (g_hash_key group) = true -> g_policy group = ConsistentHash) /\
    (g_allow_empty group = false -> g_servers group = [] -> is_some (g_nrf_discovery group) = true).
Proof.
  unfold compile_upstream. intros Hc. inv_ok. rename a7 into servers. eexists. split; [done|].
  apply mapM_Ok in Hok7. apply transpose_Ok in Hok8, Hok9.
  split; [by destruct (compiled !! _)|]. simpl. split; [done|]. split; [done|].
  split; [eexists; split; [done|]; by apply N.ltb_ge|].
  assert (servers = [] <-> up_servers upstream = []) as Hs.
  { split; intros Hx; [subst servers; by inversion Hok7|rewrite Hx in Hok7; by inversion Hok7]. }
  repeat match goal with H : andb _ _ = false |- _ => apply andb_false_iff in H end.
  split_and!.
  - intros Hn. destruct (up_nrf_discovery upstream); [|by subst].
    destruct Hok1 as [Hok1|]; [|done]. destruct Hok2 as [|Hok2]; [done|].
    split; [apply Hs; by destruct (up_servers upstream)|].
    destruct (up_health_check upstream); [|done]. by destruct Hok9 as (? & _ & ->).
  - intros Hh. destruct Hok5 as [Hok5|Hok5]; [congruence|].
    apply negb_false_iff, bool_decide_eq_true in Hok5. done.
  - intros Ha He. apply Hs in He. rewrite He, Ha in Hok0. simpl in Hok0.
    destruct (up_nrf_discovery upstream); [|naive_solver]. by destruct Hok8 as (? & _ & ->).
Qed.

Lemma add_weight_fold name l total total' :
  try_fold (add_weight name) total l = Ok total' -> total <= u32_max ->
  Forall (fun s => 1 <= us_weight s) l /\
  total' = (total + sumN (us_weight <$> l)) mod (u32_max + 1) /\ total' <= u32_max.
Proof.
  revert total. induction l as [|s l IH]; cbn [try_fold]; intros total Hf Ht.
  - inv_ok. split; [constructor|]. simpl. rewrite N.add_0_r, N.mod_small by lia. done.
  - apply bind_Ok_inv in Hf as (t1 & Hadd & Hf). unfold add_weight in Hadd. inv_ok. apply N.eqb_neq in Hok.
    destruct (IH _ Hf) as (Hl & Heq & Hb).
    { pose proof (N.mod_lt (total + us_weight s) (u32_max + 1) ltac:(done)). lia. }
    split; [constructor; [lia|done]|]. split; [|done]. rewrite Heq, N.Div0.add_mod_idemp_l, fmap_cons. f_equal. simpl. lia.
Qed.

(** What a compiled group promises the runtime. *)
Record group_ok (group : CompiledUpstreamGroup) : Prop := mkGroupOk {
  go_servers : Forall (fun s => 1 <= cs_weight s /\ 1 <= cs_port s) (g_servers group);
  go_weight : sumN (cs_weight <$> g_servers group) <= u16_max;
  go_nrf : is_some (g_nrf_discovery group) = true -> g_servers group = [] /\ is_some (g_health_check group) = true;
  go_hash : is_some (g_hash_key group) = true -> g_policy group = ConsistentHash;
  go_nonempty : g_allow_empty group = false -> g_servers group = [] -> is_some (g_nrf_discovery group) = true
}.

(** Weights are [u16] and there are at most 65537 of them, so that their sum fits
    the [u32] it is computed in. *)
Definition upstream_bounded (upstream : UpstreamBlock) : Prop :=
  N.of_nat (length (up_servers upstream)) <= 65537 /\ Forall (fun s => us_weight s <= u16_max) (up_servers upstream).

Lemma sumN_bound l m : Forall (fun x => x <= m) l -> sumN l <= N.of_nat (length l) * m.
Proof. induction 1; simpl; lia. Qed.

Lemma compile_upstream_group_ok compiled upstream compiled' :
  upstream_bounded upstream -> compile_upstream compiled upstream = Ok compiled' ->
  exists group, compiled' = <[normalize_upstream_name (up_name upstream) := group]> compiled /\
    g_name group = up_name upstream /\ group_ok group.
Proof.
  intros [Hlen Hu16] Hc. apply compile_upstream_Ok in Hc as (group & -> & _ & Hname & Hs & (t & Ht & Hb) & Hn & Hh & He).
  apply add_weight_fold in Ht as (Hw & Ht & _); [|done]. rewrite N.add_0_l in Ht.
  assert (Forall2 (fun s c => cs_weight c = us_weight s /\ 1 <= cs_port c) (up_servers upstream) (g_servers group)) as Hs2.
  { eapply Forall2_impl; [exact Hs|]. intros s c Hsc. unfold compile_upstream_server in Hsc. inv_ok.
    apply N.eqb_neq in Hok0. simpl. lia. }
  assert (cs_weight <$> g_servers group = us_weight <$> up_servers upstream) as Heq.
  { clear -Hs2. induction Hs2 as [|s c l k [Hw _] _ IH]; [done|]. rewrite !fmap_cons. congruence. }
  exists group. split; [done|]. split; [done|]. constructor; try done.
  - apply Forall_forall. intros c Hc. apply list_elem_of_lookup in Hc as [i Hi].
    destruct (Forall2_lookup_r _ _ _ _ _ Hs2 Hi) as (s & Hsi & Hcw & Hp). split; [|done].
    rewrite Hcw. eapply (proj1 (Forall_lookup _ _) Hw), Hsi.
  - rewrite Heq. rewrite N.mod_small in Ht; [lia|].
    assert (sumN (us_weight <$> up_servers upstream) <= N.of_nat (length (us_weight <$> up_servers upstream)) * u16_max) as Hsum.
    { apply sumN_bound, Forall_fmap. done. }
    rewrite length_fmap in Hsum. unfold u16_max, u32_max in *. lia.
Qed.

Lemma compile_upstreams_spec upstreams m :
  Forall upstream_bounded upstreams -> compile_upstreams upstreams = Ok m ->
  map_Forall (fun name group => name = normalize_upstream_name (g_name group) /\ group_ok group) m.
Proof.
  intros Hb Hc. unfold compile_upstreams in Hc.
  eapply (try_fold_inv (map_Forall (fun name group => name = normalize_upstream_name (g_name group) /\ group_ok group))
    _ _ _ _ _ _ Hc). Unshelve.
  - intros s x s' Hx Hs Hok. apply compile_upstream_group_ok in Hok as (group & -> & Hn & Hg);
      [|by eapply Forall_forall in Hb]. apply map_Forall_insert_2; [|done]. by rewrite Hn.
  - apply map_Forall_empty.
Qed.

Lemma compile_upstreams_keyed upstreams m :
  compile_upstreams upstreams = Ok m -> map_Forall (fun name group => name = normalize_upstream_name (g_name group)) m.
Proof.
  unfold compile_upstreams. intros Hc.
  refine (try_fold_inv (map_Forall (fun name group => name = normalize_upstream_name (g_name group))) _ _ _ _ _ _ Hc);
    [|apply map_Forall_empty].
  intros s x s' _ Hs Hok. apply compile_upstream_Ok in Hok as (group & -> & _ & Hn & _).
  apply map_Forall_insert_2; [by rewrite Hn|done].
Qed.

(** Every compiled upstream group is found under the normalised form of its own
    name and is usable: its servers have positive weights and ports and a total
    weight that fits 16 bits, discovery excludes static servers and has a health
    check, a hash key comes with consistent hashing, and a group that may not be
    empty has servers or discovery. *)
Theorem compile_upstreams_wf upstreams m name group :
  Forall upstream_bounded upstreams -> compile_upstreams upstreams = Ok m -> m !! name = Some group ->
  name = normalize_upstream_name (g_name group) /\ group_ok group.
Proof. intros Hb Hc Hl. by apply (compile_upstreams_spec _ _ Hb Hc name group). Qed.
End compile_upstreams.

Module UpstreamSample.
Definition block : @UpstreamBlock :=
  mkUpstreamBlock false "Web." RoundRobin None [mkUpstreamServer "10.0.0.1" 80 3; mkUpstreamServer "10.0.0.2" 81 2] None None.
Definition group : @CompiledUpstreamGroup Toy.crates :=
  mkCompiledUpstreamGroup false "Web." RoundRobin None
    [mkCompiledUpstreamServer "10.0.0.1" 80 3 None None; mkCompiledUpstreamServer "10.0.0.2" 81 2 None None] None None.
End UpstreamSample.

Lemma compile_upstreams_wf_witness :
  "web" = normalize_upstream_name "Web." /\ group_ok UpstreamSample.group.
Proof.
  apply (@compile_upstreams_wf Toy.crates [UpstreamSample.block] {[ "web" := UpstreamSample.group ]} "web" UpstreamSample.group).
  - apply Forall_singleton. split; [done|]. simpl. rewrite !Forall_cons. simpl. unfold u16_max. split_and!; [lia|lia|constructor].
  - reflexivity.
  - reflexivity.
Defined.
