(* ===== verification/CompileRoutes.v ===== *)
(** * Compiling locations (crates/ngxora-runtime/src/upstreams/compile/routes.rs) *)

From S2P Require Import Prelude RustStr NetAddr Crates Ir Types HttpRoutes CompileUpstreams.

Open Scope N_scope.

(** [proxy_pass_sni] of compile.rs. *)
Definition proxy_pass_sni (host : string) (tls : bool) : string :=
  if tls && is_none (parse_ip host) then host else "".

Definition proxy_pass_tls (scheme : string) : option bool :=
  if String.eqb scheme "http" then Some false
  else if String.eqb scheme "https" then Some true
  else None.

(** [slot.replace(value).is_some()] is an error. *)
Definition set_timeout_once (slot : option N) (value : N) (directive : string) : result string (option N) :=
  _ ← fail_if (is_some slot) (directive +:+ " is duplicated in the same location");
  Ok (Some value).

Definition validate_direct_status (status : N) : result string unit :=
  fail_if (negb ((200 <=? status) && (status <=? 599))) "direct response status must be 200..599".

Section compile_routes.
Context `{Crates}.
Implicit Type upstreams : gmap string CompiledUpstreamGroup.

Definition upstream_group_from_url (url : Url) upstreams : option CompiledUpstreamGroup :=
  if is_some (url_port url) then None
  else if negb (is_empty (url_username url)) || is_some (url_password url) || is_some (url_query url)
          || is_some (url_fragment url) || negb (String.eqb (url_path url) "/") then None
  else host ← url_host_str url; upstreams !! normalize_upstream_name host.

Definition validate_nrf_route_scheme (group : CompiledUpstreamGroup) (tls : bool) : result string unit :=
  match g_nrf_discovery group with
  | None => Ok tt
  | Some discovery =>
      let expects_tls := bool_decide (cn_endpoint_scheme discovery = NrfHttps) in
      fail_if (negb (Bool.eqb tls expects_tls))
        ("proxy_pass scheme for NRF upstream `" +:+ g_name group +:+ "` must match endpoint_scheme "
         +:+ (if expects_tls then "https" else "http"))
  end.

(** [route_target_from_directive] on the directives that a weighted backend may
    stand for, and on every directive. *)
Definition proxy_pass_target (t : ProxyPassTarget) upstreams : result string (option RouteTarget) :=
  match t with
  | PpUrl url =>
      match upstream_group_from_url url upstreams with
      | Some group =>
          tls ← ok_or (proxy_pass_tls (url_scheme url))
                  ("unsupported proxy_pass scheme `" +:+ url_scheme url +:+ "`");
          _ ← validate_nrf_route_scheme group tls;
          Ok (Some (RtUpstreamGroup (g_name group) tls))
      | None =>
          match url_host_str url, url_port_or_known_default url, proxy_pass_tls (url_scheme url) with
          | Some host, Some port, Some tls => Ok (Some (RtProxyPass host port tls (proxy_pass_sni host tls)))
          | _, _, _ => Ok None
          end
      end
  | PpUpstreamGroup name tls =>
      group ← ok_or (upstreams !! normalize_upstream_name name)
                ("proxy_pass references unknown upstream `" +:+ name +:+ "`");
      _ ← validate_nrf_route_scheme group tls;
      Ok (Some (RtUpstreamGroup (g_name group) tls))
  end.
Definition direct_target (status : N) : result string (option RouteTarget) :=
  _ ← validate_direct_status status; Ok (Some (RtDirectResponse status)).

Definition compile_weighted_backend upstreams (backend : WeightedBackend) : result string CompiledWeightedBackend :=
  _ ← fail_if (1000000 <? wb_weight backend) "backend weight exceeds 1000000";
  target ← match wb_target backend with
           | BtUpstream t => proxy_pass_target t upstreams
           | BtResponse status => direct_target status
           end;
  target ← ok_or target "invalid weighted backend target";
  Ok (mkCompiledWeightedBackend (wb_weight backend) target).

Definition route_target_from_directive upstreams (directive : LocationDirective)
  : result string (option RouteTarget) :=
  match directive with
  | DirectResponse status => direct_target status
  | DHttpRedirect config => Ok (Some (RtHttpRedirect config))
  | WeightedBackends backends =>
      _ ← fail_if (is_nil backends) "weighted_backends must not be empty";
      backends ← mapM (compile_weighted_backend upstreams) backends;
      Ok (Some (RtWeightedBackends backends))
  | ScpPass profile => Ok (Some (RtScp profile))
  | ProxyPass t => proxy_pass_target t upstreams
  | Return_ status location => Ok (Some (RtReturn status location))
  | _ => Ok None
  end.

(** [find_map] over the directives, then [transpose]. *)
Fixpoint route_target_in upstreams (directives : list LocationDirective) : result string (option RouteTarget) :=
  match directives with
  | [] => Ok None
  | directive :: directives' =>
      match route_target_from_directive upstreams directive with
      | Ok (Some target) => Ok (Some target)
      | Ok None => route_target_in upstreams directives'
      | Err err => Err err
      end
  end.
Definition route_target (location : Location) upstreams : result string (option RouteTarget) :=
  route_target_in upstreams (loc_directives location).

Definition timeout_directive (t : UpstreamTimeouts) (directive : LocationDirective) : result string UpstreamTimeouts :=
  match directive with
  | ProxyConnectTimeout value =>
      v ← set_timeout_once (connect t) value "proxy_connect_timeout"; Ok (mkUpstreamTimeouts v (read t) (write t))
  | ProxyReadTimeout value =>
      v ← set_timeout_once (read t) value "proxy_read_timeout"; Ok (mkUpstreamTimeouts (connect t) v (write t))
  | ProxyWriteTimeout value =>
      v ← set_timeout_once (write t) value "proxy_write_timeout"; Ok (mkUpstreamTimeouts (connect t) (read t) v)
  | _ => Ok t
  end.
Definition compile_upstream_timeouts (location : Location) : result string UpstreamTimeouts :=
  try_fold timeout_directive UpstreamTimeouts_default (loc_directives location).

(** The [proxy_upstream_protocol] of a location, at most one. *)
Definition protocol_directive (p : option UpstreamHttpProtocol) (directive : LocationDirective)
  : result string (option UpstreamHttpProtocol) :=
  match directive with
  | ProxyUpstreamProtocol value =>
      _ ← fail_if (is_some p) "proxy_upstream_protocol is duplicated in the same location"; Ok (Some value)
  | _ => Ok p
  end.
Definition check_protocol (protocol : UpstreamHttpProtocol) (target_uses_tls : bool)
  : result string (option UpstreamHttpProtocol) :=
  match protocol, target_uses_tls with
  | H2, false => Err "proxy_upstream_protocol h2 requires TLS upstream; use https proxy_pass or h2c"
  | H2c, true => Err "proxy_upstream_protocol h2c requires plaintext upstream; use http proxy_pass"
  | _, _ => Ok (Some protocol)
  end.
Fixpoint compile_upstream_protocol (location : Location) (target : RouteTarget) {struct target}
  : result string (option UpstreamHttpProtocol) :=
  protocol ← try_fold protocol_directive None (loc_directives location);
  match protocol with
  | None => Ok None
  | Some protocol =>
      match target with
      | RtScp _ => Err "scp_pass chooses HTTP/2 transport from the target scheme; omit proxy_upstream_protocol"
      | RtProxyPass _ _ tls _ | RtUpstreamGroup _ tls => check_protocol protocol tls
      | RtReturn _ _ | RtDirectResponse _ | RtHttpRedirect _ => Ok None
      | RtWeightedBackends backends =>
          (fix loop (backends : list CompiledWeightedBackend) : result string (option UpstreamHttpProtocol) :=
             match backends with
             | [] => Ok (Some protocol)
             | mkCompiledWeightedBackend _ t :: backends' =>
                 _ ← compile_upstream_protocol location t; loop backends'
             end) backends
      end
  end.

Definition ssl_directive (s : UpstreamSslOptions * (bool * bool)) (directive : LocationDirective)
  : result string (UpstreamSslOptions * (bool * bool)) :=
  let '(o, (seen_cert, seen_key)) := s in
  match directive with
  | ProxySslVerify switch =>
      Ok (mkUpstreamSslOptions switch (trusted_certificate o) (client_certificate o) (client_certificate_key o),
          (seen_cert, seen_key))
  | ProxySslTrustedCertificate pem =>
      Ok (mkUpstreamSslOptions (verify_cert o) (Some pem) (client_certificate o) (client_certificate_key o),
          (seen_cert, seen_key))
  | ProxySslCertificate pem =>
      _ ← fail_if seen_cert "proxy_ssl_certificate is duplicated in the same location";
      Ok (mkUpstreamSslOptions (verify_cert o) (trusted_certificate o) (Some pem) (client_certificate_key o),
          (true, seen_key))
  | ProxySslCertificateKey pem =>
      _ ← fail_if seen_key "proxy_ssl_certificate_key is duplicated in the same location";
      Ok (mkUpstreamSslOptions (verify_cert o) (trusted_certificate o) (client_certificate o) (Some pem),
          (seen_cert, true))
  | _ => Ok s
  end.
Definition compile_upstream_ssl_options (location : Location) : result string UpstreamSslOptions :=
  '(options, _) ← try_fold ssl_directive (UpstreamSslOptions_default, (false, false)) (loc_directives location);
  match is_some (client_certificate options), is_some (client_certificate_key options) with
  | true, false => Err "proxy_ssl_certificate requires proxy_ssl_certificate_key"
  | false, true => Err "proxy_ssl_certificate_key requires proxy_ssl_certificate"
  | _, _ => Ok options
  end.

Definition http2_directive (o : UpstreamHttp2Options) (directive : LocationDirective)
  : result string UpstreamHttp2Options :=
  let once (slot : option N) (name : string) := fail_if (is_some slot) (name +:+ " is duplicated in the same location") in
  match directive with
  | ProxyHttp2MaxConcurrentStreams v =>
      _ ← once (up_max_concurrent_streams o) "proxy_http2_max_concurrent_streams";
      Ok (mkUpstreamHttp2Options (Some v) (up_stream_window_size o) (up_connection_window_size o))
  | ProxyHttp2StreamWindowSize v =>
      _ ← once (up_stream_window_size o) "proxy_http2_stream_window_size";
      Ok (mkUpstreamHttp2Options (up_max_concurrent_streams o) (Some v) (up_connection_window_size o))
  | ProxyHttp2ConnectionWindowSize v =>
      _ ← once (up_connection_window_size o) "proxy_http2_connection_window_size";
      Ok (mkUpstreamHttp2Options (up_max_concurrent_streams o) (up_stream_window_size o) (Some v))
  | _ => Ok o
  end.
Definition compile_upstream_http2 (location : Location) : result string UpstreamHttp2Options :=
  options ← try_fold http2_directive UpstreamHttp2Options_default (loc_directives location);
  _ ← UpstreamHttp2Options_validate options;
  Ok options.

(** The loop over the methods of [allow_methods]: valid ones, without repetition. *)
Definition allow_method (ms : list string) (method : string) : result string (list string) :=
  _ ← fail_if (negb (method_ok method)) "invalid allowed HTTP method";
  Ok (if bool_decide (method ∈ ms) then ms else ms ++ [method]).
Definition limits_directive (s : ClientLimits * bool) (directive : LocationDirective)
  : result string (ClientLimits * bool) :=
  let '(l, seen_methods) := s in
  match directive with
  | ClientMaxBodySize v =>
      _ ← fail_if (is_some (max_body_size l)) "client_max_body_size is duplicated in location";
      Ok (mkClientLimits (Some v) (body_timeout l) (limit_send_timeout l) (allowed_methods l), seen_methods)
  | ClientBodyTimeout v =>
      t ← set_timeout_once (body_timeout l) v "client_body_timeout";
      Ok (mkClientLimits (max_body_size l) t (limit_send_timeout l) (allowed_methods l), seen_methods)
  | SendTimeout v =>
      t ← set_timeout_once (limit_send_timeout l) v "send_timeout";
      Ok (mkClientLimits (max_body_size l) (body_timeout l) t (allowed_methods l), seen_methods)
  | AllowMethods methods =>
      _ ← fail_if (seen_methods || is_nil methods) "allow_methods must be nonempty and declared once";
      ms ← try_fold allow_method (allowed_methods l) methods;
      Ok (mkClientLimits (max_body_size l) (body_timeout l) (limit_send_timeout l) ms, true)
  | _ => Ok s
  end.
Definition compile_client_limits (location : Location) : result string ClientLimits :=
  '(limits, _) ← try_fold limits_directive (ClientLimits_default, false) (loc_directives location);
  _ ← validate_client_timeout (body_timeout limits);
  _ ← validate_client_timeout (limit_send_timeout limits);
  Ok limits.

(** [CompiledMatcher::try_from] of types.rs, with [CompiledRegex::new]. *)
Definition CompiledMatcher_try_from (value : LocationMatcher) : result string CompiledMatcher :=
  match value with
  | LmHttp m => CmHttp <$> compile_match m
  | LmPrefix path => Ok (CmPrefix path)
  | LmExact path => Ok (CmExact path)
  | LmRegex case_insensitive pattern =>
      _ ← map_err (fun err => "invalid location regex `" +:+ pattern +:+ "`: " +:+ err)
            (regex_build pattern case_insensitive);
      Ok (CmRegex pattern case_insensitive)
  | LmPreferPrefix path => Ok (CmPreferPrefix path)
  | LmNamed name => Ok (CmNamed name)
  end.

(** [expand_return] never runs out of fuel ([expand_return_total]). *)
Definition expand_return_result (template host uri scheme : string) : result string string :=
  default (Err "") (expand_return template host uri scheme).

(** The first loop of [compile_location]: the number of actions. *)
Definition count_action (n : N) (directive : LocationDirective) : result string N :=
  match directive with
  | ProxyPass _ | ScpPass _ | Return_ _ _ | WeightedBackends _ | DirectResponse _ | DHttpRedirect _ => Ok (n + 1)
  | Root _ => Err "root is not supported at runtime"
  | TryFiles _ => Err "try_files is not supported at runtime"
  | _ => Ok n
  end.

Definition upstream_action (target : RouteTarget) : bool :=
  match target with RtProxyPass _ _ _ _ | RtUpstreamGroup _ _ | RtWeightedBackends _ => true | _ => false end.

Definition rewrite_directive (target : RouteTarget) (matcher : CompiledMatcher) (r : option UrlRewrite)
    (directive : LocationDirective) : result string (option UrlRewrite) :=
  match directive with
  | DUrlRewrite rewrite =>
      _ ← fail_if (is_some r) "duplicate URL rewrite";
      _ ← fail_if (negb (upstream_action target)) "URL rewrite requires an upstream action";
      _ ← match rewrite_hostname rewrite with Some host => validate_hostname host | None => Ok tt end;
      _ ← validate_modifier (rewrite_path rewrite) matcher;
      Ok (Some rewrite)
  | _ => Ok r
  end.

Definition validate_target (target : RouteTarget) (matcher : CompiledMatcher) : result string unit :=
  match target with
  | RtHttpRedirect config =>
      _ ← fail_if (negb (existsb (N.eqb (redirect_status config)) [301; 302; 303; 307; 308]))
            "invalid HTTP redirect status";
      _ ← fail_if (match redirect_scheme config with
                   | Some s => negb (String.eqb s "http" || String.eqb s "https")
                   | None => false end) "redirect scheme must be http or https";
      _ ← fail_if (bool_decide (redirect_port config = Some 0)) "redirect port must be positive";
      _ ← match redirect_hostname config with Some host => validate_hostname host | None => Ok tt end;
      validate_modifier (redirect_path config) matcher
  | RtReturn status location =>
      _ ← fail_if (negb ((300 <=? status) && (status <? 400))) "return requires a 3xx status";
      _ ← expand_return_result location "example.com" "/" "http";
      fail_if (negb (header_value_ok location)) "invalid redirect location"
  | _ => Ok tt
  end.

Definition is_scp (target : RouteTarget) : bool := match target with RtScp _ => true | _ => false end.

(** The route id is a [u64] that starts at 1 and grows by one per compiled location
    ([*next_route_id += 1]); it is kept as an [N], as the addition cannot overflow: the
    locations are in memory, and there are fewer than 2^64 of them. *)
Definition compile_location (location : Location) upstreams (next_route_id : N)
  : result string (option CompiledLocation * N) :=
  action_count ← try_fold count_action 0 (loc_directives location);
  _ ← fail_if (negb (action_count =? 1)) "location must contain exactly one proxy_pass or return directive";
  target ← route_target location upstreams;
  match target with
  | None => Ok (None, next_route_id)
  | Some target =>
      protocol ← compile_upstream_protocol location target;
      _ ← fail_if (is_scp target && is_some (loc_cache location)) "scp_pass cannot be combined with proxy_cache";
      matcher ← CompiledMatcher_try_from (loc_matcher location);
      rewrite ← try_fold (rewrite_directive target matcher) None (loc_directives location);
      _ ← validate_target target matcher;
      limits ← compile_client_limits location;
      timeouts ← compile_upstream_timeouts location;
      http2 ← compile_upstream_http2 location;
      ssl ← compile_upstream_ssl_options location;
      Ok (Some (mkCompiledLocation limits rewrite next_route_id matcher (loc_access_rules location) target
                  timeouts protocol http2 ssl (loc_plugins location) (loc_cache location)),
          next_route_id + 1)
  end.

Definition is_http_matcher (l : Location) : bool := match loc_matcher l with LmHttp _ => true | _ => false end.

Definition compile_locations_step upstreams (s : list CompiledLocation * N) (location : Location)
  : result string (list CompiledLocation * N) :=
  '(compiled, next) ← compile_location location upstreams (snd s);
  Ok (fst s ++ match compiled with Some l => [l] | None => [] end, next).

Definition compile_locations (locations : list Location) upstreams (next_route_id : N)
  : result string (list CompiledLocation * N) :=
  let http_count := length (List.filter is_http_matcher locations) in
  _ ← fail_if (negb (http_count =? 0)%nat && negb (http_count =? length locations)%nat)
        "cannot mix HTTP and nginx matchers in one virtual host";
  try_fold (compile_locations_step upstreams) ([], next_route_id) locations.

(** ** Lemmas *)

Lemma expand_return_total template host uri scheme : expand_return template host uri scheme <> None.
Proof.
  unfold expand_return. intros Hn.
  pose proof (expand_return_loop_uniform (S (String.length template)) template host uri scheme host uri scheme "" "" ltac:(lia)) as Hu.
  by rewrite Hn in Hu.
Qed.

(** A target whose upstream groups all exist. *)
Fixpoint target_resolved {V} (upstreams : gmap string V) (target : RouteTarget) : Prop :=
  match target with
  | RtUpstreamGroup name _ => is_Some (upstreams !! normalize_upstream_name name)
  | RtWeightedBackends backends =>
      (fix all (bs : list CompiledWeightedBackend) : Prop :=
         match bs with
         | [] => True
         | mkCompiledWeightedBackend _ t :: bs' => target_resolved upstreams t /\ all bs'
         end) backends
  | _ => True
  end.

(** The targets of weighted backends. *)
Definition backend_leaf (target : RouteTarget) : bool :=
  match target with RtProxyPass _ _ _ _ | RtUpstreamGroup _ _ | RtDirectResponse _ => true | _ => false end.

(** What the runtime relies on in a compiled location. *)
Record location_ok {V} (upstreams : gmap string V) (l : CompiledLocation) : Prop := mkLocationOk {
  lo_target : target_resolved upstreams (target l);
  lo_mtls : is_some (client_certificate (upstream_ssl_options l)) =
            is_some (client_certificate_key (upstream_ssl_options l));
  lo_return : forall status location, target l = RtReturn status location ->
    300 <= status < 400 /\
    forall host uri scheme, exists out, expand_return location host uri scheme = Some (Ok out);
  lo_weights : forall backends, target l = RtWeightedBackends backends ->
    backends <> [] /\ Forall (fun b => cwb_weight b <= 1000000 /\
      backend_leaf (cwb_target b) = true) backends
}.

(** Group names in [upstreams] are the normal forms of their groups' names. *)
Definition upstreams_keyed upstreams : Prop :=
  map_Forall (fun name group => name = normalize_upstream_name (g_name group)) upstreams.

Lemma proxy_pass_target_ok t upstreams target :
  upstreams_keyed upstreams -> proxy_pass_target t upstreams = Ok (Some target) ->
  target_resolved upstreams target /\ backend_leaf target = true.
Proof.
  intros Hk Ht. destruct t as [url|name tls]; simpl in Ht.
  - destruct (upstream_group_from_url url upstreams) as [g|] eqn:Eg.
    + inv_ok. simplify_eq. simpl. split; [|done]. unfold upstream_group_from_url in Eg.
      repeat case_match; simplify_eq. destruct (url_host_str url) as [h|]; simplify_eq/=.
      rewrite <- (Hk _ _ Eg). eauto.
    + repeat case_match; simplify_eq. inv_ok. simplify_eq. done.
  - inv_ok. simplify_eq. simpl. rewrite <- (Hk _ _ Hok). eauto.
Qed.

Lemma direct_target_ok status target :
  direct_target status = Ok (Some target) -> target = RtDirectResponse status.
Proof. unfold direct_target. intros Ht. inv_ok. by simplify_eq. Qed.

Lemma compile_weighted_backend_ok upstreams b c :
  upstreams_keyed upstreams -> compile_weighted_backend upstreams b = Ok c ->
  cwb_weight c <= 1000000 /\ target_resolved upstreams (cwb_target c) /\
  backend_leaf (cwb_target c) = true.
Proof.
  intros Hk Hc. unfold compile_weighted_backend in Hc. inv_ok. simplify_eq. simpl.
  split; [by apply N.ltb_ge|]. destruct (wb_target b) as [t|status].
  - apply (proxy_pass_target_ok _ _ _ Hk) in Hok0 as [Hr Ht]. split; [done|]. by destruct a1.
  - apply direct_target_ok in Hok0 as ->. done.
Qed.

Lemma target_resolved_weighted {V} (upstreams : gmap string V) bs :
  target_resolved upstreams (RtWeightedBackends bs) <-> Forall (fun b => target_resolved upstreams (cwb_target b)) bs.
Proof.
  induction bs as [|[w t] bs IH]; simpl in *; [split; [constructor|done]|].
  rewrite Forall_cons. simpl. by rewrite IH.
Qed.

Lemma route_target_from_directive_ok upstreams d target :
  upstreams_keyed upstreams -> route_target_from_directive upstreams d = Ok (Some target) ->
  target_resolved upstreams target /\
  forall backends, target = RtWeightedBackends backends ->
    backends <> [] /\ Forall (fun b => cwb_weight b <= 1000000 /\
      backend_leaf (cwb_target b) = true) backends.
Proof.
  intros Hk Ht. destruct d; simpl in Ht; try (inv_ok; simplify_eq; by split).
  - inv_ok. simplify_eq. apply mapM_Ok in Hok0.
    assert (Forall (fun c => cwb_weight c <= 1000000 /\ target_resolved upstreams (cwb_target c) /\
      backend_leaf (cwb_target c) = true) a0) as Hall.
    { eapply Forall2_Forall_r; [exact Hok0|]. apply Forall_forall. intros b _ c Hc. by eapply compile_weighted_backend_ok. }
    split.
    + apply target_resolved_weighted. eapply Forall_impl; [exact Hall|]. naive_solver.
    + intros ? [= <-]. split; [|eapply Forall_impl; [exact Hall|]; naive_solver].
      intros ->. inversion Hok0. by subst.
  - apply direct_target_ok in Ht as ->. by split.
  - apply (proxy_pass_target_ok _ _ _ Hk) in Ht as [Hr Hx]. split; [done|]. by intros ? ->.
Qed.

Lemma route_target_in_ok upstreams ds target :
  route_target_in upstreams ds = Ok (Some target) ->
  exists d, route_target_from_directive upstreams d = Ok (Some target).
Proof.
  induction ds as [|d ds IH]; simpl; [done|].
  destruct (route_target_from_directive upstreams d) as [[t|]|] eqn:E; [|done|done].
  intros Ht. simplify_eq. inv_ok. simplify_eq. eauto.
Qed.

Lemma compile_upstream_ssl_options_ok location o :
  compile_upstream_ssl_options location = Ok o ->
  is_some (client_certificate o) = is_some (client_certificate_key o).
Proof.
  unfold compile_upstream_ssl_options. intros Ho. inv_ok. destruct a as [o' s].
  destruct (is_some (client_certificate o')) eqn:E1, (is_some (client_certificate_key o')) eqn:E2; inv_ok; congruence.
Qed.

Lemma validate_target_return status template matcher :
  validate_target (RtReturn status template) matcher = Ok tt ->
  300 <= status < 400 /\
  forall host uri scheme, exists out, expand_return template host uri scheme = Some (Ok out).
Proof.
  cbn [validate_target]. intros Hv. inv_ok. apply negb_false_iff, andb_true_iff in Hok as [H1 H2].
  apply N.leb_le in H1. apply N.ltb_lt in H2. split; [done|]. intros host uri scheme.
  unfold expand_return_result in Hok0.
  pose proof (expand_return_loop_uniform (S (String.length template)) template
    "example.com" "/" "http" host uri scheme "" "" ltac:(lia)) as Hu.
  fold (expand_return template "example.com" "/" "http") in Hu. fold (expand_return template host uri scheme) in Hu.
  destruct (expand_return template "example.com" "/" "http") as [[o|e]|].
  all: destruct (expand_return template host uri scheme) as [[o'|e']|]; simplify_eq/=; try done. eauto.
Qed.

Lemma compile_location_ok location upstreams next c next' :
  upstreams_keyed upstreams -> compile_location location upstreams next = Ok (c, next') ->
  match c with
  | None => next' = next
  | Some l => location_ok upstreams l /\ route_id l = next /\ next' = next + 1
  end.
Proof.
  intros Hk Hc. unfold compile_location in Hc. inv_ok. destruct a1 as [t|]; inv_ok; simplify_eq; [|done].
  split; [|done]. apply route_target_in_ok in Hok1 as [d Hd].
  apply (route_target_from_directive_ok _ _ _ Hk) in Hd as [Hr Hw].
  constructor; simpl; [done|by eapply compile_upstream_ssl_options_ok| |done].
  intros status template ->. by eapply validate_target_return.
Qed.

(** The ids of the compiled locations are the numbers from the first free one. *)
Lemma compile_locations_loop upstreams locations s s' :
  upstreams_keyed upstreams -> try_fold (compile_locations_step upstreams) s locations = Ok s' ->
  exists new, fst s' = fst s ++ new /\ Forall (location_ok upstreams) new /\
    (route_id <$> new) = (fun i => snd s + N.of_nat i) <$> seq 0 (length new) /\
    snd s' = snd s + N.of_nat (length new).
Proof.
  intros Hk. revert s. induction locations as [|l ls IH]; intros s Hs; simpl in Hs.
  - inv_ok. exists []. rewrite app_nil_r. split_and!; try done. simpl. lia.
  - apply bind_Ok_inv in Hs as (s1 & Hstep & Hs). unfold compile_locations_step in Hstep.
    apply bind_Ok_inv in Hstep as ([c next] & Hok0 & Hstep). inv_ok.
    apply (compile_location_ok _ _ _ _ _ Hk) in Hok0.
    apply IH in Hs as (new & H1 & H2 & H3 & H4). simpl in *.
    destruct c as [c|]; simpl in *.
    + destruct Hok0 as (Hl & Hid & ->). exists (c :: new). rewrite H1, <- app_assoc. split_and!; [done|by constructor| |].
      * rewrite fmap_cons, H3, Hid. cbn [length seq]. rewrite fmap_cons. f_equal; [lia|].
        rewrite <- seq_shift, <- list_fmap_compose. apply list_fmap_ext. intros i x _. simpl. lia.
      * rewrite H4. simpl. lia.
    + subst next. exists new. rewrite H1, app_nil_r. done.
Qed.
End compile_routes.
