(* ===== verification/CompileRouter.v ===== *)
(** * Compiling the router (crates/ngxora-runtime/src/upstreams/compile.rs) *)

From S2P Require Import Prelude RustStr NetAddr Crates Ir Types HttpRoutes Scp CompileUpstreams CompileRoutes.

Open Scope N_scope.

(** [Path::join] of a directory and a relative or absolute path. *)
Definition path_join (dir path : string) : string :=
  if starts_with "/" path || is_empty dir then path
  else if ends_with "/" dir then dir +:+ path
  else dir +:+ "/" +:+ path.

Definition listen_key_addr (key : ListenKey) : string := show_socket_addr (addr key) (port key).

Definition downstream_keepalive_timeout_secs (timeout : KeepaliveTimeout) : option N :=
  match timeout with
  | KeepaliveOff => None
  | KeepaliveSet idle _ =>
      let millis := as_millis idle in
      if millis =? 0 then None
      else let secs := div_ceil millis 1000 in then_some (secs <=? u64_max) secs
  end.

Definition switch_on (s : Switch) : bool := match s with On => true | Off => false end.
Definition nonzero (d : option N) : bool := match d with Some v => negb (is_zero v) | None => false end.

Section compile_router.
Context `{Crates}.

(** Record updates of [self]. *)
Definition set_listeners (r : CompiledRouter) (l : gmap ListenKey VirtualHostRoutes) : CompiledRouter :=
  mkCompiledRouter (r_geoip r) (r_scp_profiles r) (r_upstreams r) l (r_listener_protocols r) (r_listener_tls r)
    (r_http_options r) (r_le_config r).
Definition set_protocols (r : CompiledRouter) (p : gmap ListenKey ListenerProtocolConfig) : CompiledRouter :=
  mkCompiledRouter (r_geoip r) (r_scp_profiles r) (r_upstreams r) (r_listeners r) p (r_listener_tls r)
    (r_http_options r) (r_le_config r).
Definition set_tls (r : CompiledRouter) (t : gmap ListenKey ListenerTlsConfig) : CompiledRouter :=
  mkCompiledRouter (r_geoip r) (r_scp_profiles r) (r_upstreams r) (r_listeners r) (r_listener_protocols r) t
    (r_http_options r) (r_le_config r).
Definition set_scp_profiles (r : CompiledRouter) (p : gmap string ScpProfile) : CompiledRouter :=
  mkCompiledRouter (r_geoip r) p (r_upstreams r) (r_listeners r) (r_listener_protocols r) (r_listener_tls r)
    (r_http_options r) (r_le_config r).

Definition merge_listener_protocols (r : CompiledRouter) (key : ListenKey) (listen : Listen) : result string CompiledRouter :=
  let config := mkListenerProtocolConfig (l_http2 listen) (l_http2_only listen) in
  match r_listener_protocols r !! key with
  | Some current =>
      _ ← fail_if (negb (bool_decide (current = config)))
            ("listener " +:+ listen_key_addr key +:+ " has conflicting protocol settings across server blocks");
      Ok r
  | None => Ok (set_protocols r (<[key := config]> (r_listener_protocols r)))
  end.

Definition merge_listener_tls_settings (r : CompiledRouter) (key : ListenKey) (options : DownstreamTlsOptions)
  : result string CompiledRouter :=
  let settings' := ListenerTlsSettings_from options in
  match r_listener_tls r !! key with
  | Some current =>
      _ ← fail_if (negb (bool_decide (settings current = settings')))
            ("listener " +:+ listen_key_addr key +:+ " has conflicting TLS settings across server blocks");
      Ok r
  | None => Ok (set_tls r (<[key := mkListenerTlsConfig ∅ None settings']> (r_listener_tls r)))
  end.

(** The host routes a server adds to a listener. *)
Definition add_vhost (listener : VirtualHostRoutes) (server : Server) (listen : Listen) (routes : ServerRoutes)
  : VirtualHostRoutes :=
  let named' := foldl (fun m name => <[normalize_hostname name := routes]> m) (named listener) (server_names server) in
  mkVirtualHostRoutes named'
    (if l_default_server listen || (is_nil (server_names server) && is_none (default_routes listener))
     then Some routes else default_routes listener).

(** The identity a server presents. *)
Definition tls_identity (r : CompiledRouter) (server : Server) (provider : SslProvider) : TlsIdentity :=
  match provider with
  | Custom id => id
  | LetsEncrypt =>
      let dir := default "/var/lib/ngxora/certs" (r_le_config r ≫= cache_dir) in
      let domain := default "" (head (server_names server)) in
      mkTlsIdentity (PemPath (path_join (path_join dir domain) "fullchain.pem"))
                    (PemPath (path_join (path_join dir domain) "privkey.pem"))
  end.
Definition add_identity (t : ListenerTlsConfig) (server : Server) (listen : Listen) (id : TlsIdentity)
  : ListenerTlsConfig :=
  mkListenerTlsConfig
    (foldl (fun m name => <[normalize_hostname name := id]> m) (tls_named t) (server_names server))
    (if l_default_server listen || is_none (tls_default t) || is_nil (server_names server) then Some id
     else tls_default t)
    (settings t).

(** One iteration over the listens of a server. *)
Definition add_listen (server : Server) (routes : ServerRoutes) (r : CompiledRouter) (listen : Listen)
  : result string CompiledRouter :=
  let key := ListenKey_from listen in
  r ← merge_listener_protocols r key listen;
  let listener := default VirtualHostRoutes_default (r_listeners r !! key) in
  let r := set_listeners r (<[key := add_vhost listener server listen routes]> (r_listeners r)) in
  if l_ssl listen then
    r ← merge_listener_tls_settings r key (tls_options server);
    let t := default (mkListenerTlsConfig ∅ None (ListenerTlsSettings_from (tls_options server)))
               (r_listener_tls r !! key) in
    let t := match tls server with
             | Some provider => add_identity t server listen (tls_identity r server provider)
             | None => t
             end in
    Ok (set_tls r (<[key := t]> (r_listener_tls r)))
  else Ok r.

Definition check_server_name (name : string) : result string unit :=
  if contains_char "*" name then
    suffix ← ok_or (strip_prefix "*." name) "only leading *. hostnames are supported";
    validate_hostname (trim_end_matches "." suffix)
  else Ok tt.

(** The check on the SCP targets of a server's locations. *)
Definition check_scp_location (r : CompiledRouter) (server : Server) (location : CompiledLocation) : result string unit :=
  match target location with
  | RtScp profile =>
      _ ← fail_if (is_none (r_scp_profiles r !! profile)) ("scp_pass references unknown profile `" +:+ profile +:+ "`");
      fail_if (existsb (fun listen => if l_ssl listen then negb (l_http2 listen) else negb (ro_h2c (r_http_options r)))
                 (listens server)) "scp_pass requires an HTTP/2 listener"
  | _ => Ok tt
  end.

Definition for_each {A} (f : A -> result string unit) (l : list A) : result string unit :=
  try_fold (fun _ x => f x) tt l.

Definition add_server (s : CompiledRouter * N) (server : Server) : result string (CompiledRouter * N) :=
  let '(r, next_route_id) := s in
  _ ← fail_if (match tls server with Some LetsEncrypt => negb (length (server_names server) =? 1)%nat | _ => false end)
        "ssl listener with LetsEncrypt currently supports exactly one server_name; split aliases into separate server blocks or use a manual certificate";
  _ ← for_each check_server_name (server_names server);
  '(compiled, next) ← compile_locations (locations server) (r_upstreams r) next_route_id;
  _ ← for_each (check_scp_location r server) compiled;
  r ← try_fold (add_listen server (mkServerRoutes compiled)) r (listens server);
  Ok (r, next).

Definition add_scp_profile (r : CompiledRouter) (profile : ScpProfile) : result string CompiledRouter :=
  _ ← validate_profile profile (r_upstreams r);
  _ ← fail_if (is_some (r_scp_profiles r !! scp_name profile))
        ("duplicate scp profile `" +:+ scp_name profile +:+ "`");
  Ok (set_scp_profiles r (<[scp_name profile := profile]> (r_scp_profiles r))).

(** HTTP/2 listeners cannot enforce a body timeout. *)
Definition accepts_h2 (http : Http) (server : Server) : bool :=
  existsb (fun l => (l_ssl l && (l_http2 l || l_http2_only l)) || (negb (l_ssl l) && switch_on (h2c http)))
    (listens server).
Definition has_body_timeout (l : Location) : bool :=
  existsb (fun d => match d with ClientBodyTimeout v => negb (is_zero v) | _ => false end) (loc_directives l).
Definition check_h2_body_timeout (http : Http) (server : Server) : result string unit :=
  fail_if (accepts_h2 http server
           && (nonzero (client_body_timeout http) || existsb has_body_timeout (locations server)))
    "client_body_timeout is not supported on HTTP/2 listeners by Pingora 0.9; disable HTTP/2 or omit the body timeout".

Definition http_options_of (http : Http) : HttpRuntimeOptions :=
  mkHttpRuntimeOptions (real_ip http) (client_header_timeout http) (client_body_timeout http) (send_timeout http)
    (downstream_keepalive_timeout_secs (keepalive_timeout http)) (keepalive_requests http)
    (client_max_body_size http) (proxy_cache_max_size http) (switch_on (tcp_nodelay http))
    (switch_on (allow_connect_method_proxying http)) (switch_on (h2c http)) (http2 http).

Definition validate_opt {A} (f : A -> result string unit) (o : option A) : result string unit :=
  match o with Some a => f a | None => Ok tt end.

Definition from_http (http : Http) : result string CompiledRouter :=
  _ ← fail_if (negb (switch_on (tcp_nodelay http)))
        "tcp_nodelay off is not supported: Pingora enables TCP_NODELAY on accepted downstream sockets";
  _ ← Http2Options_validate (http2 http);
  _ ← validate_opt RealIpConfig_validate (real_ip http);
  _ ← for_each validate_client_timeout [client_header_timeout http; client_body_timeout http; send_timeout http];
  _ ← validate_opt GeoIpConfig_validate (geoip http);
  upstreams ← compile_upstreams (upstreams http);
  let r := mkCompiledRouter (geoip http) ∅ upstreams ∅ ∅ ∅ (http_options_of http) (ssl_provider http) in
  r ← try_fold add_scp_profile r (scp_profiles http);
  '(r, _) ← try_fold add_server (r, 1) (servers http);
  _ ← for_each (check_h2_body_timeout http) (servers http);
  _ ← fail_if (switch_on (h2c http) && nonzero (client_header_timeout http))
        "client_header_timeout requires h2c off; Pingora performs plaintext protocol detection before the header deadline";
  Ok r.

(** ** Well-formed routers *)

(** What the runtime relies on in a compiled router. *)
Record router_wf (r : CompiledRouter) : Prop := mkRouterWf {
  rw_locations : forall l, router_location r l -> location_ok (r_upstreams r) l;
  rw_ids : forall l l', router_location r l -> router_location r l' -> route_id l = route_id l' -> l = l';
  rw_scp : forall l profile, router_location r l -> target l = RtScp profile -> is_Some (r_scp_profiles r !! profile);
  rw_protocols : forall key, is_Some (r_listeners r !! key) -> is_Some (r_listener_protocols r !! key);
  rw_tls : forall key, is_Some (r_listeners r !! key) -> ssl key = true -> is_Some (r_listener_tls r !! key)
}.

Lemma for_each_Ok {A} (f : A -> result string unit) l :
  for_each f l = Ok tt -> Forall (fun x => f x = Ok tt) l.
Proof.
  unfold for_each. induction l as [|x l IH]; cbn [try_fold]; intros Hf; [constructor|].
  apply bind_Ok_inv in Hf as ([] & Hx & Hf). constructor; auto.
Qed.

(** What adding a server's listens changes. *)
Record extends (routes : ServerRoutes) (r r' : CompiledRouter) : Prop := mkExtends {
  ex_upstreams : r_upstreams r' = r_upstreams r;
  ex_scp : r_scp_profiles r' = r_scp_profiles r;
  ex_options : r_http_options r' = r_http_options r;
  ex_locations : forall l, router_location r' l -> router_location r l \/ l ∈ sr_locations routes;
  ex_protocols : (forall key, is_Some (r_listeners r !! key) -> is_Some (r_listener_protocols r !! key)) ->
    forall key, is_Some (r_listeners r' !! key) -> is_Some (r_listener_protocols r' !! key);
  ex_tls : (forall key, is_Some (r_listeners r !! key) -> ssl key = true -> is_Some (r_listener_tls r !! key)) ->
    forall key, is_Some (r_listeners r' !! key) -> ssl key = true -> is_Some (r_listener_tls r' !! key)
}.

Lemma add_vhost_routes listener server listen routes rt :
  vhost_of (add_vhost listener server listen routes) rt -> vhost_of listener rt \/ rt = routes.
Proof.
  unfold vhost_of, add_vhost. simpl. intros [Hd|[name Hn]].
  - case_match; [|naive_solver]. simplify_eq. auto.
  - assert (named listener !! name = Some rt \/ rt = routes) as [Hx | Hx]; [|naive_solver|auto].
    revert Hn. generalize (named listener). induction (server_names server) as [|n ns IH]; simpl; intros m Hn; [auto|].
    apply IH in Hn as [Hn|]; [|auto]. apply lookup_insert_Some in Hn. naive_solver.
Qed.

Lemma merge_listener_protocols_ok r key listen r' :
  merge_listener_protocols r key listen = Ok r' ->
  exists p, r' = set_protocols r p /\ is_Some (p !! key) /\ r_listener_protocols r ⊆ p.
Proof.
  unfold merge_listener_protocols. destruct (r_listener_protocols r !! key) as [c|] eqn:E; intros Hm; inv_ok.
  - exists (r_listener_protocols r'). split; [by destruct r'|]. eauto.
  - eexists. split; [done|]. rewrite lookup_insert_eq. split; [eauto|]. by apply insert_subseteq.
Qed.

Lemma merge_listener_tls_settings_ok r key o r' :
  merge_listener_tls_settings r key o = Ok r' ->
  exists t, r' = set_tls r t /\ r_listener_tls r ⊆ t.
Proof.
  unfold merge_listener_tls_settings. destruct (r_listener_tls r !! key) as [c|] eqn:E; intros Hm; inv_ok.
  - exists (r_listener_tls r'). split; [by destruct r'|done].
  - eexists. split; [done|]. by apply insert_subseteq.
Qed.

Lemma router_location_insert r key v l :
  router_location (set_listeners r (<[key := v]> (r_listeners r))) l ->
  router_location r l \/ exists rt, vhost_of v rt /\ l ∈ sr_locations rt.
Proof.
  intros (k & vh & rt & Hk & Hv & Hl). simpl in Hk.
  apply lookup_insert_Some in Hk as [[<- <-]|[_ Hk]]; [right; eauto|left; exists k, vh, rt; auto].
Qed.

(** The listener part of [add_listen]. *)
Lemma add_listen_routes server listen routes r key p :
  is_Some (p !! key) -> r_listener_protocols r ⊆ p ->
  let listener := default VirtualHostRoutes_default (r_listeners r !! key) in
  let r' := set_listeners (set_protocols r p) (<[key := add_vhost listener server listen routes]> (r_listeners r)) in
  (forall l, router_location r' l -> router_location r l \/ l ∈ sr_locations routes) /\
  ((forall key, is_Some (r_listeners r !! key) -> is_Some (r_listener_protocols r !! key)) ->
   forall k, is_Some (r_listeners r' !! k) -> is_Some (r_listener_protocols r' !! k)).
Proof.
  intros Hp Hsub listener r'. split.
  - intros l Hl. apply (router_location_insert (set_protocols r p)) in Hl as [Hl|(rt & Hv & Hl)]; [by left|].
    apply add_vhost_routes in Hv as [Hv| ->]; [|by right]. left.
    unfold listener in Hv. destruct (r_listeners r !! key) as [v|] eqn:E; simpl in Hv; [exists key, v, rt; auto|].
    destruct Hv as [Hv|[n Hv]]; simpl in Hv; [done|by rewrite lookup_empty in Hv].
  - intros Hpr k. simpl. rewrite lookup_insert_is_Some'. intros [<-|Hk]; [done|].
    destruct (Hpr _ Hk) as [c Hc]. exists c. by eapply lookup_weaken.
Qed.

Lemma add_listen_extends server routes r listen r' :
  add_listen server routes r listen = Ok r' -> extends routes r r'.
Proof.
  unfold add_listen. intros Ha. apply bind_Ok_inv in Ha as (r1 & Hm & Ha).
  apply merge_listener_protocols_ok in Hm as (p & -> & Hp & Hsub).
  destruct (add_listen_routes server listen routes r (ListenKey_from listen) p Hp Hsub) as [Hloc Hpr].
  cbn zeta in Ha, Hloc, Hpr. destruct (l_ssl listen) eqn:Essl.
  - apply bind_Ok_inv in Ha as (r2 & Ht & Ha). apply merge_listener_tls_settings_ok in Ht as (t & -> & Hts).
    inv_ok. constructor; try done. intros Htls k. simpl. rewrite !lookup_insert_is_Some'. intros [<-|Hk] Hssl; [by left|].
    right. destruct (Htls _ Hk Hssl) as [c Hc]. exists c. by eapply lookup_weaken.
  - inv_ok. constructor; try done. intros Htls k. simpl. rewrite lookup_insert_is_Some'. intros [<-|Hk]; [|auto].
    simpl. congruence.
Qed.

Lemma add_listens_extends server routes ls r r' :
  try_fold (add_listen server routes) r ls = Ok r' -> extends routes r r'.
Proof.
  revert r. induction ls as [|l ls IH]; cbn [try_fold]; intros r Hf.
  - inv_ok. constructor; auto.
  - apply bind_Ok_inv in Hf as (r1 & H1 & Hf). apply add_listen_extends in H1. apply IH in Hf.
    destruct H1, Hf. constructor; [congruence..|naive_solver|auto|auto].
Qed.

(** The invariant of the loop over the servers: the router built so far is
    well-formed and its route ids are below the next one. *)
Definition building (s : CompiledRouter * N) : Prop :=
  router_wf (fst s) /\ upstreams_keyed (r_upstreams (fst s)) /\
  forall l, router_location (fst s) l -> route_id l < snd s.

Lemma ids_nodup next (new : list CompiledLocation) :
  route_id <$> new = (fun i => next + N.of_nat i) <$> seq 0 (length new) ->
  (forall l l', l ∈ new -> l' ∈ new -> route_id l = route_id l' -> l = l') /\
  (forall l, l ∈ new -> next <= route_id l < next + N.of_nat (length new)).
Proof.
  intros Hids.
  assert (forall i l, new !! i = Some l -> route_id l = next + N.of_nat i /\ (i < length new)%nat) as Hi.
  { intros i l Hl. pose proof (lookup_lt_Some _ _ _ Hl) as Hlt.
    assert ((route_id <$> new) !! i = Some (route_id l)) as Hr by (by rewrite list_lookup_fmap, Hl).
    rewrite Hids, list_lookup_fmap, lookup_seq_lt in Hr by done. simpl in Hr. by simplify_eq. }
  split.
  - intros l l' Hl Hl' Heq. apply list_elem_of_lookup in Hl as [i Hl], Hl' as [j Hl'].
    pose proof (Hi _ _ Hl) as [Hr _]. pose proof (Hi _ _ Hl') as [Hr' _].
    assert (i = j) as -> by lia. congruence.
  - intros l Hl. apply list_elem_of_lookup in Hl as [i Hl]. apply Hi in Hl as [-> Hlt]. lia.
Qed.

Lemma add_server_building s server s' : building s -> add_server s server = Ok s' -> building s'.
Proof.
  destruct s as [r next]. unfold add_server. intros ([Hloc Hids Hscp Hpr Htls] & Hk & Hlt) Ha.
  apply bind_Ok_inv in Ha as (u1 & _ & Ha). apply bind_Ok_inv in Ha as (u2 & _ & Ha).
  apply bind_Ok_inv in Ha as ([compiled next'] & Hc & Ha). apply bind_Ok_inv in Ha as ([] & Hchk & Ha).
  apply bind_Ok_inv in Ha as (r' & Hl & Ha). inv_ok.
  unfold compile_locations in Hc. apply bind_Ok_inv in Hc as (u3 & _ & Hc).
  apply (compile_locations_loop _ _ _ _ Hk) in Hc as (new & H1 & H2 & H3 & H4). simpl in *. subst compiled next'.
  apply add_listens_extends in Hl as [Hu Hs _ Hex Hp Ht]. apply for_each_Ok in Hchk.
  destruct (ids_nodup next new H3) as [Huniq Hrange].
  assert (forall l, router_location r' l -> (router_location r l /\ route_id l < next) \/
    (l ∈ new /\ next <= route_id l < next + N.of_nat (length new))) as Hcase.
  { intros l Hl. apply Hex in Hl as [Hl|Hl]; [left|right]; auto. }
  split; [|split; [simpl; by rewrite Hu|]].
  - constructor; simpl.
    + intros l Hl. rewrite Hu. apply Hcase in Hl as [[Hl _]|[Hl _]]; [auto|]. by eapply Forall_forall in H2.
    + intros l l' Hl Hl' Heq. apply Hcase in Hl as [[Hl Hlt1]|[Hl Hlt1]], Hl' as [[Hl' Hlt2]|[Hl' Hlt2]];
        [by apply Hids|lia|lia|by apply Huniq].
    + intros l profile Hl Htg. rewrite Hs. apply Hcase in Hl as [[Hl _]|[Hl _]]; [eauto|].
      eapply Forall_forall in Hchk; [|exact Hl]. unfold check_scp_location in Hchk. rewrite Htg in Hchk. inv_ok.
      destruct (r_scp_profiles r !! profile); [eauto|done].
    + auto.
    + auto.
  - simpl. intros l Hl. apply Hcase in Hl as [[Hl Hx]|[Hl Hx]]; lia.
Qed.

Lemma add_scp_profiles_ok l r r' :
  try_fold add_scp_profile r l = Ok r' ->
  exists p, r' = set_scp_profiles r p.
Proof.
  revert r. induction l as [|x l IH]; cbn [try_fold]; intros r Hf.
  - inv_ok. exists (r_scp_profiles r'). by destruct r'.
  - apply bind_Ok_inv in Hf as (r1 & H1 & Hf). unfold add_scp_profile in H1. inv_ok.
    apply IH in Hf as [p ->]. by exists p.
Qed.

Lemma from_http_building http r :
  upstreams_keyed (default ∅ (ok (compile_upstreams (upstreams http)))) ->
  from_http http = Ok r ->
  router_wf r /\ compile_upstreams (upstreams http) = Ok (r_upstreams r).
Proof.
  intros Hk Hf. unfold from_http in Hf. do 5 (apply bind_Ok_inv in Hf as (? & _ & Hf)).
  apply bind_Ok_inv in Hf as (us & Hus & Hf). apply bind_Ok_inv in Hf as (r1 & Hscp & Hf).
  apply bind_Ok_inv in Hf as ([r2 n2] & Hsrv & Hf). do 2 (apply bind_Ok_inv in Hf as (? & _ & Hf)).
  injection Hf as ->. apply add_scp_profiles_ok in Hscp as [p ->]. rewrite Hus in Hk. simpl in Hk.
  assert (building (r, n2) /\ r_upstreams r = us) as [[Hb _] Hu]; [|split; [done|by rewrite Hu]].
  eapply (try_fold_inv (fun s => building s /\ r_upstreams (fst s) = us) _ _ _ _ _ _ Hsrv). Unshelve.
  - intros s server s' _ [Hb Hs] Hadd. split; [by eapply add_server_building|].
    destruct s as [rs ns]. unfold add_server in Hadd. do 2 (apply bind_Ok_inv in Hadd as (? & _ & Hadd)).
    apply bind_Ok_inv in Hadd as ([c n] & _ & Hadd). apply bind_Ok_inv in Hadd as (? & _ & Hadd).
    apply bind_Ok_inv in Hadd as (r3 & Hl & Hadd). inv_ok.
    apply add_listens_extends in Hl. simpl in *. rewrite (ex_upstreams _ _ _ Hl). done.
  - split; [|done].
    assert (forall l, ~ router_location (set_scp_profiles
      (mkCompiledRouter (geoip http) ∅ us ∅ ∅ ∅ (http_options_of http) (ssl_provider http)) p) l) as Hno.
    { intros l (k & v & rt & Hx & _). simpl in Hx. by rewrite lookup_empty in Hx. }
    split; [|split; [exact Hk|intros l Hl; by destruct (Hno l)]].
    constructor; simpl; try (intros l; intros; by destruct (Hno l));
      intros k [v Hv]; by rewrite lookup_empty in Hv.
Qed.

Lemma from_http_router_wf http r : from_http http = Ok r -> router_wf r.
Proof.
  intros Hf. apply (from_http_building http r); [|done].
  destruct (compile_upstreams (upstreams http)) as [m|] eqn:E; simpl; [|apply map_Forall_empty].
  by eapply compile_upstreams_keyed.
Qed.

(** C16: every router that configuration compiles to is well-formed: each route's
    upstream groups exist under the names the runtime looks them up by, a route id
    identifies one location, client certificates come with their keys, return
    templates expand for every request, SCP routes name a known profile, and every
    listener (every TLS listener) has its protocol (its TLS) settings. *)
Theorem from_http_wf http r : from_http http = Ok r -> router_wf r.
Proof. apply from_http_router_wf. Qed.
End compile_router.

(** A TLS listener with a default server. *)
Module RouterSample.
Definition location (prefix : string) : @Location Toy.crates :=
  mkLocation (LmPrefix prefix) [] [ProxyPass (PpUpstreamGroup "WEB" false)] [] None.
Definition server (names : list string) : @Server Toy.crates :=
  mkServer names [location "/"] [mkListen (ipv4 0 0 0 0) 443 true false true false]
    (Some (Custom TlsIdentity_default)) DownstreamTlsOptions_default.
Definition http : @Http Toy.crates :=
  mkHttp None None None None [] [UpstreamSample.block] [server []] KeepaliveTimeout_default None None None
    On Off Off Http2Options_default None None.
Definition router : @CompiledRouter Toy.crates :=
  match from_http http with Ok r => r | Err _ => mkCompiledRouter None ∅ ∅ ∅ ∅ ∅ (http_options_of http) None end.
End RouterSample.

Lemma from_http_wf_witness : router_wf RouterSample.router.
Proof. apply (@from_http_wf Toy.crates RouterSample.http). reflexivity. Defined.
