(* ===== verification/Control.v ===== *)
(** * The runtime state machine (crates/ngxora-runtime/src/control.rs)

    A snapshot is applied under a lock: rejected when it would change what cannot
    be changed live, built in full before it is committed, and only then published
    with the next generation.  Also modelled here: the plugin registry's
    [build_chain] (crates/ngxora-plugin-registry/src/lib.rs), the TLS validation of a
    snapshot (server.rs) and the collection of trust material (runtime/tls.rs).

    What reads files, opens connections or belongs to the load balancer is in
    [RuntimeDeps]. *)

From S2P Require Import Prelude RustStr NetAddr Crates PluginApi Ir Types HttpRoutes Scp CompileUpstreams CompileRoutes CompileRouter.

Open Scope N_scope.

(** A (certificate, key) pair. *)
Record ClientIdentityKey := mkClientIdentityKey { ci_cert : PemSource; ci_key : PemSource }.
#[global] Instance ClientIdentityKey_eq_dec : EqDecision ClientIdentityKey.
Proof. solve_decision. Defined.
#[global] Instance ClientIdentityKey_countable : Countable ClientIdentityKey.
Proof.
  refine (inj_countable' (fun k => (ci_cert k, ci_key k)) (fun '(c, k) => mkClientIdentityKey c k) _). by intros [].
Defined.

Class RuntimeDeps `{Crates} := {
  (** a built plugin, and the factories of the registry by name *)
  Plugin : Type;
  factories : gmap string (PluginSpec -> result PluginBuildError Plugin);
  (** trust anchors and client identities, read with OpenSSL *)
  TrustedCa : Type;
  load_runtime_trusted_ca : PemSource -> result string TrustedCa;
  ClientIdentity : Type;
  load_runtime_client_identity : PemSource -> PemSource -> result string ClientIdentity;
  (** reading and checking a listener's certificate and key *)
  validate_tls_identity : TlsIdentity -> result string unit;
  (** the load balancer of a policy, its servers and health check *)
  Selector : Type;
  build_runtime_selector : UpstreamSelectionPolicy -> list CompiledUpstreamServer -> option CompiledHealthCheck ->
    result string Selector;
  (** the NRF client and health registry of a discovering group *)
  NrfRuntime : Type;
  build_nrf_runtime : CompiledNrfDiscovery -> CompiledHealthCheck -> result string NrfRuntime
}.

Section control.
Context `{RuntimeDeps} `{HashIter}.

(** ** Upstream groups *)

(** A running group.  The generation it was built for identifies the allocation
    behind the [Arc]: a group kept across snapshots keeps it. *)
Record RuntimeUpstreamGroup := mkRuntimeUpstreamGroup {
  rg_built_for : N;
  rg_selector : Selector;
  rg_policy : UpstreamSelectionPolicy;
  rg_hash_key : option UpstreamHashKey;
  rg_health_check : option CompiledHealthCheck;
  rg_nrf_discovery : option NrfRuntime
}.

(** [RuntimeUpstreamGroup::from_compiled]. *)
Definition from_compiled (generation : N) (group : CompiledUpstreamGroup) : result string RuntimeUpstreamGroup :=
  _ ← fail_if (is_nil (g_servers group) && is_none (g_nrf_discovery group) && negb (g_allow_empty group))
        ("upstream `" +:+ g_name group +:+ "` must define at least one server or nrf_discovery");
  selector ← build_runtime_selector (g_policy group) (g_servers group) (g_health_check group);
  nrf ← match g_nrf_discovery group, g_health_check group with
        | Some config, Some health_check => Some <$> build_nrf_runtime config health_check
        | None, _ => Ok None
        | _, _ => Err ("upstream `" +:+ g_name group +:+ "` has incomplete nrf_discovery runtime state")
        end;
  Ok (mkRuntimeUpstreamGroup generation selector (g_policy group) (g_hash_key group) (g_health_check group) nrf).

(** ** SCP profiles *)

(** The part of [RuntimeScp] that a snapshot fixes. *)
Record RuntimeScp := mkRuntimeScp {
  rs_built_for : N;
  rs_root : ApiRoot;
  rs_config : ScpProfile;
  rs_templates : list CompiledUpstreamGroup;
  rs_allowed : list ApiRoot
}.

Definition RuntimeScp_matches (s : RuntimeScp) (config : ScpProfile) (upstreams : gmap string CompiledUpstreamGroup) : bool :=
  bool_decide (rs_config s = config)
  && forallb (fun g => bool_decide (upstreams !! g_name g = Some g)) (rs_templates s).

Definition RuntimeScp_new (generation : N) (config : ScpProfile) (upstreams : gmap string CompiledUpstreamGroup)
  : result string RuntimeScp :=
  _ ← validate_profile config upstreams;
  root ← ApiRoot_parse (scp_api_root config);
  allowed ← mapM ApiRoot_parse (allowed_target_api_roots config);
  (* [upstreams[n]] panics on an unknown name; validation has checked them all *)
  Ok (mkRuntimeScp generation root config (omap (fun n => upstreams !! n) (discovery_upstreams config)) allowed).

(** ** Snapshots *)

Record ConfigSnapshot := mkConfigSnapshot { cs_version : string; cs_router : CompiledRouter }.

Record RuntimeSnapshot := mkRuntimeSnapshot {
  sn_backend_counters : gmap N N;
  sn_scp_profiles : gmap string RuntimeScp;
  sn_generation : N;
  sn_version : string;
  sn_router : CompiledRouter;
  sn_plugin_chains : gmap N (list Plugin);
  sn_upstream_groups : gmap string RuntimeUpstreamGroup;
  sn_trusted_cas : gmap PemSource TrustedCa;
  sn_client_identities : gmap ClientIdentityKey ClientIdentity
}.

Definition plugin_chain (s : RuntimeSnapshot) (id : N) : list Plugin := default [] (sn_plugin_chains s !! id).
Definition upstream_group (s : RuntimeSnapshot) (name : string) : option RuntimeUpstreamGroup :=
  sn_upstream_groups s !! to_ascii_lowercase (trim_end_matches "." name).
Definition trusted_ca (s : RuntimeSnapshot) (source : PemSource) : option TrustedCa := sn_trusted_cas s !! source.
Definition client_identity (s : RuntimeSnapshot) (cert key : PemSource) : option ClientIdentity :=
  sn_client_identities s !! mkClientIdentityKey cert key.

(** ** The restart fingerprint *)

Record ListenerRestartConfig := mkListenerRestartConfig {
  lr_protocol : ListenerProtocolConfig;
  lr_tls : option ListenerTlsSettings
}.
#[global] Instance ListenerRestartConfig_eq_dec : EqDecision ListenerRestartConfig.
Proof. solve_decision. Defined.

Record RestartConfigFingerprint := mkRestartConfigFingerprint {
  fp_geoip : option GeoIpConfig;
  fp_listeners : gmap ListenKey ListenerRestartConfig;
  fp_allow_connect_method_proxying : bool;
  fp_h2c : bool;
  fp_keepalive_requests : option N;
  fp_http2 : Http2Options
}.
#[global] Instance RestartConfigFingerprint_eq_dec : EqDecision RestartConfigFingerprint.
Proof. solve_decision. Defined.

Definition listener_fingerprint (router : CompiledRouter) (key : ListenKey) : ListenerRestartConfig :=
  mkListenerRestartConfig (default ListenerProtocolConfig_default (r_listener_protocols router !! key))
    (settings <$> r_listener_tls router !! key).
Definition restart_fingerprint (router : CompiledRouter) : RestartConfigFingerprint :=
  mkRestartConfigFingerprint (r_geoip router)
    (foldl (fun m key => <[key := listener_fingerprint router key]> m) ∅ (iter_keys (r_listeners router)))
    (ro_allow_connect_method_proxying (r_http_options router)) (ro_h2c (r_http_options router))
    (ro_keepalive_requests (r_http_options router)) (ro_http2 (r_http_options router)).

(** ** Building a snapshot *)

(** [PluginRegistry::build_chain]. *)
Definition build_plugin (spec : PluginSpec) : result PluginBuildError Plugin :=
  match factories !! plugin_name spec with
  | None => Err (mkPluginBuildError (plugin_name spec) "plugin is not compiled into this binary")
  | Some build => build spec
  end.
Definition build_chain (specs : list PluginSpec) : result PluginBuildError (list Plugin) := mapM build_plugin specs.

(** The server routes of a listener, in the order the collectors visit them. *)
Definition vhost_routes (routes : VirtualHostRoutes) : list ServerRoutes :=
  iter_values (named routes) ++ option_list (default_routes routes).

(** A walk over every location of a router that fills a map. *)
Section collect.
Context {M : Type} (f : M -> CompiledLocation -> result string M).
Definition collect_from_server (m : M) (routes : ServerRoutes) : result string M := try_fold f m (sr_locations routes).
Definition collect_from_vhosts (m : M) (routes : VirtualHostRoutes) : result string M :=
  try_fold collect_from_server m (vhost_routes routes).
Definition collect (m : M) (router : CompiledRouter) : result string M :=
  try_fold collect_from_vhosts m (iter_values (r_listeners router)).
End collect.

Definition plugin_chain_of (m : gmap N (list Plugin)) (l : CompiledLocation) : result string (gmap N (list Plugin)) :=
  match m !! route_id l with
  | Some _ => Ok m
  | None =>
      chain ← map_err (fun err => "failed to build plugin chain for route " +:+ pretty (route_id l) +:+ ": "
                                   +:+ show_build_error err) (build_chain (plugins l));
      Ok (<[route_id l := chain]> m)
  end.
Definition build_plugin_chains (router : CompiledRouter) : result string (gmap N (list Plugin)) :=
  collect plugin_chain_of ∅ router.

Definition trusted_ca_of (m : gmap PemSource TrustedCa) (l : CompiledLocation) : result string (gmap PemSource TrustedCa) :=
  match trusted_certificate (upstream_ssl_options l) with
  | None => Ok m
  | Some source =>
      match m !! source with
      | Some _ => Ok m
      | None => ca ← load_runtime_trusted_ca source; Ok (<[source := ca]> m)
      end
  end.
Definition build_runtime_trusted_cas (router : CompiledRouter) : result string (gmap PemSource TrustedCa) :=
  collect trusted_ca_of ∅ router.

Definition client_identity_of (m : gmap ClientIdentityKey ClientIdentity) (l : CompiledLocation)
  : result string (gmap ClientIdentityKey ClientIdentity) :=
  match client_certificate (upstream_ssl_options l), client_certificate_key (upstream_ssl_options l) with
  | Some cert, Some key =>
      let k := mkClientIdentityKey cert key in
      match m !! k with
      | Some _ => Ok m
      | None => id ← load_runtime_client_identity cert key; Ok (<[k := id]> m)
      end
  | _, _ => Ok m
  end.
Definition build_runtime_client_identities (router : CompiledRouter)
  : result string (gmap ClientIdentityKey ClientIdentity) := collect client_identity_of ∅ router.

(** [iter().map(..).collect::<Result<HashMap<..>, _>>()]. *)
Definition collect_map {K V W} `{Countable K} (f : K -> V -> result string W) (m : gmap K V) : result string (gmap K W) :=
  try_fold (fun acc '(k, v) => w ← f k v; Ok (<[k := w]> acc)) ∅ (iter m).

Definition runtime_group_of (router : CompiledRouter) (generation : N) (previous : option RuntimeSnapshot)
    (name : string) (group : CompiledUpstreamGroup) : result string RuntimeUpstreamGroup :=
  match (snapshot ← previous;
         if bool_decide (r_upstreams (sn_router snapshot) !! name = Some group)
         then sn_upstream_groups snapshot !! name else None) with
  | Some runtime_group => Ok runtime_group
  | None => from_compiled generation group
  end.
Definition build_runtime_upstream_groups (router : CompiledRouter) (generation : N) (previous : option RuntimeSnapshot)
  : result string (gmap string RuntimeUpstreamGroup) :=
  collect_map (runtime_group_of router generation previous) (r_upstreams router).

Definition runtime_scp_of (router : CompiledRouter) (generation : N) (previous : option RuntimeSnapshot)
    (name : string) (profile : ScpProfile) : result string RuntimeScp :=
  match (p ← previous; runtime ← sn_scp_profiles p !! name;
         if RuntimeScp_matches runtime profile (r_upstreams router) then Some runtime else None) with
  | Some runtime => Ok runtime
  | None => RuntimeScp_new generation profile (r_upstreams router)
  end.

Definition all_routes (router : CompiledRouter) : list ServerRoutes :=
  flat_map vhost_routes (iter_values (r_listeners router)).
Definition all_locations (router : CompiledRouter) : list CompiledLocation :=
  flat_map sr_locations (all_routes router).
Definition is_weighted (l : CompiledLocation) : bool :=
  match target l with RtWeightedBackends _ => true | _ => false end.
Definition build_backend_counters (router : CompiledRouter) : gmap N N :=
  foldl (fun m l => <[route_id l := 0]> m) ∅ (List.filter is_weighted (all_locations router)).

(** ** TLS validation of a snapshot *)

Definition is_le_identity (router : CompiledRouter) (t : ListenerTlsConfig) (identity : TlsIdentity) : bool :=
  match r_le_config router with
  | None => false
  | Some config =>
      let dir := default "/var/lib/ngxora/certs" (cache_dir config) in
      existsb (fun domain =>
        is_ok (validate_hostname domain)
        && bool_decide (cert identity = PemPath (path_join (path_join dir domain) "fullchain.pem"))
        && bool_decide (key identity = PemPath (path_join (path_join dir domain) "privkey.pem")))
        (iter_keys (tls_named t))
  end.

Definition validate_listener_tls (router : CompiledRouter) (key : ListenKey) : result string unit :=
  t ← ok_or (r_listener_tls router !! key)
        ("TLS listener " +:+ listen_key_addr key +:+ " has no certificate configuration");
  _ ← fail_if (is_none (tls_default t) && bool_decide (tls_named t = ∅))
        ("TLS listener " +:+ listen_key_addr key +:+ " has no certificate identities");
  for_each (fun identity => if is_le_identity router t identity then Ok tt else validate_tls_identity identity)
    (option_list (tls_default t) ++ iter_values (tls_named t)).
Definition validate_snapshot_tls (router : CompiledRouter) : result string unit :=
  for_each (validate_listener_tls router) (List.filter ssl (iter_keys (r_listeners router))).

(** [RuntimeState::build_runtime_snapshot]. *)
Definition build_runtime_snapshot (version : string) (router : CompiledRouter) (generation : N)
    (previous : option RuntimeSnapshot) : result string RuntimeSnapshot :=
  _ ← (if is_some previous then validate_snapshot_tls router else Ok tt);
  plugin_chains ← build_plugin_chains router;
  upstream_groups ← build_runtime_upstream_groups router generation previous;
  trusted_cas ← build_runtime_trusted_cas router;
  client_identities ← build_runtime_client_identities router;
  scp_profiles ← collect_map (runtime_scp_of router generation previous) (r_scp_profiles router);
  Ok (mkRuntimeSnapshot (build_backend_counters router) scp_profiles generation version router plugin_chains
        upstream_groups trusted_cas client_identities).

(** ** The state machine *)

Record ApplyResult := mkApplyResult {
  applied : bool;
  restart_required : bool;
  message : string;
  active_version : string;
  active_generation : N
}.

(** [st_geoip] is the handle of the shared [GeoIp] object, named by the configuration
    that the object was made from at the start; its contents, which change on their own,
    are the state of GeoIp.v.  [st_poisoned]: a thread panicked while it held
    [apply_lock].  The plugin registry is the parameter the chains are built with. *)
Record RuntimeState := mkRuntimeState {
  st_current : RuntimeSnapshot;
  st_geoip : option GeoIpConfig;
  st_bootstrap_config : RestartConfigFingerprint;
  st_poisoned : bool;
  st_tls_material_generation : N
}.

(** [RuntimeState::with_registry]; an error is the panic of [expect]. *)
Definition RuntimeState_new (snapshot : ConfigSnapshot) : result string RuntimeState :=
  let bootstrap_config := restart_fingerprint (cs_router snapshot) in
  initial ← build_runtime_snapshot (cs_version snapshot) (cs_router snapshot) 1 None;
  Ok (mkRuntimeState initial (r_geoip (cs_router snapshot)) bootstrap_config false 1).

Definition rejected (s : RuntimeState) (restart : bool) (message : string) : ApplyResult :=
  mkApplyResult false restart message (sn_version (st_current s)) (sn_generation (st_current s)).

Definition apply_snapshot (s : RuntimeState) (next : ConfigSnapshot) : RuntimeState * ApplyResult :=
  if st_poisoned s then (s, rejected s false "snapshot apply lock is poisoned")
  else if negb (bool_decide (restart_fingerprint (cs_router next) = st_bootstrap_config s)) then
    (s, rejected s true "listener or bootstrap transport settings changed; restart required")
  else
    let current := st_current s in
    match build_runtime_snapshot (cs_version next) (cs_router next) (wrapping_add64 (sn_generation current) 1) (Some current) with
    | Err message => (s, rejected s false message)
    | Ok snapshot =>
        (mkRuntimeState snapshot (st_geoip s) (st_bootstrap_config s) (st_poisoned s) (st_tls_material_generation s),
         mkApplyResult true false "snapshot applied" (sn_version snapshot) (sn_generation snapshot))
    end.

Definition invalidate_tls_material (s : RuntimeState) : RuntimeState :=
  mkRuntimeState (st_current s) (st_geoip s) (st_bootstrap_config s) (st_poisoned s)
    (wrapping_add64 (st_tls_material_generation s) 1).

(** Anything that happens to the state: a snapshot is applied (of a router that the
    control plane's decoding [accepts]), TLS material is
    invalidated, a panic poisons the lock. *)
Inductive rt_step (accepts : CompiledRouter -> Prop) : RuntimeState -> RuntimeState -> Prop :=
| rt_apply s next : accepts (cs_router next) -> rt_step accepts s (fst (apply_snapshot s next))
| rt_invalidate s : rt_step accepts s (invalidate_tls_material s)
| rt_poison s : rt_step accepts s (mkRuntimeState (st_current s) (st_geoip s) (st_bootstrap_config s) true (st_tls_material_generation s)).

(** ** Lemmas *)

Lemma elem_of_all_locations router l : l ∈ all_locations router <-> router_location router l.
Proof.
  unfold all_locations, all_routes, router_location, vhost_of. rewrite list_elem_of_In, in_flat_map. split.
  - intros (routes & Hr & Hl). apply in_flat_map in Hr as (vh & Hv & Hr).
    apply list_elem_of_In, elem_of_iter_values in Hv as [k Hk]. exists k, vh, routes. split; [done|].
    split; [|by apply list_elem_of_In]. unfold vhost_routes in Hr. apply list_elem_of_In in Hr.
    apply elem_of_app in Hr as [Hr|Hr]; [right; by apply elem_of_iter_values|left].
    destruct (default_routes vh); set_solver.
  - intros (k & vh & routes & Hk & Hv & Hl). exists routes. split; [|by apply list_elem_of_In].
    apply in_flat_map. exists vh. split; [apply list_elem_of_In, elem_of_iter_values; eauto|].
    apply list_elem_of_In. unfold vhost_routes. apply elem_of_app.
    destruct Hv as [Hv|[n Hv]]; [right; rewrite Hv; set_solver|left; apply elem_of_iter_values; eauto].
Qed.

(** The nested walks visit the locations one after the other. *)
Lemma try_fold_flat_map {E S A B} (f : S -> B -> result E S) (g : A -> list B) l s :
  try_fold (fun s x => try_fold f s (g x)) s l = try_fold f s (flat_map g l).
Proof.
  revert s. induction l as [|x l IH]; intros s; simpl; [done|]. rewrite try_fold_app.
  destruct (try_fold f s (g x)); simpl; [apply IH|done].
Qed.

Lemma collect_flat {M} (f : M -> CompiledLocation -> result string M) m router :
  collect f m router = try_fold f m (all_locations router).
Proof.
  unfold collect, collect_from_vhosts, collect_from_server, all_locations, all_routes.
  by rewrite (try_fold_flat_map _ vhost_routes), (try_fold_flat_map f sr_locations).
Qed.

(** A walk that only adds to a map ends with what each location asks for. *)
Lemma collect_covers {K V} `{Countable K} (f : gmap K V -> CompiledLocation -> result string (gmap K V))
    (wants : CompiledLocation -> option K) m router m' :
  (forall m l m', f m l = Ok m' ->
     (forall k, is_Some (m !! k) -> is_Some (m' !! k)) /\ (forall k, wants l = Some k -> is_Some (m' !! k))) ->
  collect f m router = Ok m' ->
  forall l k, router_location router l -> wants l = Some k -> is_Some (m' !! k).
Proof.
  intros Hf. rewrite collect_flat. intros Hc l k Hl Hw. apply elem_of_all_locations in Hl. revert m Hc Hl.
  assert (forall ls m, try_fold f m ls = Ok m' -> forall k, is_Some (m !! k) -> is_Some (m' !! k)) as Hmono.
  { induction ls as [|x ls IH]; cbn [try_fold]; intros m Hc k' Hk; [by inv_ok|].
    apply bind_Ok_inv in Hc as (m1 & H1 & Hc). apply Hf in H1 as [H1 _]. eauto. }
  induction (all_locations router) as [|x ls IH]; cbn [try_fold]; intros m Hc Hl; [set_solver|].
  apply bind_Ok_inv in Hc as (m1 & H1 & Hc). apply Hf in H1 as [_ H1].
  apply elem_of_cons in Hl as [<-|Hl]; [|by eapply IH]. eapply Hmono; [exact Hc|eauto].
Qed.

Lemma insert_covers {K V} `{Countable K} (m : gmap K V) k v k' : is_Some (m !! k') -> is_Some (<[k := v]> m !! k').
Proof. rewrite lookup_insert_is_Some'. auto. Qed.

Lemma plugin_chains_cover router m l :
  build_plugin_chains router = Ok m -> router_location router l -> is_Some (m !! route_id l).
Proof.
  intros Hb Hl. eapply (collect_covers plugin_chain_of (fun l => Some (route_id l))); [|exact Hb|exact Hl|done].
  intros m1 x m2. unfold plugin_chain_of. destruct (m1 !! route_id x) eqn:E; intros Hx; inv_ok.
  - split; [done|]. intros k [= <-]. eauto.
  - split; [intros k; apply insert_covers|]. intros k [= <-]. rewrite lookup_insert_eq. eauto.
Qed.

(** A chain is built from the plugins of a location with its route id. *)
Lemma plugin_chains_built router m id chain :
  build_plugin_chains router = Ok m -> m !! id = Some chain ->
  exists l, router_location router l /\ route_id l = id /\ build_chain (plugins l) = Ok chain.
Proof.
  unfold build_plugin_chains. rewrite collect_flat. intros Hb Hm. setoid_rewrite <- elem_of_all_locations.
  assert (m !! id = (∅ : gmap N (list Plugin)) !! id \/
    exists l, l ∈ all_locations router /\ route_id l = id /\ build_chain (plugins l) = Ok chain) as [E|?]; [|by rewrite Hm in E|done].
  revert Hb. generalize (∅ : gmap N (list Plugin)). induction (all_locations router) as [|x ls IH]; cbn [try_fold]; intros m0 Hb.
  { inv_ok. by left. }
  apply bind_Ok_inv in Hb as (m1 & Hx & Hb). destruct (IH m1 Hb) as [E|(l & Hl & ?)]; [|right; exists l; set_solver].
  unfold plugin_chain_of in Hx. destruct (m0 !! route_id x) eqn:Ex; inv_ok; [by left|]. rewrite lookup_insert in E.
  case_decide as Hid; [|by left]. right. exists x. rewrite Hm in E. simplify_eq.
  by split_and!; [set_solver|..].
Qed.

Lemma trusted_cas_cover router m l source :
  build_runtime_trusted_cas router = Ok m -> router_location router l ->
  trusted_certificate (upstream_ssl_options l) = Some source -> is_Some (m !! source).
Proof.
  intros Hb Hl Hs. eapply (collect_covers trusted_ca_of (fun l => trusted_certificate (upstream_ssl_options l)));
    [|exact Hb|exact Hl|exact Hs].
  intros m1 x m2. unfold trusted_ca_of. destruct (trusted_certificate (upstream_ssl_options x)) as [src|]; [|intros Hx; inv_ok; by split].
  destruct (m1 !! src) eqn:E; intros Hx; inv_ok.
  - split; [done|]. intros k [= <-]. eauto.
  - split; [intros k; apply insert_covers|]. intros k [= <-]. rewrite lookup_insert_eq. eauto.
Qed.

Lemma client_identities_cover router m l c k :
  build_runtime_client_identities router = Ok m -> router_location router l ->
  client_certificate (upstream_ssl_options l) = Some c -> client_certificate_key (upstream_ssl_options l) = Some k ->
  is_Some (m !! mkClientIdentityKey c k).
Proof.
  intros Hb Hl Hc Hk.
  eapply (collect_covers client_identity_of (fun l =>
    match client_certificate (upstream_ssl_options l), client_certificate_key (upstream_ssl_options l) with
    | Some c, Some k => Some (mkClientIdentityKey c k) | _, _ => None end)); [|exact Hb|exact Hl|by rewrite Hc, Hk].
  intros m1 x m2. unfold client_identity_of.
  destruct (client_certificate (upstream_ssl_options x)) as [c'|],
    (client_certificate_key (upstream_ssl_options x)) as [k'|]; try (intros Hx; inv_ok; by split).
  destruct (m1 !! _) eqn:E; intros Hx; inv_ok.
  - split; [done|]. intros ? [= <-]. eauto.
  - split; [intros ?; apply insert_covers|]. intros ? [= <-]. rewrite lookup_insert_eq. eauto.
Qed.

Lemma backend_counters_cover router l :
  router_location router l -> is_weighted l = true -> build_backend_counters router !! route_id l = Some 0.
Proof.
  intros Hl Hw. apply elem_of_all_locations in Hl. unfold build_backend_counters.
  assert (l ∈ List.filter is_weighted (all_locations router)) as Hin.
  { apply list_elem_of_In, filter_In. split; [by apply list_elem_of_In|done]. }
  assert (forall ls (m : gmap N N), m !! route_id l = Some 0 ->
    foldl (fun m l => <[route_id l := 0]> m) m ls !! route_id l = Some 0) as Hmono.
  { induction ls as [|x ls IH]; simpl; intros m Hm; [done|]. apply IH.
    destruct (decide (route_id x = route_id l)) as [->|Hne]; [apply lookup_insert_eq|by rewrite lookup_insert_ne]. }
  revert Hin. generalize (∅ : gmap N N).
  induction (List.filter is_weighted (all_locations router)) as [|x ls IH]; simpl; intros m Hin; [set_solver|].
  apply elem_of_cons in Hin as [<-|Hin]; [|by apply IH]. apply Hmono, lookup_insert_eq.
Qed.

(** A fallible map over a [HashMap] keeps its keys, whatever the order. *)
Lemma collect_map_spec {K V W} `{Countable K} (f : K -> V -> result string W) (m : gmap K V) m' :
  collect_map f m = Ok m' ->
  forall k, match m !! k with
            | Some v => exists w, f k v = Ok w /\ m' !! k = Some w
            | None => m' !! k = None
            end.
Proof.
  unfold collect_map. intros Hc.
  assert (forall l acc, NoDup l.*1 -> try_fold (fun acc '(k, v) => w ← f k v; Ok (<[k := w]> acc)) acc l = Ok m' ->
    forall k, (forall v, (k, v) ∈ l -> exists w, f k v = Ok w /\ m' !! k = Some w) /\
              (k ∉ l.*1 -> m' !! k = acc !! k)) as Hl.
  { clear Hc. induction l as [|[k0 v0] l IH]; cbn [try_fold]; intros acc Hnd Hf k; [inv_ok; split; [set_solver|done]|].
    apply bind_Ok_inv in Hf as (acc1 & H1 & Hf). apply bind_Ok_inv in H1 as (w & Hw & H1). inv_ok.
    rewrite fmap_cons in Hnd. simpl in Hnd. apply NoDup_cons in Hnd as [Hni Hnd].
    destruct (IH _ Hnd Hf k) as [I1 I2]. rewrite fmap_cons. simpl. split.
    - intros v Hv. apply elem_of_cons in Hv as [[= -> ->]|Hv]; [|auto]. exists w. split; [done|].
      rewrite I2 by done. apply lookup_insert_eq.
    - intros Hk. rewrite I2 by set_solver. apply lookup_insert_ne. set_solver. }
  assert (NoDup (iter m).*1) as Hnd by (rewrite iter_perm; apply NoDup_fst_map_to_list).
  intros k. destruct (Hl _ _ Hnd Hc k) as [H1 H2]. destruct (m !! k) as [v|] eqn:E.
  - apply H1. by apply elem_of_iter.
  - rewrite H2, lookup_empty; [done|]. rewrite list_elem_of_fmap. intros ([k' v] & -> & Hin).
    apply elem_of_iter in Hin. simpl in E. congruence.
Qed.

(** A snapshot has everything that requests on its router look up. *)
Record snapshot_complete (s : RuntimeSnapshot) : Prop := mkComplete {
  sc_groups : forall name, is_Some (sn_upstream_groups s !! name) <-> is_Some (r_upstreams (sn_router s) !! name);
  sc_scp : forall name, is_Some (sn_scp_profiles s !! name) <-> is_Some (r_scp_profiles (sn_router s) !! name);
  sc_chains : forall l, router_location (sn_router s) l -> exists chain l', sn_plugin_chains s !! route_id l = Some chain /\
    router_location (sn_router s) l' /\ route_id l' = route_id l /\ build_chain (plugins l') = Ok chain;
  sc_cas : forall l source, router_location (sn_router s) l ->
    trusted_certificate (upstream_ssl_options l) = Some source -> is_Some (trusted_ca s source);
  sc_identities : forall l c k, router_location (sn_router s) l ->
    client_certificate (upstream_ssl_options l) = Some c -> client_certificate_key (upstream_ssl_options l) = Some k ->
    is_Some (client_identity s c k);
  sc_counters : forall l, router_location (sn_router s) l -> is_weighted l = true ->
    is_Some (sn_backend_counters s !! route_id l)
}.

Lemma collect_map_dom {K V W} `{Countable K} (f : K -> V -> result string W) (m : gmap K V) m' k :
  collect_map f m = Ok m' -> is_Some (m' !! k) <-> is_Some (m !! k).
Proof.
  intros Hc. pose proof (collect_map_spec f m m' Hc k) as Hk. destruct (m !! k) as [v|].
  - destruct Hk as (w & _ & ->). by split.
  - rewrite Hk. split; by intros [].
Qed.

Lemma build_runtime_snapshot_ok version router generation previous s :
  build_runtime_snapshot version router generation previous = Ok s ->
  sn_router s = router /\ sn_generation s = generation /\ sn_version s = version /\ snapshot_complete s /\
  collect_map (runtime_group_of router generation previous) (r_upstreams router) = Ok (sn_upstream_groups s).
Proof.
  unfold build_runtime_snapshot. intros Hb. inv_ok. simpl. split_and!; try done.
  constructor; simpl.
  - intros name. by eapply collect_map_dom.
  - intros name. by eapply collect_map_dom.
  - intros l Hl. edestruct plugin_chains_cover as [chain Hc]; [done..|].
    edestruct plugin_chains_built as (l' & ? & ? & ?); [done..|]. by exists chain, l'.
  - intros l source Hl. by eapply trusted_cas_cover.
  - intros l c k Hl. by eapply client_identities_cover.
  - intros l Hl Hw. rewrite backend_counters_cover by done. eauto.
Qed.

Lemma fingerprint_listeners router key :
  fp_listeners (restart_fingerprint router) !! key =
  if bool_decide (is_Some (r_listeners router !! key)) then Some (listener_fingerprint router key) else None.
Proof.
  simpl. set (f := fun (m : gmap ListenKey ListenerRestartConfig) k => <[k := listener_fingerprint router k]> m).
  assert (forall l m, foldl f m l !! key = if bool_decide (key ∈ l) then Some (listener_fingerprint router key) else m !! key) as Hf.
  { induction l as [|k l IH]; intros m; simpl; [done|]. rewrite IH. unfold f.
    repeat case_bool_decide; try set_solver.
    - assert (key = k) as -> by set_solver. apply lookup_insert_eq.
    - apply lookup_insert_ne. set_solver. }
  rewrite Hf, lookup_empty. repeat case_bool_decide; rewrite ?elem_of_iter_keys in *; done.
Qed.

(** The state invariant, for routers that satisfy [P]. *)
Definition rt_ok (P : CompiledRouter -> Prop) (s : RuntimeState) : Prop :=
  snapshot_complete (st_current s) /\ P (sn_router (st_current s)) /\
  restart_fingerprint (sn_router (st_current s)) = st_bootstrap_config s.

(** The three outcomes of [apply_snapshot]. *)
Lemma apply_snapshot_cases s next :
  (exists restart msg, apply_snapshot s next = (s, rejected s restart msg) /\
     (restart = true <-> st_poisoned s = false /\
        restart_fingerprint (cs_router next) <> st_bootstrap_config s)) \/
  (exists sn, st_poisoned s = false /\ restart_fingerprint (cs_router next) = st_bootstrap_config s /\
     build_runtime_snapshot (cs_version next) (cs_router next) (wrapping_add64 (sn_generation (st_current s)) 1)
       (Some (st_current s)) = Ok sn /\
     apply_snapshot s next =
       (mkRuntimeState sn (st_geoip s) (st_bootstrap_config s) (st_poisoned s) (st_tls_material_generation s),
        mkApplyResult true false "snapshot applied" (sn_version sn) (sn_generation sn))).
Proof.
  unfold apply_snapshot. destruct (st_poisoned s); [left; do 2 eexists; split; [done|naive_solver]|].
  case_bool_decide as Hfp; simpl; [|left; do 2 eexists; split; [done|naive_solver]].
  destruct (build_runtime_snapshot _ _ _ _) as [sn|e] eqn:E; [right; eauto 10|].
  left. do 2 eexists. split; [done|naive_solver].
Qed.

Lemma rt_step_ok P s s' : rt_step P s s' -> rt_ok P s -> rt_ok P s'.
Proof.
  intros [s0 next Hp|s0|s0] (Hc & HP & Hf); [|done|done].
  destruct (apply_snapshot_cases s0 next) as [(r & m & -> & _)|(sn & _ & Hfp & Hb & ->)]; [done|].
  apply build_runtime_snapshot_ok in Hb as (Hr & _ & _ & Hc' & _).
  split; [done|]. simpl. rewrite Hr. done.
Qed.

Lemma RuntimeState_new_ok (P : CompiledRouter -> Prop) init s :
  P (cs_router init) -> RuntimeState_new init = Ok s -> rt_ok P s.
Proof.
  intros HP Hn. unfold RuntimeState_new in Hn. apply bind_Ok_inv in Hn as (sn & Hb & Hn). inv_ok.
  apply build_runtime_snapshot_ok in Hb as (Hr & _ & _ & Hc & _). split; [done|]. simpl. by rewrite Hr.
Qed.

Lemma reachable_rt_ok P init s0 s :
  P (cs_router init) -> RuntimeState_new init = Ok s0 -> rtc (rt_step P) s0 s -> rt_ok P s.
Proof.
  intros HP Hn Hr. pose proof (RuntimeState_new_ok P _ _ HP Hn) as H0'. clear Hn.
  induction Hr; [done|]. eauto using rt_step_ok.
Qed.

Lemma target_resolved_mono {V W} (m : gmap string V) (m' : gmap string W) t :
  (forall name, is_Some (m !! name) -> is_Some (m' !! name)) -> target_resolved m t -> target_resolved m' t.
Proof.
  intros Hm. revert t. fix IH 1. intros [bs| | | | | |]; simpl; auto.
  induction bs as [|[w t] bs IHbs]; [done|]. intros [Ht Hbs]. split; [by apply IH|by apply IHbs].
Qed.

(** What a request routed to [l] looks up in its snapshot: the upstream groups of the
    target, the plugin chain, the trusted certificate, the client identity, the
    counter of the weighted backends and the SCP profile. *)
Record lookups_succeed (snapshot : RuntimeSnapshot) (l : CompiledLocation) : Prop := mkLookups {
  lk_groups : target_resolved (sn_upstream_groups snapshot) (target l);
  lk_plugins : exists chain, sn_plugin_chains snapshot !! route_id l = Some chain /\ build_chain (plugins l) = Ok chain;
  lk_trusted : forall source, trusted_certificate (upstream_ssl_options l) = Some source -> is_Some (trusted_ca snapshot source);
  lk_identity : forall c, client_certificate (upstream_ssl_options l) = Some c ->
    exists k, client_certificate_key (upstream_ssl_options l) = Some k /\ is_Some (client_identity snapshot c k);
  lk_counter : is_weighted l = true -> is_Some (sn_backend_counters snapshot !! route_id l);
  lk_scp : forall profile, target l = RtScp profile -> is_Some (sn_scp_profiles snapshot !! profile)
}.

Lemma rt_ok_lookups s l :
  rt_ok router_wf s -> router_location (sn_router (st_current s)) l -> lookups_succeed (st_current s) l.
Proof.
  intros ([Hg Hs Hch Hca Hci Hct] & Hwf & _) Hl.
  destruct Hwf as [Hloc Hids Hscp _ _]. destruct (Hloc l Hl) as [Ht Hm _ _].
  constructor; try (by eauto).
  - eapply target_resolved_mono; [|exact Ht]. intros name. apply Hg.
  - destruct (Hch l Hl) as (chain & l' & ? & Hl' & Hid & Hb). exists chain. split; [done|]. by rewrite (Hids _ _ Hl' Hl Hid) in Hb.
  - intros c Hc. rewrite Hc in Hm. destruct (client_certificate_key (upstream_ssl_options l)) as [k|] eqn:Ek; [|done]. eauto.
  - intros profile Hp. apply Hs. eauto.
Qed.

(** ** Theorems *)

(** C6: applying a snapshot is all or nothing: a rejected one leaves the state as it
    was and reports the active version and generation; an accepted one makes
    exactly the given router active under the next generation and keeps the GeoIP
    object; and a restart is asked for precisely when the restart fingerprint differs and
    the apply lock is not poisoned (a poisoned lock refuses every snapshot). *)
Theorem apply_snapshot_atomic s next :
  let '(s', r) := apply_snapshot s next in
  (applied r = false -> s' = s) /\
  active_version r = sn_version (st_current s') /\ active_generation r = sn_generation (st_current s') /\
  (applied r = true -> sn_router (st_current s') = cs_router next /\ sn_version (st_current s') = cs_version next /\
     sn_generation (st_current s') = wrapping_add64 (sn_generation (st_current s)) 1 /\
     st_bootstrap_config s' = st_bootstrap_config s /\ st_geoip s' = st_geoip s) /\
  (restart_required r = true <->
     st_poisoned s = false /\ restart_fingerprint (cs_router next) <> st_bootstrap_config s).
Proof.
  destruct (apply_snapshot_cases s next) as [(rs & m & -> & Hrs)|(sn & Hp & Hfp & Hb & ->)]; simpl.
  - by split_and!.
  - apply build_runtime_snapshot_ok in Hb as (Hr & Hg & Hv & _). split_and!; try done. split; [done|]. naive_solver.
Qed.

(** C1: at any time, whatever snapshots were applied or rejected and whatever
    panicked, every lookup a request makes for a location of the active router
    succeeds: its upstream groups, the plugin chain of its own plugin list, trusted
    certificate, client identity, backend counter and SCP profile have all been built; and the active
    router still has the restart fingerprint the process was started with. *)
Theorem runtime_lookups_succeed init s0 s l :
  router_wf (cs_router init) -> RuntimeState_new init = Ok s0 -> rtc (rt_step router_wf) s0 s ->
  router_location (sn_router (st_current s)) l ->
  lookups_succeed (st_current s) l /\
  restart_fingerprint (sn_router (st_current s)) = st_bootstrap_config s.
Proof.
  intros HP Hn Hr Hl. pose proof (reachable_rt_ok _ _ _ _ HP Hn Hr) as Hok.
  split; [by apply rt_ok_lookups|apply Hok].
Qed.

(** A live apply keeps running what did not change: a group whose compiled
    definition is the same keeps its running instance, with its health and
    discovery state, and any other group is built anew for the new generation. *)
Theorem apply_keeps_groups s next name :
  rt_ok (fun _ => True) s -> applied (snd (apply_snapshot s next)) = true ->
  let s' := fst (apply_snapshot s next) in
  match r_upstreams (cs_router next) !! name with
  | None => sn_upstream_groups (st_current s') !! name = None
  | Some group =>
      exists g, sn_upstream_groups (st_current s') !! name = Some g /\
      if bool_decide (r_upstreams (sn_router (st_current s)) !! name = Some group)
      then sn_upstream_groups (st_current s) !! name = Some g
      else rg_built_for g = sn_generation (st_current s')
  end.
Proof.
  intros ([Hg _ _ _ _ _] & _ & _). destruct (apply_snapshot_cases s next) as [(rs & m & -> & _)|(sn & _ & _ & Hb & ->)]; [done|].
  intros _. simpl. apply build_runtime_snapshot_ok in Hb as (_ & Hgen & _ & _ & Hc).
  pose proof (collect_map_spec _ _ _ Hc name) as Hn.
  destruct (r_upstreams (cs_router next) !! name) as [group|]; [|done].
  destruct Hn as (g & Hf & Hl). exists g. split; [done|]. unfold runtime_group_of in Hf. simpl in Hf.
  case_bool_decide as Hsame.
  - destruct (sn_upstream_groups (st_current s) !! name) as [g'|] eqn:E; [by inv_ok|].
    destruct (Hg name) as [_ Hg']. rewrite E, Hsame in Hg'. by destruct (Hg' ltac:(eauto)).
  - unfold from_compiled in Hf. repeat (apply bind_Ok_inv in Hf as (? & _ & Hf)). inv_ok. simpl. by rewrite Hgen.
Qed.

(** the restart fingerprint is exactly the configuration that cannot change
    live: two routers have the same one if and only if they agree on the GeoIP
    configuration, on the listening sockets with their protocol and TLS settings,
    and on the process-wide HTTP settings, whatever the iteration order. *)
Theorem restart_fingerprint_spec r r' :
  restart_fingerprint r = restart_fingerprint r' <->
  r_geoip r = r_geoip r' /\
  (forall key, is_Some (r_listeners r !! key) <-> is_Some (r_listeners r' !! key)) /\
  (forall key, is_Some (r_listeners r !! key) ->
     default ListenerProtocolConfig_default (r_listener_protocols r !! key) =
       default ListenerProtocolConfig_default (r_listener_protocols r' !! key) /\
     settings <$> r_listener_tls r !! key = settings <$> r_listener_tls r' !! key) /\
  ro_allow_connect_method_proxying (r_http_options r) = ro_allow_connect_method_proxying (r_http_options r') /\
  ro_h2c (r_http_options r) = ro_h2c (r_http_options r') /\
  ro_keepalive_requests (r_http_options r) = ro_keepalive_requests (r_http_options r') /\
  ro_http2 (r_http_options r) = ro_http2 (r_http_options r').
Proof.
  split.
  - intros Heq. assert (forall key, fp_listeners (restart_fingerprint r) !! key = fp_listeners (restart_fingerprint r') !! key)
      as Hl by (by rewrite Heq).
    injection Heq as Hgeo _ Hc Hh Hk Hp. split; [done|].
    assert (forall key, is_Some (r_listeners r !! key) <-> is_Some (r_listeners r' !! key)) as Hd.
    { intros key. specialize (Hl key). rewrite !fingerprint_listeners in Hl. repeat case_bool_decide; naive_solver. }
    split; [done|]. split; [|done]. intros key Hkey. specialize (Hl key). rewrite !fingerprint_listeners in Hl.
    rewrite (bool_decide_true _ Hkey), (bool_decide_true _ (proj1 (Hd key) Hkey)) in Hl. by injection Hl.
  - intros (Hgeo & Hd & Hs & Hc & Hh & Hk & Hp).
    assert (fp_listeners (restart_fingerprint r) = fp_listeners (restart_fingerprint r')) as Hl.
    { apply map_eq. intros key. rewrite !fingerprint_listeners. repeat case_bool_decide; try naive_solver.
      f_equal. unfold listener_fingerprint. by destruct (Hs key) as [-> ->]. }
    unfold restart_fingerprint in *. simpl in Hl. congruence.
Qed.
End control.

(** ** A concrete instance *)

(** Every build step succeeds; a plugin is its specification's name. *)
Module ToyDeps.
#[export] Instance deps : @RuntimeDeps Toy.crates := {|
  Plugin := string; factories := {[ "cors" := fun spec => Ok (plugin_name spec) ]};
  TrustedCa := PemSource; load_runtime_trusted_ca := fun s => Ok s;
  ClientIdentity := PemSource; load_runtime_client_identity := fun c _ => Ok c;
  validate_tls_identity := fun _ => Ok tt;
  Selector := unit; build_runtime_selector := fun _ _ _ => Ok tt;
  NrfRuntime := unit; build_nrf_runtime := fun _ _ => Ok tt
|}.
Definition init : @ConfigSnapshot Toy.crates := mkConfigSnapshot "v1" RouterSample.router.
Definition next : @ConfigSnapshot Toy.crates := mkConfigSnapshot "v2" RouterSample.router.
Definition state0 : result string RuntimeState := @RuntimeState_new _ deps iter_forward init.
Definition the_state : RuntimeState :=
  match state0 with
  | Ok s => s
  | Err _ => mkRuntimeState (mkRuntimeSnapshot ∅ ∅ 0 "" RouterSample.router ∅ ∅ ∅ ∅) None
               (@restart_fingerprint _ iter_forward RouterSample.router) true 0
  end.
Lemma state0_ok : state0 = Ok the_state.
Proof. reflexivity. Qed.
Lemma router_ok : router_wf RouterSample.router.
Proof. apply (@from_http_router_wf Toy.crates RouterSample.http). reflexivity. Qed.

Definition key : ListenKey := mkListenKey (ipv4 0 0 0 0) 443 true.
Definition vhosts : @VirtualHostRoutes Toy.crates :=
  default VirtualHostRoutes_default (r_listeners RouterSample.router !! key).
Definition routes : @ServerRoutes Toy.crates := default (mkServerRoutes []) (default_routes vhosts).
Definition location : @CompiledLocation Toy.crates :=
  mkCompiledLocation ClientLimits_default None 1 (CmPrefix "/") [] (RtUpstreamGroup "Web." false)
    UpstreamTimeouts_default None UpstreamHttp2Options_default UpstreamSslOptions_default [] None.
Definition state1 : RuntimeState := fst (@apply_snapshot _ deps iter_forward the_state next).
Lemma router1 : sn_router (st_current state1) = RouterSample.router.
Proof. reflexivity. Qed.
Lemma location_in : router_location RouterSample.router location.
Proof.
  exists key, vhosts, routes. split; [reflexivity|]. split; [left; reflexivity|].
  assert (sr_locations routes = [location]) as -> by reflexivity. set_solver.
Qed.
End ToyDeps.

Lemma runtime_lookups_succeed_witness :
  lookups_succeed (st_current ToyDeps.state1) ToyDeps.location.
Proof.
  refine (proj1 (@runtime_lookups_succeed _ ToyDeps.deps iter_forward ToyDeps.init ToyDeps.the_state ToyDeps.state1
    ToyDeps.location ToyDeps.router_ok ToyDeps.state0_ok _ _)).
  - apply rtc_once. exact (rt_apply _ ToyDeps.the_state ToyDeps.next ToyDeps.router_ok).
  - rewrite ToyDeps.router1. exact ToyDeps.location_in.
Defined.

Lemma apply_keeps_groups_witness :
  exists g, sn_upstream_groups (st_current ToyDeps.state1) !! "web" = Some g /\
    sn_upstream_groups (st_current ToyDeps.the_state) !! "web" = Some g.
Proof.
  refine (@apply_keeps_groups _ ToyDeps.deps iter_forward ToyDeps.the_state ToyDeps.next "web" _ _).
  - exact (RuntimeState_new_ok (fun _ => True) ToyDeps.init ToyDeps.the_state I ToyDeps.state0_ok).
  - reflexivity.
Defined.
