(* ===== verification/Cli.v ===== *)
(** * The command line, loading and reloading
    (crates/ngxora-cli/src/main.rs and reload.rs)

    [load_router] composes the whole front end: reading, parsing, include expansion,
    lowering, validation and compilation.  The process starts from its result and
    each SIGHUP loads again and applies the router as a snapshot. *)

From S2P Require Import Prelude RustStr NetAddr Crates Parser Include Ir Values LowerPlugins LowerUpstreams.
From S2P Require Import LowerLocations Lowering Types HttpRoutes Routing Scp CompileUpstreams CompileRoutes.
From S2P Require Import CompileRouter Control.

Open Scope N_scope.

(** ** Arguments *)

Record GrpcTlsFiles := mkGrpcTlsFiles { tf_certificate : string; tf_key : string; tf_client_ca : string }.

Record CliArgs := mkCliArgs {
  config_path : string;
  check_only : bool;
  upgrade : bool;
  upgrade_sock : option string;
  grpc_addr : option SocketAddr;
  grpc_uds : option string;
  grpc_tls : option GrpcTlsFiles;
  metrics_addr : option SocketAddr;
  otel_endpoint : option string;
  unsafe_admin_listen : bool
}.

(** The variables of [parse_cli_args]. *)
Record cli_draft := mkDraft {
  d_config_path : option string;
  d_check_only : bool;
  d_upgrade : bool;
  d_upgrade_sock : option string;
  d_grpc_addr : option SocketAddr;
  d_grpc_uds : option string;
  d_certificate : option string;
  d_key : option string;
  d_client_ca : option string;
  d_metrics_addr : option SocketAddr;
  d_otel_endpoint : option string;
  d_unsafe_admin_listen : bool
}.
Definition cli_draft_default : cli_draft :=
  mkDraft None false false None None None None None None None None false.

(** [IpAddr::is_loopback]. *)
Definition is_loopback (a : IpAddr) : bool :=
  match a with V4 b => b / 2 ^ 24 =? 127 | V6 b => b =? 1 end.

(** A flag whose value may be given once. *)
Definition once {A} (slot : option A) (value : A) (flag : string) : result string (option A) :=
  if is_some slot then Err (flag +:+ " specified more than once") else Ok (Some value).
Definition socket_flag (value flag : string) : result string SocketAddr :=
  ok_or (parse_socket_addr value) ("invalid " +:+ flag +:+ " `" +:+ value +:+ "`: invalid socket address syntax").

(** A flag that takes a value. *)
Definition value_flag (d : cli_draft) (flag value : string) : result string cli_draft :=
  let '(mkDraft path check up sock addr uds cert key ca metrics otel unsafe) := d in
  if String.eqb flag "--upgrade-sock" then
    _ ← fail_if (is_empty value) "--upgrade-sock requires a non-empty path";
    _ ← fail_if (negb (is_absolute value)) "--upgrade-sock requires an absolute filesystem path";
    sock ← once sock value flag; Ok (mkDraft path check up sock addr uds cert key ca metrics otel unsafe)
  else if String.eqb flag "--grpc-addr" then
    a ← socket_flag value flag; Ok (mkDraft path check up sock (Some a) uds cert key ca metrics otel unsafe)
  else if String.eqb flag "--grpc-uds" then
    Ok (mkDraft path check up sock addr (Some value) cert key ca metrics otel unsafe)
  else if String.eqb flag "--grpc-tls-cert" then
    cert ← once cert value flag; Ok (mkDraft path check up sock addr uds cert key ca metrics otel unsafe)
  else if String.eqb flag "--grpc-tls-key" then
    key ← once key value flag; Ok (mkDraft path check up sock addr uds cert key ca metrics otel unsafe)
  else if String.eqb flag "--grpc-client-ca" then
    ca ← once ca value flag; Ok (mkDraft path check up sock addr uds cert key ca metrics otel unsafe)
  else if String.eqb flag "--metrics-addr" then
    a ← socket_flag value flag; metrics ← once metrics a flag;
    Ok (mkDraft path check up sock addr uds cert key ca metrics otel unsafe)
  else
    otel ← once otel value flag; Ok (mkDraft path check up sock addr uds cert key ca metrics otel unsafe).

(** What a flag that takes a value says when there is none. *)
Definition missing_value (flag : string) : option string :=
  if String.eqb flag "--upgrade-sock" || String.eqb flag "--grpc-uds" then Some (flag +:+ " requires a filesystem path")
  else if String.eqb flag "--grpc-addr" || String.eqb flag "--metrics-addr" then Some (flag +:+ " requires a socket address")
  else if String.eqb flag "--grpc-tls-cert" || String.eqb flag "--grpc-tls-key" || String.eqb flag "--grpc-client-ca"
  then Some (flag +:+ " requires a PEM file path")
  else if String.eqb flag "--otel-endpoint" then Some (flag +:+ " requires a URL")
  else None.

(** The loop over the arguments; [None] is the end of the program after [--help] or
    [--licenses]. *)
Fixpoint read_args (d : cli_draft) (args : list string) : result string (option cli_draft) :=
  match args with
  | [] => Ok (Some d)
  | arg :: rest =>
      match missing_value arg with
      | Some missing =>
          match rest with
          | [] => Err missing
          | value :: rest' => d ← value_flag d arg value; read_args d rest'
          end
      | None =>
          let '(mkDraft path check up sock addr uds cert key ca metrics otel unsafe) := d in
          if String.eqb arg "--check" then
            read_args (mkDraft path true up sock addr uds cert key ca metrics otel unsafe) rest
          else if String.eqb arg "--upgrade" then
            read_args (mkDraft path check true sock addr uds cert key ca metrics otel unsafe) rest
          else if String.eqb arg "--unsafe-admin-listen" then
            read_args (mkDraft path check up sock addr uds cert key ca metrics otel true) rest
          else if String.eqb arg "-h" || String.eqb arg "--help" || String.eqb arg "--licenses" then Ok None
          else if starts_with "-" arg then Err ("unknown flag: " +:+ arg)
          else if is_some path then Err "expected exactly one config path"
          else read_args (mkDraft (Some arg) check up sock addr uds cert key ca metrics otel unsafe) rest
      end
  end.

Definition tls_files (d : cli_draft) : result string (option GrpcTlsFiles) :=
  match d_certificate d, d_key d, d_client_ca d with
  | None, None, None => Ok None
  | Some certificate, Some key, Some client_ca => Ok (Some (mkGrpcTlsFiles certificate key client_ca))
  | _, _, _ => Err "--grpc-addr requires --grpc-tls-cert, --grpc-tls-key, and --grpc-client-ca"
  end.

(** The checks after the loop, on Linux. *)
Definition check_args (d : cli_draft) : result string CliArgs :=
  path ← ok_or (d_config_path d) "missing config path";
  _ ← fail_if (d_upgrade d && is_none (d_upgrade_sock d)) "--upgrade requires --upgrade-sock";
  _ ← fail_if (is_some (d_grpc_addr d) && is_some (d_grpc_uds d)) "use either --grpc-addr or --grpc-uds, not both";
  _ ← fail_if (d_unsafe_admin_listen d && is_none (d_metrics_addr d)) "--unsafe-admin-listen requires --metrics-addr";
  tls ← tls_files d;
  _ ← fail_if (is_some (d_grpc_addr d) && is_none tls)
        "--grpc-addr requires --grpc-tls-cert, --grpc-tls-key, and --grpc-client-ca";
  _ ← fail_if (is_some (d_grpc_uds d) && is_some tls) "gRPC TLS file flags can only be used with --grpc-addr";
  _ ← fail_if (is_none (d_grpc_addr d) && is_some tls) "gRPC TLS file flags require --grpc-addr";
  _ ← fail_if (match d_metrics_addr d with Some a => negb (is_loopback (sa_ip a)) | None => false end
               && negb (d_unsafe_admin_listen d))
        "non-loopback --metrics-addr requires explicit --unsafe-admin-listen";
  Ok (mkCliArgs path (d_check_only d) (d_upgrade d) (d_upgrade_sock d) (d_grpc_addr d) (d_grpc_uds d) tls
        (d_metrics_addr d) (d_otel_endpoint d) (d_unsafe_admin_listen d)).

(** [args] starts with the program name. *)
Definition parse_cli_args (args : list string) : result string (option CliArgs) :=
  draft ← read_args cli_draft_default (tail args);
  match draft with
  | None => Ok None
  | Some d => c ← check_args d; Ok (Some c)
  end.

(** ** Loading a configuration file *)

(** A message, or the abort of the lowering. *)
Inductive LoadErr := LoadMessage (message : string) | LoadAbort (e : LowerErr).

(** [path.parent()] of an absolute path, with the default. *)
Definition parent_dir (path : string) : string :=
  match rsplit_once "/" (trim_end_matches "/" path) with
  | Some (d, _) => if is_empty d then "/" else d
  | None => "."
  end.

Section load.
Context `{Crates} `{FileSystem}.

Definition load_router (path : string) : result LoadErr CompiledRouter :=
  text ← map_err (fun err => LoadMessage ("failed to read config " +:+ path +:+ ": " +:+ err)) (read_to_string path);
  ast ← map_err (fun err => LoadMessage ("failed to parse config " +:+ path +:+ ": " +:+ err)) (parse_text text);
  ast ← map_err (fun err => LoadMessage ("failed to resolve includes in " +:+ path +:+ ": " +:+ err))
          (resolve (IncludeResolver_new ast (parent_dir path)) ast);
  ir ← map_err (fun err => match err with
                 | Message m => LoadMessage ("failed to lower config " +:+ path +:+ ": " +:+ m)
                 | e => LoadAbort e
                 end) (from_ast ast);
  _ ← map_err (fun err => LoadMessage ("failed to validate config " +:+ path +:+ ": " +:+ err)) (validate ir);
  http ← ok_or (http ir) (LoadMessage ("config " +:+ path +:+ " does not contain an http block"));
  _ ← fail_if (is_nil (servers http)) (LoadMessage ("config " +:+ path +:+ " does not contain any server blocks"));
  map_err (fun err => LoadMessage ("failed to compile router from config " +:+ path +:+ ": " +:+ err)) (from_http http).
End load.

Section reload.
Context `{RuntimeDeps} `{!HashIter}.

(** The state the process starts with; an error is a refusal to start, or the panic
    of [RuntimeState::new]. *)
Definition boot (fs : FileSystem) (path : string) : option RuntimeState :=
  match load_router path with
  | Ok router => ok (RuntimeState_new (mkConfigSnapshot ("file:" +:+ path) router))
  | Err _ => None
  end.

(** One SIGHUP, with the file system at that time. *)
Definition reload (fs : FileSystem) (path : string) (s : RuntimeState) : RuntimeState :=
  match load_router path with
  | Ok router => fst (apply_snapshot s (mkConfigSnapshot ("file:" +:+ path) router))
  | Err _ => s
  end.
End reload.

(** ** Lemmas *)

(** What accepted arguments guarantee. *)
Record args_safe (c : CliArgs) : Prop := mkArgsSafe {
  as_grpc_tls : is_Some (grpc_addr c) <-> is_Some (grpc_tls c);
  as_one_transport : grpc_addr c = None \/ grpc_uds c = None;
  as_admin : forall a, metrics_addr c = Some a -> is_loopback (sa_ip a) = true \/ unsafe_admin_listen c = true;
  as_unsafe : unsafe_admin_listen c = true -> is_Some (metrics_addr c);
  as_upgrade : upgrade c = true -> exists sock, upgrade_sock c = Some sock /\ is_absolute sock = true
}.

(** Every socket path read so far is absolute. *)
Definition draft_ok (d : cli_draft) : Prop := forall sock, d_upgrade_sock d = Some sock -> is_absolute sock = true.

Lemma once_Ok {A} (slot : option A) v f r : once slot v f = Ok r -> r = Some v.
Proof. unfold once. destruct slot; simpl; congruence. Qed.

Lemma value_flag_ok d flag value d' : value_flag d flag value = Ok d' -> draft_ok d -> draft_ok d'.
Proof.
  destruct d. unfold value_flag, draft_ok. intros Hv Hd. simpl in Hd. split_names; simpl; try done.
  apply once_Ok in Hok1. subst. intros ? [= <-]. by apply negb_false_iff in Hok0.
Qed.

Lemma read_args_ok n args d d' :
  (length args <= n)%nat -> read_args d args = Ok (Some d') -> draft_ok d -> draft_ok d'.
Proof.
  revert args d. induction n as [|n IH]; intros [|arg rest] d Hl Hr Hd; simpl in Hl; try lia;
    [by injection Hr as <-|by injection Hr as <-|].
  cbn [read_args] in Hr. destruct (missing_value arg) as [m|].
  - destruct rest as [|value rest]; [done|]. simpl in Hl. inv_ok.
    eapply (IH rest a); [lia|done|]. by eapply value_flag_ok.
  - destruct d. repeat match type of Hr with (if ?b then _ else _) = _ => destruct b; [try done|] end;
      try done; eapply (IH rest); try done; lia.
Qed.

Lemma check_args_safe d c : draft_ok d -> check_args d = Ok c -> args_safe c.
Proof.
  intros Hd Hc. unfold check_args in Hc. apply bind_Ok_inv in Hc as (path & _ & Hc).
  apply bind_Ok_inv in Hc as ([] & Hup%fail_if_Ok & Hc). apply bind_Ok_inv in Hc as ([] & Huds%fail_if_Ok & Hc).
  apply bind_Ok_inv in Hc as ([] & Hadm%fail_if_Ok & Hc). apply bind_Ok_inv in Hc as (tls & _ & Hc).
  apply bind_Ok_inv in Hc as ([] & Htls%fail_if_Ok & Hc). apply bind_Ok_inv in Hc as ([] & _ & Hc).
  apply bind_Ok_inv in Hc as ([] & Hadr%fail_if_Ok & Hc). apply bind_Ok_inv in Hc as ([] & Hmet%fail_if_Ok & Hc).
  injection Hc as <-. constructor; simpl.
  - clear -Htls Hadr. destruct (d_grpc_addr d), tls; simpl in *; split; intros [? ?]; done || (eexists; reflexivity).
  - clear -Huds. destruct (d_grpc_addr d), (d_grpc_uds d); simpl in *; auto; done.
  - intros ad Ha. rewrite Ha in Hmet. apply andb_false_iff in Hmet as [Hx|Hx]; apply negb_false_iff in Hx; auto.
  - intros Hu. rewrite Hu in Hadm. destruct (d_metrics_addr d); [eauto|done].
  - intros Hu. rewrite Hu in Hup. destruct (d_upgrade_sock d) as [sock|] eqn:E; [|done].
    exists sock. split; [done|]. by apply Hd.
Qed.

(** Compiling makes every check that validation makes. *)
Section validation.
Context `{Crates}.

Lemma validate_weight_same u total s : validate_weight u total s = add_weight (up_name u) total s.
Proof. done. Qed.

Lemma compile_upstream_validated compiled u compiled' :
  compile_upstream compiled u = Ok compiled' -> validate_upstream u = Ok tt.
Proof.
  unfold compile_upstream, validate_upstream. intros Hc. inv_ok.
  rewrite Hok0, Hok1, Hok2. cbn [mbind result_bind fail_if].
  assert (forall l t, try_fold (validate_weight u) t l = try_fold (add_weight (up_name u)) t l) as ->.
  { induction l as [|x l IH]; intros t; simpl; [done|]. rewrite validate_weight_same.
    destruct (add_weight _ _ _); simpl; auto. }
  rewrite Hok3. cbn [mbind result_bind]. rewrite Hok4. cbn [mbind result_bind fail_if].
  destruct (up_hash_key u) as [k|]; [|by destruct (up_policy u)].
  simpl in Hok5. apply negb_false_iff, bool_decide_eq_true in Hok5. rewrite Hok5. cbn [mbind result_bind].
  by destruct k; [|inv_ok; destruct (header_name_from name)].
Qed.

Lemma count_action_validated si li d n m : count_action n d = Ok m -> count_validated_action si li n d = Ok m.
Proof. by destruct d. Qed.

Lemma compile_location_validated si li l upstreams next r :
  compile_location l upstreams next = Ok r -> validate_location si li l = Ok tt.
Proof.
  unfold compile_location, validate_location. intros Hc. apply bind_Ok_inv in Hc as (n & Hn & Hc).
  apply bind_Ok_inv in Hc as (u & Hu & _). apply fail_if_Ok in Hu.
  assert (forall ds k, try_fold count_action k ds = Ok n -> try_fold (count_validated_action si li) k ds = Ok n) as Hds.
  { induction ds as [|d ds IH]; intros k Hk; simpl in *; [done|]. inv_ok.
    by rewrite (count_action_validated si li _ _ _ Hok); simpl; auto. }
  rewrite (Hds _ _ Hn). cbn [mbind result_bind]. by rewrite Hu.
Qed.

Lemma compile_locations_validated si li l upstreams s s' :
  try_fold (compile_locations_step upstreams) s l = Ok s' -> try_enumerate (validate_location si) li l = Ok tt.
Proof.
  revert s li. induction l as [|x l IH]; intros s li Hf; simpl in *; [done|]. inv_ok.
  unfold compile_locations_step in Hok. apply bind_Ok_inv in Hok as ([c n] & Hc & Hok).
  rewrite (compile_location_validated si li _ _ _ _ Hc). simpl. by eapply IH.
Qed.

Lemma add_servers_validated si l s s' :
  try_fold add_server s l = Ok s' ->
  try_enumerate (fun si server => try_enumerate (validate_location si) 0 (locations server)) si l = Ok tt.
Proof.
  revert s si. induction l as [|x l IH]; intros s si Hf; simpl in *; [done|]. inv_ok.
  destruct s as [r next]. unfold add_server in Hok. do 2 (apply bind_Ok_inv in Hok as (? & _ & Hok)).
  apply bind_Ok_inv in Hok as ([c n] & Hc & Hok). unfold compile_locations in Hc.
  apply bind_Ok_inv in Hc as (? & _ & Hc). rewrite (compile_locations_validated si 0 _ _ _ _ Hc). simpl. by eapply IH.
Qed.

Lemma from_http_validated h r : from_http h = Ok r -> servers h <> [] -> validate (mkIr (Some h)) = Ok tt.
Proof.
  unfold from_http, validate. intros Hf Hs. do 5 (apply bind_Ok_inv in Hf as (? & _ & Hf)).
  apply bind_Ok_inv in Hf as (us & Hus & Hf). apply bind_Ok_inv in Hf as (r1 & _ & Hf).
  apply bind_Ok_inv in Hf as ([r2 n2] & Hsrv & _). cbn [http ok_or mbind result_bind].
  assert (is_nil (servers h) = false) as -> by (by destruct (servers h)). cbn [mbind result_bind fail_if].
  assert (forall l m, try_fold compile_upstream m l = Ok us -> try_fold (fun _ u => validate_upstream u) tt l = Ok tt) as Hu.
  { induction l as [|y l IH]; intros m Hm; simpl in *; [done|]. inv_ok.
    rewrite (compile_upstream_validated _ _ _ Hok). simpl. by eapply IH. }
  rewrite (Hu _ _ Hus). cbn [mbind result_bind]. by eapply add_servers_validated.
Qed.
End validation.

(** ** Theorems *)

(** Accepted command lines are safe: the control plane listens on TCP exactly
    with its TLS files and never on both transports, the unauthenticated admin
    endpoint leaves the loopback interface only when asked to explicitly, and an
    upgrade has an absolute socket path. *)
Lemma cli_args_safe args c : parse_cli_args args = Ok (Some c) -> args_safe c.
Proof.
  unfold parse_cli_args. intros Hp. inv_ok. destruct a as [d|]; [|discriminate Hp].
  apply bind_Ok_inv in Hp as (c' & Hc & Hp). injection Hp as <-. eapply check_args_safe; [|done]. by eapply (read_args_ok (length (tail args))).
Qed.

(** validation never refuses what would compile: an [http] block with a server
    that compiles passes [Ir::validate]. *)
Theorem validate_not_stricter `{Crates} h r :
  from_http h = Ok r -> servers h <> [] -> validate (mkIr (Some h)) = Ok tt.
Proof. apply from_http_validated. Qed.

Section reload_theorems.
Context `{RuntimeDeps} `{!HashIter}.

Lemma load_router_wf (fs : FileSystem) path r : load_router path = Ok r -> router_wf r.
Proof.
  unfold load_router. intros Hl. do 5 (apply bind_Ok_inv in Hl as (? & _ & Hl)).
  apply bind_Ok_inv in Hl as (h & _ & Hl). apply bind_Ok_inv in Hl as (? & _ & Hl).
  apply map_err_Ok in Hl. by eapply from_http_router_wf.
Qed.

(** A SIGHUP, whatever the files contain then. *)
Definition reload_step (path : string) (s s' : RuntimeState) : Prop := exists fs : FileSystem, s' = reload fs path s.

Lemma reload_rt_step path s s' : reload_step path s s' -> rtc (rt_step router_wf) s s'.
Proof.
  intros [fs ->]. unfold reload. destruct (@load_router _ fs path) as [r|] eqn:E; [|done].
  apply rtc_once, rt_apply. simpl. by eapply load_router_wf.
Qed.

(** A process started from a file has what its requests need after any steps. *)
Lemma boot_serves fs path s0 s :
  boot fs path = Some s0 -> rtc (rt_step router_wf) s0 s ->
  (forall l, router_location (sn_router (st_current s)) l -> lookups_succeed (st_current s) l) /\
  restart_fingerprint (sn_router (st_current s)) = restart_fingerprint (sn_router (st_current s0)).
Proof.
  unfold boot. destruct (@load_router _ fs path) as [r|] eqn:E; [|done]. intros Hb Hrt.
  destruct (RuntimeState_new _) as [s0'|] eqn:En; [|done]. injection Hb as ->.
  pose proof (load_router_wf fs _ _ E) as Hwf.
  pose proof (RuntimeState_new_ok router_wf (mkConfigSnapshot _ r) s0 Hwf En) as H0'.
  pose proof (reachable_rt_ok router_wf (mkConfigSnapshot _ r) s0 s Hwf En Hrt) as Hok.
  split; [by intros l; apply rt_ok_lookups|].
  destruct H0' as (_ & _ & ->), Hok as (_ & _ & ->).
  clear -Hrt. induction Hrt as [|x y z Hxy _ IH]; [done|]. rewrite IH. clear IH.
  destruct Hxy as [s next _|s|s]; [|done|done].
  by destruct (apply_snapshot_cases s next) as [(rs & m & -> & _)|(sn & _ & _ & _ & ->)].
Qed.
End reload_theorems.

(** ** Witnesses *)

Module CliSample.
Definition args : list string :=
  ["ngxora"; "--grpc-addr"; "127.0.0.1:50051"; "--grpc-tls-cert"; "c"; "--grpc-tls-key"; "k"; "--grpc-client-ca"; "ca";
   "--metrics-addr"; "[::1]:9100"; "/etc/ngxora.conf"].
Definition cli : CliArgs :=
  mkCliArgs "/etc/ngxora.conf" false false None (Some (mkSocketAddr (ipv4 127 0 0 1) 50051)) None
    (Some (mkGrpcTlsFiles "c" "k" "ca")) (Some (mkSocketAddr (V6 1) 9100)) None false.
Definition text : string :=
  "http { upstream web { server 10.0.0.1:80; } server { listen *:80; location / { proxy_pass http://web; } } }".
Definition fs : FileSystem := {| canonicalize := IncludeSample.canon; read_to_string _ := Ok text |}.
Definition start : option (@RuntimeState Toy.crates ToyDeps.deps) := @boot _ ToyDeps.deps iter_forward fs "/etc/ngxora.conf".
Definition s0 : @RuntimeState Toy.crates ToyDeps.deps := default ToyDeps.the_state start.
Lemma starts : is_some start = true.
Proof. vm_compute. reflexivity. Qed.
End CliSample.

Example sample_args_safe : args_safe CliSample.cli.
Proof. apply (cli_args_safe CliSample.args CliSample.cli). vm_compute. reflexivity. Qed.

Lemma validate_not_stricter_witness : validate (mkIr (Some RouterSample.http)) = Ok tt.
Proof. apply (@validate_not_stricter Toy.crates RouterSample.http RouterSample.router); [reflexivity|discriminate]. Defined.
