(* ===== verification/Proto.v ===== *)
(** * The control-plane wire format (crates/ngxora-runtime/proto/control.proto)

    The messages as the records that the protocol buffer compiler derives from the
    schema: an [optional] or message field is an option, a [oneof] an option of a sum,
    a [repeated] field a list and an enumeration a 32-bit integer that may hold an
    unknown value. *)

From S2P Require Import Prelude.

Open Scope N_scope.

(** ** Enumerations

    [Enum::try_from(i32)] and [as i32]. *)
Class WireEnum (A : Type) := {
  as_i32 : A -> Z;
  try_from_i32 : Z -> option A;
  try_from_as_i32 : forall a, try_from_i32 (as_i32 a) = Some a
}.

Inductive ProtoSwitch := PsUnspecified | PsOn | PsOff.
#[global] Instance ProtoSwitch_enum : WireEnum ProtoSwitch.
Proof.
  refine {| as_i32 a := match a with PsUnspecified => 0 | PsOn => 1 | PsOff => 2 end%Z;
            try_from_i32 z := match z with 0 => Some PsUnspecified | 1 => Some PsOn | 2 => Some PsOff | _ => None end%Z |}.
  by intros [].
Defined.

Inductive ProtoUpstreamSelectionPolicy := PpUnspecified | PpRoundRobin | PpRandom | PpConsistentHash.
#[global] Instance ProtoUpstreamSelectionPolicy_enum : WireEnum ProtoUpstreamSelectionPolicy.
Proof.
  refine {| as_i32 a := match a with PpUnspecified => 0 | PpRoundRobin => 1 | PpRandom => 2 | PpConsistentHash => 3 end%Z;
            try_from_i32 z := match z with 0 => Some PpUnspecified | 1 => Some PpRoundRobin | 2 => Some PpRandom
                                | 3 => Some PpConsistentHash | _ => None end%Z |}.
  by intros [].
Defined.

Inductive ProtoUpstreamHttpProtocol := PhUnspecified | PhH1 | PhH2 | PhH2c.
#[global] Instance ProtoUpstreamHttpProtocol_enum : WireEnum ProtoUpstreamHttpProtocol.
Proof.
  refine {| as_i32 a := match a with PhUnspecified => 0 | PhH1 => 1 | PhH2 => 2 | PhH2c => 3 end%Z;
            try_from_i32 z := match z with 0 => Some PhUnspecified | 1 => Some PhH1 | 2 => Some PhH2
                                | 3 => Some PhH2c | _ => None end%Z |}.
  by intros [].
Defined.

Inductive ProtoNrfEndpointScheme := PnUnspecified | PnHttp | PnHttps.
#[global] Instance ProtoNrfEndpointScheme_enum : WireEnum ProtoNrfEndpointScheme.
Proof.
  refine {| as_i32 a := match a with PnUnspecified => 0 | PnHttp => 1 | PnHttps => 2 end%Z;
            try_from_i32 z := match z with 0 => Some PnUnspecified | 1 => Some PnHttp | 2 => Some PnHttps | _ => None end%Z |}.
  by intros [].
Defined.

Inductive ProtoTlsProtocolVersion := PtUnspecified | PtTls1 | PtTls12 | PtTls13.
#[global] Instance ProtoTlsProtocolVersion_enum : WireEnum ProtoTlsProtocolVersion.
Proof.
  refine {| as_i32 a := match a with PtUnspecified => 0 | PtTls1 => 1 | PtTls12 => 2 | PtTls13 => 3 end%Z;
            try_from_i32 z := match z with 0 => Some PtUnspecified | 1 => Some PtTls1 | 2 => Some PtTls12
                                | 3 => Some PtTls13 | _ => None end%Z |}.
  by intros [].
Defined.

Inductive ProtoTlsVerifyClient := PvUnspecified | PvOff | PvOptional | PvRequired.
#[global] Instance ProtoTlsVerifyClient_enum : WireEnum ProtoTlsVerifyClient.
Proof.
  refine {| as_i32 a := match a with PvUnspecified => 0 | PvOff => 1 | PvOptional => 2 | PvRequired => 3 end%Z;
            try_from_i32 z := match z with 0 => Some PvUnspecified | 1 => Some PvOff | 2 => Some PvOptional
                                | 3 => Some PvRequired | _ => None end%Z |}.
  by intros [].
Defined.

Inductive ProtoCacheKeyMode := PkUnspecified | PkUri | PkUriAndMethod | PkNormalizedUri.
#[global] Instance ProtoCacheKeyMode_enum : WireEnum ProtoCacheKeyMode.
Proof.
  refine {| as_i32 a := match a with PkUnspecified => 0 | PkUri => 1 | PkUriAndMethod => 2 | PkNormalizedUri => 3 end%Z;
            try_from_i32 z := match z with 0 => Some PkUnspecified | 1 => Some PkUri | 2 => Some PkUriAndMethod
                                | 3 => Some PkNormalizedUri | _ => None end%Z |}.
  by intros [].
Defined.

(** [ip_access_rule::Action]. *)
Inductive ProtoAccessAction := PaUnspecified | PaAllow | PaDeny.
#[global] Instance ProtoAccessAction_enum : WireEnum ProtoAccessAction.
Proof.
  refine {| as_i32 a := match a with PaUnspecified => 0 | PaAllow => 1 | PaDeny => 2 end%Z;
            try_from_i32 z := match z with 0 => Some PaUnspecified | 1 => Some PaAllow | 2 => Some PaDeny | _ => None end%Z |}.
  by intros [].
Defined.

(** ** TLS *)

Inductive PemSourceKind := PkPath (path : string) | PkInlinePem (pem : string).
Record ProtoPemSource := mkProtoPemSource { pp_source : option PemSourceKind }.
Record ProtoTlsBinding := mkProtoTlsBinding { tb_cert : option ProtoPemSource; tb_key : option ProtoPemSource }.
Record ProtoListenerTlsOptions := mkProtoListenerTlsOptions {
  lt_min_protocol : Z;
  lt_max_protocol : Z;
  lt_verify_client : Z;
  lt_client_certificate : option ProtoPemSource
}.
Record ProtoUpstreamTlsOptions := mkProtoUpstreamTlsOptions {
  ut_verify : Z;
  ut_trusted_certificate : option ProtoPemSource;
  ut_client_certificate : option ProtoPemSource;
  ut_client_certificate_key : option ProtoPemSource
}.
Record ProtoLetsEncryptConfig := mkProtoLetsEncryptConfig {
  le_acme_directory : string;
  le_email : string;
  le_cache_dir : string
}.

(** ** Routes *)

Inductive PathModifierKind := MkFullPath (path : string) | MkPrefixMatch (path : string).
Record ProtoPathModifier := mkProtoPathModifier { pm_kind : option PathModifierKind }.
Record ProtoDirectResponse := mkProtoDirectResponse { dr_status : N }.
Record ProtoHttpRedirect := mkProtoHttpRedirect {
  hr_status : N;
  hr_scheme : option string;
  hr_hostname : option string;
  hr_port : option N;
  hr_path : option ProtoPathModifier
}.
Record ProtoUrlRewrite := mkProtoUrlRewrite { ur_hostname : option string; ur_path : option ProtoPathModifier }.
Record ProtoExactCondition := mkProtoExactCondition { ec_name : string; ec_value : string }.
Inductive HttpMatchPath := HpExact (path : string) | HpPathPrefix (path : string).
Record ProtoHttpMatch := mkProtoHttpMatch {
  hm_path : option HttpMatchPath;
  hm_method : option string;
  hm_headers : list ProtoExactCondition;
  hm_query_params : list ProtoExactCondition
}.
Record ProtoRegex := mkProtoRegex { rx_pattern : string; rx_case_insensitive : bool }.
Inductive MatchKind :=
| MkPrefix (path : string)
| MkExact (path : string)
| MkPreferPrefix (path : string)
| MkRegex (regex : ProtoRegex)
| MkNamed (name : string)
| MkHttp (http : ProtoHttpMatch).
Record ProtoMatch := mkProtoMatch { mt_kind : option MatchKind }.
Record ProtoUpstream := mkProtoUpstream {
  pu_scheme : string;
  pu_host : string;
  pu_port : N;
  pu_upstream_group : string
}.
Inductive WeightedBackendTarget := WtUpstream (u : ProtoUpstream) | WtDirectResponse (r : ProtoDirectResponse).
Record ProtoWeightedBackend := mkProtoWeightedBackend {
  pw_weight : option N;
  pw_target : option WeightedBackendTarget
}.
Record ProtoWeightedBackends := mkProtoWeightedBackends { pw_backends : list ProtoWeightedBackend }.
Record ProtoRedirect := mkProtoRedirect { rd_status : N; rd_location : string }.
Inductive RouteAction :=
| AcUpstream (u : ProtoUpstream)
| AcRedirect (r : ProtoRedirect)
| AcScpProfile (name : string)
| AcWeightedBackends (b : ProtoWeightedBackends)
| AcDirectResponse (r : ProtoDirectResponse)
| AcHttpRedirect (r : ProtoHttpRedirect).
Record ProtoRouteTimeouts := mkProtoRouteTimeouts {
  rt_connect_timeout_ms : N;
  rt_read_timeout_ms : N;
  rt_write_timeout_ms : N
}.
Record ProtoRouteCache := mkProtoRouteCache {
  rc_enabled : Z;
  rc_max_size_bytes : N;
  rc_ttl_ms : N;
  rc_stale_if_error_ms : N;
  rc_key_mode : Z;
  rc_min_uses : N;
  rc_valid_statuses : list N
}.
Record ProtoPlugin := mkProtoPlugin { pl_name : string; pl_json_config : string }.
Record ProtoIpAccessRule := mkProtoIpAccessRule { ar_action : Z; ar_source : string }.
Record ProtoUpstreamHttp2Options := mkProtoUpstreamHttp2Options {
  uh_max_concurrent_streams : option N;
  uh_stream_window_size : option N;
  uh_connection_window_size : option N
}.
Record ProtoRoute := mkProtoRoute {
  rt_match : option ProtoMatch;
  rt_action : option RouteAction;
  rt_timeouts : option ProtoRouteTimeouts;
  rt_plugins : list ProtoPlugin;
  rt_tls_options : option ProtoUpstreamTlsOptions;
  rt_upstream_protocol : Z;
  rt_cache : option ProtoRouteCache;
  rt_url_rewrite : option ProtoUrlRewrite;
  rt_upstream_http2 : option ProtoUpstreamHttp2Options;
  rt_access_rules : list ProtoIpAccessRule;
  rt_allowed_methods : list string;
  rt_client_max_body_size_bytes : option N;
  rt_client_body_timeout_ms : option N;
  rt_send_timeout_ms : option N
}.

(** ** Upstream groups *)

Record ProtoUpstreamBackend := mkProtoUpstreamBackend { ub_host : string; ub_port : N; ub_weight : N }.
Inductive HashKeySource := HkClientIp (b : bool) | HkHeader (name : string).
Record ProtoUpstreamHashKey := mkProtoUpstreamHashKey { hk_source : option HashKeySource }.
Record ProtoUpstreamHttpHealthCheck := mkProtoUpstreamHttpHealthCheck {
  hh_host : string;
  hh_path : string;
  hh_use_tls : bool
}.
Inductive HealthCheckKind := HkTcp | HkHttp (check : ProtoUpstreamHttpHealthCheck).
Record ProtoUpstreamHealthCheck := mkProtoUpstreamHealthCheck {
  uh_kind : option HealthCheckKind;
  uh_timeout_ms : N;
  uh_interval_ms : N;
  uh_consecutive_success : N;
  uh_consecutive_failure : N
}.
Record ProtoNrfDiscovery := mkProtoNrfDiscovery {
  nd_api_root : string;
  nd_target_nf_type : string;
  nd_requester_nf_type : string;
  nd_service_name : string;
  nd_endpoint_scheme : Z;
  nd_timeout_ms : N;
  nd_stale_if_error_ms : N;
  nd_tls_options : option ProtoUpstreamTlsOptions
}.
Record ProtoUpstreamGroup := mkProtoUpstreamGroup {
  ug_name : string;
  ug_backends : list ProtoUpstreamBackend;
  ug_policy : Z;
  ug_health_check : option ProtoUpstreamHealthCheck;
  ug_hash_key : option ProtoUpstreamHashKey;
  ug_nrf_discovery : option ProtoNrfDiscovery;
  ug_allow_empty : bool
}.

(** ** Snapshots *)

Record ProtoHttp2Options := mkProtoHttp2Options {
  h2_max_concurrent_streams : option N;
  h2_max_header_list_size : option N;
  h2_stream_window_size : option N;
  h2_connection_window_size : option N
}.
Record ProtoRealIpConfig := mkProtoRealIpConfig {
  ri_trusted_proxies : list string;
  ri_header : string;
  ri_recursive : option bool
}.
Record ProtoHttpOptions := mkProtoHttpOptions {
  ho_downstream_keepalive_timeout_seconds : N;
  ho_tcp_nodelay : bool;
  ho_keepalive_requests : N;
  ho_allow_connect_method_proxying : bool;
  ho_h2c : bool;
  ho_client_max_body_size_bytes : N;
  ho_proxy_cache_max_size_bytes : N;
  ho_http2 : option ProtoHttp2Options;
  ho_real_ip : option ProtoRealIpConfig;
  ho_client_header_timeout_ms : option N;
  ho_client_body_timeout_ms : option N;
  ho_send_timeout_ms : option N
}.
(** The message with every field at its default. *)
Definition ProtoHttpOptions_default : ProtoHttpOptions :=
  mkProtoHttpOptions 0 false 0 false false 0 0 None None None None None.
Record ProtoListener := mkProtoListener {
  pl_listener_name : string;
  pl_address : string;
  pl_port : N;
  pl_tls : bool;
  pl_http2 : bool;
  pl_http2_only : bool;
  pl_tls_options : option ProtoListenerTlsOptions
}.
Record ProtoVirtualHost := mkProtoVirtualHost {
  vh_listener : string;
  vh_server_names : list string;
  vh_default_server : bool;
  vh_tls : option ProtoTlsBinding;
  vh_routes : list ProtoRoute
}.
Record ProtoScpProfile := mkProtoScpProfile {
  sp_name : string;
  sp_api_root : string;
  sp_discovery_upstreams : list string;
  sp_allowed_target_api_roots : list string
}.
Record ProtoGeoIpConfig := mkProtoGeoIpConfig {
  gi_database : string;
  gi_reload_interval_ms : option N;
  gi_trusted_proxies : list string
}.
Record ProtoConfigSnapshot := mkProtoConfigSnapshot {
  cf_version : string;
  cf_http : option ProtoHttpOptions;
  cf_listeners : list ProtoListener;
  cf_virtual_hosts : list ProtoVirtualHost;
  cf_upstreams : list ProtoUpstreamGroup;
  cf_le_config : option ProtoLetsEncryptConfig;
  cf_scp_profiles : list ProtoScpProfile;
  cf_geoip : option ProtoGeoIpConfig
}.
Record ProtoApplyResult := mkProtoApplyResult {
  pa_applied : bool;
  pa_restart_required : bool;
  pa_message : string;
  pa_active_version : string;
  pa_active_generation : N
}.

(** The derived equality of the messages that the export compares. *)
#[global] Instance ProtoPemSource_eq_dec : EqDecision ProtoPemSource.
Proof. assert (EqDecision PemSourceKind) by solve_decision. solve_decision. Defined.
#[global] Instance ProtoTlsBinding_eq_dec : EqDecision ProtoTlsBinding.
Proof. solve_decision. Defined.
#[global] Instance ProtoUpstreamTlsOptions_eq_dec : EqDecision ProtoUpstreamTlsOptions.
Proof. solve_decision. Defined.
#[global] Instance ProtoPathModifier_eq_dec : EqDecision ProtoPathModifier.
Proof. assert (EqDecision PathModifierKind) by solve_decision. solve_decision. Defined.
#[global] Instance ProtoUpstream_eq_dec : EqDecision ProtoUpstream.
Proof. solve_decision. Defined.
#[global] Instance ProtoMatch_eq_dec : EqDecision ProtoMatch.
Proof.
  assert (EqDecision HttpMatchPath) by solve_decision. assert (EqDecision ProtoExactCondition) by solve_decision.
  assert (EqDecision ProtoHttpMatch) by solve_decision. assert (EqDecision ProtoRegex) by solve_decision.
  assert (EqDecision MatchKind) by solve_decision. solve_decision.
Defined.
#[global] Instance RouteAction_eq_dec : EqDecision RouteAction.
Proof.
  assert (EqDecision ProtoDirectResponse) by solve_decision. assert (EqDecision WeightedBackendTarget) by solve_decision.
  assert (EqDecision ProtoWeightedBackend) by solve_decision. assert (EqDecision ProtoWeightedBackends) by solve_decision.
  assert (EqDecision ProtoRedirect) by solve_decision. assert (EqDecision ProtoHttpRedirect) by solve_decision.
  solve_decision.
Defined.
#[global] Instance ProtoRoute_eq_dec : EqDecision ProtoRoute.
Proof.
  assert (EqDecision ProtoRouteTimeouts) by solve_decision. assert (EqDecision ProtoPlugin) by solve_decision.
  assert (EqDecision ProtoRouteCache) by solve_decision. assert (EqDecision ProtoUrlRewrite) by solve_decision.
  assert (EqDecision ProtoUpstreamHttp2Options) by solve_decision. assert (EqDecision ProtoIpAccessRule) by solve_decision.
  solve_decision.
Defined.
