(* ===== verification/GrpcValues.v ===== *)
(** * Wire values
    (crates/ngxora-runtime/src/grpc/values.rs, http_routes.rs, client_policy.rs, tls.rs)

    The conversions between messages and IR values that the two directions share,
    each with the lemma that decoding what was encoded gives the value back. *)

From S2P Require Import Prelude RustStr NetAddr Crates Ir Types Proto.

Open Scope N_scope.

(** [Ok::try_from(..).unwrap_or(d)] and [.as_ref().map(f).transpose()?]. *)
Definition wire_or {A} `{WireEnum A} (z : Z) (d : A) : A := default d (try_from_i32 z).
Definition traverse {E A B} (f : A -> result E B) (o : option A) : result E (option B) := transpose (f <$> o).
Definition u16_try_from (n : N) : option N := then_some (n <=? u16_max) n.

(** ** values.rs *)

Definition switch_from_proto (value : Z) : Switch :=
  match wire_or value PsUnspecified with PsUnspecified | PsOn => On | PsOff => Off end.
Definition upstream_selection_policy_from_proto (value : Z) : result string UpstreamSelectionPolicy :=
  match wire_or value PpUnspecified with
  | PpUnspecified | PpRoundRobin => Ok RoundRobin
  | PpRandom => Ok Random
  | PpConsistentHash => Ok ConsistentHash
  end.
Definition proto_upstream_selection_policy_from_runtime (value : UpstreamSelectionPolicy) : ProtoUpstreamSelectionPolicy :=
  match value with RoundRobin => PpRoundRobin | Random => PpRandom | ConsistentHash => PpConsistentHash end.
Definition keepalive_timeout_from_proto (seconds : N) : KeepaliveTimeout :=
  if seconds =? 0 then KeepaliveOff else KeepaliveSet (from_secs seconds) None.
Definition duration_from_millis (millis : N) : option N := then_some (0 <? millis) (from_millis millis).
Definition duration_to_millis (duration : option N) : N :=
  match duration with Some value => N.min (as_millis value) u64_max | None => 0 end.
Definition switch_from_bool (value : bool) : Switch := if value then On else Off.
Definition proto_switch_from_runtime (value : Switch) : ProtoSwitch := match value with On => PsOn | Off => PsOff end.
(** [none_if_zero] and [none_if_zero_u64]. *)
Definition none_if_zero (value : N) : option N := then_some (0 <? value) value.
Definition none_if_empty (value : string) : option string := then_some (negb (is_empty value)) value.

(** ** http_routes.rs *)

Definition direct_status (status : N) : result string N :=
  ok_or (u16_try_from status) "direct response status out of range".
Definition modifier_from_proto (value : ProtoPathModifier) : result string PathModifier :=
  kind ← ok_or (pm_kind value) "path modifier kind is required";
  Ok (match kind with MkFullPath path => ReplaceFullPath path | MkPrefixMatch path => ReplacePrefixMatch path end).
Definition modifier_to_proto (value : PathModifier) : ProtoPathModifier :=
  mkProtoPathModifier (Some match value with
                            | ReplaceFullPath path => MkFullPath path
                            | ReplacePrefixMatch path => MkPrefixMatch path
                            end).
Definition http_redirect_from_proto (value : ProtoHttpRedirect) : result string HttpRedirect :=
  status ← direct_status (if hr_status value =? 0 then 302 else hr_status value);
  port ← traverse (fun p => ok_or (u16_try_from p) "redirect port out of range") (hr_port value);
  path ← traverse modifier_from_proto (hr_path value);
  Ok (mkHttpRedirect status (hr_scheme value) (hr_hostname value) port path).
Definition condition_from_proto (c : ProtoExactCondition) : string * string := (ec_name c, ec_value c).
Definition condition_to_proto (c : string * string) : ProtoExactCondition := mkProtoExactCondition (fst c) (snd c).
Definition http_match_from_proto (value : ProtoHttpMatch) : HttpMatch :=
  mkHttpMatch (match hm_path value with
               | Some (HpExact path) => PathExact path
               | Some (HpPathPrefix path) => PathPrefix path
               | None => PathPrefix "/"
               end)
    (hm_method value) (condition_from_proto <$> hm_headers value) (condition_from_proto <$> hm_query_params value).
Definition http_match_to_proto (value : HttpMatch) : ProtoHttpMatch :=
  mkProtoHttpMatch (Some match m_path value with PathExact path => HpExact path | PathPrefix path => HpPathPrefix path end)
    (m_method value) (condition_to_proto <$> m_headers value) (condition_to_proto <$> m_query_params value).

(** ** tls.rs *)

Definition pem_source_from_proto (value : option ProtoPemSource) (field : string) : result string PemSource :=
  source ← ok_or value (field +:+ " is required");
  source ← ok_or (pp_source source) (field +:+ " source is required");
  Ok (match source with PkPath path => PemPath path | PkInlinePem pem => InlinePem pem end).
Definition proto_pem_source_from_runtime (value : PemSource) : ProtoPemSource :=
  mkProtoPemSource (Some match value with PemPath path => PkPath path | InlinePem pem => PkInlinePem pem end).
Definition optional_pem (field : string) (value : option ProtoPemSource) : result string (option PemSource) :=
  traverse (fun source => pem_source_from_proto (Some source) field) value.

Definition tls_identity_from_proto (value : ProtoTlsBinding) : result string TlsIdentity :=
  cert ← pem_source_from_proto (tb_cert value) "tls cert";
  key ← pem_source_from_proto (tb_key value) "tls key";
  Ok (mkTlsIdentity cert key).
Definition proto_tls_binding_from_runtime (value : TlsIdentity) : ProtoTlsBinding :=
  mkProtoTlsBinding (Some (proto_pem_source_from_runtime (cert value))) (Some (proto_pem_source_from_runtime (key value))).

Definition tls_protocol_version_from_proto (value : Z) : result string (option TlsProtocolVersion) :=
  Ok match wire_or value PtUnspecified with
     | PtUnspecified => None
     | PtTls1 => Some Tls1
     | PtTls12 => Some Tls1_2
     | PtTls13 => Some Tls1_3
     end.
Definition proto_tls_protocol_version_from_runtime (value : TlsProtocolVersion) : Z :=
  as_i32 match value with Tls1 => PtTls1 | Tls1_2 => PtTls12 | Tls1_3 => PtTls13 end.
Definition tls_verify_client_from_proto (value : Z) : result string TlsVerifyClient :=
  Ok match wire_or value PvUnspecified with
     | PvUnspecified | PvOff => VerifyOff
     | PvOptional => VerifyOptional
     | PvRequired => VerifyRequired
     end.
Definition proto_tls_verify_client_from_runtime (value : TlsVerifyClient) : ProtoTlsVerifyClient :=
  match value with VerifyOff => PvOff | VerifyOptional => PvOptional | VerifyRequired => PvRequired end.

(** The derived order of the versions. *)
Definition version_rank (v : TlsProtocolVersion) : N := match v with Tls1 => 0 | Tls1_2 => 1 | Tls1_3 => 2 end.
Definition listener_tls_options_from_proto (value : option ProtoListenerTlsOptions) : result string DownstreamTlsOptions :=
  match value with
  | None => Ok DownstreamTlsOptions_default
  | Some value =>
      min ← tls_protocol_version_from_proto (lt_min_protocol value);
      max ← tls_protocol_version_from_proto (lt_max_protocol value);
      protocols ← match min, max with
                  | None, None => Ok None
                  | Some min, Some max =>
                      if version_rank min <=? version_rank max then Ok (Some (mkTlsProtocolBounds min max))
                      else Err "listener TLS protocol bounds are invalid: min_protocol > max_protocol"
                  | _, _ => Err "listener TLS protocol bounds must set both min_protocol and max_protocol"
                  end;
      verify ← tls_verify_client_from_proto (lt_verify_client value);
      client_certificate ← optional_pem "client certificate" (lt_client_certificate value);
      Ok (mkDownstreamTlsOptions protocols verify client_certificate)
  end.
Definition proto_listener_tls_options_from_runtime (value : ListenerTlsSettings) : ProtoListenerTlsOptions :=
  let '(min_protocol, max_protocol) :=
    match ts_protocols value with
    | Some bounds => (proto_tls_protocol_version_from_runtime (tls_min bounds),
                      proto_tls_protocol_version_from_runtime (tls_max bounds))
    | None => (as_i32 PtUnspecified, as_i32 PtUnspecified)
    end in
  mkProtoListenerTlsOptions min_protocol max_protocol
    (as_i32 (proto_tls_verify_client_from_runtime (ts_verify_client value)))
    (proto_pem_source_from_runtime <$> ts_client_certificate value).

Definition upstream_tls_options_from_proto (value : option ProtoUpstreamTlsOptions) : result string (option UpstreamSslOptions) :=
  match value with
  | None => Ok None
  | Some value =>
      client_certificate ← optional_pem "route upstream client certificate" (ut_client_certificate value);
      client_certificate_key ← optional_pem "route upstream client certificate key" (ut_client_certificate_key value);
      _ ← match is_some client_certificate, is_some client_certificate_key with
          | true, false => Err "UpstreamTlsOptions: client_certificate requires client_certificate_key"
          | false, true => Err "UpstreamTlsOptions: client_certificate_key requires client_certificate"
          | _, _ => Ok tt
          end;
      trusted ← optional_pem "route upstream trusted certificate" (ut_trusted_certificate value);
      Ok (Some (mkUpstreamSslOptions (switch_from_proto (ut_verify value)) trusted client_certificate client_certificate_key))
  end.
Definition proto_upstream_tls_options_from_runtime (value : UpstreamSslOptions) : ProtoUpstreamTlsOptions :=
  mkProtoUpstreamTlsOptions (as_i32 (proto_switch_from_runtime (verify_cert value)))
    (proto_pem_source_from_runtime <$> trusted_certificate value)
    (proto_pem_source_from_runtime <$> client_certificate value)
    (proto_pem_source_from_runtime <$> client_certificate_key value).

Definition le_config_from_proto (value : ProtoLetsEncryptConfig) : LetsEncryptConfig :=
  mkLetsEncryptConfig (none_if_empty (le_acme_directory value)) (none_if_empty (le_email value))
    (none_if_empty (le_cache_dir value)).
Definition proto_le_config_from_ir (value : LetsEncryptConfig) : ProtoLetsEncryptConfig :=
  mkProtoLetsEncryptConfig (default "" (acme_directory value)) (default "" (email value)) (default "" (cache_dir value)).

(** ** client_policy.rs *)

Section client_policy.
Context `{Crates}.

Definition network (value : string) : result string IpNet :=
  ok_or (parse_network value) ("invalid IP or CIDR `" +:+ value +:+ "`").
Definition access_from_proto (rule : ProtoIpAccessRule) : result string LocationIpRule :=
  match try_from_i32 (ar_action rule) with
  | Some PaAllow => if String.eqb (ar_source rule) "all" then Ok AllowAll else Allow <$> network (ar_source rule)
  | Some PaDeny => if String.eqb (ar_source rule) "all" then Ok DenyAll else Deny <$> network (ar_source rule)
  | _ => Err "IP access rule requires action ALLOW or DENY"
  end.
Definition access_to_proto (rule : LocationIpRule) : ProtoIpAccessRule :=
  mkProtoIpAccessRule (as_i32 (if rule_is_allow rule then PaAllow else PaDeny))
    (match rule with Allow n | Deny n => ipnet_to_string n | AllowAll | DenyAll => "all" end).
Definition real_ip_from_proto (config : ProtoRealIpConfig) : result string RealIpConfig :=
  trusted ← mapM network (ri_trusted_proxies config);
  let config := mkRealIpConfig trusted
                  (if is_empty (ri_header config) then "X-Forwarded-For" else ri_header config)
                  (default true (ri_recursive config)) in
  _ ← RealIpConfig_validate config;
  Ok config.
Definition real_ip_to_proto (config : RealIpConfig) : ProtoRealIpConfig :=
  mkProtoRealIpConfig (ipnet_to_string <$> trusted_proxies config) (real_ip_header config) (Some (recursive config)).
End client_policy.

(** ** Decoding what was encoded *)

Lemma traverse_inverse {E A B} (f : B -> result E A) (g : A -> B) o :
  (forall a, o = Some a -> f (g a) = Ok a) -> traverse f (g <$> o) = Ok o.
Proof. intros Hf. destruct o as [a|]; [|done]. unfold traverse. simpl. by rewrite Hf. Qed.

Lemma mapM_inverse {E A B} (f : B -> result E A) (g : A -> B) l :
  Forall (fun a => f (g a) = Ok a) l -> mapM f (g <$> l) = Ok l.
Proof. intros Hf. apply mapM_Ok. induction Hf; by constructor. Qed.

Lemma wire_or_as_i32 {A} `{WireEnum A} (a d : A) : wire_or (as_i32 a) d = a.
Proof. unfold wire_or. by rewrite try_from_as_i32. Qed.

Lemma u16_try_from_ok n : n <= u16_max -> u16_try_from n = Some n.
Proof. intros Hn. unfold u16_try_from. by rewrite (proj2 (N.leb_le _ _) Hn). Qed.

(** A duration that the wire can carry: a whole, positive number of milliseconds. *)
Definition wire_millis (d : N) : Prop := exists ms, 0 < ms <= u64_max /\ d = from_millis ms.
Definition wire_duration (o : option N) : Prop := forall d, o = Some d -> wire_millis d.

Lemma as_millis_from ms : as_millis (from_millis ms) = ms.
Proof. apply N.div_mul. done. Qed.

Lemma duration_from_millis_wire ms : ms <= u64_max -> wire_duration (duration_from_millis ms).
Proof.
  intros Hms d. unfold duration_from_millis. destruct (N.ltb_spec 0 ms); [|done]. intros [= <-]. by exists ms.
Qed.

Lemma duration_millis_inverse o : wire_duration o -> duration_from_millis (duration_to_millis o) = o.
Proof.
  intros Ho. destruct o as [d|]; [|done]. destruct (Ho d eq_refl) as (ms & Hms & ->). simpl.
  rewrite as_millis_from, N.min_l by lia. unfold duration_from_millis. by destruct (N.ltb_spec 0 ms); [|lia].
Qed.

Lemma none_if_zero_inverse o : o <> Some 0 -> none_if_zero (default 0 o) = o.
Proof. intros Ho. destruct o as [n|]; [|done]. unfold none_if_zero. simpl. destruct (N.ltb_spec 0 n); [done|]. by replace n with 0 in Ho by lia. Qed.
Lemma none_if_zero_nonzero n : none_if_zero n <> Some 0.
Proof. unfold none_if_zero. destruct (N.ltb_spec 0 n); [|done]. intros [= ->]. lia. Qed.

Lemma none_if_empty_inverse o : o <> Some "" -> none_if_empty (default "" o) = o.
Proof. intros Ho. destruct o as [[|c s]|]; done. Qed.

Lemma switch_inverse s : switch_from_proto (as_i32 (proto_switch_from_runtime s)) = s.
Proof. unfold switch_from_proto. rewrite wire_or_as_i32. by destruct s. Qed.

Lemma policy_inverse p : upstream_selection_policy_from_proto (as_i32 (proto_upstream_selection_policy_from_runtime p)) = Ok p.
Proof. unfold upstream_selection_policy_from_proto. rewrite wire_or_as_i32. by destruct p. Qed.

Lemma modifier_inverse m : modifier_from_proto (modifier_to_proto m) = Ok m.
Proof. by destruct m. Qed.

Lemma conditions_inverse (l : list (string * string)) : condition_from_proto <$> (condition_to_proto <$> l) = l.
Proof. rewrite <- list_fmap_compose. induction l as [|[n v] l IH]; [done|]. rewrite fmap_cons. by rewrite IH. Qed.

Lemma http_match_inverse m : http_match_from_proto (http_match_to_proto m) = m.
Proof.
  unfold http_match_from_proto, http_match_to_proto. simpl. rewrite !conditions_inverse.
  by destruct m as [[]].
Qed.

Lemma pem_source_inverse field p : pem_source_from_proto (Some (proto_pem_source_from_runtime p)) field = Ok p.
Proof. by destruct p. Qed.

Lemma optional_pem_inverse field o : optional_pem field (proto_pem_source_from_runtime <$> o) = Ok o.
Proof. apply traverse_inverse. intros. apply pem_source_inverse. Qed.

Lemma tls_identity_inverse id : tls_identity_from_proto (proto_tls_binding_from_runtime id) = Ok id.
Proof. unfold tls_identity_from_proto. simpl tb_cert. simpl tb_key. rewrite !pem_source_inverse. by destruct id. Qed.

Lemma upstream_tls_inverse o :
  is_some (client_certificate o) = is_some (client_certificate_key o) ->
  upstream_tls_options_from_proto (Some (proto_upstream_tls_options_from_runtime o)) = Ok (Some o).
Proof.
  intros Ho. unfold upstream_tls_options_from_proto, proto_upstream_tls_options_from_runtime.
  cbn [ut_client_certificate ut_client_certificate_key ut_trusted_certificate ut_verify].
  rewrite !optional_pem_inverse, switch_inverse. cbn [mbind result_bind]. rewrite Ho. destruct o. by case_match.
Qed.

(** Version bounds are in order when both are there. *)
Definition tls_bounds_ok (o : option TlsProtocolBounds) : Prop :=
  forall b, o = Some b -> version_rank (tls_min b) <= version_rank (tls_max b).

Lemma listener_tls_inverse o :
  tls_bounds_ok (protocols o) ->
  listener_tls_options_from_proto (Some (proto_listener_tls_options_from_runtime (ListenerTlsSettings_from o))) = Ok o.
Proof.
  intros Ho. destruct o as [p v c]. simpl in Ho.
  unfold listener_tls_options_from_proto, proto_listener_tls_options_from_runtime, ListenerTlsSettings_from,
    tls_protocol_version_from_proto, tls_verify_client_from_proto.
  cbn [protocols verify_client dt_client_certificate ts_protocols ts_verify_client ts_client_certificate].
  destruct p as [[mn mx]|]; cbn [lt_min_protocol lt_max_protocol lt_verify_client lt_client_certificate].
  - specialize (Ho _ eq_refl). simpl in Ho. unfold proto_tls_protocol_version_from_runtime.
    rewrite !wire_or_as_i32, optional_pem_inverse. by destruct mn, mx, v; try (exfalso; simpl in Ho; lia).
  - rewrite !wire_or_as_i32, optional_pem_inverse. by destruct v.
Qed.

Section client_policy_inverse.
Context `{WireLaws}.

Lemma network_inverse n : network (ipnet_to_string n) = Ok n.
Proof. unfold network, parse_network. by rewrite ipnet_parse_to_string. Qed.

Lemma ipnet_text_not_all n : String.eqb (ipnet_to_string n) "all" = false.
Proof.
  destruct (String.eqb_spec (ipnet_to_string n) "all") as [He|]; [|done].
  pose proof (ipnet_parse_to_string n) as Hn. rewrite He, ipnet_parse_all in Hn. done.
Qed.

Lemma access_inverse r : access_from_proto (access_to_proto r) = Ok r.
Proof.
  unfold access_from_proto. destruct r as [n|n| |]; cbn [access_to_proto ar_action ar_source rule_is_allow]; try done.
  all: by rewrite try_from_as_i32, ipnet_text_not_all, network_inverse.
Qed.

Lemma real_ip_inverse c :
  RealIpConfig_validate c = Ok tt -> real_ip_from_proto (real_ip_to_proto c) = Ok c.
Proof.
  intros Hc. unfold real_ip_from_proto. cbn [real_ip_to_proto ri_trusted_proxies ri_header ri_recursive].
  rewrite mapM_inverse by (apply Forall_forall; intros; apply network_inverse). destruct c as [t h r].
  cbn [mbind result_bind trusted_proxies real_ip_header recursive from_option id].
  destruct h as [|a h]; [done|]. cbn [is_empty]. by rewrite Hc.
Qed.
End client_policy_inverse.
