(* ===== verification/GrpcDecode.v ===== *)
(** * Reading a snapshot from the wire (crates/ngxora-runtime/src/grpc/decode.rs) *)

From S2P Require Import Prelude RustStr NetAddr Crates Ir Types CompileUpstreams CompileRoutes CompileRouter Control.
From S2P Require Import Proto GrpcValues.

Open Scope N_scope.

#[global] Instance DownstreamTlsOptions_eq_dec : EqDecision DownstreamTlsOptions.
Proof. solve_decision. Defined.

Definition upstream_http_protocol_from_proto (value : Z) : result string (option UpstreamHttpProtocol) :=
  protocol ← ok_or (try_from_i32 value) ("unknown upstream HTTP protocol value `" +:+ pretty value +:+ "`");
  Ok match protocol with PhUnspecified => None | PhH1 => Some H1 | PhH2 => Some H2 | PhH2c => Some H2c end.

Definition cache_key_mode_from_proto (value : Z) : result string CacheKeyMode :=
  mode ← ok_or (try_from_i32 value) ("unknown cache key mode value `" +:+ pretty value +:+ "`");
  Ok match mode with
     | PkUnspecified | PkUri => KeyUri
     | PkUriAndMethod => KeyUriAndMethod
     | PkNormalizedUri => KeyNormalizedUri
     end.

(** On a 64-bit target every [u32] is a [usize]. *)
Definition route_cache_from_proto (cache : option ProtoRouteCache) : result string (option CacheConfig) :=
  match cache with
  | None => Ok None
  | Some cache =>
      let config := CacheConfig_default in
      switch ← ok_or (try_from_i32 (rc_enabled cache))
                 ("unknown cache enabled switch value `" +:+ pretty (rc_enabled cache) +:+ "`");
      cache_key ← cache_key_mode_from_proto (rc_key_mode cache);
      statuses ← (if is_nil (rc_valid_statuses cache) then Ok (valid_statuses config)
                  else mapM (fun status => ok_or (u16_try_from status)
                                  ("cache valid status " +:+ pretty status +:+ " is out of range"))
                         (rc_valid_statuses cache));
      Ok (Some (mkCacheConfig (match switch with PsOff => false | _ => enabled config end)
                  (none_if_zero (rc_max_size_bytes cache))
                  (option_or (duration_from_millis (rc_ttl_ms cache)) (ttl config))
                  (duration_from_millis (rc_stale_if_error_ms cache))
                  cache_key (none_if_zero (rc_min_uses cache)) statuses))
  end.

Definition matcher_from_proto (value : option ProtoMatch) : result string LocationMatcher :=
  matcher ← ok_or value "route match is required";
  kind ← ok_or (mt_kind matcher) "route match kind is required";
  Ok match kind with
     | MkHttp matcher => LmHttp (http_match_from_proto matcher)
     | MkPrefix path => LmPrefix path
     | MkExact path => LmExact path
     | MkPreferPrefix path => LmPreferPrefix path
     | MkRegex regex => LmRegex (rx_case_insensitive regex) (rx_pattern regex)
     | MkNamed name => LmNamed name
     end.

Definition upstream_backend_from_proto (backend : ProtoUpstreamBackend) : result string UpstreamServer :=
  let quoted := "upstream backend `" +:+ ub_host backend +:+ "`" in
  _ ← fail_if (is_empty (trim (ub_host backend))) "upstream backend host cannot be empty";
  _ ← fail_if (ub_port backend =? 0) (quoted +:+ " port must be greater than zero");
  port ← ok_or (u16_try_from (ub_port backend)) (quoted +:+ " port is out of range");
  weight ← (if ub_weight backend =? 0 then Ok 1
            else ok_or (u16_try_from (ub_weight backend)) (quoted +:+ " weight is out of range"));
  Ok (mkUpstreamServer (ub_host backend) port weight).

Definition upstream_health_check_from_proto (health_check : ProtoUpstreamHealthCheck) : result string UpstreamHealthCheck :=
  kind ← ok_or (uh_kind health_check) "upstream health_check kind is required";
  timeout ← ok_or (duration_from_millis (uh_timeout_ms health_check))
              "upstream health_check timeout must be greater than zero";
  interval ← ok_or (duration_from_millis (uh_interval_ms health_check))
               "upstream health_check interval must be greater than zero";
  _ ← fail_if (uh_consecutive_success health_check =? 0)
        "upstream health_check consecutive_success must be greater than zero";
  _ ← fail_if (uh_consecutive_failure health_check =? 0)
        "upstream health_check consecutive_failure must be greater than zero";
  check_type ← match kind with
               | HkTcp => Ok UpTcp
               | HkHttp http =>
                   _ ← fail_if (is_empty (trim (hh_host http))) "upstream health_check http host cannot be empty";
                   _ ← fail_if (is_empty (hh_path http)) "upstream health_check http path cannot be empty";
                   Ok (UpHttp (hh_host http) (hh_path http) (hh_use_tls http))
               end;
  Ok (mkUpstreamHealthCheck check_type timeout interval (uh_consecutive_success health_check)
        (uh_consecutive_failure health_check)).

(** The closure of [nrf_discovery_from_proto]. *)
Definition nrf_required (value field : string) : result string string :=
  let value := trim value in
  if is_empty value then Err ("nrf_discovery " +:+ field +:+ " is required") else Ok value.

Definition nrf_discovery_from_proto (value : ProtoNrfDiscovery) : result string NrfDiscovery :=
  endpoint_scheme ← match wire_or (nd_endpoint_scheme value) PnUnspecified with
                    | PnHttp => Ok NrfHttp
                    | PnHttps => Ok NrfHttps
                    | PnUnspecified => Err "nrf_discovery endpoint_scheme is required"
                    end;
  api_root ← nrf_required (nd_api_root value) "api_root";
  target_nf_type ← nrf_required (nd_target_nf_type value) "target_nf_type";
  requester_nf_type ← nrf_required (nd_requester_nf_type value) "requester_nf_type";
  service_name ← nrf_required (nd_service_name value) "service_name";
  tls_options ← upstream_tls_options_from_proto (nd_tls_options value);
  Ok (mkNrfDiscovery api_root target_nf_type requester_nf_type service_name endpoint_scheme
        (from_millis (if nd_timeout_ms value =? 0 then 3000 else nd_timeout_ms value))
        (from_millis (if nd_stale_if_error_ms value =? 0 then 60000 else nd_stale_if_error_ms value))
        (default UpstreamSslOptions_default tls_options)).

Section decode.
Context `{Crates}.

Definition plugin_spec_from_proto (plugin : ProtoPlugin) : result string PluginSpec :=
  _ ← fail_if (is_empty (trim (pl_name plugin))) "plugin name cannot be empty";
  config ← (if is_empty (trim (pl_json_config plugin)) then Ok (to_value JNull)
            else map_err (fun err => "invalid plugin JSON for `" +:+ pl_name plugin +:+ "`: " +:+ err)
                   (json_from_str (pl_json_config plugin)));
  Ok (mkPluginSpec _ (pl_name plugin) config).

Definition proxy_pass_target_from_proto (upstream : ProtoUpstream) : result string ProxyPassTarget :=
  tls ← ok_or (proxy_pass_tls (pu_scheme upstream))
          ("unsupported upstream scheme `" +:+ pu_scheme upstream +:+ "`");
  let has_direct := negb (is_empty (trim (pu_host upstream))) || negb (pu_port upstream =? 0) in
  let has_group := negb (is_empty (trim (pu_upstream_group upstream))) in
  _ ← fail_if (has_direct && has_group) "route upstream must set either host/port or upstream_group, not both";
  if has_group then Ok (PpUpstreamGroup (pu_upstream_group upstream) tls)
  else
    _ ← fail_if (is_empty (trim (pu_host upstream))) "upstream host cannot be empty";
    _ ← fail_if (pu_port upstream =? 0) "upstream port must be greater than zero";
    let raw := pu_scheme upstream +:+ "://" +:+ pu_host upstream +:+ ":" +:+ pretty (pu_port upstream) in
    url ← map_err (fun err => "invalid upstream URL `" +:+ raw +:+ "`: " +:+ err) (url_parse raw);
    Ok (PpUrl url).

Definition return_directive_from_proto (redirect : ProtoRedirect) : result string LocationDirective :=
  status ← ok_or (u16_try_from (rd_status redirect))
             ("redirect status " +:+ pretty (rd_status redirect) +:+ " is out of range");
  _ ← fail_if (negb ((300 <=? status) && (status <=? 399)))
        ("redirect status " +:+ pretty status +:+ " is not a redirect (expected 3xx)");
  _ ← fail_if (is_empty (rd_location redirect)) "redirect location cannot be empty";
  Ok (Return_ status (rd_location redirect)).

(** The closure over the weighted backends of a route. *)
Definition weighted_backend_from_proto (b : ProtoWeightedBackend) : result string WeightedBackend :=
  target ← ok_or (pw_target b) "weighted backend target is required";
  target ← match target with
           | WtUpstream upstream => BtUpstream <$> proxy_pass_target_from_proto upstream
           | WtDirectResponse response => BtResponse <$> direct_status (dr_status response)
           end;
  Ok (mkWeightedBackend (default 1 (pw_weight b)) target).

(** The directive of a route's action. *)
Definition action_directive (action : RouteAction) : result string LocationDirective :=
  match action with
  | AcWeightedBackends backends => WeightedBackends <$> mapM weighted_backend_from_proto (pw_backends backends)
  | AcDirectResponse response => DirectResponse <$> direct_status (dr_status response)
  | AcHttpRedirect config => DHttpRedirect <$> http_redirect_from_proto config
  | AcScpProfile name => Ok (ScpPass name)
  | AcUpstream upstream => ProxyPass <$> proxy_pass_target_from_proto upstream
  | AcRedirect redirect => return_directive_from_proto redirect
  end.

(** [if let Some(value) = o { directives.push(f(value)) }]. *)
Definition push {A} (f : A -> LocationDirective) (o : option A) : list LocationDirective := option_list (f <$> o).

Definition timeout_directives (timeouts : option ProtoRouteTimeouts) : list LocationDirective :=
  match timeouts with
  | None => []
  | Some t =>
      push ProxyConnectTimeout (duration_from_millis (rt_connect_timeout_ms t))
      ++ push ProxyReadTimeout (duration_from_millis (rt_read_timeout_ms t))
      ++ push ProxyWriteTimeout (duration_from_millis (rt_write_timeout_ms t))
  end.
Definition tls_directives (o : option UpstreamSslOptions) : list LocationDirective :=
  match o with
  | None => []
  | Some o =>
      [ProxySslVerify (verify_cert o)]
      ++ push ProxySslTrustedCertificate (trusted_certificate o)
      ++ push ProxySslCertificate (client_certificate o)
      ++ push ProxySslCertificateKey (client_certificate_key o)
  end.
Definition http2_directives (h2 : option ProtoUpstreamHttp2Options) : list LocationDirective :=
  match h2 with
  | None => []
  | Some h2 =>
      push ProxyHttp2MaxConcurrentStreams (uh_max_concurrent_streams h2)
      ++ push ProxyHttp2StreamWindowSize (uh_stream_window_size h2)
      ++ push ProxyHttp2ConnectionWindowSize (uh_connection_window_size h2)
  end.
Definition limit_directives (route : ProtoRoute) : list LocationDirective :=
  push ClientMaxBodySize (rt_client_max_body_size_bytes route)
  ++ push (fun ms => ClientBodyTimeout (from_millis ms)) (rt_client_body_timeout_ms route)
  ++ push (fun ms => SendTimeout (from_millis ms)) (rt_send_timeout_ms route)
  ++ (if is_nil (rt_allowed_methods route) then [] else [AllowMethods (rt_allowed_methods route)]).
Definition rewrite_from_proto (rewrite : ProtoUrlRewrite) : result string UrlRewrite :=
  path ← traverse modifier_from_proto (ur_path rewrite);
  Ok (mkUrlRewrite (ur_hostname rewrite) path).

Definition location_from_proto_route (route : ProtoRoute) : result string Location :=
  matcher ← matcher_from_proto (rt_match route);
  tls_options ← upstream_tls_options_from_proto (rt_tls_options route);
  protocol ← upstream_http_protocol_from_proto (rt_upstream_protocol route);
  action ← ok_or (rt_action route) "route action is required";
  action ← action_directive action;
  rewrite ← traverse rewrite_from_proto (rt_url_rewrite route);
  access_rules ← mapM access_from_proto (rt_access_rules route);
  plugins ← mapM plugin_spec_from_proto (rt_plugins route);
  cache ← route_cache_from_proto (rt_cache route);
  Ok (mkLocation matcher access_rules
        (timeout_directives (rt_timeouts route) ++ tls_directives tls_options ++ push ProxyUpstreamProtocol protocol
         ++ http2_directives (rt_upstream_http2 route) ++ [action] ++ push DUrlRewrite rewrite
         ++ limit_directives route)
        plugins cache).

(** ** Upstream groups *)

Definition upstream_hash_key_from_proto (value : ProtoUpstreamHashKey) : result string UpstreamHashKey :=
  match hk_source value with
  | Some (HkClientIp true) => Ok HashClientIp
  | Some (HkClientIp false) => Err "upstream hash_key client_ip must be true"
  | Some (HkHeader name) =>
      _ ← ok_or (header_name_from name) ("upstream hash_key has invalid HTTP header name `" +:+ name +:+ "`");
      Ok (HashHeader name)
  | None => Err "upstream hash_key source is required"
  end.

Definition upstream_from_proto (upstream : ProtoUpstreamGroup) : result string UpstreamBlock :=
  let name := trim (ug_name upstream) in
  let quoted := "upstream group `" +:+ name +:+ "`" in
  _ ← fail_if (is_empty name) "upstream group name cannot be empty";
  servers ← mapM upstream_backend_from_proto (ug_backends upstream);
  _ ← fail_if (is_nil servers && is_none (ug_nrf_discovery upstream) && negb (ug_allow_empty upstream))
        (quoted +:+ " must define at least one backend or nrf_discovery");
  _ ← fail_if (negb (is_nil servers) && is_some (ug_nrf_discovery upstream))
        (quoted +:+ " cannot combine backends with nrf_discovery");
  policy ← upstream_selection_policy_from_proto (ug_policy upstream);
  hash_key ← traverse upstream_hash_key_from_proto (ug_hash_key upstream);
  nrf_discovery ← traverse nrf_discovery_from_proto (ug_nrf_discovery upstream);
  health_check ← traverse upstream_health_check_from_proto (ug_health_check upstream);
  Ok (mkUpstreamBlock (ug_allow_empty upstream) name policy hash_key servers nrf_discovery health_check).
Definition upstreams_from_proto (upstreams : list ProtoUpstreamGroup) : result string (list UpstreamBlock) :=
  mapM upstream_from_proto upstreams.

(** ** Listeners and virtual hosts *)

Record ListenerDef := mkListenerDef {
  ld_name : string;
  ld_listen : Listen;
  ld_tls_options : DownstreamTlsOptions
}.

(** [ListenerDef::try_from]. *)
Definition ListenerDef_try_from (value : ProtoListener) : result string ListenerDef :=
  addr ← ok_or (parse_ip (pl_address value))
           ("invalid listener address `" +:+ pl_address value +:+ "`: invalid IP address syntax");
  port ← ok_or (u16_try_from (pl_port value)) ("invalid listener port `" +:+ pretty (pl_port value) +:+ "`");
  tls_options ← listener_tls_options_from_proto (pl_tls_options value);
  _ ← fail_if (negb (pl_tls value) && negb (bool_decide (tls_options = DownstreamTlsOptions_default)))
        ("listener `" +:+ pl_listener_name value +:+ "` defines TLS options but tls=false");
  Ok (mkListenerDef (pl_listener_name value)
        (mkListen addr port (pl_tls value) false (pl_http2 value) (pl_http2_only value)) tls_options).

Definition add_listener_def (defs : gmap string ListenerDef) (listener : ProtoListener) : result string (gmap string ListenerDef) :=
  let name := trim (pl_listener_name listener) in
  _ ← fail_if (is_empty name) "listener name cannot be empty";
  _ ← fail_if (is_some (defs !! name)) ("listener `" +:+ name +:+ "` is duplicated");
  def ← ListenerDef_try_from listener;
  Ok (<[name := def]> defs).
Definition listener_defs (listeners : list ProtoListener) : result string (gmap string ListenerDef) :=
  try_fold add_listener_def ∅ listeners.

Definition server_from_proto_virtual_host (listener : ListenerDef) (virtual_host : ProtoVirtualHost) : result string Server :=
  let quoted := "virtual host on listener `" +:+ ld_name listener +:+ "`" in
  let listen := ld_listen listener in
  _ ← fail_if (l_ssl listen && is_none (vh_tls virtual_host)) (quoted +:+ " requires a TLS binding");
  _ ← fail_if (negb (l_ssl listen) && is_some (vh_tls virtual_host))
        (quoted +:+ " cannot define TLS binding on a plaintext listener");
  locations ← mapM location_from_proto_route (vh_routes virtual_host);
  tls ← traverse tls_identity_from_proto (vh_tls virtual_host);
  Ok (mkServer (vh_server_names virtual_host) locations
        [mkListen (l_addr listen) (l_port listen) (l_ssl listen) (vh_default_server virtual_host) (l_http2 listen)
           (l_http2_only listen)]
        (Custom <$> tls) (ld_tls_options listener)).

Definition virtual_host_server (defs : gmap string ListenerDef) (virtual_host : ProtoVirtualHost) : result string Server :=
  listener ← ok_or (defs !! vh_listener virtual_host)
               ("virtual host references unknown listener `" +:+ vh_listener virtual_host +:+ "`");
  server_from_proto_virtual_host listener virtual_host.

(** ** The snapshot *)

Definition scp_profile_from_proto (p : ProtoScpProfile) : ScpProfile :=
  mkScpProfile (sp_name p) (sp_api_root p) (sp_discovery_upstreams p) (sp_allowed_target_api_roots p).
Definition http2_from_proto (h2 : ProtoHttp2Options) : Http2Options :=
  mkHttp2Options (h2_max_concurrent_streams h2) (h2_max_header_list_size h2) (h2_stream_window_size h2)
    (h2_connection_window_size h2).
Definition geoip_from_proto (config : ProtoGeoIpConfig) : result string GeoIpConfig :=
  trusted ← mapM (fun raw => ok_or (parse_network raw) ("invalid geoip trusted_proxy `" +:+ raw +:+ "`"))
              (gi_trusted_proxies config);
  Ok (mkGeoIpConfig (gi_database config) (from_millis (default 5000 (gi_reload_interval_ms config))) trusted).

Definition http_from_proto_snapshot (snapshot : ProtoConfigSnapshot) : result string Http :=
  let options := default ProtoHttpOptions_default (cf_http snapshot) in
  defs ← listener_defs (cf_listeners snapshot);
  servers ← mapM (virtual_host_server defs) (cf_virtual_hosts snapshot);
  upstreams ← upstreams_from_proto (cf_upstreams snapshot);
  real_ip ← traverse real_ip_from_proto (ho_real_ip options);
  geoip ← traverse geoip_from_proto (cf_geoip snapshot);
  Ok (mkHttp real_ip
        (from_millis <$> ho_client_header_timeout_ms options)
        (from_millis <$> ho_client_body_timeout_ms options)
        (from_millis <$> ho_send_timeout_ms options)
        (scp_profile_from_proto <$> cf_scp_profiles snapshot)
        upstreams servers
        (keepalive_timeout_from_proto (ho_downstream_keepalive_timeout_seconds options))
        (none_if_zero (ho_keepalive_requests options))
        (none_if_zero (ho_client_max_body_size_bytes options))
        (none_if_zero (ho_proxy_cache_max_size_bytes options))
        On
        (switch_from_bool (ho_allow_connect_method_proxying options))
        (switch_from_bool (ho_h2c options))
        (default Http2Options_default (http2_from_proto <$> ho_http2 options))
        (le_config_from_proto <$> cf_le_config snapshot)
        geoip).

Definition runtime_snapshot_from_proto (snapshot : ProtoConfigSnapshot) : result string ConfigSnapshot :=
  http ← http_from_proto_snapshot snapshot;
  router ← from_http http;
  Ok (mkConfigSnapshot (cf_version snapshot) router).
End decode.
