(* ===== verification/GrpcEncode.v ===== *)
(** * Exporting the active snapshot (crates/ngxora-runtime/src/grpc/encode.rs) *)

From S2P Require Import Prelude RustStr NetAddr Crates Ir Types CompileUpstreams CompileRoutes CompileRouter Control.
From S2P Require Import Proto GrpcValues.

Open Scope N_scope.

(** [as_millis() as u64] wraps; [try_into().unwrap_or(MAX)] saturates. *)
Definition millis_u64 (d : N) : N := as_millis d mod (u64_max + 1).
Definition saturate (max n : N) : N := N.min n max.

(** ** Routes *)

Definition proto_match_from_runtime (matcher : CompiledMatcher) : ProtoMatch :=
  mkProtoMatch (Some match matcher with
                     | CmHttp matcher => MkHttp (http_match_to_proto matcher)
                     | CmPrefix path => MkPrefix path
                     | CmExact path => MkExact path
                     | CmPreferPrefix path => MkPreferPrefix path
                     | CmRegex pattern case_insensitive => MkRegex (mkProtoRegex pattern case_insensitive)
                     | CmNamed name => MkNamed name
                     end).

(** The [Upstream] message of a proxied target. *)
Definition proto_upstream_of (target : RouteTarget) : option ProtoUpstream :=
  match target with
  | RtProxyPass host port tls _ => Some (mkProtoUpstream (if tls then "https" else "http") host port "")
  | RtUpstreamGroup name tls => Some (mkProtoUpstream (if tls then "https" else "http") "" 0 name)
  | _ => None
  end.

(** The closure over the weighted backends. *)
Definition proto_weighted_backend (b : CompiledWeightedBackend) : result string ProtoWeightedBackend :=
  target ← match cwb_target b with
           | RtDirectResponse status => Ok (WtDirectResponse (mkProtoDirectResponse status))
           | (RtProxyPass _ _ _ _ | RtUpstreamGroup _ _) as target =>
               upstream ← ok_or (proto_upstream_of target) "invalid compiled upstream target";
               Ok (WtUpstream upstream)
           | _ => Err "weighted backend must be an upstream or direct response"
           end;
  Ok (mkProtoWeightedBackend (Some (cwb_weight b)) (Some target)).

Definition proto_route_action_from_runtime (target : RouteTarget) : result string RouteAction :=
  match target with
  | RtDirectResponse status => Ok (AcDirectResponse (mkProtoDirectResponse status))
  | RtHttpRedirect config =>
      Ok (AcHttpRedirect (mkProtoHttpRedirect (redirect_status config) (redirect_scheme config)
            (redirect_hostname config) (redirect_port config) (modifier_to_proto <$> redirect_path config)))
  | RtWeightedBackends backends =>
      backends ← mapM proto_weighted_backend backends;
      Ok (AcWeightedBackends (mkProtoWeightedBackends backends))
  | RtScp profile => Ok (AcScpProfile profile)
  | RtProxyPass _ _ _ _ | RtUpstreamGroup _ _ =>
      upstream ← ok_or (proto_upstream_of target) ""; Ok (AcUpstream upstream)
  | RtReturn status location => Ok (AcRedirect (mkProtoRedirect status location))
  end.

Definition proto_upstream_http_protocol_from_runtime (value : option UpstreamHttpProtocol) : ProtoUpstreamHttpProtocol :=
  match value with None => PhUnspecified | Some H1 => PhH1 | Some H2 => PhH2 | Some H2c => PhH2c end.
Definition proto_cache_key_mode_from_runtime (value : CacheKeyMode) : ProtoCacheKeyMode :=
  match value with KeyUri => PkUri | KeyUriAndMethod => PkUriAndMethod | KeyNormalizedUri => PkNormalizedUri end.
Definition proto_route_cache_from_runtime (value : CacheConfig) : ProtoRouteCache :=
  mkProtoRouteCache (as_i32 (proto_switch_from_runtime (if enabled value then On else Off)))
    (default 0 (cache_max_size value))
    (duration_to_millis (ttl value))
    (duration_to_millis (stale_if_error value))
    (as_i32 (proto_cache_key_mode_from_runtime (cache_key value)))
    (default 0 (min_uses value ≫= fun uses => then_some (uses <=? u32_max) uses))
    (valid_statuses value).
Definition proto_timeouts_from_runtime (timeouts : UpstreamTimeouts) : ProtoRouteTimeouts :=
  mkProtoRouteTimeouts (duration_to_millis (connect timeouts)) (duration_to_millis (read timeouts))
    (duration_to_millis (write timeouts)).

(** ** Upstream groups *)

Definition proto_upstream_hash_key_from_runtime (value : UpstreamHashKey) : ProtoUpstreamHashKey :=
  mkProtoUpstreamHashKey (Some match value with HashClientIp => HkClientIp true | HashHeader name => HkHeader name end).
Definition proto_upstream_health_check_from_runtime (value : CompiledHealthCheck) : ProtoUpstreamHealthCheck :=
  mkProtoUpstreamHealthCheck
    (Some match check_type value with
          | HcTcp => HkTcp
          | HcHttp host path use_tls => HkHttp (mkProtoUpstreamHttpHealthCheck host path use_tls)
          end)
    (saturate u64_max (as_millis (hc_timeout value)))
    (saturate u64_max (as_millis (hc_interval value)))
    (saturate u32_max (consecutive_success value))
    (saturate u32_max (consecutive_failure value)).
Definition proto_backend_from_runtime (server : CompiledUpstreamServer) : ProtoUpstreamBackend :=
  mkProtoUpstreamBackend (cs_host server) (cs_port server) (cs_weight server).

(** ** Listeners *)

(** The derived order of [ListenKey]. *)
Definition ip_leb (a b : IpAddr) : bool :=
  match a, b with V4 x, V4 y | V6 x, V6 y => x <=? y | V4 _, V6 _ => true | V6 _, V4 _ => false end.
Definition listen_key_leb (a b : ListenKey) : bool :=
  if negb (bool_decide (addr a = addr b)) then ip_leb (addr a) (addr b)
  else if negb (port a =? port b) then port a <? port b
  else implb (ssl a) (ssl b).

(** The keys are distinct, so that every key has one index. *)
Definition listener_names (keys : list ListenKey) : gmap ListenKey string :=
  list_to_map (imap (fun index key => (key, "listener-" +:+ pretty (N.of_nat index + 1))) keys).

(** [find] on a list that is updated in place: the first element with [p]. *)
Fixpoint update_first {A} (p : A -> bool) (f : A -> A) (l : list A) : option (list A) :=
  match l with
  | [] => None
  | x :: l' => if p x then Some (f x :: l') else cons x <$> update_first p f l'
  end.

Section encode.
Context `{Crates} `{HashIter}.

Definition proto_plugin_from_runtime (plugin : PluginSpec) : result string ProtoPlugin :=
  json ← map_err (fun err => "failed to serialize plugin `" +:+ plugin_name plugin +:+ "` config: " +:+ err)
           (json_to_string (plugin_config plugin));
  Ok (mkProtoPlugin (plugin_name plugin) json).

Definition proto_rewrite_from_runtime (rewrite : UrlRewrite) : ProtoUrlRewrite :=
  mkProtoUrlRewrite (rewrite_hostname rewrite) (modifier_to_proto <$> rewrite_path rewrite).

Definition proto_route_from_runtime (route : CompiledLocation) : result string ProtoRoute :=
  action ← proto_route_action_from_runtime (target route);
  plugins ← mapM proto_plugin_from_runtime (plugins route);
  Ok (mkProtoRoute
        (Some (proto_match_from_runtime (matcher route)))
        (Some action)
        (Some (proto_timeouts_from_runtime (upstream_timeouts route)))
        plugins
        (Some (proto_upstream_tls_options_from_runtime (upstream_ssl_options route)))
        (as_i32 (proto_upstream_http_protocol_from_runtime (upstream_protocol route)))
        (proto_route_cache_from_runtime <$> cache route)
        (proto_rewrite_from_runtime <$> url_rewrite route)
        (Some (mkProtoUpstreamHttp2Options (up_max_concurrent_streams (upstream_http2 route))
                 (up_stream_window_size (upstream_http2 route)) (up_connection_window_size (upstream_http2 route))))
        (access_to_proto <$> access_rules route)
        (allowed_methods (client_limits route))
        (max_body_size (client_limits route))
        (millis_u64 <$> body_timeout (client_limits route))
        (millis_u64 <$> limit_send_timeout (client_limits route))).
Definition proto_routes_from_runtime (routes : ServerRoutes) : result string (list ProtoRoute) :=
  mapM proto_route_from_runtime (sr_locations routes).

Definition proto_nrf_discovery_from_runtime (value : CompiledNrfDiscovery) : ProtoNrfDiscovery :=
  mkProtoNrfDiscovery (trim_end_matches "/" (url_to_string (cn_api_root value)))
    (cn_target_nf_type value) (cn_requester_nf_type value) (cn_service_name value)
    (as_i32 (match cn_endpoint_scheme value with NrfHttp => PnHttp | NrfHttps => PnHttps end))
    (saturate u64_max (as_millis (cn_timeout value)))
    (saturate u64_max (as_millis (cn_stale_if_error value)))
    (Some (proto_upstream_tls_options_from_runtime (cn_tls_options value))).
Definition proto_upstream_from_runtime (group : CompiledUpstreamGroup) : ProtoUpstreamGroup :=
  mkProtoUpstreamGroup (g_name group) (proto_backend_from_runtime <$> g_servers group)
    (as_i32 (proto_upstream_selection_policy_from_runtime (g_policy group)))
    (proto_upstream_health_check_from_runtime <$> g_health_check group)
    (proto_upstream_hash_key_from_runtime <$> g_hash_key group)
    (proto_nrf_discovery_from_runtime <$> g_nrf_discovery group)
    (g_allow_empty group).
Definition proto_upstreams_from_runtime (upstreams : gmap string CompiledUpstreamGroup) : list ProtoUpstreamGroup :=
  proto_upstream_from_runtime <$> stable_sort (fun a b => String.leb (g_name a) (g_name b)) (iter_values upstreams).

Definition proto_http_options_from_runtime (options : HttpRuntimeOptions) : ProtoHttpOptions :=
  mkProtoHttpOptions (default 0 (downstream_keepalive_timeout options)) (ro_tcp_nodelay options)
    (default 0 (ro_keepalive_requests options)) (ro_allow_connect_method_proxying options) (ro_h2c options)
    (default 0 (ro_client_max_body_size options)) (default 0 (ro_proxy_cache_max_size options))
    (Some (mkProtoHttp2Options (max_concurrent_streams (ro_http2 options)) (max_header_list_size (ro_http2 options))
             (stream_window_size (ro_http2 options)) (connection_window_size (ro_http2 options))))
    (real_ip_to_proto <$> ro_real_ip options)
    (millis_u64 <$> ro_client_header_timeout options)
    (millis_u64 <$> ro_client_body_timeout options)
    (millis_u64 <$> ro_send_timeout options).

Definition proto_listener_from_runtime (router : CompiledRouter) (names : gmap ListenKey string) (key : ListenKey)
  : result string ProtoListener :=
  let protocol := default ListenerProtocolConfig_default (r_listener_protocols router !! key) in
  let tls_options := (fun tls => proto_listener_tls_options_from_runtime (settings tls)) <$> r_listener_tls router !! key in
  name ← ok_or (names !! key) "listener name mapping is incomplete";
  Ok (mkProtoListener name (show_ip (addr key)) (port key) (ssl key) (lp_http2 protocol) (lp_http2_only protocol) tls_options).

Definition merge_or_push_virtual_host (out : list ProtoVirtualHost) (listener_name : string) (default_server : bool)
    (host : string) (routes : ServerRoutes) (identity : option TlsIdentity) : result string (list ProtoVirtualHost) :=
  let tls := proto_tls_binding_from_runtime <$> identity in
  routes ← proto_routes_from_runtime routes;
  Ok match update_first (fun current => String.eqb (vh_listener current) listener_name
                           && Bool.eqb (vh_default_server current) default_server
                           && bool_decide (vh_tls current = tls) && bool_decide (vh_routes current = routes))
           (fun current => mkProtoVirtualHost (vh_listener current)
                             (stable_sort String.leb (vh_server_names current ++ [host]))
                             (vh_default_server current) (vh_tls current) (vh_routes current)) out with
     | Some out => out
     | None => out ++ [mkProtoVirtualHost listener_name [host] default_server tls routes]
     end.

Definition sorted_named_routes (routes : gmap string ServerRoutes) : list (string * ServerRoutes) :=
  stable_sort (fun a b => String.leb (fst a) (fst b)) (iter routes).

(** One step of the loop over the named hosts. *)
Definition push_named (listener_name : string) (tls : option ListenerTlsConfig) (out : list ProtoVirtualHost)
    (entry : string * ServerRoutes) : result string (list ProtoVirtualHost) :=
  let '(host, server_routes) := entry in
  let identity := option_or (tls ≫= fun cfg => tls_named cfg !! host) (tls ≫= tls_default) in
  merge_or_push_virtual_host out listener_name false host server_routes identity.

Definition proto_virtual_hosts_from_runtime (listener_name : string) (routes : VirtualHostRoutes)
    (tls : option ListenerTlsConfig) : result string (list ProtoVirtualHost) :=
  virtual_hosts ← try_fold (push_named listener_name tls) [] (sorted_named_routes (named routes));
  match default_routes routes with
  | None => Ok virtual_hosts
  | Some default_routes =>
      default_routes_proto ← proto_routes_from_runtime default_routes;
      let default_tls_proto := proto_tls_binding_from_runtime <$> (tls ≫= tls_default) in
      Ok match update_first (fun current => String.eqb (vh_listener current) listener_name
                               && bool_decide (vh_routes current = default_routes_proto)
                               && bool_decide (vh_tls current = default_tls_proto))
               (fun current => mkProtoVirtualHost (vh_listener current) (vh_server_names current) true
                                 (vh_tls current) (vh_routes current)) virtual_hosts with
         | Some out => out
         | None => virtual_hosts ++ [mkProtoVirtualHost listener_name [] true default_tls_proto default_routes_proto]
         end
  end.

(** One step of the loop over the listeners. *)
Definition push_listener (router : CompiledRouter) (names : gmap ListenKey string) (out : list ProtoVirtualHost)
    (key : ListenKey) : result string (list ProtoVirtualHost) :=
  routes ← ok_or (r_listeners router !! key) "listener disappeared while building snapshot";
  listener_name ← ok_or (names !! key) "listener name mapping is incomplete";
  hosts ← proto_virtual_hosts_from_runtime listener_name routes (r_listener_tls router !! key);
  Ok (out ++ hosts).

Definition scp_profile_to_proto (p : ScpProfile) : ProtoScpProfile :=
  mkProtoScpProfile (scp_name p) (scp_api_root p) (discovery_upstreams p) (allowed_target_api_roots p).
Definition geoip_to_proto (config : GeoIpConfig) : ProtoGeoIpConfig :=
  mkProtoGeoIpConfig (database config) (Some (millis_u64 (reload_interval config)))
    (ipnet_to_string <$> geo_trusted_proxies config).

(** [proto_snapshot_from_runtime]: what it reads of the snapshot is its version and
    its router. *)
Definition proto_snapshot_from_router (version : string) (router : CompiledRouter) : result string ProtoConfigSnapshot :=
  let listener_keys := stable_sort listen_key_leb (iter_keys (r_listeners router)) in
  let names := listener_names listener_keys in
  listeners ← mapM (proto_listener_from_runtime router names) listener_keys;
  virtual_hosts ← try_fold (push_listener router names) [] listener_keys;
  Ok (mkProtoConfigSnapshot version (Some (proto_http_options_from_runtime (r_http_options router)))
        listeners virtual_hosts (proto_upstreams_from_runtime (r_upstreams router))
        (proto_le_config_from_ir <$> r_le_config router)
        (scp_profile_to_proto <$> stable_sort (fun a b => String.leb (scp_name a) (scp_name b)) (iter_values (r_scp_profiles router)))
        (geoip_to_proto <$> r_geoip router)).
End encode.

Definition proto_snapshot_from_runtime `{RuntimeDeps} `{HashIter} (snapshot : RuntimeSnapshot) : result string ProtoConfigSnapshot :=
  proto_snapshot_from_router (sn_version snapshot) (sn_router snapshot).
