(* ===== verification/GrpcRoutes.v ===== *)
(** * Exporting and reading back routes

    A route that a control plane sent, once compiled, is exported as a message that
    reads back and compiles to the same location: [GetSnapshot] followed by
    [ApplySnapshot] does not change what a route does. *)

From S2P Require Import Prelude RustStr NetAddr Crates Ir Types HttpRoutes CompileUpstreams CompileRoutes.
From S2P Require Import Proto GrpcValues GrpcDecode GrpcEncode.

Open Scope N_scope.

(** ** Compiling the directives of a decoded route *)

Section decoded.
Context `{Crates}.

(** The directives that [location_from_proto_route] produces. *)
Definition timeouts_part (t : UpstreamTimeouts) : list LocationDirective :=
  push ProxyConnectTimeout (connect t) ++ push ProxyReadTimeout (read t) ++ push ProxyWriteTimeout (write t).
Definition http2_part (h : UpstreamHttp2Options) : list LocationDirective :=
  push ProxyHttp2MaxConcurrentStreams (up_max_concurrent_streams h)
  ++ push ProxyHttp2StreamWindowSize (up_stream_window_size h)
  ++ push ProxyHttp2ConnectionWindowSize (up_connection_window_size h).
Definition limits_part (l : ClientLimits) : list LocationDirective :=
  push ClientMaxBodySize (max_body_size l) ++ push ClientBodyTimeout (body_timeout l)
  ++ push SendTimeout (limit_send_timeout l)
  ++ (if is_nil (allowed_methods l) then [] else [AllowMethods (allowed_methods l)]).
Definition route_directives (t : UpstreamTimeouts) (o : option UpstreamSslOptions) (p : option UpstreamHttpProtocol)
    (h : UpstreamHttp2Options) (a : LocationDirective) (r : option UrlRewrite) (l : ClientLimits) : list LocationDirective :=
  timeouts_part t ++ tls_directives o ++ push ProxyUpstreamProtocol p ++ http2_part h ++ [a] ++ push DUrlRewrite r
  ++ limits_part l.

Definition is_action (d : LocationDirective) : bool :=
  match d with
  | WeightedBackends _ | DirectResponse _ | DHttpRedirect _ | ScpPass _ | ProxyPass _ | Return_ _ _ => true
  | _ => false
  end.

(** Directives that a pass does not look at. *)
Definition skipped {S} (f : S -> LocationDirective -> result string S) (d : LocationDirective) : Prop :=
  forall s, f s d = Ok s.

Lemma try_fold_skip {S} (f : S -> LocationDirective -> result string S) s l :
  Forall (skipped f) l -> try_fold f s l = Ok s.
Proof. induction 1 as [|d l Hd _ IH]; simpl; [done|]. by rewrite Hd. Qed.

Lemma try_fold_middle {S} (f : S -> LocationDirective -> result string S) s l1 l2 l3 :
  Forall (skipped f) l1 -> Forall (skipped f) l3 -> try_fold f s (l1 ++ l2 ++ l3) = try_fold f s l2.
Proof.
  intros H1 H3. rewrite try_fold_app, (try_fold_skip f s l1) by done. cbn [mbind result_bind]. rewrite try_fold_app.
  destruct (try_fold f s l2) as [s'|]; simpl; [|done]. by apply try_fold_skip.
Qed.

Lemma Forall_push {A} (P : LocationDirective -> Prop) (f : A -> LocationDirective) o :
  (forall a, P (f a)) -> Forall P (push f o).
Proof. intros Hf. destruct o; repeat constructor. apply Hf. Qed.

(** The classes of directives, so that each pass is shown once which ones it skips. *)
Lemma Forall_timeouts P t :
  (forall v, P (ProxyConnectTimeout v)) -> (forall v, P (ProxyReadTimeout v)) -> (forall v, P (ProxyWriteTimeout v)) ->
  Forall P (timeouts_part t).
Proof. intros. repeat apply Forall_app_2; by apply Forall_push. Qed.
Lemma Forall_http2 P h :
  (forall v, P (ProxyHttp2MaxConcurrentStreams v)) -> (forall v, P (ProxyHttp2StreamWindowSize v)) ->
  (forall v, P (ProxyHttp2ConnectionWindowSize v)) -> Forall P (http2_part h).
Proof. intros. repeat apply Forall_app_2; by apply Forall_push. Qed.
Lemma Forall_tls P o :
  (forall v, P (ProxySslVerify v)) -> (forall v, P (ProxySslTrustedCertificate v)) ->
  (forall v, P (ProxySslCertificate v)) -> (forall v, P (ProxySslCertificateKey v)) -> Forall P (tls_directives o).
Proof. intros. destruct o as [o|]; [|done]. repeat apply Forall_app_2; try by apply Forall_push. by repeat constructor. Qed.
Lemma Forall_limits P l :
  (forall v, P (ClientMaxBodySize v)) -> (forall v, P (ClientBodyTimeout v)) -> (forall v, P (SendTimeout v)) ->
  (forall v, P (AllowMethods v)) -> Forall P (limits_part l).
Proof. intros. repeat apply Forall_app_2; try by apply Forall_push. case_match; by repeat constructor. Qed.
Lemma Forall_action (P : LocationDirective -> Prop) a :
  is_action a = true -> (forall d, is_action d = true -> P d) -> Forall P [a].
Proof. intros. repeat constructor. auto. Qed.

Ltac skip_directives :=
  repeat match goal with |- Forall _ (_ ++ _) => apply Forall_app_2 end;
  first [apply Forall_timeouts | apply Forall_http2 | apply Forall_tls | apply Forall_limits
        | apply Forall_push | apply Forall_action; [assumption|intros []; try done] | idtac];
  try first [by intros | by intros; intros [] | by intros; intros [? []]].

Section passes.
Context (t : UpstreamTimeouts) (o : option UpstreamSslOptions) (p : option UpstreamHttpProtocol)
  (h : UpstreamHttp2Options) (a : LocationDirective) (r : option UrlRewrite) (l : ClientLimits).
Context (Ha : is_action a = true).
Local Abbreviation D := (route_directives t o p h a r l).

Lemma decoded_timeouts : try_fold timeout_directive UpstreamTimeouts_default D = Ok t.
Proof using Ha.
  unfold route_directives. rewrite <- (app_nil_l (timeouts_part t ++ _)).
  rewrite try_fold_middle; [by destruct t as [[] [] []]|constructor|skip_directives].
Qed.

Lemma decoded_protocol : try_fold protocol_directive None D = Ok p.
Proof using Ha.
  unfold route_directives. rewrite (app_assoc (timeouts_part t)).
  rewrite try_fold_middle; [by destruct p|skip_directives|skip_directives].
Qed.

Lemma decoded_http2 : try_fold http2_directive UpstreamHttp2Options_default D = Ok h.
Proof using Ha.
  unfold route_directives. rewrite (app_assoc (timeouts_part t)), (app_assoc (timeouts_part t ++ _)).
  rewrite try_fold_middle; [by destruct h as [[] [] []]|skip_directives|skip_directives].
Qed.

Lemma decoded_ssl :
  try_fold ssl_directive (UpstreamSslOptions_default, (false, false)) D =
  Ok (default UpstreamSslOptions_default o,
      match o with
      | Some o => (is_some (client_certificate o), is_some (client_certificate_key o))
      | None => (false, false)
      end).
Proof using Ha.
  unfold route_directives. rewrite try_fold_middle; [by destruct o as [[? [] [] []]|]|skip_directives|skip_directives].
Qed.

Lemma decoded_actions : try_fold count_action 0 D = Ok 1.
Proof using Ha.
  unfold route_directives. rewrite (app_assoc (timeouts_part t)), (app_assoc (timeouts_part t ++ _)), (app_assoc ((timeouts_part t ++ _) ++ _)).
  rewrite try_fold_middle; [by destruct a|skip_directives|skip_directives].
Qed.

Lemma decoded_rewrite target m :
  try_fold (rewrite_directive target m) None D =
  match r with Some v => rewrite_directive target m None (DUrlRewrite v) | None => Ok None end.
Proof using Ha.
  unfold route_directives.
  rewrite (app_assoc (timeouts_part t)), (app_assoc (timeouts_part t ++ _)), (app_assoc ((timeouts_part t ++ _) ++ _)), (app_assoc (((timeouts_part t ++ _) ++ _) ++ _)).
  rewrite try_fold_middle; [|skip_directives|skip_directives]. destruct r as [v|]; [|done].
  change (try_fold (rewrite_directive target m) None [DUrlRewrite v] = rewrite_directive target m None (DUrlRewrite v)).
  cbn [try_fold]. by destruct (rewrite_directive target m None (DUrlRewrite v)).
Qed.

(** The methods of a location after compilation. *)
Definition decoded_methods (ms : list string) : result string (list string) :=
  if is_nil ms then Ok [] else try_fold allow_method [] ms.

Lemma decoded_limits :
  try_fold limits_directive (ClientLimits_default, false) D =
  (ms ← decoded_methods (allowed_methods l);
   Ok (mkClientLimits (max_body_size l) (body_timeout l) (limit_send_timeout l) ms, negb (is_nil (allowed_methods l)))).
Proof using Ha.
  unfold route_directives.
  rewrite (app_assoc (timeouts_part t)), (app_assoc (timeouts_part t ++ _)), (app_assoc ((timeouts_part t ++ _) ++ _)),
    (app_assoc (((timeouts_part t ++ _) ++ _) ++ _)), (app_assoc ((((timeouts_part t ++ _) ++ _) ++ _) ++ _)).
  rewrite <- (app_nil_r (limits_part l)), try_fold_middle; [|skip_directives|constructor].
  destruct l as [mx b s ms]. unfold decoded_methods. cbn [max_body_size body_timeout limit_send_timeout allowed_methods].
  assert (forall mx b s, (if is_nil ms then Ok (mkClientLimits mx b s [], false)
            else limits_directive (mkClientLimits mx b s [], false) (AllowMethods ms)) =
          (ms' ← (if is_nil ms then Ok [] else try_fold allow_method [] ms); Ok (mkClientLimits mx b s ms', negb (is_nil ms)))) as Hms.
  { intros. destruct ms; [done|]. cbn [is_nil negb limits_directive]. reflexivity. }
  rewrite <- Hms. unfold limits_part. cbn [max_body_size body_timeout limit_send_timeout allowed_methods].
  rewrite try_fold_app. replace (try_fold _ _ (push ClientMaxBodySize mx)) with
    (Ok (E:=string) (mkClientLimits mx None None [], false)) by by destruct mx. cbn [mbind result_bind].
  rewrite try_fold_app. replace (try_fold _ _ (push ClientBodyTimeout b)) with
    (Ok (E:=string) (mkClientLimits mx b None [], false)) by by destruct b. cbn [mbind result_bind].
  rewrite try_fold_app. replace (try_fold _ _ (push SendTimeout s)) with
    (Ok (E:=string) (mkClientLimits mx b s [], false)) by by destruct s. cbn [mbind result_bind].
  destruct (is_nil ms); [done|]. cbn [try_fold]. by destruct (limits_directive _ _).
Qed.

Lemma route_target_skip upstreams ds1 ds2 :
  Forall (fun d => route_target_from_directive upstreams d = Ok None) ds1 ->
  route_target_in upstreams (ds1 ++ ds2) = route_target_in upstreams ds2.
Proof. induction 1 as [|d ds Hd _ IH]; [done|]. cbn [route_target_in app]. by rewrite Hd. Qed.

Lemma decoded_target upstreams : route_target_in upstreams D = route_target_from_directive upstreams a.
Proof using Ha.
  unfold route_directives.
  rewrite (app_assoc (timeouts_part t)), (app_assoc (timeouts_part t ++ _)), (app_assoc ((timeouts_part t ++ _) ++ _)).
  rewrite route_target_skip by skip_directives. cbn [app route_target_in].
  destruct (route_target_from_directive upstreams a) as [[]|]; try done.
  rewrite <- (app_nil_r (_ ++ limits_part l)), route_target_skip; [done|skip_directives].
Qed.
End passes.

(** The next call of both sides. *)
Ltac both_bind x := destruct x; [cbn [mbind result_bind]|done].

(** [compile_location] on a decoded route, directive by directive. *)
Definition compile_decoded (m : LocationMatcher) (rules : list LocationIpRule) (t : UpstreamTimeouts)
    (o : option UpstreamSslOptions) (p : option UpstreamHttpProtocol) (h : UpstreamHttp2Options) (a : LocationDirective)
    (r : option UrlRewrite) (l : ClientLimits) (ps : list PluginSpec) (c : option CacheConfig) upstreams (next : N)
  : result string (option CompiledLocation * N) :=
  let location := mkLocation m rules (route_directives t o p h a r l) ps c in
  target ← route_target_from_directive upstreams a;
  match target with
  | None => Ok (None, next)
  | Some target =>
      protocol ← compile_upstream_protocol location target;
      _ ← fail_if (is_scp target && is_some c) "scp_pass cannot be combined with proxy_cache";
      matcher ← CompiledMatcher_try_from m;
      rewrite ← match r with Some v => rewrite_directive target matcher None (DUrlRewrite v) | None => Ok None end;
      _ ← validate_target target matcher;
      ms ← decoded_methods (allowed_methods l);
      let limits := mkClientLimits (max_body_size l) (body_timeout l) (limit_send_timeout l) ms in
      _ ← validate_client_timeout (body_timeout l);
      _ ← validate_client_timeout (limit_send_timeout l);
      _ ← UpstreamHttp2Options_validate h;
      ssl ← match o with
            | None => Ok UpstreamSslOptions_default
            | Some o =>
                match is_some (client_certificate o), is_some (client_certificate_key o) with
                | true, false => Err "proxy_ssl_certificate requires proxy_ssl_certificate_key"
                | false, true => Err "proxy_ssl_certificate_key requires proxy_ssl_certificate"
                | _, _ => Ok o
                end
            end;
      Ok (Some (mkCompiledLocation limits rewrite next matcher rules target t protocol h ssl ps c), next + 1)
  end.

Lemma compile_location_decoded m rules t o p h a r l ps c upstreams next :
  is_action a = true ->
  compile_location (mkLocation m rules (route_directives t o p h a r l) ps c) upstreams next =
  compile_decoded m rules t o p h a r l ps c upstreams next.
Proof.
  intros Ha. unfold compile_location, compile_decoded, route_target, compile_client_limits, compile_upstream_timeouts,
    compile_upstream_http2, compile_upstream_ssl_options.
  cbv zeta. cbn [loc_directives loc_cache loc_matcher loc_access_rules loc_plugins].
  rewrite decoded_actions, decoded_target by done. cbn [mbind result_bind]. replace (negb (1 =? 1)) with false by done.
  cbn [fail_if mbind result_bind].
  destruct (route_target_from_directive upstreams a) as [[target|]|]; try done. cbn [mbind result_bind].
  both_bind (compile_upstream_protocol (mkLocation m rules (route_directives t o p h a r l) ps c) target).
  destruct (is_scp target && is_some c); [done|]. cbn [fail_if mbind result_bind].
  both_bind (CompiledMatcher_try_from m).
  rewrite decoded_rewrite, decoded_limits, decoded_timeouts, decoded_http2, decoded_ssl by done.
  both_bind (match r with Some v => rewrite_directive target a1 None (DUrlRewrite v) | None => Ok None end).
  both_bind (validate_target target a1). both_bind (decoded_methods (allowed_methods l)).
  cbn [body_timeout limit_send_timeout].
  both_bind (validate_client_timeout (body_timeout l)). both_bind (validate_client_timeout (limit_send_timeout l)).
  both_bind (UpstreamHttp2Options_validate h). by destruct o as [[? ? [] []]|].
Qed.
End decoded.

(** ** What a route decodes to *)

Definition timeouts_of (route : ProtoRoute) : UpstreamTimeouts :=
  match rt_timeouts route with
  | None => UpstreamTimeouts_default
  | Some t => mkUpstreamTimeouts (duration_from_millis (rt_connect_timeout_ms t))
                (duration_from_millis (rt_read_timeout_ms t)) (duration_from_millis (rt_write_timeout_ms t))
  end.
Definition http2_of (route : ProtoRoute) : UpstreamHttp2Options :=
  match rt_upstream_http2 route with
  | None => UpstreamHttp2Options_default
  | Some h => mkUpstreamHttp2Options (uh_max_concurrent_streams h) (uh_stream_window_size h) (uh_connection_window_size h)
  end.
Definition limits_of (route : ProtoRoute) : ClientLimits :=
  mkClientLimits (rt_client_max_body_size_bytes route) (from_millis <$> rt_client_body_timeout_ms route)
    (from_millis <$> rt_send_timeout_ms route) (rt_allowed_methods route).

Section decoded_route.
Context `{Crates}.

Lemma push_fmap {A B} (f : B -> LocationDirective) (g : A -> B) o : push (fun a => f (g a)) o = push f (g <$> o).
Proof. by destruct o. Qed.

Lemma route_directives_decoded route tls p a r :
  timeout_directives (rt_timeouts route) ++ tls_directives tls ++ push ProxyUpstreamProtocol p
    ++ http2_directives (rt_upstream_http2 route) ++ [a] ++ push DUrlRewrite r ++ limit_directives route =
  route_directives (timeouts_of route) tls p (http2_of route) a r (limits_of route).
Proof.
  unfold route_directives, limit_directives. rewrite (push_fmap ClientBodyTimeout), (push_fmap SendTimeout).
  f_equal; [unfold timeouts_of; by destruct (rt_timeouts route)|]. f_equal. f_equal.
  f_equal. unfold http2_of. by destruct (rt_upstream_http2 route).
Qed.

Lemma action_directive_is_action act a : action_directive act = Ok a -> is_action a = true.
Proof.
  destruct act; simpl; intros Ha; try (by injection Ha as <-).
  all: try (match type of Ha with context [fmap _ ?x] => destruct x end; simplify_eq/=; done).
  unfold return_directive_from_proto in Ha. inv_ok. done.
Qed.

(** Decoding in one piece. *)
Lemma location_from_proto_route_Ok route loc :
  location_from_proto_route route = Ok loc ->
  exists m tls p act a r rules ps c,
    matcher_from_proto (rt_match route) = Ok m /\ upstream_tls_options_from_proto (rt_tls_options route) = Ok tls /\
    upstream_http_protocol_from_proto (rt_upstream_protocol route) = Ok p /\
    rt_action route = Some act /\ action_directive act = Ok a /\
    traverse rewrite_from_proto (rt_url_rewrite route) = Ok r /\ mapM access_from_proto (rt_access_rules route) = Ok rules /\
    mapM plugin_spec_from_proto (rt_plugins route) = Ok ps /\ route_cache_from_proto (rt_cache route) = Ok c /\
    loc = mkLocation m rules (route_directives (timeouts_of route) tls p (http2_of route) a r (limits_of route)) ps c.
Proof.
  unfold location_from_proto_route. intros Hl. inv_ok. do 9 eexists. split_and!; try done.
  by rewrite <- route_directives_decoded.
Qed.

Lemma location_from_proto_route_intro route m tls p act a r rules ps c :
  matcher_from_proto (rt_match route) = Ok m -> upstream_tls_options_from_proto (rt_tls_options route) = Ok tls ->
  upstream_http_protocol_from_proto (rt_upstream_protocol route) = Ok p ->
  rt_action route = Some act -> action_directive act = Ok a ->
  traverse rewrite_from_proto (rt_url_rewrite route) = Ok r -> mapM access_from_proto (rt_access_rules route) = Ok rules ->
  mapM plugin_spec_from_proto (rt_plugins route) = Ok ps -> route_cache_from_proto (rt_cache route) = Ok c ->
  location_from_proto_route route =
  Ok (mkLocation m rules (route_directives (timeouts_of route) tls p (http2_of route) a r (limits_of route)) ps c).
Proof.
  intros Hm Ht Hp Hact Ha Hr Hrules Hps Hc. unfold location_from_proto_route.
  rewrite Hm, Ht, Hp, Hact. cbn [mbind result_bind ok_or]. rewrite Ha. cbn [mbind result_bind].
  rewrite Hr. cbn [mbind result_bind]. rewrite Hrules. cbn [mbind result_bind]. rewrite Hps. cbn [mbind result_bind].
  rewrite Hc. cbn [mbind result_bind]. by rewrite route_directives_decoded.
Qed.
End decoded_route.

(** ** Exporting the parts of a compiled location *)

Lemma retain_first_spec seen l :
  Forall (fun '(n, _) => n ∉ seen) (retain_first seen l) /\ NoDup (retain_first seen l).*1.
Proof.
  revert seen. induction l as [|[n v] l IH]; intros seen; simpl; [by split; constructor|].
  case_bool_decide as Hn; [apply IH|]. destruct (IH (n :: seen)) as [Hf Hd]. split.
  - constructor; [done|]. eapply Forall_impl; [exact Hf|]. intros []. set_solver.
  - rewrite fmap_cons. constructor; [|done]. intros Hin. apply list_elem_of_fmap in Hin as ([n' v'] & Heq & Hin).
    simpl in Heq. subst. eapply Forall_forall in Hf; [|done]. simpl in Hf. set_solver.
Qed.
Lemma retain_first_id seen l : Forall (fun '(n, _) => n ∉ seen) l -> NoDup l.*1 -> retain_first seen l = l.
Proof.
  revert seen. induction l as [|[n v] l IH]; intros seen Hf Hd; simpl; [done|].
  apply Forall_cons in Hf as [Hn Hf]. rewrite fmap_cons in Hd. apply NoDup_cons in Hd as [Hnl Hd].
  rewrite bool_decide_false by done. f_equal. apply IH; [|done]. apply Forall_forall. intros [n' v'] Hin.
  eapply Forall_forall in Hf; [|done]. simpl in *. apply not_elem_of_cons. split; [|done]. intros ->. apply Hnl.
  apply list_elem_of_fmap. by exists (n, v').
Qed.
Lemma retain_first_idemp l : retain_first [] (retain_first [] l) = retain_first [] l.
Proof. destruct (retain_first_spec [] l) as [_ Hd]. apply retain_first_id; [|done]. apply Forall_forall. intros []. set_solver. Qed.
Lemma retain_first_Forall (P : string * string -> Prop) seen l : Forall P l -> Forall P (retain_first seen l).
Proof.
  intros Hl. revert seen. induction Hl as [|[n v] l Hx _ IH]; intros seen; simpl; [constructor|].
  case_bool_decide; [apply IH|]. constructor; [done|apply IH].
Qed.

Lemma allow_methods_spec `{Crates} ms0 ms ms' :
  try_fold allow_method ms0 ms = Ok ms' -> NoDup ms0 -> Forall (fun m => method_ok m = true) ms0 ->
  NoDup ms' /\ Forall (fun m => method_ok m = true) ms' /\ ms0 `prefix_of` ms' /\ (ms <> [] -> ms' <> []).
Proof.
  revert ms0. induction ms as [|m ms IH]; cbn [try_fold]; intros ms0 Hf Hd Hok.
  - inv_ok. naive_solver.
  - apply bind_Ok_inv in Hf as (ms1 & Hm & Hf). unfold allow_method in Hm. apply bind_Ok_inv in Hm as ([] & Hm & [= Hx]).
    apply fail_if_Ok, negb_false_iff in Hm. case_bool_decide as Hin; subst ms1.
    + destruct (IH _ Hf Hd Hok) as (? & ? & [k ->] & _). split_and!; try done; [by eexists|]. intros _ Hnil.
      apply app_eq_nil in Hnil as [-> _]. set_solver.
    + destruct (IH _ Hf) as (? & ? & [k ->] & _); [apply NoDup_app; set_solver by auto using NoDup_singleton| |].
      * apply Forall_app_2; [done|]. by repeat constructor.
      * split_and!; try done; [rewrite <- app_assoc; by eexists|]. intros _ Hnil. by destruct ms0.
Qed.
Lemma allow_methods_id `{Crates} ms0 ms :
  NoDup (ms0 ++ ms) -> Forall (fun m => method_ok m = true) ms -> try_fold allow_method ms0 ms = Ok (ms0 ++ ms).
Proof.
  revert ms0. induction ms as [|m ms IH]; intros ms0 Hd Hok; cbn [try_fold]; [by rewrite app_nil_r|].
  apply Forall_cons in Hok as [Hm Hok]. assert (allow_method ms0 m = Ok (ms0 ++ [m])) as ->.
  { unfold allow_method. rewrite Hm, bool_decide_false; [done|]. apply NoDup_app in Hd as (_ & Hd & _).
    intros Hin. apply (Hd m Hin). set_solver. }
  cbn [mbind result_bind]. replace (ms0 ++ m :: ms) with ((ms0 ++ [m]) ++ ms) in * by by rewrite <- app_assoc. by apply IH.
Qed.
Lemma decoded_methods_idemp `{Crates} ms ms' : decoded_methods ms = Ok ms' -> decoded_methods ms' = Ok ms'.
Proof.
  unfold decoded_methods. destruct ms as [|m ms]; cbn [is_nil]; [by intros [= <-]|]. intros Hm.
  apply allow_methods_spec in Hm as (Hd & Hok & _ & Hne); [|constructor|constructor].
  destruct ms' as [|m' ms']; [by destruct Hne|]. cbn [is_nil]. by rewrite (allow_methods_id []).
Qed.

Lemma cache_inverse c0 c :
  rc_ttl_ms c0 <= u64_max -> rc_stale_if_error_ms c0 <= u64_max -> rc_min_uses c0 <= u32_max ->
  route_cache_from_proto (Some c0) = Ok (Some c) -> route_cache_from_proto (Some (proto_route_cache_from_runtime c)) = Ok (Some c).
Proof.
  intros Httl Hst Huses. unfold route_cache_from_proto at 1. intros Hc. inv_ok. rename a into sw, a0 into k, a1 into statuses.
  assert (statuses <> [] /\ Forall (fun s => s <= u16_max) statuses) as [Hne Hu16].
  { destruct (rc_valid_statuses c0) as [|s ss]; cbn [is_nil] in Hok1.
    - injection Hok1 as <-. split; [done|]. cbn. by repeat constructor.
    - apply mapM_Ok in Hok1. split; [by inversion Hok1|].
      eapply Forall2_Forall_r; [exact Hok1|]. apply Forall_forall. intros x _ y Hxy. inv_ok.
      unfold u16_try_from in Hxy. destruct (N.leb_spec x u16_max); simplify_eq/=. done. }
  unfold route_cache_from_proto, proto_route_cache_from_runtime.
  cbn [enabled cache_max_size ttl stale_if_error cache_key min_uses valid_statuses rc_enabled rc_max_size_bytes rc_ttl_ms
       rc_stale_if_error_ms rc_key_mode rc_min_uses rc_valid_statuses].
  rewrite try_from_as_i32. cbn [ok_or mbind result_bind]. unfold cache_key_mode_from_proto. rewrite try_from_as_i32.
  cbn [ok_or mbind result_bind]. destruct statuses as [|s ss]; [done|]. cbn [is_nil].
  assert (mapM (fun status => ok_or (u16_try_from status) ("cache valid status " +:+ pretty status +:+ " is out of range"))
            (s :: ss) = Ok (s :: ss)) as ->.
  { rewrite <- (list_fmap_id (s :: ss)) at 1. apply mapM_inverse. eapply Forall_impl; [exact Hu16|]. intros x Hx.
    cbv beta. unfold id. by rewrite u16_try_from_ok. }
  cbn [mbind result_bind]. rewrite none_if_zero_inverse by apply none_if_zero_nonzero.
  rewrite (duration_millis_inverse (duration_from_millis (rc_stale_if_error_ms c0))) by by apply duration_from_millis_wire.
  assert (none_if_zero (rc_min_uses c0) ≫= (fun uses => then_some (uses <=? u32_max) uses) = none_if_zero (rc_min_uses c0)) as ->.
  { unfold none_if_zero. destruct (N.ltb_spec 0 (rc_min_uses c0)); [|done]. simpl.
    by rewrite (proj2 (N.leb_le _ _) Huses). }
  rewrite none_if_zero_inverse by apply none_if_zero_nonzero.
  rewrite duration_millis_inverse.
  - do 3 f_equal; [by destruct sw|unfold duration_from_millis; by destruct (0 <? rc_ttl_ms c0)|by destruct k].
  - unfold option_or. intros d Hd. destruct (duration_from_millis (rc_ttl_ms c0)) as [x|] eqn:Ex.
    + injection Hd as <-. by apply (duration_from_millis_wire _ Httl).
    + simpl in Hd. injection Hd as <-. exists 60000. done.
Qed.

Section export.
Context `{WireLaws}.
Implicit Type upstreams : gmap string CompiledUpstreamGroup.

Lemma contains_str_front pat s r : contains_str pat (s +:+ r) = false -> contains_str pat s = false.
Proof.
  induction s as [|c s IH]; intros Hc.
  - destruct pat as [|a pat]; [|done]. by destruct r.
  - change (String c s +:+ r) with (String c (s +:+ r)) in Hc. cbn [contains_str] in Hc |- *.
    apply orb_false_iff in Hc as [H1 H2]. rewrite IH by done. rewrite orb_false_r.
    destruct (starts_with pat (String c s)) eqn:E; [|done]. apply starts_with_spec in E as [k Hk].
    rewrite <- H1. symmetry. apply starts_with_spec. exists (k +:+ r). rewrite <- append_assoc, <- Hk. done.
Qed.

Lemma validate_path_front p' :
  validate_path (p' +:+ "/") = Ok tt -> is_empty p' = false -> validate_path p' = Ok tt.
Proof.
  unfold validate_path. intros Hv He. apply fail_if_Ok in Hv. rewrite !orb_false_iff in Hv. destruct Hv as (((H1 & H2) & H3) & H4).
  apply negb_false_iff in H4. apply path_and_query_ok_front in H4; [|done]. rewrite H4, (contains_str_front _ _ _ H3).
  assert (starts_with "/" p' = true) as ->.
  { apply negb_false_iff in H1. destruct p' as [|c p']; [done|]. unfold starts_with in *.
    change (String c p' +:+ "/") with (String c (p' +:+ "/")) in H1. cbn [strip_prefix] in *. by destruct (Ascii.eqb "/" c). }
  assert (contains_any "?#" p' = false) as ->; [|done].
  unfold contains_any, str_any in *. rewrite str_all_append in H2. apply negb_false_iff, andb_true_iff in H2 as [H2 _]. by rewrite H2.
Qed.

Lemma validate_path_compiled p :
  validate_path p = Ok tt ->
  let p' := if is_empty (trim_end_matches "/" p) then "/" else trim_end_matches "/" p in
  validate_path p' = Ok tt /\ (if is_empty (trim_end_matches "/" p') then "/" else trim_end_matches "/" p') = p'.
Proof.
  intros Hv p'. subst p'. destruct (is_empty (trim_end_matches "/" p)) eqn:E.
  - split; [|done]. destruct (trim_end_matches_spec "/" p) as (t & Ht & Hall).
    destruct (trim_end_matches "/" p); [|done]. change (p = t) in Ht. subst t. clear E.
    destruct p as [|c p]; [done|]. cbn [str_all] in Hall. apply andb_true_iff in Hall as [Hc Hall].
    apply Ascii.eqb_eq in Hc as <-. destruct p as [|c p]; [done|]. cbn [str_all] in Hall.
    apply andb_true_iff in Hall as [Hc _]. apply Ascii.eqb_eq in Hc as <-.
    apply fail_if_Ok in Hv. rewrite !orb_false_iff in Hv. by destruct Hv as [[_ Hv] _].
  - rewrite trim_end_matches_idemp, E. split; [|done].
    destruct (trim_end_matches_spec "/" p) as (t & Ht & Hall). rewrite Ht in Hv.
    revert E Hv. generalize (trim_end_matches "/" p). intros q. clear Ht. revert q.
    induction t as [|c t IH]; intros q Hq Hv; [by rewrite append_nil_r in Hv|].
    cbn [str_all] in Hall. apply andb_true_iff in Hall as [Hc Hall]. apply Ascii.eqb_eq in Hc as <-.
    apply validate_path_front; [|done]. apply IH; [done|by destruct q|]. by rewrite append_assoc.
Qed.

Lemma compile_headers_idemp l l' :
  compile_headers l = Ok l' -> compile_headers (retain_first [] l') = Ok (retain_first [] l').
Proof.
  unfold compile_headers. intros Hl. apply mapM_Ok in Hl.
  rewrite <- (list_fmap_id (retain_first [] l')) at 1. apply mapM_inverse, retain_first_Forall.
  eapply Forall2_Forall_r; [exact Hl|]. apply Forall_forall. intros [n v] _ [n' v'] Hx. inv_ok. simplify_eq.
  unfold id. by rewrite (header_name_from_idemp _ _ Hok), Hok0.
Qed.

Lemma compile_match_idemp m m' : compile_match m = Ok m' -> compile_match m' = Ok m'.
Proof.
  unfold compile_match. intros Hm. apply bind_Ok_inv in Hm as ([] & Hp & Hm).
  apply bind_Ok_inv in Hm as ([] & Hmeth & Hm). apply bind_Ok_inv in Hm as (hs & Hh & [= <-]).
  cbn [m_path m_method m_headers m_query_params]. rewrite Hmeth, (compile_headers_idemp _ _ Hh).
  destruct (m_path m) as [p|p]; cbn [mbind result_bind].
  - rewrite Hp. cbn [mbind result_bind]. by rewrite !retain_first_idemp.
  - destruct (validate_path_compiled p Hp) as [-> Hpp]. cbn [mbind result_bind]. by rewrite Hpp, !retain_first_idemp.
Qed.

Lemma matcher_inverse lm cm :
  CompiledMatcher_try_from lm = Ok cm ->
  exists lm', matcher_from_proto (Some (proto_match_from_runtime cm)) = Ok lm' /\ CompiledMatcher_try_from lm' = Ok cm.
Proof.
  destruct lm as [m|p|p|ci pat|p|n]; cbn [CompiledMatcher_try_from]; intros Hm; try (injection Hm as <-; by eexists).
  - destruct (compile_match m) as [m'|] eqn:E; [|done]. injection Hm as <-. exists (LmHttp m'). split.
    + unfold matcher_from_proto. cbn. by rewrite http_match_inverse.
    + cbn [CompiledMatcher_try_from]. by rewrite (compile_match_idemp _ _ E).
  - apply bind_Ok_inv in Hm as ([] & Hb & [= <-]). exists (LmRegex ci pat). split; [done|]. cbn [CompiledMatcher_try_from].
    by rewrite Hb.
Qed.

Lemma protocol_inverse p :
  upstream_http_protocol_from_proto (as_i32 (proto_upstream_http_protocol_from_runtime p)) = Ok p.
Proof. unfold upstream_http_protocol_from_proto. rewrite try_from_as_i32. by destruct p as [[]|]. Qed.

(** A plugin configuration that survives printing. *)
Definition plugin_printable (p : PluginSpec) : Prop :=
  exists json, json_to_string (plugin_config p) = Ok json /\ is_empty (trim json) = false /\
    json_from_str json = Ok (plugin_config p).

Lemma plugin_inverse p :
  is_empty (trim (plugin_name p)) = false -> plugin_printable p ->
  exists pp, proto_plugin_from_runtime p = Ok pp /\ plugin_spec_from_proto pp = Ok p.
Proof.
  intros Hn (json & Hj & He & Hp). unfold proto_plugin_from_runtime. rewrite Hj. eexists. split; [done|].
  unfold plugin_spec_from_proto. cbn [pl_name pl_json_config]. rewrite Hn, He, Hp. by destruct p.
Qed.

Lemma plugins_inverse pps ps :
  mapM plugin_spec_from_proto pps = Ok ps -> Forall plugin_printable ps ->
  exists pps', mapM proto_plugin_from_runtime ps = Ok pps' /\ mapM plugin_spec_from_proto pps' = Ok ps.
Proof.
  intros Hm. apply mapM_Ok in Hm. intros Hp. induction Hm as [|x y l k Hx _ IH]; [by exists []|].
  apply Forall_cons in Hp as [Hp1 Hp2]. destruct (IH Hp2) as (pps' & H1 & H2).
  assert (is_empty (trim (plugin_name y)) = false) as Hn by (unfold plugin_spec_from_proto in Hx; inv_ok; done).
  destruct (plugin_inverse y Hn Hp1) as (pp & H3 & H4). exists (pp :: pps'). cbn [mapM]. rewrite H3, H4.
  cbn [mbind result_bind]. by rewrite H1, H2.
Qed.

Lemma rewrite_inverse r : traverse rewrite_from_proto (proto_rewrite_from_runtime <$> r) = Ok r.
Proof.
  apply traverse_inverse. intros [h p] _. unfold rewrite_from_proto, proto_rewrite_from_runtime. cbn [ur_path ur_hostname rewrite_path rewrite_hostname].
  by rewrite traverse_inverse by (intros; apply modifier_inverse).
Qed.

(** Every group is found under its own name, which is not blank. *)
Definition groups_named upstreams : Prop :=
  map_Forall (fun name g => name = normalize_upstream_name (g_name g) /\ is_empty (trim (g_name g)) = false) upstreams.

(** A proxied host and port that are just that: the URL that is built from them has no
    other part, and that port.  (A host field with more in it, like a path, is accepted,
    but only the host of its URL is kept and exported.) *)
Definition plain_upstream (u : ProtoUpstream) : Prop :=
  forall url, url_parse (pu_scheme u +:+ "://" +:+ pu_host u +:+ ":" +:+ pretty (pu_port u)) = Ok url ->
    url_username url = "" /\ url_password url = None /\ url_query url = None /\ url_fragment url = None /\ url_path url = "/" /\
    url_port_or_known_default url = Some (pu_port u).
Definition plain_backend (b : ProtoWeightedBackend) : Prop :=
  match pw_target b with Some (WtUpstream u) => plain_upstream u | _ => True end.
Definition plain_action (act : RouteAction) : Prop :=
  match act with
  | AcUpstream u => plain_upstream u
  | AcWeightedBackends bs => Forall plain_backend (pw_backends bs)
  | _ => True
  end.

Lemma upstream_group_from_url_Some url upstreams g :
  upstream_group_from_url url upstreams = Some g -> exists name, upstreams !! name = Some g.
Proof.
  unfold upstream_group_from_url. repeat case_match; try done. destruct (url_host_str url); [|done]. cbn. eauto.
Qed.

Lemma group_target_inverse upstreams g tls :
  groups_named upstreams -> (exists name, upstreams !! name = Some g) -> validate_nrf_route_scheme g tls = Ok tt ->
  exists pt, proxy_pass_target_from_proto (mkProtoUpstream (if tls then "https" else "http") "" 0 (g_name g)) = Ok pt /\
    proxy_pass_target pt upstreams = Ok (Some (RtUpstreamGroup (g_name g) tls)).
Proof.
  intros Hn [name Hg] Hv. destruct (Hn _ _ Hg) as [-> Hb]. exists (PpUpstreamGroup (g_name g) tls). split.
  - unfold proxy_pass_target_from_proto. cbn [pu_scheme pu_host pu_port pu_upstream_group]. rewrite Hb. by destruct tls.
  - cbn [proxy_pass_target]. rewrite Hg. cbn [ok_or mbind result_bind]. by rewrite Hv.
Qed.

Lemma proxy_pass_tls_scheme s tls : proxy_pass_tls s = Some tls -> s = if tls then "https" else "http".
Proof.
  unfold proxy_pass_tls. destruct (String.eqb_spec s "http"); [by intros [= <-]|].
  destruct (String.eqb_spec s "https"); [by intros [= <-]|done].
Qed.

Lemma url_target_inverse upstreams raw url host port tls :
  url_parse raw = Ok url -> url_host_str url = Some host -> url_port_or_known_default url = Some port ->
  proxy_pass_tls (url_scheme url) = Some tls -> upstream_group_from_url url upstreams = None ->
  url_username url = "" /\ url_password url = None /\ url_query url = None /\ url_fragment url = None /\ url_path url = "/" -> port <> 0 ->
  exists pt, proxy_pass_target_from_proto (mkProtoUpstream (if tls then "https" else "http") host port "") = Ok pt /\
    proxy_pass_target pt upstreams = Ok (Some (RtProxyPass host port tls (proxy_pass_sni host tls))).
Proof.
  intros Hu Hh Hp Ht Hg (Hus & Hpw & Hq & Hf & Hpath) Hnz. pose proof (proxy_pass_tls_scheme _ _ Ht) as Hs.
  destruct (url_parse_authority raw url host port Hu) as (Hb & _ & url' & Hu' & Hs' & Hh' & Hp' & Hpo); [|done|done|].
  { rewrite Hs. by destruct tls; [right|left]. }
  exists (PpUrl url'). split.
  - unfold proxy_pass_target_from_proto. cbn [pu_scheme pu_host pu_port pu_upstream_group]. rewrite Hb, <- Hs, Ht.
    apply N.eqb_neq in Hnz. rewrite Hnz. cbn [ok_or mbind result_bind negb orb andb fail_if].
    change (trim "") with "". cbn [is_empty negb andb fail_if mbind result_bind]. by rewrite Hu'.
  - cbn [proxy_pass_target]. assert (upstream_group_from_url url' upstreams = None) as ->.
    { unfold upstream_group_from_url in *. rewrite Hpo. destruct (is_some (url_port url)); [done|].
      rewrite Hus, Hpw, Hq, Hf, Hpath, Hh in Hg. cbn in Hg. rewrite Hh'. cbn [mbind option_bind]. rewrite Hg. by destruct (_ || _). }
    by rewrite Hh', Hp', Hs', Ht.
Qed.

Lemma proxy_pass_inverse upstreams u pt target :
  groups_named upstreams -> plain_upstream u -> proxy_pass_target_from_proto u = Ok pt -> proxy_pass_target pt upstreams = Ok (Some target) ->
  exists u' pt', proto_upstream_of target = Some u' /\ proxy_pass_target_from_proto u' = Ok pt' /\
    proxy_pass_target pt' upstreams = Ok (Some target).
Proof.
  intros Hn Hpl Hu Ht. destruct pt as [url|name tls]; cbn [proxy_pass_target] in Ht.
  - destruct (upstream_group_from_url url upstreams) as [g|] eqn:Eg.
    + apply upstream_group_from_url_Some in Eg. apply bind_Ok_inv in Ht as (tls & _ & Ht).
      apply bind_Ok_inv in Ht as ([] & Hv & [= <-]).
      destruct (group_target_inverse _ _ _ Hn Eg Hv) as (pt & H1 & H2). by eexists _, pt.
    + assert (exists raw, url_parse raw = Ok url /\ pu_port u <> 0 /\ raw = pu_scheme u +:+ "://" +:+ pu_host u +:+ ":" +:+ pretty (pu_port u))
        as (raw & Hraw & Hnz & Eraw).
      { unfold proxy_pass_target_from_proto in Hu. apply bind_Ok_inv in Hu as (? & _ & Hu).
        apply bind_Ok_inv in Hu as ([] & _ & Hu). destruct (negb (is_empty (trim (pu_upstream_group u)))); [discriminate Hu|]. apply bind_Ok_inv in Hu as ([] & _ & Hu).
        apply bind_Ok_inv in Hu as ([] & Hnz%fail_if_Ok%N.eqb_neq & Hu). apply bind_Ok_inv in Hu as (url' & Hraw%map_err_Ok & [= <-]).
        eauto. }
      destruct (Hpl url) as (? & ? & ? & ? & ? & Hport); [by rewrite <- Eraw|].
      rewrite Hport in Ht. destruct (url_host_str url) as [host|] eqn:Eh; [|done].
      destruct (proxy_pass_tls (url_scheme url)) as [tls|] eqn:Etls; [|done]. injection Ht as <-.
      destruct (url_target_inverse upstreams raw url host (pu_port u) tls) as (pt & Hx1 & Hx2); try done. by eexists _, pt.
  - apply bind_Ok_inv in Ht as (g & Hg & Ht). apply ok_or_Ok in Hg. apply bind_Ok_inv in Ht as ([] & Hv & [= <-]).
    destruct (group_target_inverse _ _ _ Hn (ex_intro _ _ Hg) Hv) as (pt & H1 & H2). by eexists _, pt.
Qed.

Lemma direct_status_ok n m : direct_status n = Ok m -> m = n /\ n <= u16_max.
Proof.
  unfold direct_status, u16_try_from. destruct (N.leb_spec n u16_max); [|done]. by intros [= <-].
Qed.

Lemma weighted_backend_inverse upstreams wb b c :
  groups_named upstreams -> plain_backend wb -> weighted_backend_from_proto wb = Ok b -> compile_weighted_backend upstreams b = Ok c ->
  exists wb' b', proto_weighted_backend c = Ok wb' /\ weighted_backend_from_proto wb' = Ok b' /\
    compile_weighted_backend upstreams b' = Ok c.
Proof.
  intros Hn Hd Hw Hc. unfold weighted_backend_from_proto in Hw. apply bind_Ok_inv in Hw as (t & Ht & Hw).
  apply bind_Ok_inv in Hw as (bt & Hbt & [= <-]). unfold compile_weighted_backend in Hc. cbn [wb_weight wb_target] in Hc.
  apply bind_Ok_inv in Hc as ([] & Hwt & Hc). apply bind_Ok_inv in Hc as (o & Ho & Hc).
  apply bind_Ok_inv in Hc as (target & Hot & [= <-]). apply ok_or_Ok in Hot. subst o.
  apply ok_or_Ok in Ht. unfold plain_backend in Hd. rewrite Ht in Hd.
  destruct t as [u|dr].
  - destruct (proxy_pass_target_from_proto u) as [pt|] eqn:Eu; [|done]. injection Hbt as <-.
    pose proof (proxy_pass_inverse _ _ _ _ Hn Hd Eu Ho) as (u' & pt' & H1 & H2 & H3).
    exists (mkProtoWeightedBackend (Some (default 1 (pw_weight wb))) (Some (WtUpstream u'))),
      (mkWeightedBackend (default 1 (pw_weight wb)) (BtUpstream pt')).
    split_and!.
    + unfold proto_weighted_backend. cbn [cwb_target cwb_weight]. destruct target; try done; by injection H1 as <-.
    + unfold weighted_backend_from_proto. cbn [pw_target pw_weight ok_or mbind result_bind]. by rewrite H2.
    + unfold compile_weighted_backend. cbn [wb_weight wb_target]. rewrite Hwt. cbn [mbind result_bind]. by rewrite H3.
  - destruct (direct_status (dr_status dr)) as [s|] eqn:Es; [|done]. injection Hbt as <-.
    pose proof (direct_target_ok _ _ Ho) as ->.
    exists (mkProtoWeightedBackend (Some (default 1 (pw_weight wb))) (Some (WtDirectResponse (mkProtoDirectResponse s)))),
      (mkWeightedBackend (default 1 (pw_weight wb)) (BtResponse s)).
    split_and!; [done| |].
    + unfold weighted_backend_from_proto. cbn [pw_target pw_weight ok_or mbind result_bind dr_status].
      apply direct_status_ok in Es as [-> Hs]. unfold direct_status. by rewrite u16_try_from_ok.
    + unfold compile_weighted_backend. cbn [wb_weight wb_target]. rewrite Hwt. cbn [mbind result_bind]. by rewrite Ho.
Qed.

Lemma weighted_backends_inverse upstreams wbs bs cs :
  groups_named upstreams -> Forall plain_backend wbs -> mapM weighted_backend_from_proto wbs = Ok bs ->
  mapM (compile_weighted_backend upstreams) bs = Ok cs ->
  exists wbs' bs', mapM proto_weighted_backend cs = Ok wbs' /\ mapM weighted_backend_from_proto wbs' = Ok bs' /\
    mapM (compile_weighted_backend upstreams) bs' = Ok cs /\ length bs' = length bs.
Proof.
  intros Hn Hd Hw Hc. apply mapM_Ok in Hw, Hc. revert cs Hc Hd.
  induction Hw as [|wb b wbs bs Hx _ IH]; intros cs Hc Hd.
  - inversion Hc; subst. by exists [], [].
  - inversion Hc as [|? c ? cs' Hcc Hcs]; subst. apply Forall_cons in Hd as [Hd1 Hd2].
    destruct (IH _ Hcs Hd2) as (wbs' & bs' & H1 & H2 & H3 & H4).
    destruct (weighted_backend_inverse _ _ _ _ Hn Hd1 Hx Hcc) as (wb' & b' & H5 & H6 & H7).
    exists (wb' :: wbs'), (b' :: bs'). cbn [mapM]. rewrite H5, H6, H7. cbn [mbind result_bind]. rewrite H1, H2, H3.
    split_and!; try done. simpl. congruence.
Qed.

Lemma http_redirect_inverse hr c :
  http_redirect_from_proto hr = Ok c ->
  http_redirect_from_proto (mkProtoHttpRedirect (redirect_status c) (redirect_scheme c) (redirect_hostname c)
    (redirect_port c) (modifier_to_proto <$> redirect_path c)) = Ok c.
Proof.
  unfold http_redirect_from_proto at 1. intros Hc. apply bind_Ok_inv in Hc as (status & Hs & Hc).
  apply bind_Ok_inv in Hc as (port & Hp & Hc). apply bind_Ok_inv in Hc as (path & _ & [= <-]).
  apply direct_status_ok in Hs as [-> Hs]. unfold http_redirect_from_proto.
  cbn [hr_status hr_scheme hr_hostname hr_port hr_path redirect_status redirect_scheme redirect_hostname redirect_port redirect_path].
  set (status := if hr_status hr =? 0 then 302 else hr_status hr) in *.
  assert (status =? 0 = false) as -> by (subst status; by destruct (N.eqb_spec (hr_status hr) 0); [|apply N.eqb_neq]).
  unfold direct_status. rewrite u16_try_from_ok by done. cbn [ok_or mbind result_bind].
  rewrite (traverse_inverse modifier_from_proto) by (intros; apply modifier_inverse).
  assert (traverse (fun p => ok_or (u16_try_from p) "redirect port out of range") port = Ok port) as ->; [|done].
  apply transpose_Ok in Hp. destruct (hr_port hr) as [p|]; [|by subst]. destruct Hp as (p' & Hp & ->).
  apply ok_or_Ok in Hp. unfold traverse. cbn. unfold u16_try_from in *. destruct (N.leb_spec p u16_max) as [Hle|]; [|done].
  injection Hp as <-. by rewrite (proj2 (N.leb_le _ _) Hle).
Qed.

(** Exporting a target and reading it back gives an action with that target. *)
Lemma target_inverse upstreams act a target m :
  groups_named upstreams -> action_directive act = Ok a -> route_target_from_directive upstreams a = Ok (Some target) ->
  validate_target target m = Ok tt -> plain_action act ->
  exists act' a', proto_route_action_from_runtime target = Ok act' /\ action_directive act' = Ok a' /\
    route_target_from_directive upstreams a' = Ok (Some target).
Proof.
  intros Hn Ha Ht Hv Hd. destruct act as [u|r|name|bs|dr|hr]; cbn [action_directive] in Ha.
  - destruct (proxy_pass_target_from_proto u) as [pt|] eqn:Eu; [|done]. injection Ha as <-. cbn in Ht.
    destruct (proxy_pass_inverse _ _ _ _ Hn Hd Eu Ht) as (u' & pt' & H1 & H2 & H3).
    exists (AcUpstream u'), (ProxyPass pt'). split_and!; [|cbn; by rewrite H2|done].
    destruct target; try done; by injection H1 as <-.
  - unfold return_directive_from_proto in Ha. inv_ok. injection Ht as <-. apply negb_false_iff, andb_true_iff in Hok0 as [Hlo Hhi].
    apply N.leb_le in Hhi. eexists _, (Return_ a0 (rd_location r)). split_and!; [done| |done]. cbn [action_directive]. unfold return_directive_from_proto.
    cbn [rd_status rd_location]. rewrite u16_try_from_ok by (unfold u16_max; lia). cbn [ok_or mbind result_bind].
    apply N.leb_le in Hhi. rewrite Hlo, Hhi. cbn. by rewrite Hok1.
  - injection Ha as <-. injection Ht as <-. by eexists _, (ScpPass name).
  - destruct (mapM weighted_backend_from_proto (pw_backends bs)) as [l|] eqn:Eb; [|done]. injection Ha as <-.
    cbn [route_target_from_directive] in Ht. apply bind_Ok_inv in Ht as ([] & Hne & Ht).
    apply bind_Ok_inv in Ht as (cs & Hcs & [= <-]).
    destruct (weighted_backends_inverse _ _ _ _ Hn Hd Eb Hcs) as (wbs' & bs' & H1 & H2 & H3 & H4).
    exists (AcWeightedBackends (mkProtoWeightedBackends wbs')), (WeightedBackends bs'). cbn [proto_route_action_from_runtime].
    rewrite H1. split_and!; [done|cbn; by rewrite H2|]. cbn [route_target_from_directive].
    apply fail_if_Ok in Hne. assert (is_nil bs' = false) as -> by by destruct bs', l. cbn [fail_if mbind result_bind]. by rewrite H3.
  - destruct (direct_status (dr_status dr)) as [s|] eqn:Es; [|done]. injection Ha as <-. cbn in Ht.
    pose proof (direct_target_ok _ _ Ht) as ->. apply direct_status_ok in Es as [-> Hs].
    eexists _, (DirectResponse (dr_status dr)). split_and!; [done| |done]. cbn. unfold direct_status. by rewrite u16_try_from_ok.
  - destruct (http_redirect_from_proto hr) as [c|] eqn:Eh; [|done]. injection Ha as <-. injection Ht as <-.
    eexists _, (DHttpRedirect c). split_and!; [done| |done]. cbn [action_directive].
    by rewrite (http_redirect_inverse hr c Eh).
Qed.

Lemma protocol_ext loc loc' target :
  try_fold protocol_directive None (loc_directives loc) = try_fold protocol_directive None (loc_directives loc') ->
  compile_upstream_protocol loc target = compile_upstream_protocol loc' target.
Proof.
  intros Heq. revert target. fix IH 1. intros target. destruct target as [bs| | | | | |]; cbn [compile_upstream_protocol]; rewrite Heq; try done.
  destruct (try_fold protocol_directive None (loc_directives loc')) as [[p|]|]; try done. cbn [mbind result_bind].
  induction bs as [|[w t] bs IHbs]; [done|]. rewrite (IH t). by rewrite IHbs.
Qed.

Lemma protocol_reimport loc loc' target p :
  compile_upstream_protocol loc target = Ok p -> try_fold protocol_directive None (loc_directives loc') = Ok p ->
  compile_upstream_protocol loc' target = Ok p.
Proof.
  intros Hc Hp. assert (exists p0, try_fold protocol_directive None (loc_directives loc) = Ok p0 /\
    (p0 = p \/ (p = None /\ match target with RtReturn _ _ | RtDirectResponse _ | RtHttpRedirect _ => True | _ => False end)))
    as (p0 & Hf & Hx).
  { destruct (try_fold protocol_directive None (loc_directives loc)) as [p0|] eqn:Ef; [|by destruct target; cbn in Hc; rewrite Ef in Hc].
    exists p0. split; [done|]. destruct target as [bs| | | | | |]; cbn [compile_upstream_protocol] in Hc; rewrite Ef in Hc;
      cbn [mbind result_bind] in Hc; destruct p0 as [pr|]; simplify_eq/=; auto.
    all: try (unfold check_protocol in Hc; repeat case_match; simplify_eq/=; auto; fail).
    left. induction bs as [|[w t] bs IHbs]; [congruence|]. apply bind_Ok_inv in Hc as (? & _ & Hc). auto. }
  destruct Hx as [-> | [-> Ht]]; [by rewrite <- (protocol_ext loc) by congruence|].
  destruct target; try done; cbn [compile_upstream_protocol]; by rewrite Hp.
Qed.

(** The integers of a message fit their wire types. *)
Definition wire_route (route : ProtoRoute) : Prop :=
  (forall t, rt_timeouts route = Some t ->
    rt_connect_timeout_ms t <= u64_max /\ rt_read_timeout_ms t <= u64_max /\ rt_write_timeout_ms t <= u64_max) /\
  (forall c, rt_cache route = Some c ->
    rc_ttl_ms c <= u64_max /\ rc_stale_if_error_ms c <= u64_max /\ rc_min_uses c <= u32_max).

Lemma wire_timeouts route : wire_route route ->
  wire_duration (connect (timeouts_of route)) /\ wire_duration (read (timeouts_of route)) /\
  wire_duration (write (timeouts_of route)).
Proof.
  intros [Ht _]. unfold timeouts_of. destruct (rt_timeouts route) as [t|]; [|by split_and!].
  destruct (Ht t eq_refl) as (? & ? & ?). split_and!; by apply duration_from_millis_wire.
Qed.

Lemma timeouts_inverse t :
  wire_duration (connect t) -> wire_duration (read t) -> wire_duration (write t) ->
  mkUpstreamTimeouts (duration_from_millis (rt_connect_timeout_ms (proto_timeouts_from_runtime t)))
    (duration_from_millis (rt_read_timeout_ms (proto_timeouts_from_runtime t)))
    (duration_from_millis (rt_write_timeout_ms (proto_timeouts_from_runtime t))) = t.
Proof. intros. destruct t. cbn in *. by rewrite !duration_millis_inverse. Qed.

Lemma client_timeout_inverse (o : option N) :
  validate_client_timeout (from_millis <$> o) = Ok tt -> from_millis <$> (millis_u64 <$> (from_millis <$> o)) = from_millis <$> o.
Proof.
  destruct o as [ms|]; [|done]. unfold validate_client_timeout. cbn. intros Hv. apply fail_if_Ok, orb_false_iff in Hv as [Hv _].
  unfold millis_u64. rewrite as_millis_from in *. apply N.ltb_ge in Hv. by rewrite N.mod_small by lia.
Qed.

(** What compiling a decoded route establishes of each part. *)
Lemma compile_decoded_Ok m rules t o p h a r l ps c upstreams next loc next' :
  compile_decoded m rules t o p h a r l ps c upstreams next = Ok (Some loc, next') ->
  exists target protocol cm ssl ms,
    loc = mkCompiledLocation (mkClientLimits (max_body_size l) (body_timeout l) (limit_send_timeout l) ms) r next cm rules
            target t protocol h ssl ps c /\ next' = next + 1 /\
    route_target_from_directive upstreams a = Ok (Some target) /\
    compile_upstream_protocol (mkLocation m rules (route_directives t o p h a r l) ps c) target = Ok protocol /\
    is_scp target && is_some c = false /\ CompiledMatcher_try_from m = Ok cm /\
    (forall v, r = Some v -> rewrite_directive target cm None (DUrlRewrite v) = Ok (Some v)) /\
    validate_target target cm = Ok tt /\ decoded_methods (allowed_methods l) = Ok ms /\
    validate_client_timeout (body_timeout l) = Ok tt /\ validate_client_timeout (limit_send_timeout l) = Ok tt /\
    UpstreamHttp2Options_validate h = Ok tt /\ is_some (client_certificate ssl) = is_some (client_certificate_key ssl).
Proof.
  unfold compile_decoded. cbv zeta. intros Hc. apply bind_Ok_inv in Hc as (target & Htarget & Hc). destruct target as [target|]; [|done].
  apply bind_Ok_inv in Hc as (protocol & Hproto & Hc). apply bind_Ok_inv in Hc as ([] & Hscp & Hc).
  apply bind_Ok_inv in Hc as (cm & Hcm & Hc). apply bind_Ok_inv in Hc as (rw & Hrw & Hc).
  apply bind_Ok_inv in Hc as ([] & Hv & Hc). apply bind_Ok_inv in Hc as (ms & Hms & Hc).
  apply bind_Ok_inv in Hc as ([] & Hb & Hc). apply bind_Ok_inv in Hc as ([] & Hs & Hc).
  apply bind_Ok_inv in Hc as ([] & Hh & Hc). apply bind_Ok_inv in Hc as (ssl & Hssl & [= <- <-]).
  assert (rw = r /\ (forall v, r = Some v -> rewrite_directive target cm None (DUrlRewrite v) = Ok (Some v))) as [-> Hr].
  { destruct r as [v|]; [|by injection Hrw as <-]. pose proof Hrw as Hrw'. cbn [rewrite_directive] in Hrw'. inv_ok.
    split; [done|]. by intros ? [= <-]. }
  exists target, protocol, cm, ssl, ms. split_and!; try done; [by apply fail_if_Ok in Hscp|].
  destruct o as [[? ? [] []]|]; simplify_eq/=; done.
Qed.

Lemma compile_decoded_intro m rules t p h a r l ps c upstreams next target protocol cm ssl :
  route_target_from_directive upstreams a = Ok (Some target) ->
  compile_upstream_protocol (mkLocation m rules (route_directives t (Some ssl) p h a r l) ps c) target = Ok protocol ->
  is_scp target && is_some c = false -> CompiledMatcher_try_from m = Ok cm ->
  (forall v, r = Some v -> rewrite_directive target cm None (DUrlRewrite v) = Ok (Some v)) ->
  validate_target target cm = Ok tt -> decoded_methods (allowed_methods l) = Ok (allowed_methods l) ->
  validate_client_timeout (body_timeout l) = Ok tt -> validate_client_timeout (limit_send_timeout l) = Ok tt ->
  UpstreamHttp2Options_validate h = Ok tt -> is_some (client_certificate ssl) = is_some (client_certificate_key ssl) ->
  compile_decoded m rules t (Some ssl) p h a r l ps c upstreams next =
  Ok (Some (mkCompiledLocation l r next cm rules target t protocol h ssl ps c), next + 1).
Proof.
  intros Ht Hp Hs Hm Hr Hv Hms Hb Hse Hh Hssl. unfold compile_decoded. cbv zeta. rewrite Ht. cbn [mbind result_bind].
  rewrite Hp, Hs. cbn [mbind result_bind fail_if]. rewrite Hm. cbn [mbind result_bind].
  assert (match r with Some v => rewrite_directive target cm None (DUrlRewrite v) | None => Ok None end = Ok r) as ->.
  { destruct r; [|done]. by apply Hr. }
  cbn [mbind result_bind]. rewrite Hv, Hms. cbn [mbind result_bind]. rewrite Hb, Hse, Hh. cbn [mbind result_bind].
  rewrite Hssl. by destruct l, (is_some (client_certificate_key ssl)).
Qed.

(** C22: exporting is stable: a route that was read from a control plane's message and
    compiled is exported ([GetSnapshot]) as a message that reads back and compiles to
    the same location under the same id, so that applying an exported snapshot changes
    no route.  Side conditions: the integers of the message fit their fields; every group
    is filed under its own normalised name, which is not blank; the host field of a proxied
    upstream holds a host and nothing else; and the plugins' configurations survive
    printing and parsing as JSON. *)
Theorem route_export_stable route loc upstreams next l next' :
  groups_named upstreams -> wire_route route -> (forall act, rt_action route = Some act -> plain_action act) ->
  location_from_proto_route route = Ok loc -> compile_location loc upstreams next = Ok (Some l, next') ->
  Forall plugin_printable (plugins l) ->
  exists route' loc', proto_route_from_runtime l = Ok route' /\ location_from_proto_route route' = Ok loc' /\
    compile_location loc' upstreams next = Ok (Some l, next').
Proof.
  intros Hn Hw Hd Hl Hc Hps. apply location_from_proto_route_Ok in Hl
    as (m & tls & p & act & a & r & rules & ps & c & Hm & Htls & Hp & Hact & Ha & Hr & Hrules & Hplug & Hcache & ->).
  pose proof (action_directive_is_action _ _ Ha) as Hia. rewrite compile_location_decoded in Hc by done.
  apply compile_decoded_Ok in Hc as (target & protocol & cm & ssl & ms & -> & -> & Ht & Hpr & Hscp & Hcm & Hrw & Hv & Hms & Hb & Hs & Hh & Hssl).
  cbn [Types.plugins] in Hps.
  destruct (target_inverse _ _ _ _ _ Hn Ha Ht Hv (Hd _ Hact)) as (act' & a' & Hact' & Ha' & Ht').
  destruct (matcher_inverse _ _ Hcm) as (m' & Hm' & Hcm'). destruct (plugins_inverse _ _ Hplug Hps) as (pps & Hpps & Hpps').
  destruct (wire_timeouts _ Hw) as (Hw1 & Hw2 & Hw3). destruct (http2_of route) as [h1 h2 h3].
  assert (route_cache_from_proto (proto_route_cache_from_runtime <$> c) = Ok c) as Hc'.
  { destruct (rt_cache route) as [c0|] eqn:Ec; [|by injection Hcache as <-]. destruct (proj2 Hw _ Ec) as (? & ? & ?).
    destruct c as [c|]; [|by inv_ok]. by eapply cache_inverse. }
  unfold proto_route_from_runtime. cbn [Types.target Types.plugins]. rewrite Hact'. cbn [mbind result_bind]. rewrite Hpps. cbn [mbind result_bind].
  eexists. eexists. split; [done|]. split.
  - eapply location_from_proto_route_intro; cbn [rt_match rt_action rt_timeouts rt_plugins rt_tls_options rt_upstream_protocol
      rt_cache rt_url_rewrite rt_access_rules url_rewrite matcher access_rules upstream_protocol upstream_ssl_options cache];
      [exact Hm'|by apply upstream_tls_inverse|apply protocol_inverse|done|exact Ha'|apply rewrite_inverse| |done|exact Hc'].
    apply mapM_inverse, Forall_forall. intros. apply access_inverse.
  - unfold timeouts_of, http2_of, limits_of. cbn [rt_timeouts rt_upstream_http2 rt_client_max_body_size_bytes rt_client_body_timeout_ms
      rt_send_timeout_ms rt_allowed_methods upstream_timeouts upstream_http2 client_limits max_body_size body_timeout
      limit_send_timeout allowed_methods uh_max_concurrent_streams uh_stream_window_size uh_connection_window_size].
    rewrite timeouts_inverse, !client_timeout_inverse by done.
    rewrite compile_location_decoded by by eapply action_directive_is_action.
    eapply compile_decoded_intro; try done; [|by eapply decoded_methods_idemp].
    eapply protocol_reimport; [exact Hpr|]. cbn [loc_directives]. apply decoded_protocol. by eapply action_directive_is_action.
Qed.
End export.

(** ** Witness *)

Module RouteSample.
Definition group : @CompiledUpstreamGroup Toy.crates :=
  mkCompiledUpstreamGroup false "web" RoundRobin None [mkCompiledUpstreamServer "10.0.0.1" 80 1 None None] None None.
Definition upstreams : gmap string (@CompiledUpstreamGroup Toy.crates) := {[ "web" := group ]}.
Definition route : ProtoRoute :=
  mkProtoRoute (Some (mkProtoMatch (Some (MkHttp (mkProtoHttpMatch (Some (HpPathPrefix "/a/")) (Some "GET")
                  [mkProtoExactCondition "X-A" "1"; mkProtoExactCondition "x-a" "2"] [])))))
    (Some (AcWeightedBackends (mkProtoWeightedBackends
       [mkProtoWeightedBackend None (Some (WtUpstream (mkProtoUpstream "https" "h.example" 8443 "")));
        mkProtoWeightedBackend (Some 3) (Some (WtUpstream (mkProtoUpstream "https" "" 0 "web")))])))
    (Some (mkProtoRouteTimeouts 1000 0 5)) [mkProtoPlugin "cors" "'x"] None 2
    (Some (mkProtoRouteCache 0 0 0 1500 0 2 [])) (Some (mkProtoUrlRewrite (Some "b.example") None)) None
    [mkProtoIpAccessRule 1 "10.0.0.1"; mkProtoIpAccessRule 2 "all"] ["GET"; "GET"] (Some 0) (Some 0) (Some 30000).
Definition dloc : @Location Toy.crates := mkLocation (LmNamed "") [] [] [] None.
Definition loc : @Location Toy.crates := match @location_from_proto_route Toy.crates route with Ok l => l | Err _ => dloc end.
Definition compiled : result string (option (@CompiledLocation Toy.crates) * N) := @compile_location Toy.crates loc upstreams 7.
Definition l : @CompiledLocation Toy.crates :=
  match compiled with
  | Ok (Some l, _) => l
  | _ => mkCompiledLocation ClientLimits_default None 0 (CmNamed "") [] (RtScp "") UpstreamTimeouts_default None
           UpstreamHttp2Options_default UpstreamSslOptions_default [] None
  end.
End RouteSample.

Lemma route_export_stable_witness :
  exists route' loc', @proto_route_from_runtime Toy.crates RouteSample.l = Ok route' /\
    @location_from_proto_route Toy.crates route' = Ok loc' /\
    @compile_location Toy.crates loc' RouteSample.upstreams 7 = Ok (Some RouteSample.l, 8).
Proof.
  apply (@route_export_stable Toy.crates Toy.wire_laws RouteSample.route RouteSample.loc RouteSample.upstreams 7 RouteSample.l 8).
  - apply map_Forall_singleton. by split.
  - split; [intros t [= <-]|intros c [= <-]]; vm_compute; repeat split; discriminate.
  - intros act [= <-]. apply Forall_forall. intros b Hb. repeat (apply elem_of_cons in Hb as [->|Hb]; [|]); [..|by apply elem_of_nil in Hb];
      try exact I; intros url Hu; vm_compute in Hu; try discriminate Hu; injection Hu as <-; by vm_compute.
  - reflexivity.
  - reflexivity.
  - repeat constructor. exists "'x". repeat split.
Defined.
