(* ===== verification/GrpcUpstreams.v ===== *)
(** * Exporting and reading back upstream groups

    The groups of a router that a control plane configured are exported as messages
    that read back and compile to the same groups, whatever the order in which the map
    of groups is visited. *)

From S2P Require Import Prelude RustStr NetAddr Crates Ir Types CompileUpstreams.
From S2P Require Import Proto GrpcValues GrpcDecode GrpcEncode GrpcRoutes.

Open Scope N_scope.

(** The integers of the messages fit their wire types. *)
Definition wire_health (h : ProtoUpstreamHealthCheck) : Prop :=
  uh_timeout_ms h <= u64_max /\ uh_interval_ms h <= u64_max /\
  uh_consecutive_success h <= u32_max /\ uh_consecutive_failure h <= u32_max.
Definition wire_nrf (d : ProtoNrfDiscovery) : Prop := nd_timeout_ms d <= u64_max /\ nd_stale_if_error_ms d <= u64_max.
Definition wire_group (g : ProtoUpstreamGroup) : Prop :=
  (forall h, ug_health_check g = Some h -> wire_health h) /\ (forall d, ug_nrf_discovery g = Some d -> wire_nrf d).

Lemma saturate_id max n : n <= max -> saturate max n = n.
Proof. apply N.min_l. Qed.

Lemma u16_try_from_Some n m : u16_try_from n = Some m -> m = n /\ n <= u16_max.
Proof. unfold u16_try_from. destruct (N.leb_spec n u16_max); [|done]. by intros [= <-]. Qed.

Lemma duration_from_millis_Some ms d : duration_from_millis ms = Some d -> 0 < ms /\ d = from_millis ms.
Proof. unfold duration_from_millis. destruct (N.ltb_spec 0 ms); [|done]. by intros [= <-]. Qed.
Lemma duration_from_millis_pos ms : 0 < ms -> duration_from_millis ms = Some (from_millis ms).
Proof. intros Hms. unfold duration_from_millis. by destruct (N.ltb_spec 0 ms); [|lia]. Qed.

Section groups.
Context `{WireLaws}.

(** ** Servers *)

Lemma server_inverse pb s c :
  upstream_backend_from_proto pb = Ok s -> compile_upstream_server s = Ok c ->
  upstream_backend_from_proto (proto_backend_from_runtime c) = Ok s.
Proof.
  unfold upstream_backend_from_proto at 1, compile_upstream_server. intros Hs Hc.
  apply bind_Ok_inv in Hs as ([] & Hb & Hs). apply bind_Ok_inv in Hs as ([] & Hp & Hs).
  apply bind_Ok_inv in Hs as (port & Hport & Hs). apply bind_Ok_inv in Hs as (w & Hw & [= <-]).
  apply ok_or_Ok, u16_try_from_Some in Hport as [-> Hport]. inv_ok. simpl in *.
  assert (w <= u16_max /\ w =? 0 = false) as [Hle Hnz].
  { destruct (ub_weight pb =? 0) eqn:E; [by injection Hw as <-|]. by apply ok_or_Ok, u16_try_from_Some in Hw as [-> ?]. }
  unfold upstream_backend_from_proto, proto_backend_from_runtime. cbn [ub_host ub_port ub_weight cs_host cs_port cs_weight].
  rewrite Hb, Hp. cbn [fail_if mbind result_bind]. rewrite u16_try_from_ok by done. cbn [ok_or mbind result_bind].
  by rewrite Hnz, u16_try_from_ok.
Qed.

Lemma servers_inverse pbs ss cs :
  mapM upstream_backend_from_proto pbs = Ok ss -> mapM compile_upstream_server ss = Ok cs ->
  mapM upstream_backend_from_proto (proto_backend_from_runtime <$> cs) = Ok ss.
Proof.
  intros Hs Hc. apply mapM_Ok in Hs, Hc. apply mapM_Ok. revert cs Hc.
  induction Hs as [|pb s pbs ss Hps _ IH]; intros cs Hc; inversion Hc; subst; [constructor|].
  rewrite fmap_cons. constructor; [by eapply server_inverse|by apply IH].
Qed.

(** ** Hash keys and health checks *)

Lemma hash_key_inverse pk k :
  upstream_hash_key_from_proto pk = Ok k -> upstream_hash_key_from_proto (proto_upstream_hash_key_from_runtime k) = Ok k.
Proof.
  unfold upstream_hash_key_from_proto at 1. destruct (hk_source pk) as [[[]|name]|]; try done.
  - by intros [= <-].
  - intros Hk. apply bind_Ok_inv in Hk as (n & Hn & [= <-]). unfold upstream_hash_key_from_proto.
    cbn [proto_upstream_hash_key_from_runtime hk_source]. by rewrite Hn.
Qed.

Lemma health_check_inverse ph h c :
  wire_health ph -> upstream_health_check_from_proto ph = Ok h -> compile_upstream_health_check h = Ok c ->
  upstream_health_check_from_proto (proto_upstream_health_check_from_runtime c) = Ok h.
Proof.
  intros (W1 & W2 & W3 & W4). unfold upstream_health_check_from_proto at 1, compile_upstream_health_check. intros Hh Hc.
  apply bind_Ok_inv in Hh as (kind & _ & Hh). apply bind_Ok_inv in Hh as (timeout & Ht & Hh).
  apply bind_Ok_inv in Hh as (interval & Hi & Hh). apply bind_Ok_inv in Hh as ([] & Hs & Hh).
  apply bind_Ok_inv in Hh as ([] & Hf & Hh). apply bind_Ok_inv in Hh as (ct & Hct & [= <-]).
  apply ok_or_Ok, duration_from_millis_Some in Ht as [Ht ->]. apply ok_or_Ok, duration_from_millis_Some in Hi as [Hi ->].
  cbn [uhc_timeout uhc_interval uhc_consecutive_success uhc_consecutive_failure uhc_check_type] in Hc.
  apply bind_Ok_inv in Hc as ([] & _ & Hc). apply bind_Ok_inv in Hc as ([] & _ & Hc).
  apply bind_Ok_inv in Hc as ([] & _ & Hc). apply bind_Ok_inv in Hc as ([] & _ & Hc).
  apply bind_Ok_inv in Hc as (cc & Hcc & [= <-]).
  unfold upstream_health_check_from_proto, proto_upstream_health_check_from_runtime.
  cbn [uh_kind uh_timeout_ms uh_interval_ms uh_consecutive_success uh_consecutive_failure check_type hc_timeout hc_interval
       consecutive_success consecutive_failure].
  rewrite !as_millis_from, !saturate_id, !duration_from_millis_pos by done. cbn [ok_or mbind result_bind].
  rewrite Hs, Hf. cbn [mbind result_bind].
  destruct kind as [|http]; [injection Hct as <-; by injection Hcc as <-|].
  apply bind_Ok_inv in Hct as ([] & H1 & Hct). apply bind_Ok_inv in Hct as ([] & H2 & [= <-]). inv_ok. simpl in *.
  by rewrite H1, H2.
Qed.

(** ** Discovery *)

Lemma nrf_required_Ok v f s : nrf_required v f = Ok s -> s = trim v /\ is_empty s = false.
Proof. unfold nrf_required. destruct (is_empty (trim v)) eqn:E; [done|]. by intros [= <-]. Qed.
Lemma nrf_required_fix v f : trim v = v -> is_empty v = false -> nrf_required v f = Ok v.
Proof. intros Ht He. unfold nrf_required. by rewrite Ht, He. Qed.
Lemma is_empty_upper s : is_empty (to_ascii_uppercase s) = is_empty s.
Proof. by destruct s. Qed.

Lemma nrf_upper v f s g :
  nrf_required v f = Ok s ->
  nrf_required (to_ascii_uppercase (trim s)) g = Ok (to_ascii_uppercase (trim s)) /\
  to_ascii_uppercase (trim (to_ascii_uppercase (trim s))) = to_ascii_uppercase (trim s).
Proof.
  intros [-> He]%nrf_required_Ok. rewrite trim_idemp. split.
  - apply nrf_required_fix; [by rewrite trim_upper, trim_idemp|by rewrite is_empty_upper].
  - by rewrite trim_upper, trim_idemp, to_ascii_uppercase_idemp.
Qed.

(** The root of a discovery service whose export is the same URL: it is bare, or its path
    does not end with a slash, since final slashes are not exported. *)
Definition nrf_rooted (c : CompiledNrfDiscovery) : Prop :=
  url_path (cn_api_root c) = "/" \/ ends_with "/" (url_path (cn_api_root c)) = false.

Lemma api_root_compiled d c : compile_nrf_discovery d = Ok c -> nrf_rooted c ->
  let text := trim_end_matches "/" (url_to_string (cn_api_root c)) in
  (forall f, nrf_required text f = Ok text) /\ url_parse text = Ok (cn_api_root c).
Proof.
  unfold compile_nrf_discovery, nrf_rooted. intros Hc Hroot. inv_ok. cbn [cn_api_root] in *.
  apply negb_false_iff, orb_true_iff in Hok0. apply orb_false_iff in Hok2 as [Hq Hf].
  destruct (url_parse_root _ _ Hok) as [Ht Hp]; try done.
  { by destruct Hok0 as [Hs|Hs]; apply String.eqb_eq in Hs; [left|right]. }
  { by destruct (url_query a). }
  { by destruct (url_fragment a). }
  split; [|done]. intros f. apply nrf_required_fix; [done|]. by eapply url_parse_nonempty.
Qed.

(** A timeout field where zero stands for a default. *)
Lemma default_millis_inverse ms dflt : ms <= u64_max -> 0 < dflt <= u64_max ->
  let v := if ms =? 0 then dflt else ms in
  (if saturate u64_max (as_millis (from_millis v)) =? 0 then dflt else saturate u64_max (as_millis (from_millis v))) = v.
Proof.
  intros Hms Hd v. subst v. destruct (N.eqb_spec ms 0) as [->|].
  - rewrite as_millis_from, saturate_id by lia. by destruct (N.eqb_spec dflt 0); [lia|].
  - rewrite as_millis_from, saturate_id by lia. by destruct (N.eqb_spec ms 0); [lia|].
Qed.

Lemma nrf_inverse pd d c :
  wire_nrf pd -> nrf_discovery_from_proto pd = Ok d -> compile_nrf_discovery d = Ok c -> nrf_rooted c ->
  exists d', nrf_discovery_from_proto (proto_nrf_discovery_from_runtime c) = Ok d' /\ compile_nrf_discovery d' = Ok c.
Proof.
  intros [W1 W2] Hd Hc Hroot. destruct (api_root_compiled _ _ Hc Hroot) as [Hreq Hparse].
  unfold nrf_discovery_from_proto in Hd. apply bind_Ok_inv in Hd as (scheme & Hscheme & Hd).
  apply bind_Ok_inv in Hd as (root & Hr & Hd). apply bind_Ok_inv in Hd as (tt1 & Ht1 & Hd).
  apply bind_Ok_inv in Hd as (tt2 & Ht2 & Hd). apply bind_Ok_inv in Hd as (sn & Hsn & Hd).
  apply bind_Ok_inv in Hd as (tls & Htls & [= <-]).
  unfold compile_nrf_discovery in Hc. cbn [nrf_api_root nrf_target_nf_type nrf_requester_nf_type nrf_service_name
    nrf_endpoint_scheme nrf_timeout nrf_stale_if_error nrf_tls_options] in Hc.
  apply bind_Ok_inv in Hc as (u & Hu & Hc). apply bind_Ok_inv in Hc as ([] & C1 & Hc).
  apply bind_Ok_inv in Hc as ([] & C2 & Hc). apply bind_Ok_inv in Hc as ([] & C3 & Hc).
  apply bind_Ok_inv in Hc as ([] & C4 & Hc). apply bind_Ok_inv in Hc as ([] & C5 & Hc).
  apply bind_Ok_inv in Hc as ([] & C6 & [= <-]). cbn [cn_api_root] in Hreq, Hparse.
  destruct (nrf_upper _ _ _ "target_nf_type" Ht1) as [U1 U1']. destruct (nrf_upper _ _ _ "requester_nf_type" Ht2) as [U2 U2'].
  apply nrf_required_Ok in Hsn as [-> Hsn].
  eexists. split.
  - unfold nrf_discovery_from_proto, proto_nrf_discovery_from_runtime.
    cbn [nd_endpoint_scheme nd_api_root nd_target_nf_type nd_requester_nf_type nd_service_name nd_timeout_ms nd_stale_if_error_ms
      nd_tls_options cn_api_root cn_target_nf_type cn_requester_nf_type cn_service_name cn_endpoint_scheme cn_timeout
      cn_stale_if_error cn_tls_options].
    rewrite wire_or_as_i32, !default_millis_inverse by done.
    replace (match match scheme with NrfHttp => PnHttp | NrfHttps => PnHttps end with
             | PnUnspecified => Err "nrf_discovery endpoint_scheme is required" | PnHttp => Ok NrfHttp
             | PnHttps => Ok NrfHttps end) with (Ok (E:=string) scheme) by by destruct scheme.
    cbn [mbind result_bind]. rewrite Hreq. cbn [mbind result_bind]. rewrite U1. cbn [mbind result_bind]. rewrite U2. cbn [mbind result_bind].
    rewrite trim_idemp, nrf_required_fix by (done || apply trim_idemp). cbn [mbind result_bind].
    rewrite upstream_tls_inverse; [done|]. by destruct (client_certificate _), (client_certificate_key _).
  - unfold compile_nrf_discovery. cbn [nrf_api_root nrf_target_nf_type nrf_requester_nf_type nrf_service_name
      nrf_endpoint_scheme nrf_timeout nrf_stale_if_error nrf_tls_options default].
    rewrite Hparse. cbn [map_err mbind result_bind]. rewrite C1. cbn [mbind result_bind]. rewrite C2. cbn [mbind result_bind].
    rewrite C3. cbn [mbind result_bind]. rewrite C4. cbn [mbind result_bind]. rewrite C5. cbn [mbind result_bind].
    cbn [from_option id]. rewrite C6. cbn [mbind result_bind]. by rewrite U1', U2', !trim_idemp.
Qed.

(** ** Groups *)

(** What compiling a block gives, whatever groups there are already. *)
Lemma compile_upstream_any compiled b compiled' :
  compile_upstream compiled b = Ok compiled' ->
  exists servers nrf health,
    let g := mkCompiledUpstreamGroup (up_allow_empty b) (up_name b) (up_policy b) (up_hash_key b) servers nrf health in
    compiled' = <[normalize_upstream_name (up_name b) := g]> compiled /\
    compiled !! normalize_upstream_name (up_name b) = None /\
    mapM compile_upstream_server (up_servers b) = Ok servers /\
    transpose (compile_nrf_discovery <$> up_nrf_discovery b) = Ok nrf /\
    transpose (compile_upstream_health_check <$> up_health_check b) = Ok health /\
    forall nrf' m, is_some nrf' = is_some (up_nrf_discovery b) -> transpose (compile_nrf_discovery <$> nrf') = Ok nrf ->
      m !! normalize_upstream_name (up_name b) = None ->
      compile_upstream m (mkUpstreamBlock (up_allow_empty b) (up_name b) (up_policy b) (up_hash_key b) (up_servers b) nrf' (up_health_check b)) =
      Ok (<[normalize_upstream_name (up_name b) := g]> m).
Proof.
  unfold compile_upstream at 1. cbv zeta. intros Hc.
  apply bind_Ok_inv in Hc as ([] & C1 & Hc). apply bind_Ok_inv in Hc as ([] & C2 & Hc). apply bind_Ok_inv in Hc as ([] & C3 & Hc).
  apply bind_Ok_inv in Hc as ([] & C4 & Hc). apply bind_Ok_inv in Hc as (total & C5 & Hc). apply bind_Ok_inv in Hc as ([] & C6 & Hc).
  apply bind_Ok_inv in Hc as ([] & C7 & Hc). apply bind_Ok_inv in Hc as ([] & C8 & Hc). apply bind_Ok_inv in Hc as (servers & C9 & Hc).
  apply bind_Ok_inv in Hc as (nrf & C10 & Hc). apply bind_Ok_inv in Hc as (health & C11 & Hc).
  apply bind_Ok_inv in Hc as ([] & C12 & [= <-]). exists servers, nrf, health. split_and!; try done.
  { apply fail_if_Ok in C12. by destruct (compiled !! _). }
  intros nrf' m Hs Hn Hm. unfold compile_upstream. cbv zeta.
  cbn [up_allow_empty up_name up_policy up_hash_key up_servers up_nrf_discovery up_health_check].
  unfold is_none in *. rewrite Hs, C1. cbn [mbind result_bind]. rewrite C2. cbn [mbind result_bind]. rewrite C3. cbn [mbind result_bind].
  rewrite C4. cbn [mbind result_bind]. rewrite C5. cbn [mbind result_bind]. rewrite C6. cbn [mbind result_bind]. rewrite C7. cbn [mbind result_bind].
  rewrite C8. cbn [mbind result_bind]. rewrite C9. cbn [mbind result_bind]. rewrite Hn. cbn [mbind result_bind]. rewrite C11. cbn [mbind result_bind].
  by rewrite Hm.
Qed.

(** A group that its own message reproduces. *)
Definition group_reimports (g : CompiledUpstreamGroup) : Prop :=
  exists b, upstream_from_proto (proto_upstream_from_runtime g) = Ok b /\
    forall m, m !! normalize_upstream_name (g_name g) = None ->
      compile_upstream m b = Ok (<[normalize_upstream_name (g_name g) := g]> m).

Lemma hash_inverse pk k :
  traverse upstream_hash_key_from_proto pk = Ok k ->
  traverse upstream_hash_key_from_proto (proto_upstream_hash_key_from_runtime <$> k) = Ok k.
Proof.
  intros Hk. apply transpose_Ok in Hk. apply traverse_inverse. intros a ->. destruct pk as [pk|]; [|done].
  destruct Hk as (k & Hk & [= ->]). by eapply hash_key_inverse.
Qed.

Lemma health_inverse pg h c :
  wire_group pg -> traverse upstream_health_check_from_proto (ug_health_check pg) = Ok h ->
  transpose (compile_upstream_health_check <$> h) = Ok c ->
  traverse upstream_health_check_from_proto (proto_upstream_health_check_from_runtime <$> c) = Ok h.
Proof.
  intros [Wh _] Hh Hc. apply transpose_Ok in Hh, Hc. destruct (ug_health_check pg) as [ph|]; [|by subst].
  destruct Hh as (h' & Hh & ->). destruct Hc as (c' & Hc & ->).
  change (transpose (Some (upstream_health_check_from_proto (proto_upstream_health_check_from_runtime c'))) = Ok (Some h')).
  by rewrite (health_check_inverse _ _ _ (Wh _ eq_refl) Hh Hc).
Qed.

Lemma discovery_inverse pg d c :
  wire_group pg -> traverse nrf_discovery_from_proto (ug_nrf_discovery pg) = Ok d ->
  transpose (compile_nrf_discovery <$> d) = Ok c -> (forall x, c = Some x -> nrf_rooted x) ->
  is_some c = is_some (ug_nrf_discovery pg) /\ is_some c = is_some d /\
  exists d', traverse nrf_discovery_from_proto (proto_nrf_discovery_from_runtime <$> c) = Ok d' /\
    is_some d' = is_some d /\ transpose (compile_nrf_discovery <$> d') = Ok c.
Proof.
  intros [_ Wn] Hd Hc Hroot. apply transpose_Ok in Hd, Hc. destruct (ug_nrf_discovery pg) as [pd|]; [|subst; by split_and!; [..|exists None]].
  destruct Hd as (d' & Hd & ->). destruct Hc as (c' & Hc & ->). split_and!; try done.
  destruct (nrf_inverse _ _ _ (Wn _ eq_refl) Hd Hc (Hroot _ eq_refl)) as (d2 & H1 & H2). exists (Some d2).
  change (transpose (Some (nrf_discovery_from_proto (proto_nrf_discovery_from_runtime c'))) = Ok (Some d2) /\ true = true /\
    transpose (Some (compile_nrf_discovery d2)) = Ok (Some c')). by rewrite H1, H2.
Qed.

Lemma group_inverse pg b compiled compiled' :
  wire_group pg -> upstream_from_proto pg = Ok b -> compile_upstream compiled b = Ok compiled' ->
  (forall g d, compiled' !! normalize_upstream_name (up_name b) = Some g -> g_nrf_discovery g = Some d -> nrf_rooted d) ->
  exists g, compiled' = <[normalize_upstream_name (up_name b) := g]> compiled /\ g_name g = up_name b /\
    is_empty (trim (g_name g)) = false /\ group_reimports g.
Proof.
  intros Hw Hb Hc Hroot. unfold upstream_from_proto in Hb. cbv zeta in Hb.
  apply bind_Ok_inv in Hb as ([] & B1 & Hb). apply bind_Ok_inv in Hb as (servers & B2 & Hb).
  apply bind_Ok_inv in Hb as ([] & B3 & Hb). apply bind_Ok_inv in Hb as ([] & B4 & Hb).
  apply bind_Ok_inv in Hb as (policy & B5 & Hb). apply bind_Ok_inv in Hb as (hash & B6 & Hb).
  apply bind_Ok_inv in Hb as (nrf & B7 & Hb). apply bind_Ok_inv in Hb as (health & B8 & [= <-]).
  apply compile_upstream_any in Hc as (cs & cn & ch & -> & _ & C1 & C2 & C3 & Hany).
  cbn [up_allow_empty up_name up_policy up_hash_key up_servers up_nrf_discovery up_health_check] in *.
  eexists. split; [done|]. cbn [g_name]. rewrite trim_idemp. split; [done|]. split; [by apply fail_if_Ok in B1|].
  destruct (discovery_inverse _ _ _ Hw B7 C2) as (Hs1 & Hs2 & d' & D1 & D2 & D3).
  { intros x ->. eapply Hroot; [apply lookup_insert_eq|done]. }
  eexists. split; [|intros m Hm; apply (Hany d' m); [done|exact D3|exact Hm]].
  unfold upstream_from_proto, proto_upstream_from_runtime. cbv zeta.
  cbn [ug_name ug_backends ug_policy ug_health_check ug_hash_key ug_nrf_discovery ug_allow_empty
       g_name g_servers g_policy g_health_check g_hash_key g_nrf_discovery g_allow_empty].
  rewrite trim_idemp, B1. cbn [mbind result_bind]. rewrite (servers_inverse _ _ _ B2 C1). cbn [mbind result_bind].
  assert (is_some (proto_nrf_discovery_from_runtime <$> cn) = is_some (ug_nrf_discovery pg)) as Hs by (rewrite <- Hs1; by destruct cn).
  unfold is_none in *. rewrite Hs, B3. cbn [mbind result_bind]. rewrite B4. cbn [mbind result_bind].
  rewrite policy_inverse. cbn [mbind result_bind]. rewrite (hash_inverse _ _ B6). cbn [mbind result_bind].
  rewrite D1. cbn [mbind result_bind]. by rewrite (health_inverse _ _ _ Hw B8 C3).
Qed.

(** ** The map of groups *)

Lemma compile_upstreams_mono bs m m' : try_fold compile_upstream m bs = Ok m' -> m ⊆ m'.
Proof.
  intros Hf. refine (try_fold_inv (fun x => m ⊆ x) _ _ _ _ _ _ Hf); [|done].
  intros s b s' _ Hs (? & ? & ? & -> & Hn & _)%compile_upstream_any. etrans; [done|]. by apply insert_subseteq.
Qed.

Definition group_settled (name : string) (g : CompiledUpstreamGroup) : Prop :=
  name = normalize_upstream_name (g_name g) /\ is_empty (trim (g_name g)) = false /\ group_reimports g.

Lemma decoded_groups_settled pgs bs m0 m :
  Forall wire_group pgs -> upstreams_from_proto pgs = Ok bs -> try_fold compile_upstream m0 bs = Ok m ->
  (forall name g d, m !! name = Some g -> g_nrf_discovery g = Some d -> nrf_rooted d) ->
  map_Forall group_settled m0 -> map_Forall group_settled m.
Proof.
  intros Hw Hd Hc Hroot. apply mapM_Ok in Hd. revert m0 Hc.
  induction Hd as [|pg b pgs bs Hb _ IH]; cbn [try_fold]; intros m0 Hc Hm0; [by injection Hc as <-|].
  apply bind_Ok_inv in Hc as (m1 & Hm1 & Hc). apply Forall_cons in Hw as [Hw1 Hw]. apply (IH Hw m1 Hc).
  pose proof (compile_upstreams_mono _ _ _ Hc) as Hsub.
  destruct (group_inverse _ _ _ _ Hw1 Hb Hm1) as (g & -> & Hn & He & Hr).
  { intros g d Hg. by apply (Hroot _ _ _ (lookup_weaken _ _ _ _ Hg Hsub)). }
  apply map_Forall_insert_2; [|done]. by rewrite <- Hn.
Qed.

Definition keyed (g : CompiledUpstreamGroup) : string * CompiledUpstreamGroup := (normalize_upstream_name (g_name g), g).

Lemma reimport_list gs m0 :
  Forall group_reimports gs -> NoDup (keyed <$> gs).*1 -> Forall (fun g => m0 !! normalize_upstream_name (g_name g) = None) gs ->
  exists bs, upstreams_from_proto (proto_upstream_from_runtime <$> gs) = Ok bs /\
    try_fold compile_upstream m0 bs = Ok (list_to_map (keyed <$> gs) ∪ m0).
Proof.
  intros Hr. revert m0. induction Hr as [|g gs (b & Hb & Hc) _ IH]; intros m0 Hd Hf.
  - exists []. split; [done|]. cbn. by rewrite (left_id_L ∅ (∪)).
  - rewrite !fmap_cons in Hd. apply NoDup_cons in Hd as [Hnin Hd]. apply Forall_cons in Hf as [Hg Hf].
    destruct (IH (<[normalize_upstream_name (g_name g) := g]> m0)) as (bs & H1 & H2); [done| |].
    { apply Forall_forall. intros g' Hg'. rewrite lookup_insert_ne; [by eapply Forall_forall in Hf|].
      intros He. apply Hnin. apply list_elem_of_fmap. exists (keyed g'). split; [done|]. by apply list_elem_of_fmap_2. }
    exists (b :: bs). split.
    + rewrite fmap_cons. unfold upstreams_from_proto in *. cbn [mapM]. rewrite Hb. cbn [mbind result_bind]. by rewrite H1.
    + cbn [try_fold]. rewrite (Hc _ Hg). cbn [mbind result_bind]. rewrite H2, fmap_cons. cbn [keyed list_to_map foldr uncurry].
      change (list_to_map (keyed g :: (keyed <$> gs))) with
        (<[normalize_upstream_name (g_name g) := g]> (list_to_map (keyed <$> gs) : gmap string CompiledUpstreamGroup)).
      rewrite <- insert_union_l, <- insert_union_r; [done|]. by apply not_elem_of_list_to_map_1.
Qed.

Lemma settled_keyed `{HashIter} m : map_Forall group_settled m -> keyed <$> iter_values m = iter m.
Proof.
  intros Hm. unfold iter_values. assert (Forall (fun kv => kv.1 = normalize_upstream_name (g_name kv.2)) (iter m)) as Hall.
  { apply Forall_forall. intros [k g] Hin. apply elem_of_iter in Hin. by apply Hm in Hin as [-> _]. }
  induction Hall as [|[k g] l Hk _ IH]; [done|]. rewrite !fmap_cons, IH. simpl in Hk. by subst k.
Qed.

(** C23: exporting upstream groups is stable: the groups compiled from a control plane's
    messages are exported ([GetSnapshot]), in whatever order their map is visited, as
    messages that read back and compile to the same groups, so that applying an
    exported snapshot restarts no group.  Side conditions: the integers of the messages
    fit their fields, and the path of a discovery service's root, if it has one, does not
    end with a slash, since final slashes are not exported. *)
Theorem upstreams_export_stable `{HashIter} pgs bs m :
  Forall wire_group pgs -> upstreams_from_proto pgs = Ok bs -> compile_upstreams bs = Ok m ->
  (forall name g d, m !! name = Some g -> g_nrf_discovery g = Some d -> nrf_rooted d) ->
  exists bs', upstreams_from_proto (proto_upstreams_from_runtime m) = Ok bs' /\ compile_upstreams bs' = Ok m.
Proof.
  intros Hw Hd Hc Hroot. unfold compile_upstreams in *.
  assert (map_Forall group_settled m) as Hm by (eapply decoded_groups_settled; [done..|apply map_Forall_empty]).
  unfold proto_upstreams_from_runtime. set (gs := stable_sort _ (iter_values m)).
  assert (gs ≡ₚ iter_values m) as Hperm by apply stable_sort_perm.
  assert (keyed <$> gs ≡ₚ map_to_list m) as Hkeys by by rewrite Hperm, settled_keyed, iter_perm.
  destruct (reimport_list gs ∅) as (bs' & H1 & H2).
  - rewrite Hperm. apply Forall_forall. intros g (k & Hg)%elem_of_iter_values. by apply Hm in Hg as (_ & _ & ?).
  - rewrite Hkeys. apply NoDup_fst_map_to_list.
  - apply Forall_forall. intros. apply lookup_empty.
  - exists bs'. split; [done|]. rewrite H2, (right_id_L ∅ (∪)). f_equal.
    rewrite <- (list_to_map_to_list m). apply list_to_map_proper; [|done]. rewrite Hkeys. apply NoDup_fst_map_to_list.
Qed.
End groups.

(** ** Witness *)

Module GroupSample.
Definition groups : list ProtoUpstreamGroup :=
  [mkProtoUpstreamGroup " Web " [mkProtoUpstreamBackend "10.0.0.1" 80 0; mkProtoUpstreamBackend "10.0.0.2" 81 5] 3
     (Some (mkProtoUpstreamHealthCheck (Some HkTcp) 1000 5000 1 2)) (Some (mkProtoUpstreamHashKey (Some (HkHeader "X-Id")))) None false;
   mkProtoUpstreamGroup "amf" [] 0
     (Some (mkProtoUpstreamHealthCheck (Some (HkHttp (mkProtoUpstreamHttpHealthCheck "h" "/ok" true))) 1 1 1 1)) None
     (Some (mkProtoNrfDiscovery "https://nrf.internal/nnrf-disc/v1" " amf " "SMF" "namf" 1 0 7 None)) false].
Definition blocks : list UpstreamBlock :=
  match @upstreams_from_proto Toy.crates groups with Ok l => l | Err _ => [] end.
Definition compiled : gmap string (@CompiledUpstreamGroup Toy.crates) :=
  match @compile_upstreams Toy.crates blocks with Ok m => m | Err _ => ∅ end.
End GroupSample.

Lemma upstreams_export_stable_witness :
  exists bs', @upstreams_from_proto Toy.crates (@proto_upstreams_from_runtime Toy.crates iter_backward GroupSample.compiled) = Ok bs' /\
    @compile_upstreams Toy.crates bs' = Ok GroupSample.compiled.
Proof.
  apply (@upstreams_export_stable Toy.crates Toy.wire_laws iter_backward GroupSample.groups GroupSample.blocks).
  - unfold GroupSample.groups. apply Forall_cons. split; [|apply Forall_singleton].
    all: split; intros ? [= <-]; vm_compute; repeat split; discriminate.
  - reflexivity.
  - reflexivity.
  - assert (map_Forall (fun (_ : string) (g : @CompiledUpstreamGroup Toy.crates) =>
      forall d, g_nrf_discovery g = Some d -> nrf_rooted d) GroupSample.compiled) as Hall.
    { change GroupSample.compiled with
        (<["amf" := default RouteSample.group (GroupSample.compiled !! "amf")]>
         {[ "web" := default RouteSample.group (GroupSample.compiled !! "web") ]} : gmap string (@CompiledUpstreamGroup Toy.crates)).
      apply map_Forall_insert_2; [|apply map_Forall_singleton]; intros d [= <-]; right; reflexivity. }
    intros name g d Hg. exact (Hall name g Hg d).
Defined.
