(* ===== verification/Grpc.v ===== *)
(** * The control-plane service (crates/ngxora-runtime/src/grpc.rs)

    [ApplySnapshot] and [GetSnapshot] over the runtime state, and the process that
    serves them beside configuration reloads. *)

From S2P Require Import Prelude RustStr NetAddr Crates Parser Include Ir Types Scp CompileUpstreams CompileRoutes.
From S2P Require Import CompileRouter Control Cli Proto GrpcValues GrpcDecode GrpcEncode.

Open Scope N_scope.

(** [tonic::Status] with the codes the service uses. *)
Inductive Status := InvalidArgument (message : string) | FailedPrecondition (message : string).

Definition proto_apply_result (result : ApplyResult) : ProtoApplyResult :=
  mkProtoApplyResult (applied result) (restart_required result) (message result) (active_version result)
    (active_generation result).

Section service.
Context `{RuntimeDeps} `{!HashIter}.

(** [GrpcControlPlane::apply_snapshot] and [get_snapshot]. *)
Definition grpc_apply_snapshot (s : RuntimeState) (request : ProtoConfigSnapshot)
  : RuntimeState * result Status ProtoApplyResult :=
  match runtime_snapshot_from_proto request with
  | Err e => (s, Err (InvalidArgument e))
  | Ok snapshot =>
      let '(s', result) := apply_snapshot s snapshot in
      (s', Ok (proto_apply_result result))
  end.
Definition grpc_get_snapshot (s : RuntimeState) : result Status ProtoConfigSnapshot :=
  map_err FailedPrecondition (proto_snapshot_from_runtime (st_current s)).

(** What can happen to a serving process: a SIGHUP, a call of the control plane, a
    renewed certificate, a panic under the apply lock. *)
Inductive serve_step (path : string) : RuntimeState -> RuntimeState -> Prop :=
| serve_reload s (fs : FileSystem) : serve_step path s (reload fs path s)
| serve_apply s request : serve_step path s (fst (grpc_apply_snapshot s request))
| serve_renew s : serve_step path s (invalidate_tls_material s)
| serve_panic s : serve_step path s (mkRuntimeState (st_current s) (st_geoip s) (st_bootstrap_config s) true (st_tls_material_generation s)).

(** A snapshot from the wire goes through the same compilation as a file. *)
Lemma runtime_snapshot_from_proto_wf request snapshot :
  runtime_snapshot_from_proto request = Ok snapshot -> router_wf (cs_router snapshot).
Proof.
  unfold runtime_snapshot_from_proto. intros Hr. apply bind_Ok_inv in Hr as (h & _ & Hr).
  apply bind_Ok_inv in Hr as (r & Hf & [= <-]). by eapply from_http_router_wf.
Qed.

Lemma serve_rt_step path s s' : serve_step path s s' -> rtc (rt_step router_wf) s s'.
Proof.
  destruct 1 as [s fs|s request|s|s].
  - apply (reload_rt_step path). by exists fs.
  - unfold grpc_apply_snapshot. destruct (runtime_snapshot_from_proto request) as [snapshot|] eqn:E; [|done].
    apply runtime_snapshot_from_proto_wf in E. pose proof (rt_apply router_wf s snapshot E) as Hs.
    destruct (apply_snapshot s snapshot). by apply rtc_once.
  - apply rtc_once, rt_invalidate.
  - apply rtc_once, rt_poison.
Qed.

(** C7: a process started from a configuration file keeps serving whatever its
    operators do: after any sequence of reloads (whatever the files contain then),
    [ApplySnapshot] calls (whatever the messages contain), certificate renewals and
    panics, every lookup that a request makes for a location of the active router
    succeeds, and the listening configuration is the one it started with.  A file or a
    message that is refused leaves the state as it is, and the reply says whether the
    snapshot was applied and which one is active. *)
Theorem control_keeps_serving fs path s0 s :
  boot fs path = Some s0 -> rtc (serve_step path) s0 s ->
  (forall l, router_location (sn_router (st_current s)) l -> lookups_succeed (st_current s) l) /\
  restart_fingerprint (sn_router (st_current s)) = restart_fingerprint (sn_router (st_current s0)) /\
  (forall fs' e, @load_router _ fs' path = Err e -> reload fs' path s = s) /\
  (forall request s' reply, grpc_apply_snapshot s request = (s', reply) ->
    match reply with
    | Err _ => s' = s
    | Ok r => (pa_applied r = false -> s' = s) /\
        (pa_applied r = true -> sn_version (st_current s') = cf_version request) /\
        pa_active_version r = sn_version (st_current s') /\ pa_active_generation r = sn_generation (st_current s')
    end).
Proof.
  intros Hb Hr. assert (rtc (rt_step router_wf) s0 s) as Hrt.
  { clear -Hr. induction Hr as [|x y z Hxy _ IH]; [done|]. etrans; [by eapply serve_rt_step|done]. }
  destruct (boot_serves fs path s0 s Hb Hrt) as [Hl Hf]. split_and!; try done.
  - intros fs' e He. unfold reload. by rewrite He.
  - intros request s' reply. unfold grpc_apply_snapshot, runtime_snapshot_from_proto.
    destruct (http_from_proto_snapshot request) as [h|]; cbn [mbind result_bind]; [|by intros [= <- <-]].
    destruct (from_http h) as [r|]; cbn [mbind result_bind]; [|by intros [= <- <-]].
    destruct (apply_snapshot_cases s (mkConfigSnapshot (cf_version request) r)) as [(rs & m & -> & _)|(sn & _ & _ & Hsn & ->)];
      intros [= <- <-]; [done|]. split_and!; try done. intros _. cbn [st_current].
    unfold build_runtime_snapshot in Hsn. do 6 (apply bind_Ok_inv in Hsn as (? & _ & Hsn)). by injection Hsn as <-.
Qed.
End service.

(** ** Witness *)

Module GrpcSample.
Definition request : ProtoConfigSnapshot :=
  mkProtoConfigSnapshot "v2" None [mkProtoListener "web" "0.0.0.0" 80 false false false None]
    [mkProtoVirtualHost "web" [] true None
       [mkProtoRoute (Some (mkProtoMatch (Some (MkPrefix "/"))))
          (Some (AcUpstream (mkProtoUpstream "http" "" 0 "web"))) None [] None 0 None None None [] [] None None None]]
    [mkProtoUpstreamGroup "web" [mkProtoUpstreamBackend "10.0.0.2" 80 0] 0 None None None false] None [] None.
End GrpcSample.

Lemma control_keeps_serving_witness :
  @restart_fingerprint _ iter_forward
    (sn_router (st_current (fst (@grpc_apply_snapshot _ ToyDeps.deps iter_forward CliSample.s0 GrpcSample.request)))) =
  @restart_fingerprint _ iter_forward (sn_router (st_current CliSample.s0)) /\
  match snd (@grpc_apply_snapshot _ ToyDeps.deps iter_forward CliSample.s0 GrpcSample.request) with
  | Ok r => pa_applied r
  | Err _ => false
  end = true.
Proof.
  split; [|vm_compute; reflexivity].
  refine (proj1 (proj2 (@control_keeps_serving _ ToyDeps.deps iter_forward CliSample.fs "/etc/ngxora.conf" CliSample.s0 _ _ _))).
  - exact (is_some_default CliSample.start ToyDeps.the_state CliSample.starts).
  - apply rtc_once, serve_apply.
Defined.
