(* ===== verification/ControlClient.v ===== *)
(** * The control-plane clients
    (crates/ngxora-runtime/examples/apply_snapshot.rs and get_snapshot.rs)

    Two command-line programs that call the control plane over mutual TLS or a Unix
    socket: one sends a snapshot with a single route, the other asks for the active one.
    Their common part, then one module each.  The transport is the class [Tonic]. *)

From S2P Require Import Prelude RustStr NetAddr Crates Ir Types CompileUpstreams CompileRoutes CompileRouter Control.
From S2P Require Import Proto GrpcValues GrpcDecode.

Open Scope N_scope.

(** ** The target of a call *)

Record TcpTarget := mkTcpTarget {
  tt_endpoint : string;
  tt_ca : string;
  tt_certificate : string;
  tt_key : string;
  tt_domain : option string
}.
Inductive Target := Tcp (target : TcpTarget) | Uds (path : string).

(** The variables of [parse_args] that name the target. *)
Record TargetDraft := mkTargetDraft {
  td_tcp : option string;
  td_uds : option string;
  td_ca : option string;
  td_certificate : option string;
  td_key : option string;
  td_domain : option string
}.
Definition TargetDraft_default : TargetDraft := mkTargetDraft None None None None None None.

Definition requires_value (flag : string) : string := flag +:+ " requires a value".

(** The flags of both programs: the error without a value, and what the value sets. *)
Definition target_flag (d : TargetDraft) (flag : string) : option (string * (string -> TargetDraft)) :=
  let '(mkTargetDraft tcp uds ca certificate key domain) := d in
  if String.eqb flag "--addr" then
    Some ("--addr requires an HTTPS URI like https://controller.example:50051",
          fun value => mkTargetDraft (Some value) uds ca certificate key domain)
  else if String.eqb flag "--uds" then
    Some ("--uds requires a socket path", fun value => mkTargetDraft tcp (Some value) ca certificate key domain)
  else if String.eqb flag "--tls-ca" then
    Some (requires_value flag, fun value => mkTargetDraft tcp uds (Some value) certificate key domain)
  else if String.eqb flag "--tls-cert" then
    Some (requires_value flag, fun value => mkTargetDraft tcp uds ca (Some value) key domain)
  else if String.eqb flag "--tls-key" then
    Some (requires_value flag, fun value => mkTargetDraft tcp uds ca certificate (Some value) domain)
  else if String.eqb flag "--tls-domain" then
    Some (requires_value flag, fun value => mkTargetDraft tcp uds ca certificate key (Some value))
  else None.

Definition is_help (arg : string) : bool := String.eqb arg "-h" || String.eqb arg "--help".

Section clients.
Context `{Crates}.

Definition validate_https_endpoint (value : string) : result string unit :=
  endpoint ← map_err (fun err => "invalid --addr: " +:+ err) (url_parse value);
  fail_if (negb (String.eqb (url_scheme endpoint) "https") || is_none (url_host_str endpoint))
    "--addr must be an HTTPS URI with a host".

(** The match after the loop of [parse_args]. *)
Definition target_of (d : TargetDraft) : result string Target :=
  match td_tcp d, td_uds d with
  | Some _, Some _ => Err "use either --addr or --uds, not both"
  | Some endpoint, None =>
      _ ← validate_https_endpoint endpoint;
      match td_ca d, td_certificate d, td_key d with
      | Some ca, Some certificate, Some key => Ok (Tcp (mkTcpTarget endpoint ca certificate key (td_domain d)))
      | _, _, _ => Err "--addr requires --tls-ca, --tls-cert, and --tls-key for mTLS"
      end
  | None, Some path => Ok (Uds path)
  | None, None => Err "specify --addr or --uds"
  end.

(** ** Connecting *)

(** [ClientTlsConfig] as the programs fill it. *)
Record ClientTlsConfig := mkClientTlsConfig {
  ct_ca_certificate : string;
  ct_identity : string * string;
  ct_domain_name : option string
}.

(** What [tonic] does with endpoints, and the control plane behind a channel. *)
Class Tonic := {
  Endpoint : Type;
  Channel : Type;
  from_shared : string -> result string Endpoint;
  tls_config : Endpoint -> ClientTlsConfig -> result string Endpoint;
  channel_connect : Endpoint -> result string Channel;
  uds_connect : string -> result string Channel;
  call_apply_snapshot : Channel -> ProtoConfigSnapshot -> result string ProtoApplyResult;
  call_get_snapshot : Channel -> result string ProtoConfigSnapshot
}.
Context `{Tonic} (read : string -> result string string).

Definition read_pem (path name : string) : result string string :=
  map_err (fun err => "failed to read " +:+ name +:+ " " +:+ path +:+ ": " +:+ err) (read path).

Definition connect_tcp (target : TcpTarget) : result string Channel :=
  ca ← read_pem (tt_ca target) "controller CA";
  certificate ← read_pem (tt_certificate target) "controller certificate";
  key ← read_pem (tt_key target) "controller key";
  endpoint ← from_shared (tt_endpoint target);
  endpoint ← tls_config endpoint (mkClientTlsConfig ca (certificate, key) (tt_domain target));
  channel_connect endpoint.

Definition connect (target : Target) : result string Channel :=
  match target with Tcp target => connect_tcp target | Uds path => uds_connect path end.

(** A channel of these programs is to a Unix socket, or to an HTTPS endpoint with the
    authority's and the program's own certificate. *)
Definition authenticated_channel (channel : Channel) : Prop :=
  (exists path, uds_connect path = Ok channel) \/
  exists addr url e tls e', url_parse addr = Ok url /\ url_scheme url = "https" /\ is_some (url_host_str url) = true /\
    from_shared addr = Ok e /\ tls_config e tls = Ok e' /\ channel_connect e' = Ok channel /\
    (exists path, read path = Ok (ct_ca_certificate tls)) /\ (exists path, read path = Ok (fst (ct_identity tls))) /\
    (exists path, read path = Ok (snd (ct_identity tls))).

Lemma connect_authenticated d target channel :
  target_of d = Ok target -> connect target = Ok channel -> authenticated_channel channel.
Proof.
  assert (forall path name text, read_pem path name = Ok text -> read path = Ok text) as Hread.
  { intros path name text. unfold read_pem. by destruct (read path); [intros [= ->]|]. }
  unfold target_of. destruct (td_tcp d) as [endpoint|], (td_uds d) as [path|]; [done| |intros [= <-] Hc; left; by exists path|done].
  destruct (validate_https_endpoint endpoint) as [|] eqn:Hv; [|done]. cbn [mbind result_bind].
  destruct (td_ca d) as [ca|], (td_certificate d) as [cert|], (td_key d) as [key|]; try done. intros [= <-] Hc. right.
  unfold validate_https_endpoint in Hv. apply bind_Ok_inv in Hv as (url & Hu & Hv). unfold fail_if in Hv.
  destruct (String.eqb_spec (url_scheme url) "https") as [Hs|]; [|done].
  destruct (url_host_str url) as [host|] eqn:Eh; [|done].
  destruct (url_parse endpoint) as [url'|] eqn:Ep; [|done]. injection Hu as ->.
  cbn [connect] in Hc. unfold connect_tcp in Hc. cbn [tt_ca tt_certificate tt_key tt_endpoint tt_domain] in Hc.
  apply bind_Ok_inv in Hc as (pem1 & H1%Hread & Hc). apply bind_Ok_inv in Hc as (pem2 & H2%Hread & Hc).
  apply bind_Ok_inv in Hc as (pem3 & H3%Hread & Hc). apply bind_Ok_inv in Hc as (e & He & Hc). apply bind_Ok_inv in Hc as (e' & He' & Hc).
  eexists endpoint, url, e, _, e'. rewrite Eh. split_and!; by eauto.
Qed.
End clients.

(** ** Asking for the active snapshot *)

Module GetSnapshot.
Section get.
Context `{Crates}.

(** The loop; [None] is the end of the program after [--help]. *)
Fixpoint get_read_args (d : TargetDraft) (args : list string) : result string (option TargetDraft) :=
  match args with
  | [] => Ok (Some d)
  | arg :: rest =>
      match target_flag d arg with
      | Some (missing, set) =>
          match rest with [] => Err missing | value :: rest => get_read_args (set value) rest end
      | None => if is_help arg then Ok None else Err ("unknown argument: " +:+ arg)
      end
  end.
Definition get_parse_args (args : list string) : result string (option Target) :=
  draft ← get_read_args TargetDraft_default (drop 1 args);
  transpose (target_of <$> draft).

Context `{!Tonic} (read : string -> result string string).
Definition get_main (args : list string) : result string (option ProtoConfigSnapshot) :=
  target ← get_parse_args args;
  match target with
  | None => Ok None
  | Some target => client ← connect read target; Some <$> call_get_snapshot client
  end.
End get.
End GetSnapshot.

(** ** Sending a snapshot *)

Module ApplySnapshot.
Record CliArgs := mkCliArgs {
  target : Target;
  version : string;
  listener_name : string;
  address : string;
  port : N;
  server_name : string;
  path_prefix : string;
  upstream_scheme : string;
  upstream_host : string;
  upstream_port : N
}.
Definition with_target (t : Target) (a : CliArgs) : CliArgs :=
  mkCliArgs t (version a) (listener_name a) (address a) (port a) (server_name a) (path_prefix a) (upstream_scheme a) (upstream_host a)
    (upstream_port a).

(** The text of [ParseIntError] for an unsigned type. *)
Definition parse_int_error (value : string) : string :=
  let body := default value (strip_prefix "+" value) in
  if is_empty value then "cannot parse integer from empty string"
  else if is_empty body || negb (str_all is_ascii_digit body) then "invalid digit found in string"
  else "number too large to fit in target type".
Definition parse_u32 (value : string) : result string N := ok_or (parse_uint u32_max value) (parse_int_error value).

(** The variables of [parse_args] besides the target, with the values they start with;
    the target is that of the result. *)
Definition defaults (t : Target) : CliArgs := mkCliArgs t "manual-v1" "edge" "0.0.0.0" 8080 "localhost" "/" "http" "example.com" 80.

(** The flags of this program. *)
Definition snapshot_flag (a : CliArgs) (flag : string) : option (string -> result string CliArgs) :=
  let '(mkCliArgs t v ln ad p sn pp us uh up) := a in
  if String.eqb flag "--version" then Some (fun value => Ok (mkCliArgs t value ln ad p sn pp us uh up))
  else if String.eqb flag "--listener-name" then Some (fun value => Ok (mkCliArgs t v value ad p sn pp us uh up))
  else if String.eqb flag "--listen-addr" then Some (fun value => Ok (mkCliArgs t v ln value p sn pp us uh up))
  else if String.eqb flag "--listen-port" then Some (fun value => p ← parse_u32 value; Ok (mkCliArgs t v ln ad p sn pp us uh up))
  else if String.eqb flag "--server-name" then Some (fun value => Ok (mkCliArgs t v ln ad p value pp us uh up))
  else if String.eqb flag "--path-prefix" then Some (fun value => Ok (mkCliArgs t v ln ad p sn value us uh up))
  else if String.eqb flag "--upstream-scheme" then Some (fun value => Ok (mkCliArgs t v ln ad p sn pp value uh up))
  else if String.eqb flag "--upstream-host" then Some (fun value => Ok (mkCliArgs t v ln ad p sn pp us value up))
  else if String.eqb flag "--upstream-port" then Some (fun value => up ← parse_u32 value; Ok (mkCliArgs t v ln ad p sn pp us uh up))
  else None.

Definition validate_scheme (value : string) : result string unit :=
  if String.eqb value "http" || String.eqb value "https" then Ok tt
  else Err "--upstream-scheme must be either `http` or `https`".

Section apply.
Context `{Crates}.

Fixpoint apply_read_args (d : TargetDraft) (a : CliArgs) (args : list string) : result string (option (TargetDraft * CliArgs)) :=
  match args with
  | [] => Ok (Some (d, a))
  | arg :: rest =>
      match target_flag d arg with
      | Some (missing, set) =>
          match rest with [] => Err missing | value :: rest => apply_read_args (set value) a rest end
      | None =>
          match snapshot_flag a arg with
          | Some set =>
              match rest with [] => Err (requires_value arg) | value :: rest => a ← set value; apply_read_args d a rest end
          | None => if is_help arg then Ok None else Err ("unknown argument: " +:+ arg)
          end
      end
  end.
Definition apply_parse_args (args : list string) : result string (option CliArgs) :=
  draft ← apply_read_args TargetDraft_default (defaults (Uds "")) (drop 1 args);
  match draft with
  | None => Ok None
  | Some (d, a) =>
      t ← target_of d;
      _ ← validate_scheme (upstream_scheme a);
      Ok (Some (with_target t a))
  end.

Definition quote (s : string) : string := byte1 34 +:+ s +:+ byte1 34.
(** [{"response":{"add":[["x-proxy","ngxora"]]}}] *)
Definition headers_json : string :=
  "{" +:+ quote "response" +:+ ":{" +:+ quote "add" +:+ ":[[" +:+ quote "x-proxy" +:+ "," +:+ quote "ngxora" +:+ "]]}}".

(** The route of the snapshot. *)
Definition route (prefix scheme host : string) (port : N) : ProtoRoute :=
  {| rt_access_rules := [];
     rt_allowed_methods := [];
     rt_client_max_body_size_bytes := None;
     rt_client_body_timeout_ms := None;
     rt_send_timeout_ms := None;
     rt_upstream_http2 := None;
     rt_url_rewrite := None;
     rt_match := Some (mkProtoMatch (Some (MkPrefix prefix)));
     rt_action := Some (AcUpstream
       {| pu_scheme := scheme;
          pu_host := host;
          pu_port := port;
          pu_upstream_group := "" |});
     rt_timeouts := Some
       {| rt_connect_timeout_ms := 3000; rt_read_timeout_ms := 15000; rt_write_timeout_ms := 15000 |};
     rt_cache := None;
     rt_upstream_protocol := as_i32 PhUnspecified;
     rt_tls_options := None;
     rt_plugins := [{| pl_name := "headers"; pl_json_config := headers_json |}]|}.

Definition build_snapshot (cli : CliArgs) : ProtoConfigSnapshot :=
  {| cf_geoip := None;
     cf_scp_profiles := [];
     cf_version := version cli;
     cf_http := Some
       {| ho_real_ip := None;
          ho_client_header_timeout_ms := None;
          ho_client_body_timeout_ms := None;
          ho_send_timeout_ms := None;
          ho_http2 := None;
          ho_downstream_keepalive_timeout_seconds := 30;
          ho_tcp_nodelay := true;
          ho_keepalive_requests := 1000;
          ho_allow_connect_method_proxying := false;
          ho_h2c := false;
          ho_client_max_body_size_bytes := 10 * 1024 * 1024;
          ho_proxy_cache_max_size_bytes := 0 |};
     cf_listeners :=
       [{| pl_listener_name := listener_name cli;
           pl_address := address cli;
           pl_port := port cli;
           pl_tls := false;
           pl_http2 := false;
           pl_http2_only := false;
           pl_tls_options := None |}];
     cf_upstreams := [];
     cf_virtual_hosts :=
       [{| vh_listener := listener_name cli;
           vh_server_names := [server_name cli];
           vh_default_server := true;
           vh_tls := None;
           vh_routes :=
             [route (path_prefix cli) (upstream_scheme cli) (upstream_host cli) (upstream_port cli)] |}];
     cf_le_config := None |}.

(** The line that is printed. *)
Definition print_result (r : ProtoApplyResult) : string :=
  let show (b : bool) := if b then "true" else "false" in
  "applied=" +:+ show (pa_applied r) +:+ " restart_required=" +:+ show (pa_restart_required r) +:+ " version=" +:+ pa_active_version r +:+
  " generation=" +:+ pretty (pa_active_generation r) +:+ " message=" +:+ pa_message r.

Context `{!Tonic} (read : string -> result string string).
Definition apply_main (args : list string) : result string (option string) :=
  cli ← apply_parse_args args;
  match cli with
  | None => Ok None
  | Some cli =>
      client ← connect read (target cli);
      result ← call_apply_snapshot client (build_snapshot cli);
      Ok (Some (print_result result))
  end.
End apply.
End ApplySnapshot.

(** ** What the clients do *)

Section client_theorems.
Context `{Crates}.

(** The same words name the same target to both programs. *)
Lemma read_args_same d a args :
  match GetSnapshot.get_read_args d args with
  | Ok r => ApplySnapshot.apply_read_args d a args = Ok ((fun d => (d, a)) <$> r)
  | Err _ => True
  end.
Proof.
  revert d. induction args as [args IH] using (induction_ltof1 _ (@length string)). unfold ltof in IH. intros d.
  destruct args as [|arg rest]; [done|]. cbn [GetSnapshot.get_read_args ApplySnapshot.apply_read_args].
  destruct (target_flag d arg) as [[missing set]|] eqn:Et.
  - destruct rest as [|value rest]; [done|]. apply IH. cbn. lia.
  - destruct (is_help arg) eqn:Eh; [|done].
    assert (ApplySnapshot.snapshot_flag a arg = None) as ->; [|done].
    unfold is_help in Eh. apply orb_true_iff in Eh as [->%String.eqb_eq| ->%String.eqb_eq]; by destruct a.
Qed.

(** Whatever [get_snapshot] accepts as its arguments, [apply_snapshot] accepts too, for the
    same target and with its other settings at their defaults. *)
Theorem clients_agree args t :
  GetSnapshot.get_parse_args args = Ok t -> ApplySnapshot.apply_parse_args args = Ok (ApplySnapshot.defaults <$> t).
Proof.
  unfold GetSnapshot.get_parse_args, ApplySnapshot.apply_parse_args. intros Hg.
  pose proof (read_args_same TargetDraft_default (ApplySnapshot.defaults (Uds "")) (drop 1 args)) as Hs.
  destruct (GetSnapshot.get_read_args _ _) as [[d|]|]; cbn in Hg; [| |done]; rewrite Hs; cbn; [|by injection Hg as <-].
  destruct (target_of d) as [t'|]; [|done]. by injection Hg as <-.
Qed.

(** Only HTTP and HTTPS upstreams are sent. *)
Lemma parsed_scheme args cli :
  ApplySnapshot.apply_parse_args args = Ok (Some cli) ->
  is_some (proxy_pass_tls (ApplySnapshot.upstream_scheme cli)) = true.
Proof.
  unfold ApplySnapshot.apply_parse_args. intros Hp. apply bind_Ok_inv in Hp as ([[d a]|] & _ & Hp); [|done].
  apply bind_Ok_inv in Hp as (t & _ & Hp). apply bind_Ok_inv in Hp as ([] & Hv & [= <-]).
  unfold ApplySnapshot.validate_scheme in Hv. destruct (String.eqb_spec (ApplySnapshot.upstream_scheme a) "http") as [E|].
  - cbn. by rewrite E.
  - destruct (String.eqb_spec (ApplySnapshot.upstream_scheme a) "https") as [E|]; [|done]. cbn. by rewrite E.
Qed.

(** What the control plane can read: a trimmed listener name, an address, ports in range,
    a host that makes up a URL. *)
Definition readable (cli : ApplySnapshot.CliArgs) (addr : IpAddr) (url : Url) (config : Value) : Prop :=
  let ln := ApplySnapshot.listener_name cli in
  is_empty ln = false /\ trim ln = ln /\ parse_ip (ApplySnapshot.address cli) = Some addr /\ ApplySnapshot.port cli <= u16_max /\
  is_empty (trim (ApplySnapshot.upstream_host cli)) = false /\ ApplySnapshot.upstream_port cli <> 0 /\
  url_parse (ApplySnapshot.upstream_scheme cli +:+ "://" +:+ ApplySnapshot.upstream_host cli +:+ ":" +:+
    pretty (ApplySnapshot.upstream_port cli)) = Ok url /\
  json_from_str ApplySnapshot.headers_json = Ok config.
(** One location that proxies to the URL; one server on one listener with it. *)
Definition client_location (prefix : string) (url : Url) (config : Value) : Location :=
  mkLocation (LmPrefix prefix) []
    [ProxyConnectTimeout (from_secs 3); ProxyReadTimeout (from_secs 15); ProxyWriteTimeout (from_secs 15); ProxyPass (PpUrl url)]
    [mkPluginSpec _ "headers" config] None.
Definition client_http (cli : ApplySnapshot.CliArgs) (addr : IpAddr) (url : Url) (config : Value) : Http :=
  let server := mkServer [ApplySnapshot.server_name cli] [client_location (ApplySnapshot.path_prefix cli) url config]
    [mkListen addr (ApplySnapshot.port cli) false true false false] None DownstreamTlsOptions_default in
  mkHttp None None None None [] [] [server] (KeepaliveSet (from_secs 30) None) (Some 1000) (Some (10 * 1024 * 1024)) None On Off Off
    Http2Options_default None None.

Lemma sent_target scheme host port target :
  is_some (proxy_pass_tls scheme) = true ->
  proxy_pass_target_from_proto (mkProtoUpstream scheme host port "") = Ok target <->
  exists url, is_empty (trim host) = false /\ port <> 0 /\
    url_parse (scheme +:+ "://" +:+ host +:+ ":" +:+ pretty port) = Ok url /\ target = PpUrl url.
Proof.
  intros Hs. unfold proxy_pass_target_from_proto. cbn [pu_scheme pu_host pu_port pu_upstream_group].
  destruct (proxy_pass_tls scheme) as [tls|]; [|done]. change (is_empty (trim "")) with true.
  cbn [ok_or mbind result_bind negb]. rewrite andb_false_r. cbn [fail_if mbind result_bind].
  destruct (is_empty (trim host)); cbn [mbind result_bind].
  { split; [done|]. by intros (? & ? & _). }
  destruct (N.eqb_spec port 0); cbn [mbind result_bind].
  { split; [done|]. by intros (? & _ & ? & _). }
  destruct (url_parse _) as [url|]; cbn; split; naive_solver.
Qed.

Lemma sent_plugin spec :
  plugin_spec_from_proto (mkProtoPlugin "headers" ApplySnapshot.headers_json) = Ok spec <->
  exists config, json_from_str ApplySnapshot.headers_json = Ok config /\ spec = mkPluginSpec _ "headers" config.
Proof.
  unfold plugin_spec_from_proto. cbn [pl_name pl_json_config].
  change (is_empty (trim ApplySnapshot.headers_json)) with false. change (is_empty (trim "headers")) with false.
  cbn [fail_if mbind result_bind]. destruct (json_from_str ApplySnapshot.headers_json); cbn [map_err mbind result_bind]; naive_solver.
Qed.

Lemma sent_location scheme host port prefix location :
  is_some (proxy_pass_tls scheme) = true ->
  location_from_proto_route (ApplySnapshot.route prefix scheme host port) = Ok location <->
  exists url config, is_empty (trim host) = false /\ port <> 0 /\
    url_parse (scheme +:+ "://" +:+ host +:+ ":" +:+ pretty port) = Ok url /\ json_from_str ApplySnapshot.headers_json = Ok config /\
    location = client_location prefix url config.
Proof.
  intros Hs. assert (location_from_proto_route (ApplySnapshot.route prefix scheme host port) =
    (target ← proxy_pass_target_from_proto (mkProtoUpstream scheme host port "");
     spec ← plugin_spec_from_proto (mkProtoPlugin "headers" ApplySnapshot.headers_json);
     Ok (mkLocation (LmPrefix prefix) [] [ProxyConnectTimeout (from_secs 3); ProxyReadTimeout (from_secs 15);
       ProxyWriteTimeout (from_secs 15); ProxyPass target] [spec] None))) as ->.
  { unfold location_from_proto_route, ApplySnapshot.route.
    cbn -[proxy_pass_target_from_proto plugin_spec_from_proto from_secs from_millis ApplySnapshot.headers_json].
    destruct (proxy_pass_target_from_proto _); [|done].
    cbn -[plugin_spec_from_proto from_secs from_millis ApplySnapshot.headers_json]. by destruct (plugin_spec_from_proto _). }
  split.
  - intros Hr. apply bind_Ok_inv in Hr as (target & (url & ? & ? & ? & ->)%sent_target & Hr); [|done].
    apply bind_Ok_inv in Hr as (spec & (config & ? & ->)%sent_plugin & [= <-]). exists url, config. by split_and!.
  - intros (url & config & ? & ? & ? & ? & ->).
    rewrite (proj2 (sent_target scheme host port (PpUrl url) Hs)) by (exists url; by split_and!). cbn [mbind result_bind].
    by rewrite (proj2 (sent_plugin (mkPluginSpec _ "headers" config))) by (exists config; by split_and!).
Qed.

Lemma sent_listener name address port defs :
  listener_defs [mkProtoListener name address port false false false None] = Ok defs <->
  exists addr, is_empty (trim name) = false /\ parse_ip address = Some addr /\ port <= u16_max /\
    defs = {[trim name := mkListenerDef name (mkListen addr port false false false false) DownstreamTlsOptions_default]}.
Proof.
  unfold listener_defs, add_listener_def, ListenerDef_try_from, u16_try_from, fail_if. cbn -[trim is_empty u16_max parse_ip].
  destruct (is_empty (trim name)); cbn -[trim u16_max parse_ip]; [naive_solver|]. rewrite lookup_empty. cbn -[trim u16_max parse_ip].
  destruct (parse_ip address) as [addr|]; cbn -[trim u16_max]; [|naive_solver].
  destruct (N.leb_spec port u16_max); cbn -[trim u16_max]; [|split; [done|intros (? & ? & ? & ? & _); lia]].
  rewrite bool_decide_eq_true_2 by done. cbn -[trim u16_max]. split; [intros [= <-]; eauto|]. by intros (addr' & _ & [= <-] & _ & ->).
Qed.

Lemma sent_server name addr port server_name route server :
  virtual_host_server {[trim name := mkListenerDef name (mkListen addr port false false false false) DownstreamTlsOptions_default]}
    (mkProtoVirtualHost name [server_name] true None [route]) = Ok server <->
  trim name = name /\ exists location, location_from_proto_route route = Ok location /\
    server = mkServer [server_name] [location] [mkListen addr port false true false false] None DownstreamTlsOptions_default.
Proof.
  unfold virtual_host_server. cbn [vh_listener]. destruct (decide (trim name = name)) as [E|E].
  - rewrite E, lookup_singleton_eq. unfold server_from_proto_virtual_host. cbn -[location_from_proto_route].
    destruct (location_from_proto_route route); cbn; naive_solver.
  - rewrite lookup_singleton_ne by done. cbn. naive_solver.
Qed.

(** The snapshot that is sent is read exactly when its parts are, and as that server. *)
Theorem sent_snapshot_read args cli http :
  ApplySnapshot.apply_parse_args args = Ok (Some cli) ->
  http_from_proto_snapshot (ApplySnapshot.build_snapshot cli) = Ok http <->
  exists addr url config, readable cli addr url config /\ http = client_http cli addr url config.
Proof.
  intros Hs%parsed_scheme. destruct cli as [t v ln ad p sn pp us uh up]. cbn [ApplySnapshot.upstream_scheme] in Hs.
  unfold http_from_proto_snapshot, ApplySnapshot.build_snapshot, readable.
  cbn [ApplySnapshot.listener_name ApplySnapshot.address ApplySnapshot.port ApplySnapshot.upstream_host ApplySnapshot.upstream_port
    ApplySnapshot.upstream_scheme ApplySnapshot.server_name ApplySnapshot.path_prefix cf_listeners cf_virtual_hosts cf_http cf_upstreams].
  split.
  - intros Hd. apply bind_Ok_inv in Hd as (defs & (addr & Hn & ? & ? & ->)%sent_listener & Hd).
    apply bind_Ok_inv in Hd as (servers & Hv & Hd). apply mapM_Ok in Hv. apply Forall2_cons_inv_l in Hv as (server & rest & Hv & ->%Forall2_nil_inv_l & ->).
    apply sent_server in Hv as (Ht & location & Hl & ->). apply sent_location in Hl as (url & config & ? & ? & ? & ? & ->); [|done].
    rewrite Ht in Hn. exists addr, url, config. split; [by split_and!|]. by injection Hd as <-.
  - intros (addr & url & config & (Hn & Ht & ? & ? & ? & ? & ? & ?) & ->).
    pose proof (proj2 (sent_location us uh up pp (client_location pp url config) Hs)) as Hl.
    pose proof (proj2 (sent_server ln addr p sn _ (mkServer [sn] [client_location pp url config] [mkListen addr p false true false false]
      None DownstreamTlsOptions_default)) (conj Ht (ex_intro _ _ (conj (Hl ltac:(eauto 10)) eq_refl)))) as Hv.
    erewrite (proj2 (sent_listener ln ad p _)); [|exists addr; split_and!; [by rewrite Ht|done|done|reflexivity]].
    cbn [mbind result_bind mapM]. rewrite Hv. reflexivity.
Qed.
End client_theorems.

(** Neither program talks to a control plane but over a Unix socket, or over TLS with its
    own certificate, to an HTTPS endpoint verified with the given authority; what is sent
    is the snapshot of the arguments, and what is printed is the answer. *)
Theorem clients_authenticated `{Crates} `{!Tonic} read args :
  (forall out, ApplySnapshot.apply_main read args = Ok (Some out) ->
     exists cli channel r, ApplySnapshot.apply_parse_args args = Ok (Some cli) /\ authenticated_channel read channel /\
       call_apply_snapshot channel (ApplySnapshot.build_snapshot cli) = Ok r /\ out = ApplySnapshot.print_result r) /\
  (forall snapshot, GetSnapshot.get_main read args = Ok (Some snapshot) ->
     exists channel, authenticated_channel read channel /\ call_get_snapshot channel = Ok snapshot).
Proof.
  split.
  - intros out. unfold ApplySnapshot.apply_main. intros Hm. apply bind_Ok_inv in Hm as ([cli|] & Hp & Hm); [|done].
    apply bind_Ok_inv in Hm as (channel & Hc & Hm). apply bind_Ok_inv in Hm as (r & Hr & [= <-]). exists cli, channel, r. split_and!; try done.
    unfold ApplySnapshot.apply_parse_args in Hp. apply bind_Ok_inv in Hp as ([[d a]|] & _ & Hp); [|done]. apply bind_Ok_inv in Hp as (t & Ht & Hp).
    apply bind_Ok_inv in Hp as (_ & _ & [= <-]). by eapply connect_authenticated.
  - intros snapshot. unfold GetSnapshot.get_main. intros Hm. apply bind_Ok_inv in Hm as ([t|] & Hp & Hm); [|done].
    apply bind_Ok_inv in Hm as (channel & Hc & Hm). apply fmap_Ok_inv in Hm as (sn & Hs & [= ->]). exists channel. split; [|done].
    unfold GetSnapshot.get_parse_args in Hp. apply bind_Ok_inv in Hp as ([d|] & _ & Hp); [|done]. cbn in Hp.
    destruct (target_of d) as [t'|] eqn:Ht; [|done]. injection Hp as ->. by eapply connect_authenticated.
Qed.

(** ** A call, end to end *)

Module ClientSample.
(** A channel is where it leads, to a control plane that applies everything. *)
#[export] Instance tonic : Tonic := {|
  Endpoint := string; Channel := string; from_shared s := Ok s; tls_config e _ := Ok e; channel_connect e := Ok e; uds_connect p := Ok p;
  call_apply_snapshot _ request := Ok (mkProtoApplyResult true false "snapshot applied" (cf_version request) 2);
  call_get_snapshot _ := Err "unimplemented"
|}.
Definition args : list string :=
  ["apply_snapshot"; "--uds"; "/run/ngxora.sock"; "--listen-port"; "80"; "--version"; "v7"; "--upstream-host"; "backend.test"].
Definition cli : ApplySnapshot.CliArgs :=
  ApplySnapshot.mkCliArgs (Uds "/run/ngxora.sock") "v7" "edge" "0.0.0.0" 80 "localhost" "/" "http" "backend.test" 80.
End ClientSample.
Import ClientSample.

Example sample_client_args : @ApplySnapshot.apply_parse_args Toy.crates args = Ok (Some cli).
Proof. reflexivity. Qed.
Example sample_client_applies :
  @ApplySnapshot.apply_main Toy.crates tonic (fun _ => Err "unused") args =
  Ok (Some "applied=true restart_required=false version=v7 generation=2 message=snapshot applied").
Proof. vm_compute. reflexivity. Qed.
