(* ===== verification/Selection.v ===== *)
(** * Route and backend selection
    (crates/ngxora-runtime/src/upstreams/runtime/selection.rs, limits.rs)

    A resolved location is turned into a selected route against the captured
    snapshot; its backend is chosen later, after the access checks.  The choice of
    an endpoint inside a group is the load balancer's ([GroupSelect]). *)

From S2P Require Import Prelude RustStr NetAddr Crates Headers Ir Types HttpRoutes Routing Scp.
From S2P Require Import CompileUpstreams CompileRoutes CompileRouter Control.

Open Scope N_scope.

Definition runtime_config_error (msg : string) : PError := mkPError InternalError msg.
Definition unavailable : PError := mkPError (HTTPStatus 503) "no available backends".

Record SelectedPeer := mkSelectedPeer {
  sp_host : string;
  sp_port : N;
  sp_tls : bool;
  sp_sni : string;
  sp_upstream_group : option string;
  sp_api_prefix : option string
}.

Inductive SelectedTarget :=
| StPending (t : RouteTarget)
| StDirectResponse (status : N)
| StScp (profile : string)
| StUpstream (peer : SelectedPeer)
| StReturn (status : N) (location : string).

(** ** Body limits *)

Definition body_too_large_error : PError := mkPError (HTTPStatus 413) "request body exceeds client_max_body_size".

(** [header] is the decoded value, [None] when it is absent or not visible ASCII. *)
Definition content_length_limit_exceeded (header : option string) (limit : option N) : option bool :=
  limit ← limit; header ← header; size ← parse_uint u64_max header; Some (limit <? size).

(** [received] is an accumulator the caller keeps; an error leaves it unchanged. *)
Definition update_received_body_bytes (received : N) (body : option string) (limit : option N)
  : result PError N :=
  match limit, body with
  | None, _ | _, None => Ok received
  | Some limit, Some body =>
      next ← ok_or (checked_add u64_max received (str_len body)) body_too_large_error;
      _ ← fail_if (limit <? next) body_too_large_error;
      Ok next
  end.

Section selection.
Context `{RuntimeDeps}.

(** The endpoint a group's load balancer picks for a key. *)
Class GroupSelect := group_select : RuntimeUpstreamGroup -> string -> option CompiledUpstreamServer.

Record SelectedRoute := mkSelectedRoute {
  sl_client_limits : ClientLimits;
  sl_url_rewrite : option UrlRewrite;
  sl_matched_prefix : option string;
  sl_route_id : N;
  sl_target : SelectedTarget;
  sl_access_rules : list LocationIpRule;
  sl_upstream_timeouts : UpstreamTimeouts;
  sl_upstream_protocol : option UpstreamHttpProtocol;
  sl_upstream_http2 : UpstreamHttp2Options;
  sl_upstream_ssl_options : UpstreamSslOptions;
  sl_upstream_trusted_ca : option TrustedCa;
  sl_upstream_client_identity : option ClientIdentity;
  sl_plugins : list Plugin;
  sl_cache : option CacheConfig
}.

(** The location's [max_size], or the global one. *)
Definition effective_cache (global : option N) (c : CacheConfig) : CacheConfig :=
  mkCacheConfig (enabled c) (option_or (cache_max_size c) global) (ttl c) (stale_if_error c) (cache_key c)
    (min_uses c) (valid_statuses c).

Definition selected_target (session : Session) (location : CompiledLocation) (host : string)
    (matched_prefix : option string) (scheme : string) : result PError SelectedTarget :=
  match target location with
  | RtScp profile => Ok (StScp profile)
  | RtReturn status template =>
      location ← map_err runtime_config_error
                   (expand_return_result template host
                      (default "/" (uri_path_and_query (req_uri (s_request session)))) scheme);
      Ok (StReturn status location)
  | RtHttpRedirect config =>
      port ← ok_or (snd <$> mjoin (s_server_addr session)) (runtime_config_error "missing listener port");
      location ← map_err runtime_config_error
                   (redirect_location config (req_uri (s_request session)) host scheme port matched_prefix);
      Ok (StReturn (redirect_status config) location)
  | RtDirectResponse status => Ok (StDirectResponse status)
  | t => Ok (StPending t)
  end.

(** [SelectedRoute::from_resolved]. *)
Definition from_resolved (snapshot : RuntimeSnapshot) (resolved : ResolvedLocation) (session : Session)
  : result PError SelectedRoute :=
  let location := rl_location resolved in
  let options := upstream_ssl_options location in
  let matched_prefix := match matcher location with
                        | CmHttp (mkHttpMatch (PathPrefix prefix) _ _ _) => Some prefix
                        | _ => None
                        end in
  let scheme := if s_tls session then "https" else "http" in
  let host := default "" (rl_host resolved) in
  target ← selected_target session location host matched_prefix scheme;
  identity ← match client_certificate options, client_certificate_key options with
             | Some cert, Some key =>
                 Some <$> ok_or (client_identity snapshot cert key)
                   (mkPError InternalError "compiled upstream client identity is missing at runtime")
             | _, _ => Ok None
             end;
  trusted ← transpose ((fun source => ok_or (trusted_ca snapshot source)
                          (mkPError InternalError "compiled trusted upstream CA is missing at runtime"))
                       <$> trusted_certificate options);
  Ok (mkSelectedRoute (client_limits location) (url_rewrite location) matched_prefix (route_id location) target
        (access_rules location) (upstream_timeouts location) (upstream_protocol location) (upstream_http2 location)
        options trusted identity (plugin_chain snapshot (route_id location))
        (effective_cache (ro_proxy_cache_max_size (r_http_options (sn_router snapshot))) <$> cache location)).

Definition select_runtime_route `{HashIter} (snapshot : RuntimeSnapshot) (session : Session)
  : result PError (option (SelectedRoute * option string)) :=
  resolved ← resolve_route (sn_router snapshot) session;
  match resolved with
  | None => Ok None
  | Some resolved => route ← from_resolved snapshot resolved session; Ok (Some (route, rl_host resolved))
  end.

(** ** Backends *)

Definition upstream_selection_key (configured : option UpstreamHashKey) (session : Session) (client_ip : option IpAddr)
  : result PError string :=
  let header := match configured with
                | Some (HashHeader name) =>
                    match req_header (s_request session) (to_ascii_lowercase name) with
                    | [value] => if is_empty value then None else Some value
                    | _ => None
                    end
                | _ => None
                end in
  match header with
  | Some value => Ok value
  | None =>
      ok_or (show_ip <$> client_ip)
        (mkPError (HTTPStatus 503) "consistent hash requires a request header key or socket client IP")
  end.

Definition total_weight (backends : list CompiledWeightedBackend) : N := sumN (cwb_weight <$> backends).

Definition uses_consistent_hash (group : RuntimeUpstreamGroup) : bool := bool_decide (rg_policy group = ConsistentHash).

(** [counters] are the snapshot's atomic counters: [fetch_add] answers the old value
    and adds one, wrapping at 64 bits. *)
Fixpoint select_backend_target `{!GroupSelect} (snapshot : RuntimeSnapshot) (counters : gmap N N) (route : N)
    (target : RouteTarget) (session : Session) (client_ip : option IpAddr) {struct target}
  : gmap N N * result PError SelectedTarget :=
  match target with
  | RtWeightedBackends backends =>
      let total := total_weight backends in
      if total =? 0 then (counters, Err unavailable)
      else
        match counters !! route with
        | None => (counters, Err (runtime_config_error "missing backend selector"))
        | Some counter =>
            let counters := <[route := wrapping_add64 counter 1]> counters in
            (fix loop (slot : N) (backends : list CompiledWeightedBackend) :=
               match backends with
               | [] => (counters, Err (runtime_config_error "invalid backend weight sum"))
               | mkCompiledWeightedBackend weight t :: backends' =>
                   if slot <? weight then select_backend_target snapshot counters route t session client_ip
                   else loop (slot - weight) backends'
               end) (counter mod total) backends
        end
  | RtDirectResponse status => (counters, Ok (StDirectResponse status))
  | RtProxyPass host port tls sni => (counters, Ok (StUpstream (mkSelectedPeer host port tls sni None None)))
  | RtUpstreamGroup name tls =>
      (counters,
       group ← ok_or (upstream_group snapshot name) (runtime_config_error "missing upstream group");
       key ← (if uses_consistent_hash group then upstream_selection_key (rg_hash_key group) session client_ip else Ok "");
       backend ← ok_or (group_select group key) unavailable;
       Ok (StUpstream (mkSelectedPeer (cs_host backend) (cs_port backend) tls (proxy_pass_sni (cs_host backend) tls)
             (Some (to_ascii_lowercase (trim_end_matches "." name))) (api_prefix backend))))
  | _ => (counters, Err (runtime_config_error "invalid backend target"))
  end.

(** ** Access rules *)

Fixpoint first_rule (rules : list LocationIpRule) (ip : IpAddr) : bool :=
  match rules with
  | [] => false
  | rule :: rules' => if rule_matches rule ip then rule_is_allow rule else first_rule rules' ip
  end.
Definition location_allows_client (rules : list LocationIpRule) (client_ip : option IpAddr) : bool :=
  if is_nil rules then true
  else match client_ip with None => false | Some ip => first_rule rules ip end.

(** ** Weighted choice *)

(** The loop of [select_backend_target] as a choice of an index. *)
Fixpoint pick_index (slot : N) (backends : list CompiledWeightedBackend) : option nat :=
  match backends with
  | [] => None
  | b :: backends' =>
      if slot <? cwb_weight b then Some 0%nat else S <$> pick_index (slot - cwb_weight b) backends'
  end.

Lemma pick_index_total slot backends :
  slot < total_weight backends -> exists i b, pick_index slot backends = Some i /\ backends !! i = Some b.
Proof.
  revert slot. induction backends as [|b bs IH]; unfold total_weight in *; intros slot Hs; [simpl in Hs; lia|].
  rewrite fmap_cons in Hs. simpl in *. destruct (N.ltb_spec slot (cwb_weight b)); [by exists 0%nat, b|].
  destruct (IH (slot - cwb_weight b)) as (i & b' & -> & Hb); [lia|]. by exists (S i), b'.
Qed.

(** How many of the slots [0 .. total - 1] choose an index. *)
Definition chooses (backends : list CompiledWeightedBackend) (i : nat) (slot : N) : N :=
  if bool_decide (pick_index slot backends = Some i) then 1 else 0.
Definition slots_choosing (backends : list CompiledWeightedBackend) (i : nat) : N :=
  sumN ((fun s => chooses backends i (N.of_nat s)) <$> seq 0 (N.to_nat (total_weight backends))).
End selection.

Arguments GroupSelect {_ _}.

(** ** Lemmas on windows of a counter *)

Lemma sumN_fmap_ext {A} (f g : A -> N) l : (forall x, x ∈ l -> f x = g x) -> sumN (f <$> l) = sumN (g <$> l).
Proof.
  intros Hfg. f_equal. apply list_fmap_ext. intros i x Hx. apply Hfg. by eapply list_elem_of_lookup_2.
Qed.

Lemma sumN_const {A} (c : N) (l : list A) : sumN ((fun _ => c) <$> l) = N.of_nat (length l) * c.
Proof. induction l as [|x l IH]; [done|]. rewrite fmap_cons. simpl. rewrite IH. lia. Qed.

(** The sum of [f] over the residues of [n] consecutive counter values. *)
Definition window (f : N -> N) (n c : N) : N :=
  sumN ((fun i => f ((c + N.of_nat i) mod n)) <$> seq 0 (N.to_nat n)).

Lemma window_succ f n c : 0 < n -> window f n (c + 1) = window f n c.
Proof.
  intros Hn. unfold window. destruct (N.to_nat n) as [|m] eqn:Em; [lia|].
  rewrite (seq_S m 0) at 1. cbn [seq]. rewrite fmap_app, sumN_app, !fmap_cons, !sumN_cons.
  rewrite <- seq_shift, <- list_fmap_compose. unfold compose.
  rewrite (sumN_fmap_ext (fun i => f ((c + 1 + N.of_nat i) mod n)) (fun x => f ((c + N.of_nat (S x)) mod n))).
  - rewrite fmap_nil, Nat.add_0_l. change (sumN []) with 0. change (N.of_nat 0) with 0.
    replace ((c + 1 + N.of_nat m) mod n) with ((c + 0) mod n); [lia|].
    rewrite N.add_0_r. replace (c + 1 + N.of_nat m) with (c + 1 * n) by lia. by rewrite N.Div0.mod_add.
  - intros i _. do 2 f_equal. lia.
Qed.

Lemma window_any f n c : 0 < n -> window f n c = sumN ((fun i => f (N.of_nat i)) <$> seq 0 (N.to_nat n)).
Proof.
  intros Hn. transitivity (window f n 0).
  - induction c as [|c IH] using N.peano_ind; [done|]. rewrite <- N.add_1_r, window_succ; done.
  - unfold window. apply sumN_fmap_ext. intros i Hi. apply elem_of_seq in Hi. rewrite N.mod_small; [done|lia].
Qed.

Section fairness.
Context `{RuntimeDeps}.

Lemma slots_choosing_weight backends i b : backends !! i = Some b -> slots_choosing backends i = cwb_weight b.
Proof.
  unfold slots_choosing. revert i. induction backends as [|b0 bs IH]; intros i Hi; [done|].
  unfold total_weight. rewrite fmap_cons. simpl sumN. rewrite N2Nat.inj_add, seq_app, fmap_app, sumN_app, Nat.add_0_l.
  assert (sumN ((fun s => chooses (b0 :: bs) i (N.of_nat s)) <$> seq 0 (N.to_nat (cwb_weight b0)))
          = if decide (i = 0%nat) then cwb_weight b0 else 0) as ->.
  { rewrite (sumN_fmap_ext _ (fun _ => if decide (i = 0%nat) then 1 else 0)).
    - rewrite sumN_const, length_seq. case_decide; lia.
    - intros s Hs. apply elem_of_seq in Hs. unfold chooses. simpl.
      destruct (N.ltb_spec (N.of_nat s) (cwb_weight b0)); [|lia]. repeat case_decide; case_bool_decide; congruence. }
  rewrite <- (Nat.add_0_r (N.to_nat (cwb_weight b0))) at 1. rewrite <- fmap_add_seq, <- list_fmap_compose. unfold compose.
  rewrite (sumN_fmap_ext _ (fun s => match i with O => 0 | S j => chooses bs j (N.of_nat s) end)).
  - destruct i as [|j]; simpl in Hi; simplify_eq; case_decide; try done.
    + rewrite sumN_const. lia.
    + rewrite IH by done. lia.
  - intros s _. unfold chooses. simpl. destruct (N.ltb_spec (N.of_nat (N.to_nat (cwb_weight b0) + s)) (cwb_weight b0)); [lia|].
    replace (N.of_nat (N.to_nat (cwb_weight b0) + s) - cwb_weight b0) with (N.of_nat s) by lia.
    destruct i as [|j]; [by destruct (pick_index _ bs)|].
    destruct (pick_index (N.of_nat s) bs) as [k|]; simpl; repeat case_bool_decide; naive_solver.
Qed.

Lemma select_weighted `{!GroupSelect} snapshot counters route bs session ip c :
  total_weight bs <> 0 -> counters !! route = Some c ->
  exists i b, pick_index (c mod total_weight bs) bs = Some i /\ bs !! i = Some b /\
    select_backend_target snapshot counters route (RtWeightedBackends bs) session ip =
    select_backend_target snapshot (<[route := wrapping_add64 c 1]> counters) route (cwb_target b) session ip.
Proof.
  intros Ht Hc. destruct (pick_index_total (c mod total_weight bs) bs) as (i & b & Hi & Hb).
  { by apply N.mod_lt. }
  exists i, b. split; [done|]. split; [done|]. cbn [select_backend_target].
  destruct (N.eqb_spec (total_weight bs) 0); [done|]. rewrite Hc. clear -Hi Hb.
  revert Hi Hb. generalize (c mod total_weight bs) as slot. revert i.
  induction bs as [|[w t] bs IH]; intros i slot Hi Hb; [done|]. simpl in Hi |- *.
  destruct (slot <? w); [by simplify_eq/=|].
  destruct (pick_index (slot - w) bs) as [j|] eqn:E; simplify_eq/=. by apply (IH j).
Qed.

(** What selection may answer on a well-formed configuration. *)
Definition selected_or_503 (r : result PError SelectedTarget) : Prop :=
  match r with Ok _ => True | Err e => etype e = HTTPStatus 503 end.

Lemma select_leaf `{!GroupSelect} snapshot counters route t session ip :
  backend_leaf t = true -> target_resolved (sn_upstream_groups snapshot) t ->
  selected_or_503 (snd (select_backend_target snapshot counters route t session ip)).
Proof.
  destruct t as [| | | | |name tls|]; try done. intros _ [g Hg]. simpl.
  unfold upstream_group. unfold normalize_upstream_name in Hg. rewrite Hg. simpl.
  destruct (uses_consistent_hash g); simpl.
  - unfold upstream_selection_key.
    destruct (match rg_hash_key g with Some (HashHeader _) => _ | _ => _ end); simpl.
    + by destruct (group_select g _).
    + destruct ip; simpl; [|done]. by destruct (group_select g _).
  - by destruct (group_select g _).
Qed.

(** ** Theorems *)

(** Weighted backends are chosen in exact proportion: each selection takes the
    backend its counter value falls on and advances the counter by one, and over any
    window of as many consecutive counter values as the total weight, the i-th
    backend is chosen exactly as often as its weight. *)
Theorem weighted_selection_fair `{!GroupSelect} snapshot route bs session ip :
  0 < total_weight bs ->
  (forall counters c, counters !! route = Some c ->
     exists i b, pick_index (c mod total_weight bs) bs = Some i /\ bs !! i = Some b /\
       select_backend_target snapshot counters route (RtWeightedBackends bs) session ip =
       select_backend_target snapshot (<[route := wrapping_add64 c 1]> counters) route (cwb_target b) session ip) /\
  (forall c i b, bs !! i = Some b -> window (chooses bs i) (total_weight bs) c = cwb_weight b).
Proof.
  intros Ht. split; [intros; apply select_weighted; [lia|done]|].
  intros c i b Hb. rewrite window_any by done. by apply slots_choosing_weight.
Qed.

(** On a well-formed location of a complete snapshot, choosing a backend either
    gives a target or answers 503; the internal errors for a missing group, a
    missing counter, an inconsistent weight sum or an invalid target cannot occur. *)
Theorem select_backend_no_internal_error `{!GroupSelect} snapshot l session ip :
  location_ok (sn_upstream_groups snapshot) l -> backend_leaf (target l) || is_weighted l = true ->
  (is_weighted l = true -> is_Some (sn_backend_counters snapshot !! route_id l)) ->
  selected_or_503 (snd (select_backend_target snapshot (sn_backend_counters snapshot) (route_id l) (target l) session ip)).
Proof.
  intros [Ht _ _ Hw] Hleaf Hcnt. unfold is_weighted in *.
  destruct (backend_leaf (target l)) eqn:El; [by apply select_leaf|].
  destruct (target l) as [bs| | | | | |] eqn:Etl; try done. destruct (Hcnt eq_refl) as [c Hc].
  destruct (Hw bs eq_refl) as [_ Hbs]. destruct (decide (total_weight bs = 0)) as [Hz|Hz].
  - cbn [select_backend_target]. by destruct (N.eqb_spec (total_weight bs) 0).
  - destruct (select_weighted snapshot _ (route_id l) bs session ip c Hz Hc) as (i & b & _ & Hb & ->).
    apply target_resolved_weighted in Ht. apply select_leaf.
    + eapply (proj1 (Forall_lookup _ _) Hbs), Hb.
    + eapply (proj1 (Forall_lookup _ _) Ht), Hb.
Qed.

(** access rules are decided by the first rule that matches the client address;
    with rules, a client without an address or without a matching rule is refused. *)
Theorem access_first_match rules ip :
  location_allows_client rules ip = true <->
  rules = [] \/ exists a pre rule post, ip = Some a /\ rules = pre ++ rule :: post /\
    Forall (fun r => rule_matches r a = false) pre /\ rule_matches rule a = true /\ rule_is_allow rule = true.
Proof.
  unfold location_allows_client. destruct rules as [|r0 rules0]; [naive_solver|]. cbn [is_nil].
  destruct ip as [a|]; [|naive_solver].
  assert (forall l, first_rule l a = true <-> exists pre rule post, l = pre ++ rule :: post /\
    Forall (fun r => rule_matches r a = false) pre /\ rule_matches rule a = true /\ rule_is_allow rule = true) as Hf.
  { induction l as [|r l IH]; simpl; [split; [done|intros ([] & ? & ? & [=] & _)]|].
    destruct (rule_matches r a) eqn:Er.
    - split; [intros Ha; by exists [], r, l|]. intros (pre & rule & post & Heq & Hpre & Hm & Hallow).
      destruct pre as [|p pre]; simplify_eq/=; [done|]. apply Forall_cons in Hpre as [Hp _]. congruence.
    - rewrite IH. split.
      + intros (pre & rule & post & -> & Hpre & Hm & Hallow). exists (r :: pre), rule, post. by repeat constructor.
      + intros (pre & rule & post & Heq & Hpre & Hm & Hallow). destruct pre as [|p pre]; simplify_eq/=; [congruence|].
        apply Forall_cons in Hpre as [_ Hpre]. eauto 10. }
  rewrite Hf. naive_solver.
Qed.
End fairness.

Lemma update_received_spec r x limit :
  limit <= u64_max ->
  update_received_body_bytes r (Some x) (Some limit) =
  if r + str_len x <=? limit then Ok (r + str_len x) else Err body_too_large_error.
Proof.
  intros Hl. unfold update_received_body_bytes. destruct (N.leb_spec (r + str_len x) limit) as [Hle|Hgt].
  - rewrite checked_add_ok by lia. simpl. by destruct (N.ltb_spec limit (r + str_len x)); [lia|].
  - unfold checked_add. destruct (N.leb_spec (r + str_len x) u64_max); simpl; [|done].
    by destruct (N.ltb_spec limit (r + str_len x)); [|lia].
Qed.

(** Streaming a body chunk by chunk accepts it exactly when its whole length is
    within the limit, and then has counted that length; the 64-bit accounting
    cannot be overflowed into accepting more. *)
Theorem body_limit_streaming chunks limit :
  limit <= u64_max ->
  try_fold (fun received chunk => update_received_body_bytes received (Some chunk) (Some limit)) 0 chunks =
  if sumN (str_len <$> chunks) <=? limit then Ok (sumN (str_len <$> chunks)) else Err body_too_large_error.
Proof.
  intros Hl.
  assert (forall r, r <= limit -> try_fold (fun received chunk => update_received_body_bytes received (Some chunk) (Some limit)) r chunks =
    if r + sumN (str_len <$> chunks) <=? limit then Ok (r + sumN (str_len <$> chunks)) else Err body_too_large_error) as Hr.
  2: { rewrite Hr by lia. by rewrite N.add_0_l. }
  induction chunks as [|x xs IH]; intros r Hr.
  - simpl. rewrite N.add_0_r. by destruct (N.leb_spec r limit); [|lia].
  - cbn [try_fold]. rewrite fmap_cons, sumN_cons, N.add_assoc, update_received_spec by done.
    destruct (N.leb_spec (r + str_len x) limit) as [Hle|Hgt]; cbn [mbind result_bind]; [by apply IH|].
    by destruct (N.leb_spec (r + str_len x + sumN (str_len <$> xs)) limit); [lia|].
Qed.

Lemma body_limit_streaming_witness :
  try_fold (fun received chunk => update_received_body_bytes received (Some chunk) (Some 5)) 0 ["abc"; "def"]
  = Err body_too_large_error.
Proof. apply (body_limit_streaming ["abc"; "def"] 5). done. Defined.

Module SelectionSample.
Definition leaf (w status : N) : CompiledWeightedBackend := mkCompiledWeightedBackend w (RtDirectResponse status).
Definition backends : list CompiledWeightedBackend := [leaf 2 200; leaf 0 500; leaf 1 503].
Definition location : @CompiledLocation Toy.crates :=
  mkCompiledLocation ClientLimits_default None 9 (CmPrefix "/") [] (RtWeightedBackends backends)
    UpstreamTimeouts_default None UpstreamHttp2Options_default UpstreamSslOptions_default [] None.
Definition snapshot : @RuntimeSnapshot _ ToyDeps.deps :=
  mkRuntimeSnapshot {[ 9 := 4 ]} ∅ 1 "v1" RouterSample.router ∅ ∅ ∅ ∅.
#[export] Instance none_selected : @GroupSelect _ ToyDeps.deps := fun _ _ => None.
End SelectionSample.

Lemma weighted_selection_fair_witness :
  window (chooses SelectionSample.backends 0) 3 4 = 2 /\ window (chooses SelectionSample.backends 1) 3 4 = 0.
Proof.
  destruct (@weighted_selection_fair _ ToyDeps.deps SelectionSample.none_selected SelectionSample.snapshot 9
    SelectionSample.backends Sample.session None) as [_ Hw]; [done|].
  split; [by apply (Hw 4 0%nat (SelectionSample.leaf 2 200))|by apply (Hw 4 1%nat (SelectionSample.leaf 0 500))].
Defined.

Lemma select_backend_no_internal_error_witness :
  selected_or_503 (snd (@select_backend_target _ ToyDeps.deps SelectionSample.none_selected SelectionSample.snapshot
    {[ 9 := 4 ]} 9 (RtWeightedBackends SelectionSample.backends) Sample.session None)).
Proof.
  apply (@select_backend_no_internal_error _ ToyDeps.deps SelectionSample.none_selected SelectionSample.snapshot
    SelectionSample.location Sample.session None).
  - constructor; [done|done|done|]. intros bs [= <-]. split; [done|]. repeat constructor; done || (simpl; lia).
  - reflexivity.
  - intros _. by exists 4.
Defined.
