(* ===== verification/DynamicProxy.v ===== *)
(** * The proxy object (crates/ngxora-runtime/src/upstreams/runtime/proxy.rs, runtime.rs)

    What the callbacks of a request share: the runtime state, the response cache and the
    answers to ACME challenges; its constructors and its routing table.  The callbacks
    themselves are in [Proxy]. *)

From S2P Require Import Prelude RustStr NetAddr Crates Ir Types HttpRoutes Routing Scp Cache CompileUpstreams CompileRoutes CompileRouter Control.

Open Scope N_scope.

Section dynamic_proxy.
Context `{RuntimeDeps} `{HashIter}.

Record DynamicProxy := mkDynamicProxy {
  dp_state : RuntimeState;
  dp_cache_backend : CacheBackend;
  dp_challenge_tokens : gmap string string
}.

(** 50 MB of responses by default. *)
Definition DynamicProxy_new (state : RuntimeState) : DynamicProxy := mkDynamicProxy state (CacheBackend_new (50 * 1024 * 1024)) ∅.
Definition new_with_cache (state : RuntimeState) (cache_backend : CacheBackend) : DynamicProxy := mkDynamicProxy state cache_backend ∅.
Definition set_challenge_tokens (p : DynamicProxy) (tokens : gmap string string) : DynamicProxy :=
  mkDynamicProxy (dp_state p) (dp_cache_backend p) tokens.
Definition RuntimeState_bootstrap (router : CompiledRouter) : result string RuntimeState :=
  RuntimeState_new (mkConfigSnapshot "bootstrap" router).
Definition from_router (routing : CompiledRouter) : result string DynamicProxy :=
  DynamicProxy_new <$> RuntimeState_bootstrap routing.

Definition get_routes (p : DynamicProxy) (key : ListenKey) : option VirtualHostRoutes :=
  listener_routes (sn_router (st_current (dp_state p))) key.
Definition update_routing (p : DynamicProxy) (new_router : CompiledRouter) : DynamicProxy * ApplyResult :=
  let '(state, result) := apply_snapshot (dp_state p) (mkConfigSnapshot "runtime-update" new_router) in
  (mkDynamicProxy state (dp_cache_backend p) (dp_challenge_tokens p), result).

(** Updates of the table, by any caller and with any result. *)
Inductive routing_step : DynamicProxy -> DynamicProxy -> Prop :=
| routing_update p router : routing_step p (fst (update_routing p router))
| routing_tokens p tokens : routing_step p (set_challenge_tokens p tokens).

Lemma routing_step_bootstrap p p' :
  routing_step p p' -> st_bootstrap_config (dp_state p') = st_bootstrap_config (dp_state p) /\ dp_cache_backend p' = dp_cache_backend p.
Proof.
  destruct 1 as [p router|p tokens]; [|done]. unfold update_routing.
  by destruct (apply_snapshot_cases (dp_state p) (mkConfigSnapshot "runtime-update" router)) as [(? & ? & -> & _)|(sn & _ & _ & _ & ->)].
Qed.

(** The table of a proxy is replaced as a whole or not at all, and only by one for the
    sockets of the router it was made for; the cache and the challenge answers stay. *)
Theorem update_routing_whole init p0 p router :
  from_router init = Ok p0 -> rtc routing_step p0 p ->
  let '(p', r) := update_routing p router in
  dp_cache_backend p' = dp_cache_backend p0 /\ dp_challenge_tokens p' = dp_challenge_tokens p /\
  if applied r then
    restart_fingerprint router = restart_fingerprint init /\ forall key, get_routes p' key = listener_routes router key
  else p' = p.
Proof.
  intros Hb Hr. assert (st_bootstrap_config (dp_state p) = restart_fingerprint init /\ dp_cache_backend p = dp_cache_backend p0) as [Hi Hc].
  { unfold from_router in Hb. apply fmap_Ok_inv in Hb as (s0 & Hb & ->).
    unfold RuntimeState_bootstrap, RuntimeState_new in Hb. apply bind_Ok_inv in Hb as (sn & _ & [= <-]).
    revert p Hr. apply rtc_ind_r; [done|]. intros x y _ Hxy IH. destruct (routing_step_bootstrap _ _ Hxy) as [-> ->]. exact IH. }
  unfold update_routing. destruct (apply_snapshot_cases (dp_state p) (mkConfigSnapshot "runtime-update" router)) as [(? & ? & -> & _)|(sn & _ & Hfp & Hsn & ->)];
    cbn; split_and!; try done; [by destruct p|cbn in Hfp; congruence|].
  intros key. apply build_runtime_snapshot_ok in Hsn as (Hrt & _). cbn in Hrt. unfold get_routes. cbn. by rewrite Hrt.
Qed.
End dynamic_proxy.
