(* ===== verification/ClientIp.v ===== *)
(** * Client addresses behind trusted proxies
    (crates/ngxora-plugin-api/src/client_ip.rs)

    The chain of addresses that trusted peers vouch for, in client-first order. *)

From S2P Require Import Prelude RustStr NetAddr Crates Headers.

Section client_ip.
Context `{Crates}.

Definition is_trusted (trusted_proxies : list IpNet) (ip : IpAddr) : bool :=
  existsb (fun network => ipnet_contains network ip) trusted_proxies.

(** The comma-separated addresses of a header value; all must parse. *)
Definition parse_addresses (raw : string) : option (list IpAddr) :=
  mapM (fun ip => parse_ip (trim ip)) (split_on "," raw).

(** The loop of [resolve_chain]: [forwarded] is popped from its end, so it is given
    reversed; [chain] grows towards the client and is reversed at the end. *)
Fixpoint walk_chain (trusted : IpAddr -> bool) (current : IpAddr) (forwarded_rev : list IpAddr) (chain : list IpAddr)
  : list IpAddr :=
  if trusted current then
    match forwarded_rev with
    | [] => chain
    | next :: rest => walk_chain trusted next rest (chain ++ [next])
    end
  else chain.

Definition resolve_chain (peer : option IpAddr) (forwarded_for : option string) (trusted_proxies : list IpNet)
  : option (list IpAddr) :=
  peer ← peer;
  if negb (is_trusted trusted_proxies peer) then Some [peer]
  else match forwarded_for with
       | None => Some [peer]
       | Some raw =>
           match parse_addresses raw with
           | None => Some [peer]
           | Some forwarded => Some (reverse (walk_chain (is_trusted trusted_proxies) peer (reverse forwarded) [peer]))
           end
       end.

Definition resolve_headers (peer : option IpAddr) (headers : HeaderMap) (header : string)
    (trusted_proxies : list IpNet) (recursive : bool) : option (list IpAddr) :=
  peer ← peer;
  let fallback := Some [peer] in
  let name := to_ascii_lowercase header in
  if negb (is_trusted trusted_proxies peer) || negb (length (get_all name headers) =? 1)%nat then fallback
  else match header_get name headers ≫= header_to_str with
       | None => fallback
       | Some raw =>
           if eq_ignore_ascii_case header "x-real-ip" then
             match parse_ip (trim raw) with Some ip => Some [ip; peer] | None => fallback end
           else if recursive then resolve_chain (Some peer) (Some raw) trusted_proxies
           else match parse_addresses raw with
                | None => fallback
                | Some chain => match last chain with Some ip => Some [ip; peer] | None => fallback end
                end
       end.

(** ** Lemmas *)

Lemma walk_chain_spec trusted current rev chain :
  exists taken rest, rev = taken ++ rest /\
    walk_chain trusted current rev chain = chain ++ taken /\
    Forall (fun ip => trusted ip = true) (removelast (current :: taken)) /\
    (trusted (List.last (current :: taken) current) = true -> rest = []).
Proof.
  revert current chain. induction rev as [|next rev IH]; intros current chain; simpl.
  - exists [], []. split_and!; [done|rewrite app_nil_r; by destruct (trusted current)|constructor|done].
  - destruct (trusted current) eqn:Et.
    + destruct (IH next (chain ++ [next])) as (taken & rest & -> & Hw & Hall & Hlast).
      exists (next :: taken), rest. rewrite Hw, <- app_assoc. split_and!; [done|done| |].
      * constructor; [done|exact Hall].
      * intros Ht. apply Hlast. revert Ht. clear. destruct taken as [|t ts]; [done|]. simpl.
        revert t. induction ts as [|u us IHus]; intros t; simpl; [done|apply IHus].
    + exists [], (next :: rev). split_and!; [done|by rewrite app_nil_r|constructor|]. simpl. congruence.
Qed.

(** A trusted run in front of an untrusted address is walked to that address. *)
Lemma walk_chain_run trusted current rev chain run client junk :
  trusted current = true -> Forall (fun ip => trusted ip = true) run -> trusted client = false ->
  rev = run ++ client :: junk ->
  walk_chain trusted current rev chain = chain ++ run ++ [client].
Proof.
  intros Hc Hrun Hcl ->. revert current chain Hc. induction Hrun as [|ip run Hip Hrun IH]; intros current chain Hc; simpl.
  - rewrite Hc. destruct junk; simpl; by rewrite Hcl.
  - rewrite Hc, IH by done. by rewrite <- app_assoc.
Qed.

(** The chain of a peer and the text of a header: the addresses are walked back from the
    peer as long as the hop before is trusted, so that all but the first are trusted, and
    the first is not, or nothing is left; the peer alone, when it is not trusted or the
    text is missing or unreadable. *)
Definition walked (trusted_proxies : list IpNet) (peer : IpAddr) (forwarded_for : option string) (chain : list IpAddr) : Prop :=
  match forwarded_for ≫= parse_addresses with
  | Some addresses =>
      if is_trusted trusted_proxies peer then
        exists front taken, addresses = front ++ taken /\ chain = taken ++ [peer] /\
          Forall (fun ip => is_trusted trusted_proxies ip = true) (tail chain) /\
          (forall client, head chain = Some client -> is_trusted trusted_proxies client = true -> front = [])
      else chain = [peer]
  | None => chain = [peer]
  end.

Lemma resolve_chain_walked peer forwarded_for trusted_proxies :
  exists chain, resolve_chain (Some peer) forwarded_for trusted_proxies = Some chain /\ walked trusted_proxies peer forwarded_for chain.
Proof.
  unfold resolve_chain, walked. cbn [mbind option_bind]. destruct (is_trusted trusted_proxies peer) eqn:Ep; cbn [negb]; cycle 1.
  { exists [peer]. by destruct forwarded_for as [raw|]; cbn; [destruct (parse_addresses raw)|]. }
  destruct forwarded_for as [raw|]; cbn [mbind option_bind]; [|by exists [peer]].
  destruct (parse_addresses raw) as [forwarded|]; [|by exists [peer]].
  destruct (walk_chain_spec (is_trusted trusted_proxies) peer (reverse forwarded) [peer]) as (taken & rest & Hr & -> & Hall & Hlast).
  exists (reverse ([peer] ++ taken)). split; [done|]. exists (reverse rest), (reverse taken).
  assert (reverse ([peer] ++ taken) = reverse taken ++ [peer]) as E by (by rewrite reverse_app, reverse_singleton).
  rewrite E. split_and!; [by rewrite <- reverse_app, <- Hr, reverse_involutive|done| |].
  - destruct taken as [|t taken _] using rev_ind; [done|]. rewrite reverse_app, reverse_singleton. cbn [app tail].
    rewrite app_comm_cons, removelast_last in Hall. rewrite <- (reverse_singleton peer), <- reverse_app. by apply Forall_reverse.
  - intros client Hc Ht. rewrite Hlast; [done|]. destruct taken as [|t taken _] using rev_ind; [done|].
    rewrite reverse_app, reverse_singleton in Hc. cbn in Hc. injection Hc as <-. by rewrite app_comm_cons, List.last_last.
Qed.

(** ** Theorems *)

(** A client cannot forge its address: when the connection comes from a trusted
    proxy and the forwarded header ends with trusted proxies after an address that
    is not trusted, that address is the client, whatever was put in front of it. *)
Theorem resolve_chain_spoof_resistant peer raw trusted_proxies junk client proxies :
  is_trusted trusted_proxies peer = true ->
  parse_addresses raw = Some (junk ++ client :: proxies) ->
  is_trusted trusted_proxies client = false ->
  Forall (fun ip => is_trusted trusted_proxies ip = true) proxies ->
  resolve_chain (Some peer) (Some raw) trusted_proxies = Some (client :: proxies ++ [peer]).
Proof.
  intros Hp Hraw Hc Hpr. unfold resolve_chain. simpl. rewrite Hp, Hraw. simpl. f_equal.
  rewrite (walk_chain_run _ _ _ _ (reverse proxies) client (reverse junk)); [|done| |done|].
  - rewrite !reverse_app, !reverse_involutive, !reverse_singleton. by rewrite <- app_assoc.
  - apply Forall_reverse, Hpr.
  - by rewrite reverse_app, reverse_cons, <- app_assoc.
Qed.

(** the resolved chain always ends with the socket peer and all its addresses
    but the first, which is the client, are trusted; if the peer is not trusted the
    chain is the peer alone. *)
Theorem resolve_chain_vouched peer forwarded_for trusted_proxies :
  exists client rest, resolve_chain (Some peer) forwarded_for trusted_proxies = Some (client :: rest) /\
    last (client :: rest) = Some peer /\
    Forall (fun ip => is_trusted trusted_proxies ip = true) rest /\
    (is_trusted trusted_proxies peer = false -> client :: rest = [peer]).
Proof.
  unfold resolve_chain. simpl. destruct (is_trusted trusted_proxies peer) eqn:Ep; simpl; [|by exists peer, []].
  destruct forwarded_for as [raw|]; [|by exists peer, []].
  destruct (parse_addresses raw) as [forwarded|]; [|by exists peer, []].
  destruct (walk_chain_spec (is_trusted trusted_proxies) peer (reverse forwarded) [peer]) as (taken & rest & _ & -> & Hall & _).
  destruct (exists_last (l := peer :: taken)) as (front & client & Heq); [done|].
  change ([peer] ++ taken) with (peer :: taken). exists client, (reverse front).
  rewrite Heq in Hall |- *. rewrite removelast_last in Hall.
  rewrite reverse_app, reverse_singleton. split; [done|]. split; [|split; [by apply Forall_reverse|done]].
  change (client :: reverse front) with ([client] ++ reverse front).
  rewrite <- (reverse_singleton client), <- reverse_app, <- Heq, reverse_cons, last_snoc. done.
Qed.

(** Without a trusted socket peer, or with the forwarding header repeated, no
    header can change the client address. *)
Theorem resolve_headers_untrusted peer headers header trusted_proxies recursive :
  is_trusted trusted_proxies peer = false \/ length (get_all (to_ascii_lowercase header) headers) <> 1%nat ->
  resolve_headers (Some peer) headers header trusted_proxies recursive = Some [peer].
Proof.
  intros Hu. unfold resolve_headers. simpl. destruct (is_trusted trusted_proxies peer); [|done]. simpl.
  destruct (Nat.eqb_spec (length (get_all (to_ascii_lowercase header) headers)) 1); [|done].
  by destruct Hu.
Qed.
End client_ip.

(** A network of the toy instance is the list of its addresses. *)
Module ClientIpSample.
Definition proxy : IpAddr := ipv4 10 0 0 1.
Definition edge : IpAddr := ipv4 10 0 0 2.
Definition nets : list (@IpNet Toy.crates) := [proxy; edge].
End ClientIpSample.

Lemma resolve_chain_spoof_resistant_witness :
  @resolve_chain Toy.crates (Some ClientIpSample.proxy) (Some "1.1.1.1, 198.51.100.2, 10.0.0.2") ClientIpSample.nets
  = Some [ipv4 198 51 100 2; ClientIpSample.edge; ClientIpSample.proxy].
Proof.
  apply (@resolve_chain_spoof_resistant Toy.crates ClientIpSample.proxy "1.1.1.1, 198.51.100.2, 10.0.0.2" ClientIpSample.nets
    [ipv4 1 1 1 1] (ipv4 198 51 100 2) [ClientIpSample.edge]); [reflexivity..|].
  by repeat constructor.
Defined.

Lemma resolve_headers_untrusted_witness :
  @resolve_headers Toy.crates (Some (ipv4 203 0 113 1)) [("x-real-ip", "1.1.1.1")] "X-Real-IP" ClientIpSample.nets true
  = Some [ipv4 203 0 113 1].
Proof.
  apply (@resolve_headers_untrusted Toy.crates (ipv4 203 0 113 1) [("x-real-ip", "1.1.1.1")] "X-Real-IP" ClientIpSample.nets true).
  left. reflexivity.
Defined.
