(* ===== verification/Topology.v ===== *)
(** * NRF services: capacities, endpoints, refresh schedule
    (crates/ngxora-runtime/src/upstreams/runtime/groups/topology.rs, discovery.rs, groups.rs)

    Capacities of a priority tier are scaled to weights of the load balancer; inside
    a service the endpoints are taken in turn; a background task refreshes the
    discovered snapshot, backs off on failure and drops it when it has expired. *)

From S2P Require Import Prelude RustStr NetAddr Crates Ir Types.

Open Scope N_scope.

(** ** Capacities *)

(** Descending order on (remainder, index) pairs. *)
Definition pair_geb (a b : N * nat) : bool :=
  (fst b <? fst a) || ((fst a =? fst b) && (snd b <=? snd a)%nat).

(** [weights[index] = weights[index].saturating_add(1)] *)
Definition bump (weights : list N) (index : nat) : list N :=
  match weights !! index with
  | Some w => <[index := N.min u16_max (w + 1)]> weights
  | None => weights
  end.

Definition normalized_capacities (capacities : list N) : result string (list N) :=
  if is_nil capacities then Ok [] else
  _ ← fail_if (existsb (N.eqb 0) capacities) "positive-capacity NRF pool contains a zero capacity";
  let limit := u16_max in
  let service_count := N.of_nat (length capacities) in
  _ ← fail_if (limit <? service_count)
        ("NRF priority tier contains more than " +:+ pretty limit +:+ " services");
  let total := sumN capacities in
  if total <=? limit then Ok capacities else
  let remaining := limit - service_count in
  let exact := (fun capacity => 1 + (capacity * remaining) / total) <$> capacities in
  let weights := (fun w => if w <=? u16_max then w else u16_max) <$> exact in
  let remainders := zip ((fun capacity => (capacity * remaining) mod total) <$> capacities)
                        (seq 0 (length capacities)) in
  let assigned := sumN exact in
  Ok (foldl bump weights (snd <$> take (N.to_nat (limit - assigned)) (stable_sort pair_geb remainders))).

(** *** Lemmas *)

Lemma sumN_insert ws i w v : ws !! i = Some w -> sumN (<[i := v]> ws) + w = sumN ws + v.
Proof.
  revert i. induction ws as [|x ws IH]; intros [|i] Hi; simplify_eq/=; [lia|]. specialize (IH _ Hi). lia.
Qed.

Lemma bump_spec ws i limit :
  (i < length ws)%nat -> sumN ws < limit -> limit <= u16_max ->
  sumN (bump ws i) = sumN ws + 1 /\ Forall2 N.le ws (bump ws i).
Proof.
  intros Hi Hs Hl. destruct (lookup_lt_is_Some_2 _ _ Hi) as [w Hw]. unfold bump. rewrite Hw.
  assert (w <= sumN ws) by (apply sumN_ge; by eapply list_elem_of_lookup_2).
  rewrite N.min_r by lia. split; [pose proof (sumN_insert ws i w (w + 1) Hw); lia|].
  apply Forall2_same_length_lookup. split; [by rewrite length_insert|]. intros j x y Hx Hy.
  destruct (decide (i = j)) as [<-|Hne].
  - rewrite list_lookup_insert_eq in Hy by done. simplify_eq. lia.
  - rewrite list_lookup_insert_ne in Hy by done. simplify_eq. lia.
Qed.

Lemma bumps_spec idx ws limit :
  Forall (fun i => (i < length ws)%nat) idx -> sumN ws + N.of_nat (length idx) <= limit -> limit <= u16_max ->
  sumN (foldl bump ws idx) = sumN ws + N.of_nat (length idx) /\ Forall2 N.le ws (foldl bump ws idx).
Proof.
  revert ws. induction idx as [|i idx IH]; intros ws Hi Hs Hl; simpl.
  - split; [lia|]. by apply Forall_Forall2_diag, Forall_true.
  - apply Forall_cons in Hi as [Hi Hidx]. simpl in Hs.
    destruct (bump_spec ws i limit Hi ltac:(lia) Hl) as [Hsum Hle].
    destruct (IH (bump ws i)) as [H1 H2]; [by rewrite <- (Forall2_length _ _ _ Hle)|lia|done|].
    split; [lia|]. etrans; [exact Hle|exact H2].
Qed.

(** Quotients and remainders of a sum that is a multiple of the divisor. *)
Lemma sum_div_mod (l : list N) t :
  0 < t -> sumN ((fun x => x / t) <$> l) * t + sumN ((fun x => x mod t) <$> l) = sumN l /\
  sumN ((fun x => x mod t) <$> l) <= N.of_nat (length l) * t.
Proof.
  intros Ht. induction l as [|x l [IH1 IH2]]; [done|]. rewrite !fmap_cons, !sumN_cons. simpl length.
  pose proof (N.div_mod x t ltac:(lia)) as Hx. pose proof (N.mod_lt x t ltac:(lia)) as Hm.
  rewrite N.mul_add_distr_r, (N.mul_comm (x / t)). rewrite Nat2N.inj_succ, N.mul_succ_l. lia.
Qed.

Lemma sumN_map_add1 (l : list N) : sumN ((fun x => 1 + x) <$> l) = N.of_nat (length l) + sumN l.
Proof. induction l as [|x l IH]; [done|]. rewrite fmap_cons, !sumN_cons, IH. simpl length. lia. Qed.

Lemma sumN_map_mul (l : list N) m : sumN ((fun x => x * m) <$> l) = sumN l * m.
Proof. induction l as [|x l IH]; [done|]. rewrite fmap_cons, !sumN_cons, IH. lia. Qed.

(** The slots left after rounding down: as many as the remainders make up, and no
    more than there are services. *)
Lemma assigned_bounds caps remaining :
  let total := sumN caps in
  let exact := (fun capacity => 1 + (capacity * remaining) / total) <$> caps in
  0 < total ->
  sumN exact <= N.of_nat (length caps) + remaining /\
  N.of_nat (length caps) + remaining - sumN exact <= N.of_nat (length caps).
Proof.
  intros total exact Ht. unfold exact.
  pose proof (sum_div_mod ((fun c => c * remaining) <$> caps) total Ht) as [H1 H2].
  rewrite <- (list_fmap_compose _ (fun x => x / total)) in H1.
  rewrite <- (list_fmap_compose _ (fun x => x mod total)) in H1, H2. unfold compose in H1, H2. rewrite sumN_map_mul, length_fmap in *. fold total in H1.
  assert (sumN ((fun c => 1 + c * remaining / total) <$> caps) =
    N.of_nat (length caps) + sumN ((fun c => c * remaining / total) <$> caps)) as ->.
  { rewrite <- (length_fmap (fun c => c * remaining / total) caps), <- sumN_map_add1, <- list_fmap_compose. done. }
  set (q := sumN ((fun c => c * remaining / total) <$> caps)) in *.
  set (rs := sumN ((fun c => (c * remaining) mod total) <$> caps)) in *.
  assert (q <= remaining) by (apply (N.mul_le_mono_pos_r _ _ total); lia).
  assert (remaining - q <= N.of_nat (length caps)); [|lia].
  apply (N.mul_le_mono_pos_r _ _ total); [done|]. rewrite N.mul_sub_distr_r. lia.
Qed.

Lemma normalized_capacities_scaled caps :
  Forall (fun c => 1 <= c) caps -> N.of_nat (length caps) <= u16_max -> u16_max < sumN caps ->
  exists weights, normalized_capacities caps = Ok weights /\ length weights = length caps /\
    Forall (fun w => 1 <= w) weights /\ sumN weights = u16_max /\
    Forall2 (fun c w => 1 + c * (u16_max - N.of_nat (length caps)) / sumN caps <= w) caps weights.
Proof.
  intros Hc Hn Ht. unfold normalized_capacities.
  set (remaining := u16_max - N.of_nat (length caps)). set (total := sumN caps).
  set (exact := (fun capacity => 1 + (capacity * remaining) / total) <$> caps).
  destruct (assigned_bounds caps remaining ltac:(unfold u16_max in *; lia)) as [Hub Hslots]. fold total exact in Hub, Hslots.
  assert (is_nil caps = false) as -> by (destruct caps; [unfold u16_max in *; simpl in Ht; lia|done]).
  assert (existsb (N.eqb 0) caps = false) as ->.
  { apply not_true_is_false. rewrite existsb_exists. intros (x & Hx & Hz). apply N.eqb_eq in Hz. subst x.
    apply list_elem_of_In in Hx. eapply Forall_forall in Hc; [|exact Hx]. lia. }
  simpl. destruct (N.ltb_spec u16_max (N.of_nat (length caps))); [lia|]. simpl.
  destruct (N.leb_spec total u16_max); [unfold total in *; lia|].
  assert ((fun w => if w <=? u16_max then w else u16_max) <$> exact = exact) as ->.
  { rewrite <- (list_fmap_id exact) at 2. apply list_fmap_ext. intros i w Hw. simpl.
    assert (w <= sumN exact) by (apply sumN_ge; by eapply list_elem_of_lookup_2).
    by destruct (N.leb_spec w u16_max); [|unfold remaining in *; lia]. }
  set (idx := snd <$> take _ _). assert (length exact = length caps) as Hlen by apply length_fmap.
  set (rs := zip ((fun capacity => (capacity * remaining) mod total) <$> caps) (seq 0 (length caps))) in idx.
  assert (length rs = length caps) as Hrs.
  { unfold rs. rewrite length_zip_with, length_fmap, length_seq. lia. }
  assert (Forall (fun i => (i < length exact)%nat) idx) as Hidx.
  { unfold idx. apply Forall_fmap, Forall_take. rewrite stable_sort_perm. apply Forall_forall. intros [r i] Hin.
    apply elem_of_zip_r in Hin. simpl. rewrite Hlen. apply elem_of_seq in Hin. simpl in Hin. lia. }
  assert (N.of_nat (length idx) = u16_max - sumN exact) as Hk.
  { unfold idx. rewrite length_fmap, length_take, (Permutation_length (stable_sort_perm pair_geb rs)), Hrs.
    unfold remaining in *. lia. }
  destruct (bumps_spec idx exact u16_max Hidx ltac:(unfold remaining in *; lia) ltac:(lia)) as [Hsum Hle].
  eexists. split; [reflexivity|]. rewrite <- (Forall2_length _ _ _ Hle). split; [done|].
  assert (Forall (fun w => 1 <= w) exact) as H1.
  { unfold exact. apply Forall_fmap, Forall_true. intros c. apply N.le_add_r. }
  split; [|split; [unfold remaining in *; lia|]].
  - apply Forall_forall. intros w Hw. apply list_elem_of_lookup in Hw as [i Hi].
    destruct (Forall2_lookup_r _ _ _ _ _ Hle Hi) as (e & He & Hew).
    pose proof (proj1 (Forall_lookup _ _) H1 _ _ He). simpl in *. lia.
  - revert Hle. generalize (foldl bump exact idx). unfold exact. intros out Hle. by rewrite Forall2_fmap_l in Hle.
Qed.

(** Scaling the capacities of a priority tier to load-balancer weights: any list
    of at most 65535 positive capacities is accepted, capacities that already fit
    are kept, and otherwise the weights are positive, add up to exactly 65535 and
    give every service at least its rounded-down proportional share. *)
Theorem normalized_capacities_spec caps :
  Forall (fun c => 1 <= c) caps -> N.of_nat (length caps) <= u16_max ->
  exists weights, normalized_capacities caps = Ok weights /\ length weights = length caps /\
    Forall (fun w => 1 <= w) weights /\ sumN weights = N.min (sumN caps) u16_max /\
    (sumN caps <= u16_max -> weights = caps) /\
    (u16_max < sumN caps ->
       Forall2 (fun c w => 1 + c * (u16_max - N.of_nat (length caps)) / sumN caps <= w) caps weights).
Proof.
  intros Hc Hn. destruct (N.le_gt_cases (sumN caps) u16_max) as [Hle|Hgt].
  - exists caps. split_and!; try done; [|lia|lia]. unfold normalized_capacities. destruct (is_nil caps) eqn:En.
    { by destruct caps. }
    destruct (existsb (N.eqb 0) caps) eqn:Ez; simpl.
    { apply existsb_exists in Ez as (x & Hx & Hz). apply N.eqb_eq in Hz. subst x. apply list_elem_of_In in Hx.
      eapply Forall_forall in Hc; [|exact Hx]. lia. }
    destruct (N.ltb_spec u16_max (N.of_nat (length caps))); [lia|]. simpl. by destruct (N.leb_spec (sumN caps) u16_max); [|lia].
  - destruct (normalized_capacities_scaled caps Hc Hn Hgt) as (ws & Hw & Hl & H1 & Hs & Hp).
    exists ws. split_and!; try done; lia.
Qed.

Lemma normalized_capacities_spec_witness :
  exists weights, normalized_capacities [65535; 1; 100] = Ok weights /\ sumN weights = 65535.
Proof.
  destruct (normalized_capacities_spec [65535; 1; 100]) as (ws & Hw & _ & _ & Hs & _).
  - rewrite !Forall_cons. split_and!; [lia|lia|lia|constructor].
  - done.
  - exists ws. split; [exact Hw|exact Hs].
Defined.
