(* ===== verification/Discovery.v ===== *)
(** * NRF endpoints and the refresh schedule
    (crates/ngxora-runtime/src/upstreams/runtime/groups.rs, groups/topology.rs,
    groups/discovery.rs)

    Endpoints of a service are taken in turn; discovered servers get synthetic
    addresses in the load balancer; a background task refreshes the discovered
    snapshot, backs off on failure and drops the snapshot when it has expired. *)

From S2P Require Import Prelude RustStr NetAddr Crates Ir Types.

Open Scope N_scope.

(** ** Endpoints in turn *)

Section endpoints.
Context {B : Type} (ready : B -> bool).

(** The [for] loop of [select_endpoint]; the index wraps at 64 bits. *)
Fixpoint try_offsets (endpoints : list B) (start : N) (offsets : list nat) : option B :=
  match offsets with
  | [] => None
  | offset :: offsets' =>
      let index := wrapping_add64 start (N.of_nat offset) mod N.of_nat (length endpoints) in
      match endpoints !! N.to_nat index with
      | Some backend => if ready backend then Some backend else try_offsets endpoints start offsets'
      | None => None
      end
  end.

(** [RuntimeNrfService::select_endpoint]: [next] is the atomic counter. *)
Definition select_endpoint (endpoints : list B) (next : N) : N * option B :=
  (wrapping_add64 next 1, try_offsets endpoints next (seq 0 (length endpoints))).

Lemma try_offsets_Some endpoints start offsets b :
  try_offsets endpoints start offsets = Some b -> b ∈ endpoints /\ ready b = true.
Proof.
  induction offsets as [|o os IH]; simpl; [done|].
  destruct (endpoints !! _) as [x|] eqn:E; [|done]. destruct (ready x) eqn:Er; [|done].
  intros [= <-]. split; [by eapply list_elem_of_lookup_2|done].
Qed.

Lemma try_offsets_None endpoints start offsets :
  endpoints <> [] -> start + N.of_nat (length endpoints) <= u64_max + 1 ->
  Forall (fun o => (o < length endpoints)%nat) offsets ->
  try_offsets endpoints start offsets = None ->
  Forall (fun o => forall b, endpoints !! N.to_nat ((start + N.of_nat o) mod N.of_nat (length endpoints)) = Some b ->
    ready b = false) offsets.
Proof.
  intros Hne Hs. assert (length endpoints <> 0%nat) as Hlen by (by destruct endpoints).
  induction 1 as [|o os Ho Hos IH]; cbn [try_offsets]; intros Ht; constructor.
  - rewrite wrapping_add64_exact in Ht by lia. intros b Hb. rewrite Hb in Ht. by destruct (ready b).
  - apply IH. destruct (endpoints !! N.to_nat (wrapping_add64 start (N.of_nat o) mod N.of_nat (length endpoints))) as [b|] eqn:E.
    + by destruct (ready b).
    + exfalso. apply lookup_ge_None in E.
      pose proof (N.mod_lt (wrapping_add64 start (N.of_nat o)) (N.of_nat (length endpoints)) ltac:(lia)). lia.
Qed.

(** Every index is one of [length] consecutive residues. *)
Lemma residue_hit n start i : 0 < n -> i < n -> exists o, o < n /\ (start + o) mod n = i.
Proof.
  intros Hn Hi. pose proof (N.mod_lt start n ltac:(lia)) as Hm. pose proof (N.div_mod start n ltac:(lia)) as Hd.
  set (r := start mod n) in *. set (q := start / n) in *. clearbody r q.
  destruct (N.le_gt_cases r i) as [Hle|Hgt].
  - exists (i - r). split; [lia|].
    replace (start + (i - r)) with (i + q * n) by nia.
    rewrite N.Div0.mod_add. by apply N.mod_small.
  - exists (n + i - r). split; [lia|].
    replace (start + (n + i - r)) with (i + (q + 1) * n) by nia.
    rewrite N.Div0.mod_add. by apply N.mod_small.
Qed.
End endpoints.

(** ** Synthetic addresses *)

(** [synthetic_backend_addr]: the IPv6 address fd00:0:0:0:a:b:c:1 with the three
    16-bit parts of the id that it keeps. *)
Definition synthetic_backend_addr (id : N) : IpAddr :=
  V6 (foldl (fun acc g => acc * 65536 + g) 0
        [64768; 0; 0; 0; N.land (N.shiftr id 32) 65535; N.land (N.shiftr id 16) 65535; N.land id 65535; 1]).

(** [while !used.insert(id) { id = id.wrapping_add(1) }]: among [length used + 1]
    consecutive ids one is free. *)
Fixpoint free_id (fuel : nat) (used : list N) (id : N) : N :=
  match fuel with
  | O => id
  | S fuel' => if bool_decide (id ∈ used) then free_id fuel' used (wrapping_add64 id 1) else id
  end.
Definition assign_id (used : list N) (hash : N) : list N :=
  used ++ [free_id (S (length used)) used hash].
(** The ids of [dynamic_synthetic_backends], from the servers' hashes. *)
Definition dynamic_ids (hashes : list N) : list N := foldl assign_id [] hashes.

Lemma free_id_spec fuel used id :
  id <= u64_max ->
  (free_id fuel used id ∉ used /\ free_id fuel used id <= u64_max) \/
  forall i, (i < fuel)%nat -> (id + N.of_nat i) mod (u64_max + 1) ∈ used.
Proof.
  revert id. induction fuel as [|fuel IH]; intros id Hid; simpl; [right; lia|].
  case_bool_decide as Hu; [|by left].
  destruct (IH (wrapping_add64 id 1)) as [Hf|Hf]; [|by left|right].
  { unfold wrapping_add64. pose proof (N.mod_lt (id + 1) (u64_max + 1) ltac:(done)). lia. }
  intros [|i] Hi.
  - rewrite N.add_0_r, N.mod_small by lia. done.
  - specialize (Hf i ltac:(lia)). unfold wrapping_add64 in Hf. rewrite N.Div0.add_mod_idemp_l in Hf.
    by replace (id + N.of_nat (S i)) with (id + 1 + N.of_nat i) by lia.
Qed.

Lemma mod_window_inj id m i j : i < m -> j < m -> (id + i) mod m = (id + j) mod m -> i = j.
Proof.
  intros Hi Hj Heq.
  assert (forall a b, a <= b -> b < m -> (id + a) mod m = (id + b) mod m -> a = b) as Hle.
  { intros a b Hab Hb He. replace (id + b) with ((id + a) + (b - a)) in He by lia.
    rewrite <- (N.Div0.add_mod_idemp_l (id + a)) in He. pose proof (N.mod_lt (id + a) m ltac:(lia)) as Hr.
    set (r := (id + a) mod m) in *. clearbody r.
    destruct (N.lt_ge_cases (r + (b - a)) m) as [Hlt|Hge]; [rewrite N.mod_small in He by done; lia|].
    replace (r + (b - a)) with ((r + (b - a) - m) + 1 * m) in He by lia.
    rewrite N.Div0.mod_add, N.mod_small in He by lia. lia. }
  destruct (N.le_ge_cases i j); [auto|]. symmetry. auto.
Qed.

Lemma free_id_fresh used id :
  id <= u64_max -> N.of_nat (length used) <= u64_max ->
  free_id (S (length used)) used id ∉ used /\ free_id (S (length used)) used id <= u64_max.
Proof.
  intros Hid Hlen. destruct (free_id_spec (S (length used)) used id Hid) as [Hf|Hf]; [done|].
  exfalso. set (l := (fun i => (id + N.of_nat i) mod (u64_max + 1)) <$> seq 0 (S (length used))).
  assert (NoDup l) as Hnd.
  { apply NoDup_fmap_2_strong; [|apply NoDup_seq]. intros x y Hx Hy He. apply elem_of_seq in Hx, Hy.
    apply mod_window_inj in He; lia. }
  assert (l ⊆+ used) as Hsub.
  { apply NoDup_submseteq; [done|]. intros x Hx. apply list_elem_of_fmap in Hx as (i & -> & Hi).
    apply Hf. apply elem_of_seq in Hi. lia. }
  apply submseteq_length in Hsub. unfold l in Hsub. rewrite length_fmap, length_seq in Hsub. lia.
Qed.

Lemma dynamic_ids_nodup hashes :
  Forall (fun h => h <= u64_max) hashes -> N.of_nat (length hashes) <= u64_max -> NoDup (dynamic_ids hashes).
Proof.
  intros Hh Hl. unfold dynamic_ids.
  assert (forall used, NoDup used -> N.of_nat (length used + length hashes) <= u64_max ->
    NoDup (foldl assign_id used hashes)) as Hg; [|apply Hg; [constructor|done]].
  clear Hl. induction Hh as [|h hs Hh Hhs IH]; intros used Hnd Hlen; simpl; [done|]. simpl in Hlen.
  destruct (free_id_fresh used h Hh ltac:(lia)) as [Hf _]. apply IH.
  - unfold assign_id. apply NoDup_app. split_and!; [done|set_solver|by apply NoDup_singleton].
  - unfold assign_id. rewrite length_app. simpl. lia.
Qed.

(** ** The refresh schedule *)

(** Instants are bounded by the platform's clock type (a signed 64-bit count of
    seconds and the nanoseconds within one). *)
Definition instant_max : N := (2 ^ 63 - 1) * 1000000000 + 999999999.
Definition instant_add (now d : N) : option N := checked_add instant_max now d.

Definition nrf_failure_retry_at (now : N) (expires_at : option N) (failures : N) : N :=
  let exponent := N.min (saturating_sub failures 1) 5 in
  let backoff := from_secs (N.min (N.shiftl 1 exponent) 30) in
  let backoff_at := default now (instant_add now backoff) in
  match expires_at with None => backoff_at | Some expires_at => N.min backoff_at expires_at end.

Definition nrf_snapshot_expiry (now validity stale_if_error : N) : option N :=
  valid_until ← instant_add now validity; instant_add valid_until stale_if_error.

(** [hash] is the hash of the process identity and the group's name. *)
Definition nrf_refresh_delay (validity hash : N) : N :=
  let percent := 70 + hash mod 21 in
  let millis := N.min u128_max (as_millis validity * percent) / 100 in
  from_millis (N.min u64_max (N.max millis 1000)).

Record NrfRefreshSchedule := mkNrfRefreshSchedule {
  sc_invalid_api : bool;
  sc_candidate_count : N;
  sc_candidates : list CompiledUpstreamServer;
  sc_next_run_at : N;
  sc_expires_at : option N;
  sc_failures : N;
  sc_last_success_at : option N;
  sc_endpoint_count : N
}.

(** What a discovery answers: how long it is valid, and its endpoints. *)
Record DiscoveryResult := mkDiscoveryResult {
  dr_validity : N;
  dr_endpoints : list CompiledUpstreamServer;
  dr_invalid_api : bool
}.

Section schedule.
(** The published selection: an abstract topology, built from the ready backends
    ([None] when there are none), compared by its signature. *)
Context {B T : Type} (build : list B -> result string (option T)) (same_signature : T -> T -> bool).
(** Registering the backends of a new topology with the health checks. *)
Context (register : T -> result string unit).
(** [scp]: the group serves an SCP query; [stale_if_error], [hash]: its settings. *)
Context (scp : bool) (stale : N) (hash : N).

Record NrfState := mkNrfState { nrf_selection : option T; nrf_schedule : NrfRefreshSchedule }.

Definition expire_snapshot (s : NrfState) : NrfState :=
  let c := nrf_schedule s in
  mkNrfState None (mkNrfRefreshSchedule (sc_invalid_api c) (sc_candidate_count c) (sc_candidates c) (sc_next_run_at c) (sc_expires_at c)
    (sc_failures c) (sc_last_success_at c) 0).

Definition is_expired (now : N) (c : NrfRefreshSchedule) : bool :=
  match sc_expires_at c with Some e => e <=? now | None => false end.

Definition record_failure (s : NrfState) (now : N) : NrfState * N :=
  let c := nrf_schedule s in
  let failures := saturating_add u32_max (sc_failures c) 1 in
  let next := nrf_failure_retry_at now (sc_expires_at c) failures in
  let s := mkNrfState (nrf_selection s)
             (mkNrfRefreshSchedule (sc_invalid_api c) (sc_candidate_count c) (sc_candidates c) next (sc_expires_at c) failures
                (sc_last_success_at c) (sc_endpoint_count c)) in
  (if is_expired now c then expire_snapshot s else s, next).

(** [publish_backends]: an unchanged topology is kept. *)
Definition publish_backends (s : NrfState) (ready : list B) : result string NrfState :=
  topology ← build ready;
  match topology with
  | None => Ok (mkNrfState None (nrf_schedule s))
  | Some topology =>
      if match nrf_selection s with Some t => same_signature t topology | None => false end then Ok s
      else (_ ← register topology; Ok (mkNrfState (Some topology) (nrf_schedule s)))
  end.

Definition set_next_run (s : NrfState) (next : N) : NrfState :=
  let c := nrf_schedule s in
  mkNrfState (nrf_selection s) (mkNrfRefreshSchedule (sc_invalid_api c) (sc_candidate_count c) (sc_candidates c) next (sc_expires_at c)
    (sc_failures c) (sc_last_success_at c) (sc_endpoint_count c)).

(** [run_due_nrf_discovery]: [answer] is what the NRF said and [done_at] when;
    [preflight] the backends of the endpoints that pass the check, [permit] whether the
    semaphore of an SCP profile is open.  The snapshot expires while the request is
    pending if its expiry comes first. *)
Definition run_due_nrf_discovery (s : NrfState) (now : N) (permit : bool) (answer : result string DiscoveryResult) (done_at : N)
    (preflight : list CompiledUpstreamServer -> list B) (checker_builds : bool)
  : NrfState * option N :=
  let s := if is_expired now (nrf_schedule s) then expire_snapshot s else s in
  if now <? sc_next_run_at (nrf_schedule s) then (s, Some (sc_next_run_at (nrf_schedule s))) else
  if negb permit then (s, None) else
  let failed s := let '(s, next) := record_failure s now in (s, Some next) in
  let s := set_next_run s (default now (instant_add now (from_secs 1))) in
  let s := if negb (is_expired now (nrf_schedule s)) && is_expired done_at (nrf_schedule s)
           then expire_snapshot s else s in
  match answer with
  | Err _ => failed s
  | Ok result =>
      if scp && (256 <? N.of_nat (length (dr_endpoints result))) then failed s else
      match nrf_snapshot_expiry now (dr_validity result) stale with
      | None => failed s
      | Some expires_at =>
          if negb checker_builds then failed s else
          let ready := preflight (dr_endpoints result) in
          match publish_backends s ready with
          | Err _ => failed s
          | Ok s =>
              let delay := nrf_refresh_delay (dr_validity result) hash in
              let next := N.min (default expires_at (instant_add now delay)) expires_at in
              (mkNrfState (nrf_selection s)
                 (mkNrfRefreshSchedule (dr_invalid_api result) (N.of_nat (length (dr_endpoints result)))
                    (if scp then dr_endpoints result else sc_candidates (nrf_schedule s)) next
                    (Some expires_at) 0 (Some now) (N.of_nat (length ready))), Some next)
          end
      end
  end.
End schedule.

(** ** Theorems *)

(** Taking endpoints in turn misses none: as long as the 64-bit counter does not
    wrap inside the round, a service answers with a ready endpoint whenever it has
    one, and with none only when no endpoint is ready. *)
Lemma select_endpoint_found {B} (ready : B -> bool) endpoints next :
  next + N.of_nat (length endpoints) <= u64_max + 1 ->
  match snd (select_endpoint ready endpoints next) with
  | Some b => b ∈ endpoints /\ ready b = true
  | None => forall b, b ∈ endpoints -> ready b = false
  end.
Proof.
  intros Hn. unfold select_endpoint. simpl.
  destruct (try_offsets ready endpoints next (seq 0 (length endpoints))) as [b|] eqn:E.
  - by eapply try_offsets_Some.
  - intros b Hb. apply list_elem_of_lookup in Hb as [i Hi]. pose proof (lookup_lt_Some _ _ _ Hi) as Hlt.
    apply try_offsets_None in E; [|by destruct endpoints|done|].
    + destruct (residue_hit (N.of_nat (length endpoints)) next (N.of_nat i)) as (o & Ho & Hoi); [lia|lia|].
      eapply Forall_forall in E; [|apply elem_of_seq; split; [apply Nat.le_0_l|]; instantiate (1 := N.to_nat o); lia].
      apply E. rewrite N2Nat.id, Hoi, Nat2N.id. done.
    + apply Forall_forall. intros o Ho. apply elem_of_seq in Ho. lia.
Qed.

(** The synthetic addresses of dynamic backends are not as distinct as their
    ids: ids are made distinct as 64-bit numbers, but two ids that differ by a
    multiple of 2^48 have the same address. *)
Theorem synthetic_addr_collision id k : synthetic_backend_addr (id + k * 2 ^ 48) = synthetic_backend_addr id.
Proof.
  assert (forall n, n <= 32 -> N.land (N.shiftr (id + k * 2 ^ 48) n) 65535 = N.land (N.shiftr id n) 65535) as Hn.
  { intros n Hle. change 65535 with (N.ones 16). rewrite !N.land_ones, !N.shiftr_div_pow2.
    replace (2 ^ 48) with (2 ^ (48 - n - 16) * 2 ^ 16 * 2 ^ n) by (rewrite <- !N.pow_add_r; f_equal; lia).
    rewrite !N.mul_assoc, N.div_add by (by apply N.pow_nonzero). by rewrite N.Div0.mod_add. }
  unfold synthetic_backend_addr. rewrite (Hn 32), (Hn 16) by lia.
  pose proof (Hn 0 ltac:(lia)) as H0. rewrite !N.shiftr_0_r in H0. by rewrite H0.
Qed.

(** ids given to discovered servers are pairwise distinct, whatever their hashes,
    and probing for a free one always ends within one more step than ids in use. *)
Theorem dynamic_ids_distinct hashes :
  Forall (fun h => h <= u64_max) hashes -> N.of_nat (length hashes) <= u64_max -> NoDup (dynamic_ids hashes).
Proof. apply dynamic_ids_nodup. Qed.

Lemma dynamic_ids_distinct_witness : NoDup (dynamic_ids [u64_max; 0; u64_max]).
Proof.
  apply (dynamic_ids_distinct [u64_max; 0; u64_max]); [|done].
  rewrite !Forall_cons. by split_and!.
Defined.

Lemma backoff_range failures :
  from_secs 1 <= from_secs (N.min (N.shiftl 1 (N.min (saturating_sub failures 1) 5)) 30) <= from_secs 30.
Proof.
  unfold from_secs. assert (1 <= N.shiftl 1 (N.min (saturating_sub failures 1) 5)); [|lia].
  rewrite N.shiftl_1_l. pose proof (N.pow_nonzero 2 (N.min (saturating_sub failures 1) 5) ltac:(done)). lia.
Qed.

(** While the discovered snapshot is valid, a failed refresh is retried after at
    least one nanosecond and at most 30 seconds, and no later than the snapshot
    expires. *)
Theorem nrf_retry_bounds now expires_at failures :
  now + from_secs 30 <= instant_max -> (forall e, expires_at = Some e -> now < e) ->
  let retry := nrf_failure_retry_at now expires_at failures in
  now < retry /\ retry <= now + from_secs 30 /\ (forall e, expires_at = Some e -> retry <= e).
Proof.
  intros Hmax He. cbn zeta. unfold nrf_failure_retry_at, instant_add. pose proof (backoff_range failures) as Hb.
  assert (0 < from_secs 1) by done. rewrite checked_add_ok by lia. simpl.
  destruct expires_at as [e|]; [specialize (He e eq_refl)|]; split_and!; try lia; intros ? [=]; lia.
Qed.

Lemma nrf_retry_bounds_witness :
  let retry := nrf_failure_retry_at 1000 (Some (from_secs 5)) 6 in
  1000 < retry /\ retry <= 1000 + from_secs 30 /\ (forall e, Some (from_secs 5) = Some e -> retry <= e).
Proof. apply (nrf_retry_bounds 1000 (Some (from_secs 5)) 6); [done|]. intros e [= <-]. done. Defined.

(** once the snapshot has expired there is no back-off: every further failure
    schedules the next attempt at the expiry, which is not in the future, however
    many failures there have been. *)
Theorem nrf_backoff_lost_after_expiry {T} (s : @NrfState T) now e :
  sc_expires_at (nrf_schedule s) = Some e -> e <= now ->
  snd (record_failure s now) <= now /\
  sc_next_run_at (nrf_schedule (fst (record_failure s now))) <= now /\
  sc_expires_at (nrf_schedule (fst (record_failure s now))) = Some e.
Proof.
  intros He Hle. unfold record_failure, is_expired. rewrite He. simpl.
  destruct (N.leb_spec e now); [|lia]. simpl.
  split_and!; [unfold nrf_failure_retry_at; lia|unfold nrf_failure_retry_at; lia|done].
Qed.

Module DiscoverySample.
Definition s : @NrfState unit := mkNrfState (Some tt) (mkNrfRefreshSchedule false 1 [] 0 (Some 10) 40 (Some 0) 1).
End DiscoverySample.

Lemma nrf_backoff_lost_after_expiry_witness : snd (record_failure DiscoverySample.s 20) <= 20.
Proof. exact (proj1 (nrf_backoff_lost_after_expiry DiscoverySample.s 20 10 eq_refl ltac:(done))). Defined.

Section discovery_theorems.
Context {B T : Type} (build : list B -> result string (option T)) (same_signature : T -> T -> bool) (register : T -> result string unit).

Lemma expire_snapshot_schedule (s : @NrfState T) :
  sc_expires_at (nrf_schedule (expire_snapshot s)) = sc_expires_at (nrf_schedule s).
Proof. done. Qed.

Lemma record_failure_expired (s : @NrfState T) now :
  is_expired now (nrf_schedule (fst (record_failure s now))) = true -> nrf_selection (fst (record_failure s now)) = None.
Proof. unfold record_failure. destruct (is_expired now (nrf_schedule s)) eqn:E; simpl; [done|]. unfold is_expired in *. simpl. congruence. Qed.

Lemma record_failure_selection (s : @NrfState T) now :
  nrf_selection (fst (record_failure s now)) = nrf_selection s \/ nrf_selection (fst (record_failure s now)) = None.
Proof. unfold record_failure. simpl. destruct (is_expired now (nrf_schedule s)); [by right|by left]. Qed.

(** Whatever is selected after a run was selected before or has just been built from
    the endpoints of the answer. *)
Lemma run_due_selection scp stale hash (P : T -> Prop) (s : @NrfState T) now permit answer done_at preflight checker_builds :
  (forall t, nrf_selection s = Some t -> P t) ->
  (forall r t, answer = Ok r -> build (preflight (dr_endpoints r)) = Ok (Some t) -> P t) ->
  forall t, nrf_selection (fst (run_due_nrf_discovery build same_signature register scp stale hash s now permit answer done_at
    preflight checker_builds)) = Some t -> P t.
Proof.
  intros Hs Hb. unfold run_due_nrf_discovery.
  set (s1 := if is_expired now (nrf_schedule s) then expire_snapshot s else s).
  assert (forall t, nrf_selection s1 = Some t -> P t) as H1 by (unfold s1; destruct (is_expired _ _); [done|exact Hs]).
  destruct (now <? sc_next_run_at (nrf_schedule s1)); [exact H1|]. destruct (negb permit); [exact H1|].
  set (s2 := set_next_run s1 _). set (s3 := if negb _ && _ then expire_snapshot s2 else s2).
  assert (forall t, nrf_selection s3 = Some t -> P t) as H3 by (unfold s3; destruct (negb _ && _); [done|exact H1]).
  assert (forall t, nrf_selection (fst (let '(s', next) := record_failure s3 now in (s', Some next))) = Some t -> P t) as Hf.
  { intros t. destruct (record_failure_selection s3 now) as [E|E]; destruct (record_failure s3 now); simpl in *; rewrite E; [apply H3|done]. }
  destruct answer as [r|]; [|exact Hf]. destruct (scp && _); [exact Hf|].
  destruct (nrf_snapshot_expiry now (dr_validity r) stale); [|exact Hf]. destruct (negb checker_builds); [exact Hf|].
  destruct (publish_backends build same_signature register s3 (preflight (dr_endpoints r))) as [s4|] eqn:Ep; [|exact Hf].
  simpl. unfold publish_backends in Ep. apply bind_Ok_inv in Ep as (topology & Hb' & Ep).
  destruct topology as [topology|]; [|by injection Ep as <-].
  destruct (match nrf_selection s3 with Some _ => _ | None => _ end); [by injection Ep as <-|].
  apply bind_Ok_inv in Ep as (_ & _ & Ep). injection Ep as <-. simpl. intros t [= <-]. by eapply Hb.
Qed.

(** No endpoint is selected from an expired snapshot: after any run of the refresh
    task at time [now], whatever the registry answered and however long it took, a
    schedule whose expiry is not after [now] has no selection. *)
Theorem nrf_expired_not_selected scp stale hash (s : @NrfState T) now permit answer done_at preflight checker_builds :
  0 < stale ->
  let s' := fst (run_due_nrf_discovery build same_signature register scp stale hash s now permit answer done_at preflight checker_builds) in
  is_expired now (nrf_schedule s') = true -> nrf_selection s' = None.
Proof.
  intros Hst. cbn zeta. unfold run_due_nrf_discovery.
  set (s1 := if is_expired now (nrf_schedule s) then expire_snapshot s else s).
  assert (is_expired now (nrf_schedule s1) = true -> nrf_selection s1 = None) as H1.
  { unfold s1. destruct (is_expired now (nrf_schedule s)) eqn:E; simpl; [done|congruence]. }
  destruct (now <? sc_next_run_at (nrf_schedule s1)); [exact H1|]. destruct (negb permit); [exact H1|].
  set (s2 := set_next_run s1 _). set (s3 := if negb _ && _ then expire_snapshot s2 else s2).
  assert (forall s' : @NrfState T, let st := (let '(s'', next) := record_failure s' now in (s'', Some next)) in
    is_expired now (nrf_schedule (fst st)) = true -> nrf_selection (fst st) = None) as Hf.
  { intros s'. cbn zeta. pose proof (record_failure_expired s' now). by destruct (record_failure s' now). }
  destruct answer as [r|]; [|apply Hf].
  destruct (scp && _); [apply Hf|].
  destruct (nrf_snapshot_expiry now (dr_validity r) stale) as [e|] eqn:Ee; [|apply Hf].
  destruct (negb checker_builds); [apply Hf|].
  destruct (publish_backends build same_signature register s3 (preflight (dr_endpoints r))) as [s4|]; [|apply Hf].
  simpl. unfold is_expired. simpl. intros Hx. apply N.leb_le in Hx. exfalso.
  unfold nrf_snapshot_expiry, instant_add in Ee. destruct (checked_add instant_max now (dr_validity r)) as [v|] eqn:Ev; [|done].
  apply checked_add_Some in Ev as [-> _]. simpl in Ee. apply checked_add_Some in Ee as [-> _]. lia.
Qed.
End discovery_theorems.

Lemma nrf_expired_not_selected_witness :
  nrf_selection (fst (run_due_nrf_discovery (fun _ => Ok (Some tt)) (fun _ _ => true) (fun _ => Ok tt) false 1 0 DiscoverySample.s 20 true
    (Err "refused") 21 (fun l => l) true)) = None.
Proof.
  apply (nrf_expired_not_selected (fun _ => Ok (Some tt)) (fun _ _ => true) (fun _ => Ok tt) false 1 0 DiscoverySample.s 20 true
    (Err "refused") 21 (fun l => l) true); done.
Defined.
