(* ===== verification/Health.v ===== *)
(** * Health checks (crates/ngxora-runtime/src/upstreams/health.rs)

    Building the checker of a compiled health check and probing one backend with it.
    Name resolution, Pingora's connectors and its HTTP client sessions are parameters;
    counting successes and failures against the thresholds is Pingora's. *)

From S2P Require Import Prelude RustStr NetAddr BTree Crates Headers Ir Types.

Open Scope N_scope.

(** ** Backends of the load balancer *)

(** [pingora::lb::Backend] with the two kinds of extension kept in it; equality and
    order of backends ignore the extensions. *)
Record Backend := mkBackend {
  bk_addr : IpAddr;
  bk_weight : N;
  bk_server : option CompiledUpstreamServer;
  bk_service : option NrfServiceMetadata
}.
#[global] Instance Backend_eq_dec : EqDecision Backend.
Proof. solve_decision. Defined.

#[global] Instance ip_ord : Ord IpAddr := fun a b =>
  match a, b with V4 a, V4 b => cmp a b | V6 a, V6 b => cmp a b | V4 _, V6 _ => Lt | V6 _, V4 _ => Gt end.
#[global] Instance backend_ord : Ord Backend := cmp_via (fun b => (bk_addr b, bk_weight b)).

(** ** Probes *)

(** The peer a probe connects to. *)
Record ProbePeer := mkProbePeer {
  pp_addr : IpAddr * N;
  pp_tls : bool;
  pp_sni : string;
  pp_connection_timeout : option N;
  pp_read_timeout : option N
}.

(** The request of an HTTP check. *)
Record ProbeRequest `{Crates} := mkProbeRequest { pr_uri : Uri; pr_host : string }.

(** An HTTP client session: what each operation on it answers, in order. *)
Record ProbeSession := mkProbeSession {
  ss_write_request_header : result string unit;
  ss_finish_request_body : result string unit;
  ss_read_response_header : result string unit;
  ss_response_status : option N;
  (** the chunks of the body; [Err] is a read that fails *)
  ss_body : list (result string string)
}.

Class HealthDeps `{Crates} := {
  (** [tokio::net::lookup_host] *)
  lookup_host : string -> N -> result string (list (IpAddr * N));
  (** [RequestHeader::build] for GET and a path, [insert_header] of the host *)
  request_build : string -> result string unit;
  host_header_ok : string -> result string unit;
  (** [TransportConnector::get_stream], [HttpConnector::get_http_session] *)
  get_stream : ProbePeer -> result string unit;
  get_http_session : ProbePeer -> ProbeRequest -> N -> result string ProbeSession
}.

Section health.
Context `{HealthDeps}.

Record NgxoraTcpHealthCheck := mkTcpHealthCheck { th_consecutive_success : N; th_consecutive_failure : N; th_timeout : N }.
Record NgxoraHttpHealthCheck := mkHttpHealthCheck {
  hh_consecutive_success : N;
  hh_consecutive_failure : N;
  hh_timeout : N;
  hh_host : string;
  hh_use_tls : bool;
  hh_request : ProbeRequest
}.
Inductive NgxoraHealthCheck := HealthTcp (c : NgxoraTcpHealthCheck) | HealthHttp (c : NgxoraHttpHealthCheck).

(** [CompiledHealthCheck::build]. *)
Definition health_build (c : CompiledHealthCheck) : result string NgxoraHealthCheck :=
  match check_type c with
  | HcTcp => Ok (HealthTcp (mkTcpHealthCheck (consecutive_success c) (consecutive_failure c) (hc_timeout c)))
  | HcHttp host path use_tls =>
      uri ← map_err (fun err => "invalid health_check path `" +:+ path +:+ "`: " +:+ err) (uri_parse path);
      _ ← map_err (fun err => "failed to build health_check request for `" +:+ path +:+ "`: " +:+ err) (request_build path);
      _ ← map_err (fun err => "failed to build health_check host header: " +:+ err) (host_header_ok host);
      Ok (HealthHttp (mkHttpHealthCheck (consecutive_success c) (consecutive_failure c) (hc_timeout c) host use_tls
            (mkProbeRequest _ uri host)))
  end.

Definition backend_health_server (target : Backend) : result string CompiledUpstreamServer :=
  ok_or (bk_server target) "health check backend is missing compiled upstream metadata".

Definition resolve_health_check_addr (server : CompiledUpstreamServer) : result string (IpAddr * N) :=
  addrs ← map_err (fun err => "failed to resolve upstream `" +:+ show_server server +:+ "` for health check: " +:+ err)
            (lookup_host (cs_host server) (cs_port server));
  ok_or (head addrs) ("upstream `" +:+ show_server server +:+ "` did not resolve to any address").

Definition tcp_check_backend (c : NgxoraTcpHealthCheck) (target : Backend) : result string unit :=
  server ← backend_health_server target;
  addr ← resolve_health_check_addr server;
  get_stream (mkProbePeer addr false "" (Some (th_timeout c)) None).

(** [while session.read_response_body().await?.is_some() {}] *)
Fixpoint drain_body (chunks : list (result string string)) : result string unit :=
  match chunks with [] => Ok tt | chunk :: chunks' => _ ← chunk; drain_body chunks' end.

(** The exchange of an HTTP check with the backend's address. *)
Definition http_exchange (c : NgxoraHttpHealthCheck) (server : CompiledUpstreamServer) (addr : IpAddr * N) : result string unit :=
  let sni := if hh_use_tls c then hh_host c else "" in
  let peer := mkProbePeer addr (hh_use_tls c) sni (Some (hh_timeout c)) (Some (hh_timeout c)) in
  session ← get_http_session peer (hh_request c) (hh_timeout c);
  _ ← ss_write_request_header session;
  _ ← ss_finish_request_body session;
  _ ← ss_read_response_header session;
  status ← ok_or (ss_response_status session) "health check response header is missing after read";
  _ ← fail_if (negb (status =? 200))
        ("http health check to " +:+ show_server server +:+ " returned status " +:+ pretty status);
  drain_body (ss_body session).

Definition http_check_backend (c : NgxoraHttpHealthCheck) (target : Backend) : result string unit :=
  server ← backend_health_server target;
  addr ← resolve_health_check_addr server;
  http_exchange c server addr.

Definition health_check (c : NgxoraHealthCheck) (target : Backend) : result string unit :=
  match c with HealthTcp c => tcp_check_backend c target | HealthHttp c => http_check_backend c target end.

Definition health_threshold (c : NgxoraHealthCheck) (success : bool) : N :=
  match c with
  | HealthTcp c => if success then th_consecutive_success c else th_consecutive_failure c
  | HealthHttp c => if success then hh_consecutive_success c else hh_consecutive_failure c
  end.

(** ** Properties *)

Lemma drain_body_Ok chunks : drain_body chunks = Ok tt <-> Forall (fun c => is_ok c = true) chunks.
Proof.
  induction chunks as [|[c|e] chunks IH]; simpl.
  - done.
  - rewrite Forall_cons, IH. naive_solver.
  - rewrite Forall_cons. naive_solver.
Qed.

Lemma http_exchange_Ok c server addr :
  http_exchange c server addr = Ok tt <->
  exists session,
    get_http_session (mkProbePeer addr (hh_use_tls c) (if hh_use_tls c then hh_host c else "") (Some (hh_timeout c)) (Some (hh_timeout c)))
      (hh_request c) (hh_timeout c) = Ok session /\
    ss_write_request_header session = Ok tt /\ ss_finish_request_body session = Ok tt /\
    ss_read_response_header session = Ok tt /\ ss_response_status session = Some 200 /\
    Forall (fun chunk => is_ok chunk = true) (ss_body session).
Proof.
  unfold http_exchange. cbn zeta. split.
  - intros Hr. inv_ok. match goal with Hd : drain_body _ = Ok tt |- _ => apply drain_body_Ok in Hd end.
    match goal with Hs : negb (_ =? 200) = false |- _ => apply negb_false_iff, N.eqb_eq in Hs; subst end. eauto 10.
  - intros (session & -> & Hw & Hf & Hh & Hst & Hbody). simpl. rewrite Hw, Hf, Hh, Hst. simpl. by apply drain_body_Ok.
Qed.

Lemma resolved_check target (k : CompiledUpstreamServer -> IpAddr * N -> result string unit) :
  (server ← backend_health_server target; addr ← resolve_health_check_addr server; k server addr) = Ok tt <->
  exists server addr rest, bk_server target = Some server /\
    lookup_host (cs_host server) (cs_port server) = Ok (addr :: rest) /\ k server addr = Ok tt.
Proof.
  unfold backend_health_server, resolve_health_check_addr.
  destruct (bk_server target) as [server|]; simpl; [|split; [done|by intros (? & ? & ? & [=] & _)]].
  split.
  - destruct (lookup_host _ _) as [[|addr rest]|] eqn:El; simpl; [done| |done]. intros Hk. by exists server, addr, rest.
  - intros (? & addr & rest & [= <-] & -> & Hk). done.
Qed.

(** What a healthy answer is, for the check [c] of a backend at [addr]. *)
Definition answers_healthy (c : CompiledHealthCheck) (addr : IpAddr * N) : Prop :=
  match check_type c with
  | HcTcp => get_stream (mkProbePeer addr false "" (Some (hc_timeout c)) None) = Ok tt
  | HcHttp host path use_tls =>
      exists uri session, uri_parse path = Ok uri /\
        get_http_session (mkProbePeer addr use_tls (if use_tls then host else "") (Some (hc_timeout c)) (Some (hc_timeout c)))
          (mkProbeRequest _ uri host) (hc_timeout c) = Ok session /\
        ss_write_request_header session = Ok tt /\ ss_finish_request_body session = Ok tt /\
        ss_read_response_header session = Ok tt /\ ss_response_status session = Some 200 /\
        Forall (fun chunk => is_ok chunk = true) (ss_body session)
  end.

(** a check passes exactly when the backend is a configured server whose name resolves,
    and its first address accepts the connection within the time-out and, for an HTTP
    check, answers the configured request with status 200 and a body that ends; TLS
    checks name the configured host. *)
Theorem health_check_exact c checker target :
  health_build c = Ok checker ->
  (health_check checker target = Ok tt <->
    exists server addr rest, bk_server target = Some server /\
      lookup_host (cs_host server) (cs_port server) = Ok (addr :: rest) /\ answers_healthy c addr) /\
  health_threshold checker true = consecutive_success c /\ health_threshold checker false = consecutive_failure c.
Proof.
  unfold health_build, answers_healthy. destruct (check_type c) as [|host path use_tls].
  - intros [= <-]. split; [|done]. apply resolved_check.
  - intros Hb. inv_ok. split; [|done]. simpl. unfold http_check_backend. rewrite resolved_check.
    setoid_rewrite http_exchange_Ok. simpl. split.
    + intros (server & addr & rest & ? & ? & session & ?). exists server, addr, rest.
      split_and!; [done..|]. eexists _, session. split; [eassumption|done].
    + intros (server & addr & rest & ? & ? & uri & session & Hu & ?). rewrite Hu in *. inv_ok. exists server, addr, rest.
      split_and!; [done..|]. by exists session.
Qed.
End health.
