(* ===== verification/RateLimit.v ===== *)
(** * The rate-limit plugin (crates/extensions/rate-limit/src/lib.rs)

    A fixed-window counter per client address.  A request reads the clock, counts
    itself under the lock of the bucket map, then advances a shared request counter
    and every 1024 requests sweeps the map under the lock again.  The critical
    sections are the atomic steps of a thread ([rl_step]), so that the theorem covers
    every interleaving. *)

From S2P Require Import Prelude RustStr NetAddr Crates Headers PluginApi Ir.

Open Scope N_scope.

Definition BUCKET_TTL_SECS : N := 120.
Definition SWEEP_INTERVAL_REQUESTS : N := 1024.

(** [max_requests_per_second : isize]. *)
Record RateLimitPluginConfig := mkRateLimitPluginConfig { rlc_max_requests_per_second : Z }.

Record Bucket := mkBucket { bk_window : N; bk_count : N; bk_last_seen : N }.
Definition Bucket_new (window : N) : Bucket := mkBucket window 0 window.

Record RateLimitPlugin := mkRateLimitPlugin {
  rl_max : N;
  rl_started_at : N;
  rl_buckets : gmap IpAddr Bucket;
  rl_requests : N
}.
Definition with_buckets (p : RateLimitPlugin) (m : gmap IpAddr Bucket) : RateLimitPlugin :=
  mkRateLimitPlugin (rl_max p) (rl_started_at p) m (rl_requests p).

Definition current_window (p : RateLimitPlugin) (now : N) : N := as_secs (elapsed now (rl_started_at p)).

(** The critical section of [allow_request]. *)
Definition count_request (p : RateLimitPlugin) (client_ip : IpAddr) (window : N) : RateLimitPlugin * bool :=
  let bucket := default (Bucket_new window) (rl_buckets p !! client_ip) in
  let bucket := if negb (bk_window bucket =? window) then Bucket_new window else bucket in
  let count := saturating_add u32_max (bk_count bucket) 1 in
  (with_buckets p (<[client_ip := mkBucket (bk_window bucket) count window]> (rl_buckets p)), count <=? rl_max p).

(** [maybe_sweep]: the atomic counter, then the critical section. *)
Definition sweep_due (p : RateLimitPlugin) : RateLimitPlugin * bool :=
  let requests := wrapping_add64 (rl_requests p) 1 in
  (mkRateLimitPlugin (rl_max p) (rl_started_at p) (rl_buckets p) requests, requests mod SWEEP_INTERVAL_REQUESTS =? 0).
Definition sweep (p : RateLimitPlugin) (window : N) : RateLimitPlugin :=
  let oldest_allowed_window := saturating_sub window BUCKET_TTL_SECS in
  with_buckets p (filter (fun kv : IpAddr * Bucket => oldest_allowed_window <= bk_last_seen kv.2) (rl_buckets p)).
Definition maybe_sweep (p : RateLimitPlugin) (window : N) : RateLimitPlugin :=
  let '(p, due) := sweep_due p in
  if due then sweep p window else p.

Definition allow_request (now : N) (p : RateLimitPlugin) (client_ip : IpAddr) : RateLimitPlugin * bool :=
  let window := current_window p now in
  let '(p, allowed) := count_request p client_ip window in
  (maybe_sweep p window, allowed).

Definition rate_limited_response (p : RateLimitPlugin) : PluginFlow :=
  let response := LocalResponse_new 429 "Too Many Requests" in
  let response := push_header response "content-type" "text/plain; charset=utf-8" in
  let response := push_header response "retry-after" "1" in
  let response := push_header response "x-ratelimit-limit" (pretty (rl_max p)) in
  Respond (push_header response "x-ratelimit-remaining" "0").

Definition RateLimit_on_request (now : N) (p : RateLimitPlugin) (ctx : RequestCtx) : RateLimitPlugin * PluginFlow :=
  match rc_client_ip ctx with
  | None => (p, Continue)
  | Some client_ip =>
      let '(p, allowed) := allow_request now p client_ip in
      (p, if allowed then Continue else rate_limited_response p)
  end.

(** [RateLimitPluginFactory::build]. *)
Definition RateLimit_build `{FromValue RateLimitPluginConfig} (now : N) (spec : PluginSpec)
  : result PluginBuildError RateLimitPlugin :=
  config ← config_from_value "rate-limit" (plugin_config spec);
  _ ← fail_if (rlc_max_requests_per_second config <=? 0)%Z
        (mkPluginBuildError "rate-limit" "max_requests_per_second must be positive");
  _ ← fail_if (Z.of_N u32_max <? rlc_max_requests_per_second config)%Z
        (mkPluginBuildError "rate-limit" "max_requests_per_second exceeds supported range");
  Ok (mkRateLimitPlugin (Z.to_N (rlc_max_requests_per_second config)) now ∅ 0).

(** ** Interleavings *)

(** What a request has left to do. *)
Inductive RlPc :=
| RlStart (client_ip : IpAddr)
| RlCount (client_ip : IpAddr) (window : N)
| RlTick (window : N)
| RlSweep (window : N)
| RlDone.

(** A verdict: the client, the window the request was counted in, whether it was let
    through.  The log is in the order of the critical sections. *)
Record Verdict := mkVerdict { vd_client : IpAddr; vd_window : N; vd_allowed : bool }.
Record RlSystem := mkRlSystem { rls_plugin : RateLimitPlugin; rls_threads : list RlPc; rls_log : list Verdict }.

(** One atomic step of a thread, at time [now]. *)
Definition rl_run (now : N) (p : RateLimitPlugin) (pc : RlPc) : RateLimitPlugin * RlPc * list Verdict :=
  match pc with
  | RlStart ip => (p, RlCount ip (current_window p now), [])
  | RlCount ip w => let '(p, allowed) := count_request p ip w in (p, RlTick w, [mkVerdict ip w allowed])
  | RlTick w => let '(p, due) := sweep_due p in (p, if due then RlSweep w else RlDone, [])
  | RlSweep w => (sweep p w, RlDone, [])
  | RlDone => (p, RlDone, [])
  end.

Inductive rl_step : RlSystem -> RlSystem -> Prop :=
| rl_arrive s ip : rl_step s (mkRlSystem (rls_plugin s) (rls_threads s ++ [RlStart ip]) (rls_log s))
| rl_thread s i pc now p pc' log :
    rls_threads s !! i = Some pc -> rl_run now (rls_plugin s) pc = (p, pc', log) ->
    rl_step s (mkRlSystem p (<[i := pc']> (rls_threads s)) (rls_log s ++ log)).

(** Running a request alone is what [allow_request] does. *)
Lemma rl_alone now p pc p' pc' log l :
  rl_run now p pc = (p', pc', log) -> rl_step (mkRlSystem p [pc] l) (mkRlSystem p' [pc'] (l ++ log)).
Proof. intros E. exact (rl_thread (mkRlSystem p [pc] l) 0%nat pc now p' pc' log eq_refl E). Qed.

Lemma rl_run_sequential now p ip :
  rtc rl_step (mkRlSystem p [RlStart ip] [])
    (mkRlSystem (fst (allow_request now p ip)) [RlDone] [mkVerdict ip (current_window p now) (snd (allow_request now p ip))]).
Proof.
  unfold allow_request, maybe_sweep. destruct (count_request p ip (current_window p now)) as [p1 a] eqn:E1.
  destruct (sweep_due p1) as [p2 due] eqn:E2.
  eapply rtc_l; [by apply (rl_alone now)|].
  eapply rtc_l; [apply (rl_alone now); cbn [rl_run]; by rewrite E1|].
  eapply rtc_l; [apply (rl_alone now); cbn [rl_run]; by rewrite E2|].
  destruct due; [|done]. apply rtc_once.
  exact (rl_alone now p2 (RlSweep (current_window p now)) _ _ [] [mkVerdict ip (current_window p now) a] eq_refl).
Qed.

(** ** The abstract limiter

    [requests] counts the requests of a client in a window; the limiter lets the
    first [max] through.  The 32-bit counter saturates, so a limit of [u32::MAX]
    never refuses. *)
Definition of_window (ip : IpAddr) (w : N) (d : Verdict) : bool := bool_decide (vd_client d = ip /\ vd_window d = w).
Definition requests (ip : IpAddr) (w : N) (log : list Verdict) : N := N.of_nat (length (List.filter (of_window ip w) log)).
Definition allowed (ip : IpAddr) (w : N) (log : list Verdict) : N :=
  N.of_nat (length (List.filter (fun d => of_window ip w d && vd_allowed d) log)).
Definition limit_allows (max i : N) : bool := N.min u32_max i <=? max.

(** The decisions of a log about a client are those of the abstract limiter. *)
Definition fair_log (max : N) (ip : IpAddr) (log : list Verdict) : Prop :=
  forall l1 d l2, log = l1 ++ d :: l2 -> vd_client d = ip -> vd_allowed d = limit_allows max (requests (vd_client d) (vd_window d) l1 + 1).

(** The requests of a client are counted in the order of their windows, none later than
    buckets live: between reading the clock and taking the lock no request of the client is
    overtaken by another one of the client's of a later window, nor by a request of any
    client of a window more than [BUCKET_TTL_SECS] later. *)
Definition in_order (ip : IpAddr) (log : list Verdict) : Prop :=
  forall l1 d l2, log = l1 ++ d :: l2 -> vd_client d = ip ->
    forall d', d' ∈ l1 -> vd_window d' <= vd_window d + BUCKET_TTL_SECS /\ (vd_client d' = ip -> vd_window d' <= vd_window d).

Lemma requests_app ip w l1 l2 : requests ip w (l1 ++ l2) = requests ip w l1 + requests ip w l2.
Proof. unfold requests. rewrite List.filter_app, length_app. lia. Qed.

Lemma requests_none ip w log : (forall d, d ∈ log -> vd_client d = ip -> vd_window d <> w) -> requests ip w log = 0.
Proof.
  intros Hd. unfold requests. replace (List.filter (of_window ip w) log) with (@nil Verdict); [done|]. symmetry.
  induction log as [|d log IH]; [done|]. simpl. unfold of_window at 1. rewrite bool_decide_false.
  - apply IH. intros d' ?. apply Hd. set_solver.
  - intros [??]. apply (Hd d); set_solver.
Qed.

Lemma in_order_front ip log l : in_order ip (log ++ l) -> in_order ip log.
Proof. intros Hs l1 d l2 ->. apply (Hs l1 d (l2 ++ l)). by rewrite <- app_assoc. Qed.

Lemma fair_log_snoc max ip log d :
  fair_log max ip log -> (vd_client d = ip -> vd_allowed d = limit_allows max (requests (vd_client d) (vd_window d) log + 1)) ->
  fair_log max ip (log ++ [d]).
Proof.
  intros Hf Hd l1 d' l2 E. destruct l2 as [|x l2 _] using rev_ind.
  - apply app_inj_tail in E as [<- <-]. done.
  - rewrite app_comm_cons, app_assoc in E. apply app_inj_tail in E as [E ->]. by apply (Hf l1 d' l2).
Qed.

(** A fair log lets exactly the first [max] requests of a client and window through. *)
Lemma fair_log_allowed max log ip w :
  max <= u32_max -> fair_log max ip log ->
  allowed ip w log = if max =? u32_max then requests ip w log else N.min max (requests ip w log).
Proof.
  intros Hmax. induction log as [|d log IH] using rev_ind; intros Hf; [change (0 = if max =? u32_max then 0 else N.min max 0); destruct (max =? u32_max); lia|].
  specialize (IH (fun l1 d' l2 E => Hf l1 d' (l2 ++ [d]) ltac:(rewrite E; by rewrite <- app_assoc))).
  rewrite requests_app. unfold allowed, requests in *. rewrite List.filter_app, length_app, Nat2N.inj_add, IH. cbn [List.filter].
  specialize (Hf log d [] eq_refl). destruct (of_window ip w d) eqn:E; [|cbn; destruct (max =? u32_max); lia].
  unfold of_window in E. apply bool_decide_eq_true in E as [<- <-]. rewrite Hf by done.
  unfold limit_allows. fold (requests (vd_client d) (vd_window d) log). cbn [andb length].
  destruct (N.leb_spec (N.min u32_max (requests (vd_client d) (vd_window d) log + 1)) max); cbn [length];
    destruct (N.eqb_spec max u32_max); lia.
Qed.

(** ** The invariant *)

Record rl_ok (ip : IpAddr) (s : RlSystem) : Prop := mkRlOk {
  ok_seen : forall c b, rl_buckets (rls_plugin s) !! c = Some b -> bk_last_seen b = bk_window b;
  ok_bucket : forall b, rl_buckets (rls_plugin s) !! ip = Some b ->
    bk_count b = N.min u32_max (requests ip (bk_window b) (rls_log s)) /\
    (exists d, d ∈ rls_log s /\ vd_client d = ip /\ vd_window d = bk_window b) /\
    forall d, d ∈ rls_log s -> vd_client d = ip -> vd_window d <= bk_window b;
  ok_absent : forall d, d ∈ rls_log s -> vd_client d = ip -> rl_buckets (rls_plugin s) !! ip = None ->
    exists d', d' ∈ rls_log s /\ vd_window d + BUCKET_TTL_SECS < vd_window d';
  ok_thread : forall w, RlTick w ∈ rls_threads s \/ RlSweep w ∈ rls_threads s -> exists d, d ∈ rls_log s /\ vd_window d = w;
  ok_log : fair_log (rl_max (rls_plugin s)) ip (rls_log s)
}.

Lemma rl_max_run now p pc p' pc' log : rl_run now p pc = (p', pc', log) -> rl_max p' = rl_max p.
Proof. destruct pc; cbn [rl_run]; try by intros [= <- _ _]. Qed.

Lemma elem_of_insert_inv {A} (l : list A) i x y : y ∈ <[i := x]> l -> y = x \/ y ∈ l.
Proof.
  intros [j Hj]%list_elem_of_lookup. destruct (decide (i = j)) as [->|Hne].
  - apply list_lookup_insert_Some in Hj as [(_ & <- & _)|(? & _)]; [by left|done].
  - rewrite list_lookup_insert_ne in Hj by done. right. by eapply list_elem_of_lookup_2.
Qed.

(** The bucket a request of the client in window [w] is counted in, when none of the
    client's of a later window and none that outlives its buckets has been counted: it
    holds the number of earlier requests of the client in that window. *)
Lemma bucket_of_window s ip w :
  rl_ok ip s -> (forall d, d ∈ rls_log s -> vd_window d <= w + BUCKET_TTL_SECS /\ (vd_client d = ip -> vd_window d <= w)) ->
  let b := default (Bucket_new w) (rl_buckets (rls_plugin s) !! ip) in
  let b := if negb (bk_window b =? w) then Bucket_new w else b in
  bk_window b = w /\ bk_count b = N.min u32_max (requests ip w (rls_log s)).
Proof.
  intros [_ Hb Ha _ _] Hw. destruct (rl_buckets (rls_plugin s) !! ip) as [b|] eqn:Eb; cbn [default from_option id].
  - destruct (Hb _ eq_refl) as (Hc & (d0 & Hd0 & Hc0 & E0) & Hle).
    destruct (N.eqb_spec (bk_window b) w) as [<-|Hne]; [done|]. split; [done|].
    rewrite requests_none; [done|]. intros d Hd Hip Hdw. specialize (Hle d Hd Hip). destruct (Hw d0 Hd0) as [_ Hw0]. specialize (Hw0 Hc0). lia.
  - cbn. rewrite N.eqb_refl. split; [done|]. rewrite requests_none; [done|]. intros d Hd Hip <-.
    destruct (Ha d Hd Hip eq_refl) as (d' & Hd' & Hlt). destruct (Hw d' Hd'). lia.
Qed.

(** The bucket a request is counted in is of its window. *)
Lemma count_request_bucket p c w p' a :
  count_request p c w = (p', a) -> exists b, rl_buckets p' = <[c := b]> (rl_buckets p) /\ rl_max p' = rl_max p /\
    bk_window b = w /\ bk_last_seen b = w /\ a = (bk_count b <=? rl_max p) /\
    bk_count b = saturating_add u32_max
      (bk_count (let b := default (Bucket_new w) (rl_buckets p !! c) in if negb (bk_window b =? w) then Bucket_new w else b)) 1.
Proof.
  unfold count_request. cbn zeta. set (b := if negb _ then Bucket_new w else _). intros [= <- <-]. eexists. split_and!; try done. cbn.
  subst b. destruct (N.eqb_spec (bk_window (default (Bucket_new w) (rl_buckets p !! c))) w); cbn; [done|done].
Qed.

Lemma count_request_ok ip s i c w p a :
  rl_ok ip s -> rls_threads s !! i = Some (RlCount c w) -> count_request (rls_plugin s) c w = (p, a) ->
  (c = ip -> forall d, d ∈ rls_log s -> vd_window d <= w + BUCKET_TTL_SECS /\ (vd_client d = ip -> vd_window d <= w)) ->
  rl_ok ip (mkRlSystem p (<[i := RlTick w]> (rls_threads s)) (rls_log s ++ [mkVerdict c w a])).
Proof.
  intros Hok Hi E Hw. apply count_request_bucket in E as (b & Eb & Em & Ebw & Els & -> & Ec).
  set (v := mkVerdict c w _). assert (v ∈ rls_log s ++ [v]) as Hv by set_solver.
  assert (c = ip -> bk_count b = N.min u32_max (requests ip w (rls_log s ++ [v]))) as Hcount.
  { intros ->. destruct (bucket_of_window s ip w Hok (Hw eq_refl)) as [_ Hbc]. cbn zeta in Hbc, Ec. rewrite Ec, Hbc, requests_app.
    unfold saturating_add, requests at 3, of_window. cbn [List.filter v vd_client vd_window]. rewrite bool_decide_true by done. cbn. lia. }
  assert (c <> ip -> forall w', requests ip w' (rls_log s ++ [v]) = requests ip w' (rls_log s)) as Hother.
  { intros Hne w'. rewrite requests_app, (requests_none _ _ [v]); [by rewrite N.add_0_r|]. intros d [= ->]%list_elem_of_singleton. cbn. congruence. }
  destruct Hok as [Hs Hb Ha Ht Hl]. constructor; cbn [rls_plugin rls_log rls_threads].
  - intros c' b'. rewrite Eb. intros [[<- <-]|[_ Hb']]%lookup_insert_Some; [congruence|by eapply Hs].
  - intros b'. rewrite Eb. destruct (decide (c = ip)) as [->|Hne].
    + rewrite lookup_insert_eq. intros [= <-]. rewrite Ebw. split_and!; [by apply Hcount|by exists v|].
      intros d [Hd|[= ->]%list_elem_of_singleton]%elem_of_app Hip; [by apply Hw|done].
    + rewrite lookup_insert_ne by done. intros Hb'. destruct (Hb _ Hb') as (H1 & (d0 & H2 & H3 & H4) & H5). rewrite Hother by done.
      split_and!; [done|exists d0; set_solver|]. intros d [Hd|[= ->]%list_elem_of_singleton]%elem_of_app Hip; [by apply H5|done].
  - intros d Hd Hc. rewrite Eb. destruct (decide (c = ip)) as [->|Hne]; [by rewrite lookup_insert_eq|]. rewrite lookup_insert_ne by done.
    intros Hn. apply elem_of_app in Hd as [Hd|[= ->]%list_elem_of_singleton]; [|done].
    destruct (Ha d Hd Hc Hn) as (d' & ? & ?). exists d'. set_solver.
  - intros w' Hw'. destruct (decide (w' = w)) as [->|Hne]; [by exists v|]. destruct (Ht w') as (d & ? & ?); [|exists d; set_solver].
    destruct Hw' as [Hw'|Hw']; [left|right]; apply elem_of_insert_inv in Hw' as [[=]|?]; congruence || done.
  - rewrite Em. apply fair_log_snoc; [done|]. intros Hc. cbn in Hc |- *. rewrite Hcount by done. unfold limit_allows.
    rewrite requests_app, Hc. unfold requests at 2, of_window. cbn [List.filter v vd_client vd_window]. rewrite bool_decide_true by done. done.
Qed.

(** The threads after a step that counts nothing. *)
Lemma threads_ok (P : N -> Prop) (ts : list RlPc) i pc' :
  (forall w, RlTick w ∈ ts \/ RlSweep w ∈ ts -> P w) -> (forall w, pc' = RlTick w \/ pc' = RlSweep w -> P w) ->
  forall w, RlTick w ∈ <[i := pc']> ts \/ RlSweep w ∈ <[i := pc']> ts -> P w.
Proof. intros Ht Hn w [Hw|Hw]; apply elem_of_insert_inv in Hw as [<-|Hw]; eauto. Qed.

Lemma sweep_ok ip s i w :
  rl_ok ip s -> RlSweep w ∈ rls_threads s -> rl_ok ip (mkRlSystem (sweep (rls_plugin s) w) (<[i := RlDone]> (rls_threads s)) (rls_log s)).
Proof.
  intros [Hs Hb Ha Ht Hl] Hi. constructor; cbn [rls_plugin rls_log rls_threads sweep rl_buckets with_buckets rl_max]; [| | | |done].
  - intros c b [Eb _]%map_lookup_filter_Some. by eapply Hs.
  - intros b [Eb _]%map_lookup_filter_Some. by apply Hb.
  - intros d Hd Hc Hn. destruct (rl_buckets (rls_plugin s) !! ip) as [b|] eqn:Eb; [|by apply Ha].
    destruct (Hb _ eq_refl) as (_ & _ & Hle). pose proof (Hs _ _ Eb) as Hls. destruct (Ht w) as (d' & Hd' & Ew); [by right|]. exists d'. split; [done|].
    apply map_lookup_filter_None in Hn as [Hn|Hn]; [congruence|]. specialize (Hn b Eb). cbn in Hn. specialize (Hle d Hd Hc).
    unfold saturating_sub in Hn. lia.
  - apply threads_ok; [done|]. naive_solver.
Qed.

Lemma other_step_ok ip s i pc now p pc' log :
  rl_ok ip s -> rls_threads s !! i = Some pc -> rl_run now (rls_plugin s) pc = (p, pc', log) ->
  (forall ip w, pc <> RlCount ip w) -> rl_ok ip (mkRlSystem p (<[i := pc']> (rls_threads s)) (rls_log s ++ log)).
Proof.
  intros Hok Hi E Hpc. apply list_elem_of_lookup_2 in Hi.
  destruct pc as [c|c w|w|w|]; cbn [rl_run] in E; try injection E as <- <- <-; rewrite ?app_nil_r.
  - destruct Hok. constructor; [done..| |done]. apply threads_ok; [done|]. naive_solver.
  - by destruct (Hpc c w).
  - destruct Hok as [Hs Hb Ha Ht Hl]. constructor; [done..| |done].
    apply threads_ok; [done|]. intros w' Hw'. apply Ht. destruct (_ =? 0); naive_solver.
  - by apply sweep_ok.
  - destruct Hok. constructor; [done..| |done]. apply threads_ok; [done|]. naive_solver.
Qed.

Lemma rl_step_ok ip s s' : rl_step s s' -> in_order ip (rls_log s') -> (in_order ip (rls_log s) -> rl_ok ip s) -> rl_ok ip s'.
Proof.
  destruct 1 as [s c|s i pc now p pc' log Hi E]; cbn [rls_log]; intros Hs Hok.
  - destruct (Hok Hs) as [Hse Hb Ha Ht Hl]. constructor; [done..| |done]. cbn. intros w Hw. apply Ht. set_solver.
  - pose proof (Hok (in_order_front _ _ _ Hs)) as Hok0.
    destruct pc as [c|c w|w|w|]; try (by eapply other_step_ok).
    cbn [rl_run] in E. destruct (count_request (rls_plugin s) c w) as [p' a] eqn:Ec. injection E as <- <- <-.
    apply count_request_ok; [done..|]. intros <-. exact (Hs (rls_log s) (mkVerdict c w a) [] eq_refl eq_refl).
Qed.

Definition fresh (p : RateLimitPlugin) : RlSystem := mkRlSystem p [] [].

Lemma reachable_rl_ok ip p s : rl_buckets p = ∅ -> rtc rl_step (fresh p) s ->
  rl_max (rls_plugin s) = rl_max p /\ (in_order ip (rls_log s) -> rl_ok ip s).
Proof.
  intros Hp Hr. revert s Hr. apply (rtc_ind_r (fun s => rl_max (rls_plugin s) = rl_max p /\ (in_order ip (rls_log s) -> rl_ok ip s))).
  - split; [done|]. intros _. constructor; cbn.
    + intros c b. by rewrite Hp, lookup_empty.
    + intros b. by rewrite Hp, lookup_empty.
    + intros d. by rewrite elem_of_nil.
    + intros w [Hw|Hw]; by apply elem_of_nil in Hw.
    + intros [] d l2 [=].
  - intros s s' Hr Hst [Hm IH]. split; [|intros Hs; by eapply rl_step_ok]. destruct Hst as [|s i pc now p' pc' log _ E]; [done|].
    rewrite <- Hm. cbn. by eapply rl_max_run.
Qed.

(** ** Theorems *)

(** C24: the limiter holds its promise to a client under every interleaving of requests of
    all clients in which that client's own requests are counted in the order of their
    windows and none is counted more than [BUCKET_TTL_SECS] windows behind another
    request: in each window (second) it lets exactly the first [max_requests_per_second]
    requests of the client through, whatever the other clients do and whenever buckets are
    swept.  Only the limit [u32::MAX], where the counter saturates, refuses nothing. *)
Theorem rate_limit_exact `{FromValue RateLimitPluginConfig} now spec p s ip w :
  RateLimit_build now spec = Ok p -> rtc rl_step (fresh p) s -> in_order ip (rls_log s) ->
  allowed ip w (rls_log s) =
    if rl_max p =? u32_max then requests ip w (rls_log s) else N.min (rl_max p) (requests ip w (rls_log s)).
Proof.
  unfold RateLimit_build, config_from_value. intros Hb Hr Hs. inv_ok. apply Z.ltb_ge in Hok1.
  apply (reachable_rl_ok ip) in Hr as [Hm Hok']; [|done]. apply fair_log_allowed; [cbn; lia|].
  rewrite <- Hm. by apply Hok'.
Qed.

(** ** Schedules *)

(** A schedule is a list of arrivals and of steps of numbered threads at given times. *)
Inductive RlEvent := Arrive (client_ip : IpAddr) | Step (thread : nat) (now : N).
Definition rl_exec1 (s : RlSystem) (e : RlEvent) : RlSystem :=
  match e with
  | Arrive ip => mkRlSystem (rls_plugin s) (rls_threads s ++ [RlStart ip]) (rls_log s)
  | Step i now =>
      match rls_threads s !! i with
      | Some pc => let '(p, pc', log) := rl_run now (rls_plugin s) pc in
                   mkRlSystem p (<[i := pc']> (rls_threads s)) (rls_log s ++ log)
      | None => s
      end
  end.
Definition rl_exec (s : RlSystem) (es : list RlEvent) : RlSystem := foldl rl_exec1 s es.

Lemma rl_exec_reachable es s : rtc rl_step s (rl_exec s es).
Proof.
  revert s. induction es as [|e es IH]; intros s; [done|]. cbn [rl_exec foldl]. etrans; [|apply IH].
  destruct e as [ip|i now]; cbn [rl_exec1]; [apply rtc_once; constructor|].
  destruct (rls_threads s !! i) as [pc|] eqn:E; [|done]. destruct (rl_run now (rls_plugin s) pc) as [[p pc'] log] eqn:Er.
  apply rtc_once. by eapply rl_thread.
Qed.

Module RateLimitSample.
Definition client : IpAddr := ipv4 192 0 2 1.
Definition other : IpAddr := ipv4 192 0 2 2.
Definition spec : @PluginSpec Toy.crates := @mkPluginSpec Toy.crates "rate-limit" (@to_value Toy.crates JNull).
Definition config (_ : @Value Toy.crates) : result string RateLimitPluginConfig := Ok (mkRateLimitPluginConfig 1).
Definition plugin : RateLimitPlugin := mkRateLimitPlugin 1 0 ∅ 0.
Definition sec (n : N) : N := from_secs n.
(** Two requests of a client race in one second, another client asks in between, and
    the first client is served again a second later. *)
Definition schedule : list RlEvent :=
  [Arrive client; Arrive client; Arrive other; Step 0 (sec 3); Step 1 (sec 3); Step 2 (sec 3); Step 1 (sec 3);
   Step 2 (sec 3); Step 0 (sec 4); Step 0 (sec 4); Arrive client; Step 3 (sec 4); Step 3 (sec 4)].
Definition final : RlSystem := rl_exec (fresh plugin) schedule.
(** One request reads the clock in second 3 and is overtaken by one of second 4. *)
Definition overtaken : list RlEvent :=
  [Arrive client; Arrive client; Arrive client; Step 0 (sec 3); Step 1 (sec 4); Step 1 (sec 4); Step 0 (sec 4);
   Step 2 (sec 4); Step 2 (sec 4)].
End RateLimitSample.

Lemma rate_limit_exact_witness :
  @RateLimit_build Toy.crates RateLimitSample.config 0 RateLimitSample.spec = Ok RateLimitSample.plugin /\
  allowed RateLimitSample.client 3 (rls_log RateLimitSample.final) = 1 /\
  requests RateLimitSample.client 3 (rls_log RateLimitSample.final) = 2 /\
  allowed RateLimitSample.other 3 (rls_log RateLimitSample.final) = 1 /\
  allowed RateLimitSample.client 4 (rls_log RateLimitSample.final) = 1.
Proof.
  assert (@RateLimit_build Toy.crates RateLimitSample.config 0 RateLimitSample.spec = Ok RateLimitSample.plugin) as Hb by reflexivity.
  assert (forall ip, in_order ip (rls_log RateLimitSample.final)) as Ho.
  { intros ip l1 d l2 E _ d' Hd'. assert (StronglySorted N.le (vd_window <$> rls_log RateLimitSample.final)) as Hs.
    { replace (vd_window <$> rls_log RateLimitSample.final) with [3; 3; 3; 4] by (vm_compute; reflexivity). repeat constructor; lia. }
    rewrite E, fmap_app in Hs. apply StronglySorted_app in Hs as (Hle & _ & _).
    assert (vd_window d' <= vd_window d) by (apply Hle; [by apply list_elem_of_fmap_2|left]). unfold BUCKET_TTL_SECS. split; [lia|done]. }
  assert (rtc rl_step (fresh RateLimitSample.plugin) RateLimitSample.final) as Hr by apply rl_exec_reachable.
  split_and!; [done| |vm_compute; reflexivity| |].
  - rewrite (@rate_limit_exact Toy.crates RateLimitSample.config _ _ _ _ RateLimitSample.client 3 Hb Hr (Ho _)). vm_compute. reflexivity.
  - rewrite (@rate_limit_exact Toy.crates RateLimitSample.config _ _ _ _ RateLimitSample.other 3 Hb Hr (Ho _)). vm_compute. reflexivity.
  - rewrite (@rate_limit_exact Toy.crates RateLimitSample.config _ _ _ _ RateLimitSample.client 4 Hb Hr (Ho _)). vm_compute. reflexivity.
Defined.

(** The order matters: a request that read the clock before the others and takes the
    lock after them resets the bucket to its own window, and the next request of the
    later window resets it again, so that a window admits more than the limit. *)
Example rate_limit_overtaken_resets :
  allowed RateLimitSample.client 4 (rls_log (rl_exec (fresh RateLimitSample.plugin) RateLimitSample.overtaken)) = 2 /\
  rl_max RateLimitSample.plugin = 1.
Proof. split; vm_compute; reflexivity. Qed.
