(* ===== verification/HeadersPlugin.v ===== *)
(** * The headers plugin (crates/extensions/headers/src/lib.rs)

    Header patches for requests, upstream requests and responses, and the forwarding
    of the client address.  Hooks are stated over any header editor. *)

From S2P Require Import Prelude RustStr NetAddr Crates Headers PluginApi Ir ClientIp.

Record HeaderEntry := mkHeaderEntry { he_name : string; he_value : string }.
Record HeaderPatchConfig := mkHeaderPatchConfig {
  hpc_add : list HeaderEntry;
  hpc_set : list HeaderEntry;
  hpc_remove : list string
}.
Record HeadersPluginConfig := mkHeadersPluginConfig {
  hc_forward_client_ip : bool;
  hc_trusted_proxies : list string;
  hc_request : HeaderPatchConfig;
  hc_upstream_request : HeaderPatchConfig;
  hc_response : HeaderPatchConfig
}.

Record HeaderValueOp := mkHeaderValueOp { op_name : string; op_value : string }.
Record HeaderPatch := mkHeaderPatch {
  hp_add : list HeaderValueOp;
  hp_set : list HeaderValueOp;
  hp_remove : list string
}.

Section headers_plugin.
Context `{Crates} `{HttpErrors}.

(** ** Building *)

Definition header_name_of (plugin name : string) : result PluginBuildError string :=
  ok_or (header_name_from name)
    (mkPluginBuildError plugin ("invalid header name `" +:+ name +:+ "`: " +:+ invalid_header_name)).
Definition compile_entry (plugin : string) (entry : HeaderEntry) : result PluginBuildError HeaderValueOp :=
  name ← header_name_of plugin (he_name entry);
  _ ← fail_if (negb (header_value_ok (he_value entry)))
        (mkPluginBuildError plugin ("invalid header value for `" +:+ he_name entry +:+ "`: " +:+ invalid_header_value));
  Ok (mkHeaderValueOp name (he_value entry)).
Definition HeaderPatch_compile (plugin : string) (raw : HeaderPatchConfig) : result PluginBuildError HeaderPatch :=
  add ← mapM (compile_entry plugin) (hpc_add raw);
  set ← mapM (compile_entry plugin) (hpc_set raw);
  remove ← mapM (header_name_of plugin) (hpc_remove raw);
  Ok (mkHeaderPatch add set remove).

Record ClientIpForwarding := mkClientIpForwarding { cf_trusted_proxies : list IpNet }.
Definition compile_trusted_proxy (plugin raw : string) : result PluginBuildError IpNet :=
  ok_or (parse_network raw)
    (mkPluginBuildError plugin ("invalid trusted_proxy `" +:+ raw +:+ "`: expected an IP address or CIDR")).

Record HeadersPlugin := mkHeadersPlugin {
  hd_client_ip_forwarding : option ClientIpForwarding;
  hd_request : HeaderPatch;
  hd_upstream_request : HeaderPatch;
  hd_response : HeaderPatch
}.
Definition Headers_build `{!FromValue HeadersPluginConfig} (spec : PluginSpec) : result PluginBuildError HeadersPlugin :=
  config ← config_from_value "headers" (plugin_config spec);
  trusted_proxies ← mapM (compile_trusted_proxy "headers") (hc_trusted_proxies config);
  let forwarding := then_some (hc_forward_client_ip config) (mkClientIpForwarding trusted_proxies) in
  request ← HeaderPatch_compile "headers" (hc_request config);
  upstream_request ← HeaderPatch_compile "headers" (hc_upstream_request config);
  response ← HeaderPatch_compile "headers" (hc_response config);
  Ok (mkHeadersPlugin forwarding request upstream_request response).

(** ** Hooks *)

Section hooks.
Context {Hd : Type} `{HeaderMapMut Hd}.

Definition HeaderPatch_apply (patch : HeaderPatch) : hook Hd unit :=
  _ ← hook_for hook_remove (hp_remove patch);
  _ ← hook_for (fun op => hm_set (op_name op) (op_value op)) (hp_set patch);
  hook_for (fun op => hm_add (op_name op) (op_value op)) (hp_add patch).

Definition ClientIpForwarding_resolve_chain (f : ClientIpForwarding) (client_ip : option IpAddr)
  : hook Hd (option (list IpAddr)) :=
  forwarded_for ← hook_get "x-forwarded-for";
  mret (resolve_chain client_ip (forwarded_for ≫= header_to_str) (cf_trusted_proxies f)).

Definition encode_header (plugin what value : string) : hook Hd string :=
  if header_value_ok value then mret value
  else hook_fail (mkPluginError plugin ("failed to encode " +:+ what +:+ ": " +:+ invalid_header_value)).

(** The panic of [expect] is an error of its own here. *)
Definition ClientIpForwarding_apply (plugin : string) (chain : option (list IpAddr)) : hook Hd unit :=
  match chain with
  | None => _ ← hook_remove "x-real-ip"; hook_remove "x-forwarded-for"
  | Some [] => hook_fail (mkPluginError plugin "panic: resolved client IP chain is never empty")
  | Some ((client_ip :: _) as chain) =>
      client_ip ← encode_header plugin "X-Real-IP" (show_ip client_ip);
      forwarded_for ← encode_header plugin "X-Forwarded-For" (join ", " (show_ip <$> chain));
      _ ← hm_set "x-real-ip" client_ip;
      hm_set "x-forwarded-for" forwarded_for
  end.

Definition Headers_on_request (p : HeadersPlugin) (state : PluginState) (ctx : RequestCtx) : hook Hd PluginFlow :=
  chain ← match ps_resolved_client_ip state with
          | Some identity => mret (rci_chain identity)
          | None => match hd_client_ip_forwarding p with
                    | Some f => ClientIpForwarding_resolve_chain f (rc_client_ip ctx)
                    | None => mret None
                    end
          end;
  _ ← HeaderPatch_apply (hd_request p);
  _ ← hook_opt (fun _ => ClientIpForwarding_apply "headers" chain) (hd_client_ip_forwarding p);
  mret Continue.
Definition Headers_on_upstream_request (p : HeadersPlugin) : hook Hd PluginFlow :=
  _ ← HeaderPatch_apply (hd_upstream_request p); mret Continue.
Definition Headers_on_response (p : HeadersPlugin) : hook Hd PluginFlow :=
  _ ← HeaderPatch_apply (hd_response p); mret Continue.
End hooks.

(** ** What a patch does *)

(** The specification: [remove] comes first, then the last [set] of a name wins, and
    the [add]s of the name follow in order. *)
Definition values_of (n : string) (ops : list HeaderValueOp) : list string :=
  op_value <$> List.filter (fun op => String.eqb (op_name op) n) ops.
Definition patched (patch : HeaderPatch) (n : string) (vs : list string) : list string :=
  match last (values_of n (hp_set patch)) with
  | Some v => [v]
  | None => if existsb (String.eqb n) (hp_remove patch) then [] else vs
  end ++ values_of n (hp_add patch).

Lemma foldl_set n ops (vs : list string) :
  foldl (fun vs op => if String.eqb (op_name op) n then [op_value op] else vs) vs ops =
  match last (values_of n ops) with Some v => [v] | None => vs end.
Proof.
  induction ops as [|op ops IH] using rev_ind; [done|]. unfold values_of in *. rewrite foldl_snoc, IH, List.filter_app, fmap_app.
  cbn [List.filter]. destruct (String.eqb (op_name op) n); cbn; [by rewrite last_snoc|by rewrite app_nil_r].
Qed.

Lemma foldl_add n ops (vs : list string) :
  foldl (fun vs op => vs ++ (if String.eqb (op_name op) n then [op_value op] else [])) vs ops = vs ++ values_of n ops.
Proof.
  revert vs. unfold values_of. induction ops as [|op ops IH]; intros vs; [by rewrite app_nil_r|]. cbn [foldl List.filter].
  rewrite IH, <- app_assoc. by destruct (String.eqb (op_name op) n).
Qed.

Lemma edits_patch `{HeaderMapLaws Hd} patch : edits (HeaderPatch_apply patch) tt (patched patch).
Proof.
  eapply edits_ext; [|eapply edits_bind; [apply edits_remove_all|];
    eapply edits_bind; [apply (edits_for _ _ _ (fun op => edits_set (op_name op) (op_value op)))|];
    apply (edits_for _ _ _ (fun op => edits_add (op_name op) (op_value op)))].
  intros n vs. cbv beta. by rewrite foldl_set, foldl_add.
Qed.
(** ** Forwarding *)

Definition printable (s : string) : Prop := str_all (in_range 32 126) s = true.

Lemma printable_append a b : printable a -> printable b -> printable (a +:+ b).
Proof. unfold printable. rewrite str_all_append. by intros -> ->. Qed.

Lemma printable_pretty (n : N) : printable (pretty n).
Proof.
  destruct (pretty_digits n) as [Hd _]. unfold printable. rewrite str_all_forall in *. intros c Hc. specialize (Hd c Hc).
  unfold is_ascii_digit, in_range in *. apply andb_true_iff in Hd as [?%N.leb_le ?%N.leb_le]. apply andb_true_iff. split; apply N.leb_le; lia.
Qed.

Lemma printable_join sep l : printable sep -> Forall printable l -> printable (join sep l).
Proof.
  intros Hs. induction 1 as [|x l Hx Hl IH]; [done|]. destruct l; cbn [join]; [done|].
  repeat apply printable_append; done.
Qed.

Lemma printable_hex_digit d : (d < 16)%N -> in_range 32 126 (hex_digit d) = true.
Proof.
  intros Hd. unfold hex_digit, in_range, byte. destruct (N.ltb_spec d 10); rewrite N_ascii_embedding by lia;
    apply andb_true_iff; split; apply N.leb_le; lia.
Qed.

Lemma printable_trim c s : printable s -> printable (trim_start_matches c s).
Proof.
  unfold printable. induction s as [|b s IH]; [done|]. cbn [trim_start_matches str_all]. intros [Hb Hs]%andb_true_iff.
  destruct (char_eqb _ _); [by apply IH|]. cbn [str_all]. by rewrite Hb, Hs.
Qed.

Lemma printable_hex_group g : (g < 65536)%N -> printable (hex_group g).
Proof.
  intros Hg. unfold hex_group. set (s := String _ _). assert (printable (trim_start_matches "0" s)) as Hs.
  { apply printable_trim. unfold printable, s. cbn [str_all]. rewrite !printable_hex_digit; [done| | | |];
      first [apply N.mod_lt; lia | apply N.Div0.div_lt_upper_bound; lia]. }
  by destruct (is_empty _).
Qed.

Lemma groups_of_small n b : Forall (fun g => (g < 65536)%N) (groups_of n b).
Proof.
  revert b. induction n as [|n IH]; intros b; cbn [groups_of]; [constructor|].
  apply Forall_app. split; [apply IH|]. repeat constructor. apply N.mod_lt. lia.
Qed.

Lemma printable_show_v4 b : printable (show_v4 b).
Proof. unfold show_v4. repeat apply printable_append; first [apply printable_pretty|done]. Qed.

Lemma printable_groups gs : Forall (fun g => (g < 65536)%N) gs -> printable (join ":" (hex_group <$> gs)).
Proof.
  intros Hg. apply printable_join; [done|]. apply Forall_fmap. eapply Forall_impl; [exact Hg|]. apply printable_hex_group.
Qed.

Lemma printable_show_ip a : printable (show_ip a).
Proof.
  destruct a as [b|b]; cbn [show_ip]; [apply printable_show_v4|]. unfold show_v6.
  destruct (b / 4294967296 =? 65535)%N; [apply printable_append; [done|apply printable_show_v4]|].
  pose proof (groups_of_small 8 b) as Hg. destruct (zero_run _ _ _ _) as [start len]. destruct (1 <? len)%nat; [|by apply printable_groups].
  repeat apply printable_append; [by apply printable_groups, Forall_take|done|by apply printable_groups, Forall_drop].
Qed.

(** What forwarding leaves of the two headers. *)
Definition forwarded (chain : option (list IpAddr)) (n : string) (vs : list string) : list string :=
  if String.eqb "x-forwarded-for" n then option_list (join ", " ∘ fmap show_ip <$> chain)
  else if String.eqb "x-real-ip" n then option_list (show_ip <$> (chain ≫= head))
  else vs.

Lemma edits_encode `{HeaderMapLaws Hd} `{!HeaderValueLaws} plugin what value :
  printable value -> edits (encode_header plugin what value) value (fun _ vs => vs).
Proof. intros Hv. unfold encode_header. rewrite header_value_visible by done. apply edits_ret. Qed.

Lemma edits_forwarding `{HeaderMapLaws Hd} `{!HeaderValueLaws} plugin chain :
  chain <> Some [] -> edits (ClientIpForwarding_apply plugin chain) tt (forwarded chain).
Proof.
  intros Hne. destruct chain as [[|client rest]|]; [done| |].
  - cbn [ClientIpForwarding_apply]. eapply edits_ext; [|eapply edits_bind; [apply edits_encode, printable_show_ip|];
      eapply edits_bind; [apply edits_encode, printable_join; [done|apply Forall_fmap, Forall_true; apply printable_show_ip]|];
      eapply edits_bind; apply edits_set].
    intros n vs. unfold forwarded. cbv beta. by destruct (String.eqb "x-forwarded-for" n), (String.eqb "x-real-ip" n).
  - cbn [ClientIpForwarding_apply]. eapply edits_ext; [|eapply edits_bind; apply edits_remove].
    intros n vs. unfold forwarded. cbv beta. by destruct (String.eqb "x-forwarded-for" n), (String.eqb "x-real-ip" n).
Qed.

(** The chain a request hook forwards. *)
Definition request_chain (trusted_proxies : list IpNet) (state : PluginState) (ctx : RequestCtx) (forwarded_for : option string)
  : option (list IpAddr) :=
  match ps_resolved_client_ip state with
  | Some identity => rci_chain identity
  | None => resolve_chain (rc_client_ip ctx) (forwarded_for ≫= header_to_str) trusted_proxies
  end.

Lemma on_request_forwarding `{HeaderMapLaws Hd} p f state ctx (h : Hd) :
  hd_client_ip_forwarding p = Some f ->
  Headers_on_request p state ctx h =
  (_ ← HeaderPatch_apply (hd_request p);
   _ ← ClientIpForwarding_apply "headers" (request_chain (cf_trusted_proxies f) state ctx (hm_get "x-forwarded-for" h)); mret Continue) h.
Proof. intros Hf. unfold Headers_on_request, request_chain. rewrite Hf. by destruct (ps_resolved_client_ip state). Qed.

(** What the request hook of a plugin that forwards leaves. *)
Lemma on_request_forwards `{HeaderMapLaws Hd} `{!HeaderValueLaws} p f state ctx (h : Hd) :
  hd_client_ip_forwarding p = Some f ->
  let chain := request_chain (cf_trusted_proxies f) state ctx (hm_get "x-forwarded-for" h) in
  chain <> Some [] ->
  snd (Headers_on_request p state ctx h) = Ok Continue /\
  forall n, hm_values n (fst (Headers_on_request p state ctx h)) = forwarded chain n (patched (hd_request p) n (hm_values n h)).
Proof.
  intros Hf chain Hc. rewrite (on_request_forwarding p f) by done. fold chain.
  destruct (edits_bind _ (fun _ => _ ← ClientIpForwarding_apply "headers" chain; mret Continue) _ _ _ _ (edits_patch (hd_request p))
    (edits_bind _ (fun _ => mret Continue) _ _ _ _ (edits_forwarding "headers" chain Hc) (edits_ret Continue)) h) as [Hok Hvals].
  split; [done|]. intros n. by rewrite Hvals.
Qed.

(** What building makes of a configuration that forwards. *)
Lemma Headers_build_forwarding `{!FromValue HeadersPluginConfig} spec config p :
  config_from_value "headers" (plugin_config spec) = Ok config -> Headers_build spec = Ok p -> hc_forward_client_ip config = true ->
  exists nets, Forall2 (fun raw net => parse_network raw = Some net) (hc_trusted_proxies config) nets /\
    hd_client_ip_forwarding p = Some (mkClientIpForwarding nets) /\ HeaderPatch_compile "headers" (hc_request config) = Ok (hd_request p).
Proof.
  intros Hc Hb Hf. unfold Headers_build in Hb. rewrite Hc in Hb. cbn [mbind result_bind] in Hb.
  apply bind_Ok_inv in Hb as (nets & Hn & Hb). apply bind_Ok_inv in Hb as (rq & Hrq & Hb). apply bind_Ok_inv in Hb as (up & _ & Hb).
  apply bind_Ok_inv in Hb as (rs & _ & [= <-]). exists nets. rewrite Hf. split_and!; [|done|done].
  apply mapM_Ok in Hn. eapply Forall2_impl; [exact Hn|]. intros raw net Hr. by apply ok_or_Ok in Hr.
Qed.

(** ** Theorems *)


(** a patch removes first, then sets, then adds: after a response or upstream
    request hook, the values of a header are the last value set for it, or else
    nothing when it is removed and what was there when it is not, followed by the
    values added, in order. *)
Theorem header_patch_spec `{HeaderMapLaws Hd} p (h : Hd) n :
  snd (Headers_on_response p h) = Ok Continue /\
  hm_values n (fst (Headers_on_response p h)) = patched (hd_response p) n (hm_values n h) /\
  snd (Headers_on_upstream_request p h) = Ok Continue /\
  hm_values n (fst (Headers_on_upstream_request p h)) = patched (hd_upstream_request p) n (hm_values n h).
Proof.
  destruct (edits_bind _ (fun _ => mret Continue) _ _ _ _ (edits_patch (hd_response p)) (edits_ret Continue) h) as [Hr1 Hv1].
  destruct (edits_bind _ (fun _ => mret Continue) _ _ _ _ (edits_patch (hd_upstream_request p)) (edits_ret Continue) h) as [Hr2 Hv2].
  split_and!; [exact Hr1|exact (Hv1 n)|exact Hr2|exact (Hv2 n)].
Qed.
End headers_plugin.

Module HeadersSample.
Definition client : IpAddr := ipv4 192 0 2 1.
Definition proxy : IpAddr := ipv4 10 0 0 1.
Definition patch : HeaderPatch := mkHeaderPatch [mkHeaderValueOp "x-a" "1"; mkHeaderValueOp "x-a" "2"] [] ["cookie"].
Definition forwarding : @ClientIpForwarding Toy.crates := @mkClientIpForwarding Toy.crates [proxy].
Definition plugin : @HeadersPlugin Toy.crates := mkHeadersPlugin (Some forwarding) patch patch patch.
Definition patch_config : HeaderPatchConfig := mkHeaderPatchConfig [mkHeaderEntry "X-A" "1"; mkHeaderEntry "x-a" "2"] [] ["Cookie"].
Definition config : HeadersPluginConfig := mkHeadersPluginConfig true ["10.0.0.1"] patch_config patch_config patch_config.
Definition from_value : @FromValue Toy.crates HeadersPluginConfig := fun _ => Ok config.
Definition spec : @PluginSpec Toy.crates := @mkPluginSpec Toy.crates "headers" (@to_value Toy.crates JNull).
Definition ctx : RequestCtx := mkRequestCtx "/" None "GET" (Some proxy).
Definition request : HeaderMap := [("x-forwarded-for", "203.0.113.9, 192.0.2.1"); ("x-real-ip", "203.0.113.9"); ("cookie", "c")].
(** The same request when the proxy adds its own header line instead. *)
Definition two_lines : HeaderMap := [("x-forwarded-for", "203.0.113.9"); ("x-forwarded-for", "192.0.2.1")].
End HeadersSample.


(** Only the first [X-Forwarded-For] line is read: of two lines, the client's own
    comes first and is believed, although the trusted proxy reported another
    address in its line. *)
Example forwarded_first_line_only :
  get_all "x-real-ip" (fst (@Headers_on_request Toy.crates ToyPlugins.http_errors _ _ HeadersSample.plugin PluginState_default
    HeadersSample.ctx HeadersSample.two_lines)) = ["203.0.113.9"].
Proof. vm_compute. reflexivity. Qed.
