(* ===== verification/CorsPlugin.v ===== *)
(** * The cors plugin (crates/extensions/cors/src/lib.rs) *)

From S2P Require Import Prelude RustStr NetAddr Crates Headers PluginApi Ir.

Record CorsPluginConfig := mkCorsPluginConfig {
  cc_allow_origin : option string;
  cc_allow_methods : option string;
  cc_allow_headers : option string;
  cc_expose_headers : option string;
  cc_allow_credentials : option bool;
  cc_max_age : option N
}.
Record CorsPlugin := mkCorsPlugin {
  cp_allow_origin : option string;
  cp_allow_methods : option string;
  cp_allow_headers : option string;
  cp_expose_headers : option string;
  cp_allow_credentials : option string;
  cp_max_age : option string
}.

Section cors.
Context `{Crates} `{HttpErrors}.

(** The closure [parse_hdr]. *)
Definition parse_hdr (opt : option string) (name : string) : result PluginBuildError (option string) :=
  match opt with
  | Some s =>
      _ ← fail_if (negb (header_value_ok s)) (mkPluginBuildError "cors" ("invalid " +:+ name +:+ ": " +:+ invalid_header_value));
      Ok (Some s)
  | None => Ok None
  end.

(** The digits of [max_age] are a header value, so its [unwrap] does not panic. *)
Definition Cors_build `{!FromValue CorsPluginConfig} (spec : PluginSpec) : result PluginBuildError CorsPlugin :=
  config ← config_from_value "cors" (plugin_config spec);
  allow_origin ← parse_hdr (cc_allow_origin config) "allow_origin";
  allow_methods ← parse_hdr (cc_allow_methods config) "allow_methods";
  allow_headers ← parse_hdr (cc_allow_headers config) "allow_headers";
  expose_headers ← parse_hdr (cc_expose_headers config) "expose_headers";
  Ok (mkCorsPlugin allow_origin allow_methods allow_headers expose_headers
        ((fun b : bool => if b then "true" else "false") <$> cc_allow_credentials config) (pretty <$> cc_max_age config)).

Definition push_opt (name : string) (value : option string) (r : LocalResponse) : LocalResponse :=
  match value with Some v => push_header r name v | None => r end.
Definition preflight_response (p : CorsPlugin) : LocalResponse :=
  let response := LocalResponse_new 204 "" in
  let response := push_opt "access-control-allow-origin" (cp_allow_origin p) response in
  let response := push_opt "access-control-allow-methods" (cp_allow_methods p) response in
  let response := push_opt "access-control-allow-headers" (cp_allow_headers p) response in
  let response := push_opt "access-control-allow-credentials" (cp_allow_credentials p) response in
  push_opt "access-control-max-age" (cp_max_age p) response.

Section hooks.
Context {Hd : Type} `{HeaderMapMut Hd}.

Definition Cors_apply_headers (p : CorsPlugin) : hook Hd unit :=
  _ ← hook_opt (hm_set "access-control-allow-origin") (cp_allow_origin p);
  hook_opt (hm_set "access-control-allow-credentials") (cp_allow_credentials p).

Definition Cors_on_request (p : CorsPlugin) (ctx : RequestCtx) : hook Hd PluginFlow :=
  origin ← hook_get "origin";
  request_method ← hook_get "access-control-request-method";
  mret (if String.eqb (rc_method ctx) "OPTIONS" && is_some origin && is_some request_method
        then Respond (preflight_response p) else Continue).

Definition Cors_on_response (p : CorsPlugin) : hook Hd PluginFlow :=
  _ ← Cors_apply_headers p;
  _ ← hook_opt (hm_set "access-control-expose-headers") (cp_expose_headers p);
  mret Continue.
End hooks.

(** The response header a configured value replaces. *)
Definition cors_value (p : CorsPlugin) (n : string) : option string :=
  if String.eqb "access-control-allow-origin" n then cp_allow_origin p
  else if String.eqb "access-control-allow-credentials" n then cp_allow_credentials p
  else if String.eqb "access-control-expose-headers" n then cp_expose_headers p
  else None.

Lemma edits_set_opt `{HeaderMapLaws Hd} name value :
  edits (hook_opt (hm_set name) value) tt (fun n vs => if String.eqb name n then match value with Some v => [v] | None => vs end else vs).
Proof.
  eapply edits_ext; [|apply (edits_opt _ _ _ (fun v => edits_set name v))].
  intros n vs. cbv beta. by destruct value, (String.eqb name n).
Qed.

Lemma push_opt_spec name value r :
  lr_status (push_opt name value r) = lr_status r /\ lr_body (push_opt name value r) = lr_body r /\
  forall n v, (n, v) ∈ lr_headers (push_opt name value r) -> Some v = value \/ (n, v) ∈ lr_headers r.
Proof.
  destruct value as [w|]; cbn; [|naive_solver]. split_and!; [done..|]. intros n v.
  intros [Hin|[= _ ->]%list_elem_of_singleton]%elem_of_app; [by right|by left].
Qed.

Lemma preflight_response_spec p :
  lr_status (preflight_response p) = 204%N /\ lr_body (preflight_response p) = "" /\
  forall n v, (n, v) ∈ lr_headers (preflight_response p) ->
    Some v ∈ [cp_allow_origin p; cp_allow_methods p; cp_allow_headers p; cp_allow_credentials p; cp_max_age p].
Proof.
  unfold preflight_response. cbn zeta.
  do 5 (match goal with |- context [push_opt ?n ?v ?r] => destruct (push_opt_spec n v r) as (-> & -> & ?) end).
  split_and!; [done..|]. intros n v Hin. rewrite !elem_of_cons.
  repeat match goal with Hs : forall n v, (n, v) ∈ lr_headers ?r -> _, Hi : (_, _) ∈ lr_headers ?r |- _ =>
    apply Hs in Hi as [?|Hi]; [tauto|] end. by apply elem_of_nil in Hin.
Qed.

(** the browser sees the configured policy and no other: the response hook
    succeeds, each configured access-control header replaces every value the upstream
    sent for it, and all other headers are untouched; the request hook changes no
    header and answers itself exactly the preflights, with status 204 and only
    configured access-control headers. *)
Theorem cors_policy `{HeaderMapLaws Hd} p ctx (h : Hd) :
  snd (Cors_on_response p h) = Ok Continue /\
  (forall n, hm_values n (fst (Cors_on_response p h)) =
    match cors_value p n with Some v => [v] | None => hm_values n h end) /\
  fst (Cors_on_request p ctx h) = h /\
  exists flow, snd (Cors_on_request p ctx h) = Ok flow /\
    match flow with
    | Respond r => lr_status r = 204%N /\ lr_body r = "" /\
        (forall n v, (n, v) ∈ lr_headers r -> Some v ∈ [cp_allow_origin p; cp_allow_methods p; cp_allow_headers p; cp_allow_credentials p; cp_max_age p]) /\
        rc_method ctx = "OPTIONS" /\ is_Some (hm_get "origin" h) /\ is_Some (hm_get "access-control-request-method" h)
    | Continue => rc_method ctx <> "OPTIONS" \/ hm_get "origin" h = None \/ hm_get "access-control-request-method" h = None
    end.
Proof.
  destruct (edits_bind _ (fun _ => _ ← hook_opt (hm_set "access-control-expose-headers") (cp_expose_headers p); mret Continue) _ _ _ _
    (edits_bind _ (fun _ => hook_opt (hm_set "access-control-allow-credentials") (cp_allow_credentials p)) _ _ _ _
      (edits_set_opt "access-control-allow-origin" (cp_allow_origin p)) (edits_set_opt "access-control-allow-credentials" (cp_allow_credentials p)))
    (edits_bind _ (fun _ => mret Continue) _ _ _ _ (edits_set_opt "access-control-expose-headers" (cp_expose_headers p))
      (edits_ret Continue)) h) as [Hr Hv].
  split_and!; [exact Hr| |done|].
  - intros n. etransitivity; [exact (Hv n)|]. unfold cors_value.
    destruct (String.eqb_spec "access-control-allow-origin" n) as [<-|]; [done|].
    destruct (String.eqb_spec "access-control-allow-credentials" n) as [<-|]; [done|].
    by destruct (String.eqb_spec "access-control-expose-headers" n) as [<-|].
  - eexists. split; [reflexivity|].
    destruct (String.eqb_spec (rc_method ctx) "OPTIONS"); [|by left].
    destruct (hm_get "origin" h); [|by right; left]. destruct (hm_get "access-control-request-method" h); [|by right; right].
    cbn [andb is_some]. destruct (preflight_response_spec p) as (-> & -> & ?). by split_and!.
Qed.
End cors.
