(* ===== verification/AuthPlugins.v ===== *)
(** * The authentication plugins
    (crates/extensions/basic-auth, jwt-auth and ext-authz, src/lib.rs)

    Base64, token verification and the HTTP client of the external authorizer are
    parameters; the decisions around them are the plugins' own. *)

From S2P Require Import Prelude RustStr NetAddr Crates Headers PluginApi Ir.

Open Scope N_scope.

(** ** Basic authentication *)

Record BasicAuthPluginConfig := mkBasicAuthPluginConfig { ba_username : string; ba_password : string; ba_realm : string }.
Record BasicAuthPlugin := mkBasicAuthPlugin { ba_expected_credentials : string; ba_challenge_header : string }.

(** The standard engine of the [base64] crate. *)
Class Base64 := base64_encode : string -> string.
(** Documented behaviour: encodings can be decoded, and use letters, digits and
    [+/=] only. *)
Class Base64Laws `{Base64} := {
  base64_inj : forall s t, base64_encode s = base64_encode t -> s = t;
  base64_graphic : forall s, str_all (in_range 33 126) (base64_encode s) = true;
  base64_nonempty : forall s, is_empty s = false -> is_empty (base64_encode s) = false
}.

(** [str::replace] of a character. *)
Fixpoint replace_char (c : ascii) (by_ : string) (s : string) : string :=
  match s with
  | EmptyString => EmptyString
  | String a s' => if char_eqb a c then by_ +:+ replace_char c by_ s' else String a (replace_char c by_ s')
  end.

Section basic_auth.
Context `{Crates} `{HttpErrors} `{Base64}.

Definition BasicAuth_build `{!FromValue BasicAuthPluginConfig} (spec : PluginSpec) : result PluginBuildError BasicAuthPlugin :=
  config ← config_from_value "basic-auth" (plugin_config spec);
  _ ← fail_if (is_empty (ba_username config)) (mkPluginBuildError "basic-auth" "username cannot be empty");
  _ ← fail_if (contains_char ":" (ba_username config)) (mkPluginBuildError "basic-auth" "username cannot contain `:`");
  _ ← fail_if (is_empty (ba_password config)) (mkPluginBuildError "basic-auth" "password cannot be empty");
  let backslash := byte1 92 in
  let quote := byte1 34 in
  let realm := replace_char (ascii_of_N 34) (backslash +:+ quote)
                 (replace_char (ascii_of_N 92) (backslash +:+ backslash) (ba_realm config)) in
  let challenge := "Basic realm=" +:+ quote +:+ realm +:+ quote in
  _ ← fail_if (negb (header_value_ok challenge))
        (mkPluginBuildError "basic-auth" ("invalid WWW-Authenticate challenge header: " +:+ invalid_header_value));
  Ok (mkBasicAuthPlugin (base64_encode (ba_username config +:+ ":" +:+ ba_password config)) challenge).

Definition unauthorized_response (p : BasicAuthPlugin) : PluginFlow :=
  let response := LocalResponse_new 401 "Unauthorized" in
  let response := push_header response "content-type" "text/plain; charset=utf-8" in
  Respond (push_header response "www-authenticate" (ba_challenge_header p)).

(** The decision on the value of [Authorization]; the comparison of bytes in constant
    time has the value of their equality. *)
Definition basic_auth_flow (p : BasicAuthPlugin) (value : option string) : PluginFlow :=
  match value ≫= header_to_str with
  | None => unauthorized_response p
  | Some value =>
      match split_ascii_whitespace value with
      | [scheme; credentials] =>
          if negb (eq_ignore_ascii_case scheme "Basic") then unauthorized_response p
          else if negb (String.eqb credentials (ba_expected_credentials p)) then unauthorized_response p
          else Continue
      | _ => unauthorized_response p
      end
  end.
Definition BasicAuth_on_request {Hd} `{HeaderMapMut Hd} (p : BasicAuthPlugin) : hook Hd PluginFlow :=
  value ← hook_get "authorization"; mret (basic_auth_flow p value).
End basic_auth.

(** ** JSON web tokens *)

Inductive JwtAlgorithm := HS256 | HS384 | HS512 | RS256 | RS384 | RS512 | PS256 | PS384 | PS512 | ES256 | ES384 | EdDSA.

Record JwtAuthPluginConfig := mkJwtAuthPluginConfig {
  jc_algorithm : string;
  jc_secret : option string;
  jc_secret_file : option string;
  jc_iss : option string;
  jc_aud : list string;
  jc_sub : option string;
  jc_required_scopes : list string
}.

(** The fields of [jsonwebtoken::Validation] that the plugin reads or writes. *)
Record Validation := mkValidation {
  va_algorithm : JwtAlgorithm;
  va_required_spec_claims : gset string;
  va_iss : option (gset string);
  va_aud : option (gset string);
  va_sub : option string
}.

(** The [jsonwebtoken] crate (and reading the secret file): [decode] answers the
    [scope] claim of a token it accepts. *)
Class Jwt := {
  algorithm_from_str : string -> result string JwtAlgorithm;
  validation_new : JwtAlgorithm -> Validation;
  DecodingKey : Type;
  from_secret : string -> DecodingKey;
  from_rsa_pem : string -> result string DecodingKey;
  from_ec_pem : string -> result string DecodingKey;
  from_ed_pem : string -> result string DecodingKey;
  jwt_decode : string -> DecodingKey -> Validation -> result string (option string);
  fs_read : string -> result string string
}.

Section jwt_auth.
Context `{Crates} `{Jwt}.

Record JwtAuthPlugin := mkJwtAuthPlugin {
  ja_decoding_key : DecodingKey;
  ja_validation : Validation;
  ja_required_scopes : list string
}.

Definition jwt_error (message : string) : PluginBuildError := mkPluginBuildError "jwt_auth" message.

Definition validate_non_empty_claim_config (field value : string) : result PluginBuildError unit :=
  fail_if (is_empty value) (jwt_error (field +:+ " cannot be empty")).

Definition has_required_scopes (scope : option string) (required_scopes : list string) : bool :=
  if is_nil required_scopes then true
  else match scope with
       | None => false
       | Some scope => forallb (fun required => existsb (fun provided => String.eqb provided required) (split_ascii_whitespace scope)) required_scopes
       end.

(** The claims of the configuration become requirements on tokens. *)
Definition jwt_validation (config : JwtAuthPluginConfig) (algo : JwtAlgorithm) : result PluginBuildError Validation :=
  let v := validation_new algo in
  let required := va_required_spec_claims v in
  '(v, required) ←
    match jc_iss config with
    | Some iss => _ ← validate_non_empty_claim_config "iss" iss;
        Ok (mkValidation (va_algorithm v) (va_required_spec_claims v) (Some {[iss]}) (va_aud v) (va_sub v), {["iss"]} ∪ required)
    | None => Ok (v, required)
    end;
  '(v, required) ←
    (if is_nil (jc_aud config) then Ok (v, required)
     else _ ← mapM (validate_non_empty_claim_config "aud") (jc_aud config);
          Ok (mkValidation (va_algorithm v) (va_required_spec_claims v) (va_iss v) (Some (list_to_set (jc_aud config))) (va_sub v), {["aud"]} ∪ required));
  '(v, required) ←
    match jc_sub config with
    | Some sub => _ ← validate_non_empty_claim_config "sub" sub;
        Ok (mkValidation (va_algorithm v) (va_required_spec_claims v) (va_iss v) (va_aud v) (Some sub), {["sub"]} ∪ required)
    | None => Ok (v, required)
    end;
  _ ← mapM (fun scope => fail_if (is_empty scope || existsb is_whitespace (chars scope))
                           (jwt_error "required_scopes entries must be non-empty single tokens")) (jc_required_scopes config);
  Ok (mkValidation (va_algorithm v) required (va_iss v) (va_aud v) (va_sub v)).

Definition jwt_secret (config : JwtAuthPluginConfig) : result PluginBuildError string :=
  match jc_secret_file config, jc_secret config with
  | Some path, _ => map_err (fun e => jwt_error ("could not read secret_file '" +:+ path +:+ "': " +:+ e)) (fs_read path)
  | None, Some secret => Ok secret
  | None, None => Err (jwt_error "either `secret` or `secret_file` must be provided")
  end.

Definition jwt_key (algo : JwtAlgorithm) (raw_secret : string) : result PluginBuildError DecodingKey :=
  match algo with
  | HS256 | HS384 | HS512 => Ok (from_secret raw_secret)
  | RS256 | RS384 | RS512 | PS256 | PS384 | PS512 => map_err (fun e => jwt_error ("failed to parse RSA PEM: " +:+ e)) (from_rsa_pem raw_secret)
  | ES256 | ES384 => map_err (fun e => jwt_error ("failed to parse EC PEM: " +:+ e)) (from_ec_pem raw_secret)
  | EdDSA => map_err (fun e => jwt_error ("failed to parse EdDSA PEM: " +:+ e)) (from_ed_pem raw_secret)
  end.

Definition JwtAuth_build `{!FromValue JwtAuthPluginConfig} (spec : PluginSpec) : result PluginBuildError JwtAuthPlugin :=
  config ← config_from_value "jwt_auth" (plugin_config spec);
  algo ← map_err (fun e => jwt_error ("unsupported algorithm '" +:+ jc_algorithm config +:+ "': " +:+ e))
           (algorithm_from_str (jc_algorithm config));
  validation ← jwt_validation config algo;
  raw_secret ← jwt_secret config;
  decoding_key ← jwt_key algo raw_secret;
  Ok (mkJwtAuthPlugin decoding_key validation (jc_required_scopes config)).

Definition jwt_refusal (body : string) : PluginFlow := Respond (LocalResponse_new 401 body).

(** The decision on the value of [Authorization]; [utf8] is [str::from_utf8] of its
    bytes. *)
Definition jwt_auth_flow (utf8 : string -> bool) (p : JwtAuthPlugin) (header : option string) : PluginFlow :=
  match header with
  | None => jwt_refusal "Unauthorized: Missing Token"
  | Some auth =>
      if negb (utf8 auth) then jwt_refusal "Unauthorized: Invalid Token Format"
      else match strip_prefix "Bearer " auth with
           | None => jwt_refusal "Unauthorized: Invalid Token Format"
           | Some token =>
               match jwt_decode token (ja_decoding_key p) (ja_validation p) with
               | Ok scope => if has_required_scopes scope (ja_required_scopes p) then Continue
                             else jwt_refusal "Unauthorized: Invalid or Expired Token"
               | Err _ => jwt_refusal "Unauthorized: Invalid or Expired Token"
               end
           end
  end.
Definition JwtAuth_on_request {Hd} `{HeaderMapMut Hd} (utf8 : string -> bool) (p : JwtAuthPlugin) : hook Hd PluginFlow :=
  header ← hook_get "authorization"; mret (jwt_auth_flow utf8 p header).
End jwt_auth.

(** ** External authorization *)

Definition DEFAULT_TIMEOUT_MS : N := 3000.
Definition MAX_TIMEOUT_MS : N := 30000.

Record ExtAuthzPluginConfig := mkExtAuthzPluginConfig {
  ea_uri : string;
  ea_timeout_ms : option N;
  ea_allowed_hosts : list string;
  ea_pass_request_headers : list string;
  ea_pass_response_headers : list string
}.

Record AuthResponse := mkAuthResponse { ar_status : N; ar_headers : HeaderMap }.

(** The settings of the [reqwest] client builder that the plugin makes: the time-out
    of a whole request and whether redirects are followed.  The builder starts without
    a time-out and follows redirects. *)
Record AuthClientBuilder := mkAuthClientBuilder { ab_timeout : option N; ab_follow_redirects : bool }.
Definition Client_builder : AuthClientBuilder := mkAuthClientBuilder None true.
Definition builder_timeout (b : AuthClientBuilder) (t : N) : AuthClientBuilder :=
  mkAuthClientBuilder (Some t) (ab_follow_redirects b).
Definition builder_redirect_none (b : AuthClientBuilder) : AuthClientBuilder :=
  mkAuthClientBuilder (ab_timeout b) false.

(** [url::Host] and the HTTP client: a request with the given headers is answered or
    fails (time-out, connection failure or other). *)
Class AuthClient `{Crates} := {
  Host : Type;
  host_eq_dec :: EqDecision Host;
  host_parse : string -> option Host;
  url_host : Url -> option Host;
  Client : Type;
  client_build : AuthClientBuilder -> result string Client;
  client_get : Client -> Url -> list (string * string) -> result string AuthResponse
}.

Section ext_authz.
Context `{AuthClient} `{HttpErrors}.

Record ExtAuthzPlugin := mkExtAuthzPlugin {
  ep_client : Client;
  ep_uri : Url;
  ep_pass_request_headers : list string;
  ep_pass_response_headers : list string
}.

Definition authz_error (message : string) : PluginBuildError := mkPluginBuildError "ext_authz" message.

Definition normalize_timeout (timeout_ms : option N) : result PluginBuildError N :=
  let timeout_ms := default DEFAULT_TIMEOUT_MS timeout_ms in
  _ ← fail_if (negb ((1 <=? timeout_ms) && (timeout_ms <=? MAX_TIMEOUT_MS)))
        (authz_error ("timeout_ms must be between 1 and " +:+ pretty MAX_TIMEOUT_MS));
  Ok (from_millis timeout_ms).

Definition parse_allowed_hosts (values : list string) : result PluginBuildError (list Host) :=
  _ ← fail_if (is_nil values) (authz_error "at least one allowed_host must be configured");
  mapM (fun value => ok_or (host_parse value) (authz_error "allowed_host must be a valid host or IP")) values.

Definition parse_uri (uri : string) (allowed_hosts : list Host) : result PluginBuildError Url :=
  uri ← map_err (fun _ => authz_error "uri must be an absolute URL") (url_parse uri);
  _ ← fail_if (negb (String.eqb (url_scheme uri) "http" || String.eqb (url_scheme uri) "https"))
        (authz_error "uri scheme must be http or https");
  _ ← fail_if (negb (is_empty (url_username uri)) || is_some (url_password uri)) (authz_error "uri must not contain userinfo");
  _ ← fail_if (is_some (url_fragment uri)) (authz_error "uri must not contain a fragment");
  host ← ok_or (url_host uri) (authz_error "uri must contain a host");
  _ ← fail_if (negb (bool_decide (host ∈ allowed_hosts))) (authz_error "uri host is not in allowed_hosts");
  Ok uri.

(** The closure [parse_headers]. *)
Definition parse_headers (names : list string) (field : string) : result PluginBuildError (list string) :=
  mapM (fun s => ok_or (header_name_from s)
                   (authz_error ("invalid " +:+ field +:+ " header '" +:+ s +:+ "': " +:+ invalid_header_name))) names.

Definition ExtAuthz_build `{!FromValue ExtAuthzPluginConfig} (spec : PluginSpec) : result PluginBuildError ExtAuthzPlugin :=
  config ← config_from_value "ext_authz" (plugin_config spec);
  allowed_hosts ← parse_allowed_hosts (ea_allowed_hosts config);
  uri ← parse_uri (ea_uri config) allowed_hosts;
  timeout ← normalize_timeout (ea_timeout_ms config);
  client ← map_err (fun e => authz_error ("failed to initialize HTTP client: " +:+ e))
             (client_build (builder_redirect_none (builder_timeout Client_builder timeout)));
  pass_request_headers ← parse_headers (ea_pass_request_headers config) "pass_request_header";
  pass_response_headers ← parse_headers (ea_pass_response_headers config) "pass_response_header";
  Ok (mkExtAuthzPlugin client uri pass_request_headers pass_response_headers).

Definition is_success (status : N) : bool := (200 <=? status) && (status <=? 299).

Section hooks.
Context {Hd : Type} `{HeaderMapMut Hd}.

(** The headers of the sub-request. *)
Definition passed_headers (names : list string) : hook Hd (list (string * string)) :=
  fun h => (h, Ok (omap (fun n => (fun v => (n, v)) <$> hm_get n h) names)).

Definition ExtAuthz_on_request (p : ExtAuthzPlugin) : hook Hd PluginFlow :=
  request ← passed_headers (ep_pass_request_headers p);
  _ ← hook_for hook_remove (ep_pass_response_headers p);
  match client_get (ep_client p) (ep_uri p) request with
  | Err _ => mret (Respond (LocalResponse_new 500 "Internal Auth Service Error"))
  | Ok auth_resp =>
      if is_success (ar_status auth_resp) then
        _ ← hook_for (fun n => hook_opt (hm_set n) (header_get n (ar_headers auth_resp))) (ep_pass_response_headers p);
        mret Continue
      else mret (Respond (LocalResponse_new (ar_status auth_resp) "Unauthorized"))
  end.
End hooks.
End ext_authz.

(** ** Lemmas *)

Lemma is_empty_append a b : is_empty (a +:+ b) = is_empty a && is_empty b.
Proof. by destruct a. Qed.

Lemma graphic_no_whitespace c : in_range 33 126 c = true -> is_ascii_whitespace c = false.
Proof.
  unfold in_range, is_ascii_whitespace. intros [Hlo%N.leb_le Hhi%N.leb_le]%andb_true_iff.
  repeat (apply orb_false_iff; split); apply N.eqb_neq; lia.
Qed.

(** A word without blanks is scanned into the current word. *)
Lemma split_ascii_ws_word w s word :
  str_all (fun c => negb (is_ascii_whitespace c)) w = true -> split_ascii_ws_go (w +:+ s) word = split_ascii_ws_go s (word +:+ w).
Proof.
  revert word. induction w as [|c w IH]; intros word Hw; [by rewrite append_nil_r|]. cbn [str_all] in Hw.
  apply andb_true_iff in Hw as [Hc%negb_true_iff Hw]. cbn [String.append split_ascii_ws_go]. rewrite Hc, IH by done.
  by rewrite append_assoc.
Qed.

Lemma split_two_words a b :
  is_empty a = false -> is_empty b = false -> str_all (in_range 33 126) a = true -> str_all (in_range 33 126) b = true ->
  split_ascii_whitespace (a +:+ " " +:+ b) = [a; b].
Proof.
  assert (forall w, str_all (in_range 33 126) w = true -> str_all (fun c => negb (is_ascii_whitespace c)) w = true) as Hw.
  { intros w. rewrite !str_all_forall. intros Hw c Hc. by rewrite graphic_no_whitespace by auto. }
  intros Ha Hb Ga Gb. unfold split_ascii_whitespace. rewrite split_ascii_ws_word by auto.
  cbn [String.append split_ascii_ws_go]. change (is_ascii_whitespace " ") with true. rewrite Ha. cbn [app].
  f_equal. rewrite <- (append_nil_r b) at 1. rewrite split_ascii_ws_word by auto. cbn [split_ascii_ws_go String.append]. by rewrite Hb.
Qed.

(** A name without the separator is determined by what it starts. *)
Lemma separator_unique c u p u' p' :
  contains_char c u = false -> contains_char c u' = false -> u +:+ String c p = u' +:+ String c p' -> u = u' /\ p = p'.
Proof.
  assert (forall a s, contains_char c (String a s) = char_eqb c a || contains_char c s) as Hcons.
  { intros a s. unfold contains_char, str_any. cbn [str_all]. by destruct (char_eqb c a), (str_all _ s). }
  revert u'. induction u as [|a u IH]; intros [|a' u'] Hu Hu' E; cbn in E.
  - by injection E as ->.
  - injection E as <- _. rewrite Hcons in Hu'. by rewrite Ascii.eqb_refl in Hu'.
  - injection E as -> _. rewrite Hcons in Hu. by rewrite Ascii.eqb_refl in Hu.
  - injection E as <- E. rewrite Hcons in Hu, Hu'. apply orb_false_iff in Hu as [_ Hu], Hu' as [_ Hu'].
    destruct (IH u' Hu Hu' E) as [-> ->]. done.
Qed.

(** ** Theorems *)

Section theorems.
Context `{Crates} `{HttpErrors}.

(** A plugin that the configuration [config] builds. *)
Definition basic_auth_built `{Base64} `{!FromValue BasicAuthPluginConfig} (config : BasicAuthPluginConfig) (p : BasicAuthPlugin) : Prop :=
  exists spec, from_value (plugin_config spec) = Ok config /\ BasicAuth_build spec = Ok p.

Lemma basic_auth_built_inv `{Base64} `{!FromValue BasicAuthPluginConfig} config p :
  basic_auth_built config p ->
  ba_expected_credentials p = base64_encode (ba_username config +:+ String ":" (ba_password config)) /\
  contains_char ":" (ba_username config) = false /\ is_empty (ba_username config) = false.
Proof.
  intros (spec & Hc & Hb). unfold BasicAuth_build, config_from_value in Hb. rewrite Hc in Hb. cbn [map_err mbind result_bind] in Hb.
  inv_ok. done.
Qed.

Lemma basic_auth_flow_cases {Hd} `{HeaderMapMut Hd} p (h : Hd) :
  match basic_auth_flow p (hm_get "authorization" h) with
  | Continue => exists raw value scheme, hm_get "authorization" h = Some raw /\ header_to_str raw = Some value /\
      split_ascii_whitespace value = [scheme; ba_expected_credentials p]
  | Respond r => lr_status r = 401 /\ ("www-authenticate", ba_challenge_header p) ∈ lr_headers r
  end.
Proof.
  assert (match unauthorized_response p with
          | Continue => False
          | Respond r => lr_status r = 401 /\ ("www-authenticate", ba_challenge_header p) ∈ lr_headers r
          end) as Hu by (split; [done|cbn; set_solver]).
  unfold basic_auth_flow. destruct (hm_get "authorization" h) as [raw|]; [|done]. cbn [mbind option_bind].
  destruct (header_to_str raw) as [value|] eqn:Ev; [|done].
  destruct (split_ascii_whitespace value) as [|scheme [|credentials [|]]] eqn:Es; try done.
  destruct (eq_ignore_ascii_case scheme "Basic"); [|done].
  destruct (String.eqb_spec credentials (ba_expected_credentials p)) as [->|]; [|done].
  cbn. by exists raw, value, scheme.
Qed.

(** Basic authentication lets exactly the configured user through: the right
    credentials are accepted; a request that any built plugin accepts carries the
    user name and the password of its configuration, so two plugins that accept the
    same request have the same ones; every other request is answered 401 with the
    challenge; the headers are never changed. *)
Theorem basic_auth_exact `{Base64Laws} `{!FromValue BasicAuthPluginConfig} {Hd} `{HeaderMapMut Hd} config p (h : Hd) :
  basic_auth_built config p ->
  fst (BasicAuth_on_request p h) = h /\
  (forall raw, hm_get "authorization" h = Some raw ->
    header_to_str raw = Some ("Basic " +:+ base64_encode (ba_username config +:+ ":" +:+ ba_password config)) ->
    snd (BasicAuth_on_request p h) = Ok Continue) /\
  (snd (BasicAuth_on_request p h) <> Ok Continue ->
    exists r, snd (BasicAuth_on_request p h) = Ok (Respond r) /\ lr_status r = 401 /\
      ("www-authenticate", ba_challenge_header p) ∈ lr_headers r) /\
  (forall config' p', basic_auth_built config' p' -> snd (BasicAuth_on_request p h) = Ok Continue ->
    snd (BasicAuth_on_request p' h) = Ok Continue ->
    ba_username config' = ba_username config /\ ba_password config' = ba_password config).
Proof.
  intros Hb. pose proof (basic_auth_built_inv _ _ Hb) as (He & Hcol & Hemp).
  assert (forall q, snd (BasicAuth_on_request q h) = Ok (basic_auth_flow q (hm_get "authorization" h))) as Hflow by done.
  rewrite !Hflow. pose proof (basic_auth_flow_cases p h) as Hp. split_and!; [done| | |].
  - intros raw Hraw Hv. unfold basic_auth_flow. rewrite Hraw. cbn [mbind option_bind]. rewrite Hv.
    change ("Basic " +:+ ?x) with ("Basic" +:+ " " +:+ x).
    rewrite split_two_words; [|done|apply base64_nonempty; by rewrite is_empty_append, Hemp|done|apply base64_graphic].
    rewrite He. change (negb (eq_ignore_ascii_case "Basic" "Basic")) with false. cbn iota. by rewrite String.eqb_refl.
  - intros Hn. destruct (basic_auth_flow p _) as [|r]; [congruence|]. by exists r.
  - intros config' p' Hb' Hc Hc'. rewrite Hflow in Hc'. injection Hc as Hc. injection Hc' as Hc'.
    pose proof (basic_auth_flow_cases p' h) as Hp'. rewrite Hc in Hp. rewrite Hc' in Hp'.
    destruct Hp as (raw & value & s & E1 & E2 & E3), Hp' as (raw' & value' & s' & E1' & E2' & E3').
    pose proof (basic_auth_built_inv _ _ Hb') as (He' & Hcol' & _).
    assert (ba_expected_credentials p' = ba_expected_credentials p) as E by congruence. rewrite He, He' in E.
    apply base64_inj in E. by apply separator_unique in E.
Qed.

(** *** Tokens *)

Lemma has_required_scopes_spec scope required :
  has_required_scopes scope required = true <->
  forall r, r ∈ required -> exists s, scope = Some s /\ r ∈ split_ascii_whitespace s.
Proof.
  unfold has_required_scopes. destruct required as [|r0 required]; cbn [is_nil].
  { split; [|done]. intros _ r Hr. by apply elem_of_nil in Hr. }
  destruct scope as [s|].
  - rewrite forallb_forall. split.
    + intros Hf r Hr%list_elem_of_In. specialize (Hf r Hr). apply existsb_exists in Hf as (x & Hx & <-%String.eqb_eq).
      exists s. split; [done|]. by apply list_elem_of_In.
    + intros Hf r Hr%list_elem_of_In. destruct (Hf r Hr) as (? & [= <-] & Hin%list_elem_of_In). apply existsb_exists.
      exists r. split; [done|apply String.eqb_refl].
  - split; [done|]. intros Hf. destruct (Hf r0) as (? & ? & _); [set_solver|done].
Qed.

Lemma jwt_auth_flow_cases `{Jwt} utf8 p header :
  match jwt_auth_flow utf8 p header with
  | Continue => exists token scope, header = Some ("Bearer " +:+ token) /\ utf8 ("Bearer " +:+ token) = true /\
      jwt_decode token (ja_decoding_key p) (ja_validation p) = Ok scope /\ has_required_scopes scope (ja_required_scopes p) = true
  | Respond r => lr_status r = 401
  end.
Proof.
  unfold jwt_auth_flow, jwt_refusal. destruct header as [auth|]; [|done]. destruct (utf8 auth) eqn:Eu; [|done].
  cbn [negb]. destruct (strip_prefix "Bearer " auth) as [token|] eqn:Ep; [|done]. apply strip_prefix_Some in Ep as ->.
  destruct (jwt_decode token _ _) as [scope|] eqn:Ed; [|done]. destruct (has_required_scopes scope _) eqn:Es; [|done].
  by exists token, scope.
Qed.

(** What a configuration demands of the tokens. *)
Record demands `{Jwt} (config : JwtAuthPluginConfig) (v : Validation) : Prop := mkDemands {
  dm_iss : forall iss, jc_iss config = Some iss -> "iss" ∈ va_required_spec_claims v /\ va_iss v = Some {[iss]};
  dm_aud : jc_aud config <> [] -> "aud" ∈ va_required_spec_claims v /\ va_aud v = Some (list_to_set (jc_aud config));
  dm_sub : forall sub, jc_sub config = Some sub -> "sub" ∈ va_required_spec_claims v /\ va_sub v = Some sub;
  dm_base : exists algo, algorithm_from_str (jc_algorithm config) = Ok algo /\
    va_algorithm v = va_algorithm (validation_new algo) /\
    va_required_spec_claims (validation_new algo) ⊆ va_required_spec_claims v
}.

Lemma jwt_validation_demands `{Jwt} config algo v :
  algorithm_from_str (jc_algorithm config) = Ok algo -> jwt_validation config algo = Ok v -> demands config v.
Proof.
  intros Ha. unfold jwt_validation, validate_non_empty_claim_config. intros Hv.
  destruct (jc_iss config) as [iss|] eqn:Ei, (jc_aud config) as [|aud auds] eqn:En, (jc_sub config) as [sub|] eqn:Es;
    cbn [is_nil] in Hv; do 4 (inv_ok; cbn iota beta in * );
    (constructor; cbn [va_algorithm va_required_spec_claims va_iss va_aud va_sub]; rewrite ?Ei, ?En, ?Es;
     [intros ? [= <-]; split; [set_solver|done] || intros ? [=] | (intros _; split; [set_solver|done]) || done
     |intros ? [= <-]; split; [set_solver|done] || intros ? [=] | exists algo; split_and!; [done|done|set_solver]]).
Qed.

(** What the key of a plugin is made from: the algorithm that the configuration names,
    and the contents of its secret file or, without one, its inline secret. *)
Definition configured_key `{Jwt} (config : JwtAuthPluginConfig) (key : DecodingKey) : Prop :=
  exists algo raw, algorithm_from_str (jc_algorithm config) = Ok algo /\
    match jc_secret_file config with Some path => fs_read path = Ok raw | None => jc_secret config = Some raw end /\
    match algo with
    | HS256 | HS384 | HS512 => key = from_secret raw
    | RS256 | RS384 | RS512 | PS256 | PS384 | PS512 => from_rsa_pem raw = Ok key
    | ES256 | ES384 => from_ec_pem raw = Ok key
    | EdDSA => from_ed_pem raw = Ok key
    end.

Lemma jwt_key_configured `{Jwt} config algo raw key :
  algorithm_from_str (jc_algorithm config) = Ok algo -> jwt_secret config = Ok raw -> jwt_key algo raw = Ok key ->
  configured_key config key.
Proof.
  intros Ha Hs Hk. exists algo, raw. split_and!; [done| |].
  - unfold jwt_secret in Hs. destruct (jc_secret_file config), (jc_secret config); inv_ok; done.
  - unfold jwt_key in Hk. destruct algo; inv_ok; done.
Qed.

(** C27: a token is accepted only if everything the configuration demands holds: it
    verifies under the key made from the secret file (or, without one, from the inline
    secret) for the configured algorithm; the validation handed to the verifier keeps
    its defaults (such as expiry), pins the algorithm, and makes each configured
    issuer, audience and subject a required claim with exactly the configured values;
    a request passes exactly when it carries a bearer token that verifies under that
    key and that validation and whose [scope] lists every required scope; any other
    request is answered 401, and headers are never changed. *)
Theorem jwt_auth_enforced `{Jwt} `{!FromValue JwtAuthPluginConfig} {Hd} `{HeaderMapMut Hd} utf8 spec config p (h : Hd) :
  from_value (plugin_config spec) = Ok config -> JwtAuth_build spec = Ok p ->
  exists key validation, configured_key config key /\ demands config validation /\
  fst (JwtAuth_on_request utf8 p h) = h /\
  (snd (JwtAuth_on_request utf8 p h) = Ok Continue <->
    exists token scope, hm_get "authorization" h = Some ("Bearer " +:+ token) /\ utf8 ("Bearer " +:+ token) = true /\
      jwt_decode token key validation = Ok scope /\
      forall r, r ∈ jc_required_scopes config -> exists s, scope = Some s /\ r ∈ split_ascii_whitespace s) /\
  (snd (JwtAuth_on_request utf8 p h) <> Ok Continue ->
    exists r, snd (JwtAuth_on_request utf8 p h) = Ok (Respond r) /\ lr_status r = 401).
Proof.
  intros Hc Hb. unfold JwtAuth_build, config_from_value in Hb. rewrite Hc in Hb. cbn [map_err mbind result_bind] in Hb. inv_ok.
  set (p := mkJwtAuthPlugin _ _ _). change (snd (JwtAuth_on_request utf8 p h)) with (@Ok PluginError _ (jwt_auth_flow utf8 p (hm_get "authorization" h))).
  pose proof (jwt_auth_flow_cases utf8 p (hm_get "authorization" h)) as Hf. exists (ja_decoding_key p), (ja_validation p).
  split_and!; [by eapply jwt_key_configured|by eapply jwt_validation_demands|done| |].
  - split.
    + intros [= E]. rewrite E in Hf. destruct Hf as (token & scope & ? & ? & ? & Hs). exists token, scope. split_and!; [done..|].
      by apply has_required_scopes_spec.
    + intros (token & scope & E1 & E2 & E3 & Hs). unfold jwt_auth_flow. rewrite E1, E2. cbn [negb].
      rewrite (proj2 (strip_prefix_Some "Bearer " _ token) eq_refl), E3. apply has_required_scopes_spec in Hs. cbn [ja_required_scopes p]. by rewrite Hs.
  - intros Hn. destruct (jwt_auth_flow utf8 p _) as [|r]; [congruence|]. by exists r.
Qed.

(** *** The external authorizer *)

Lemma foldl_authorized (names : list string) (n : string) (value : string -> option string) (vs : list string) :
  foldl (fun vs m => match value m with Some v => if String.eqb m n then [v] else vs | None => vs end) vs names =
  match value n with Some v => if existsb (String.eqb n) names then [v] else vs | None => vs end.
Proof.
  revert vs. induction names as [|m names IH]; intros vs; cbn [foldl existsb]; [by destruct (value n)|]. rewrite IH, (String.eqb_sym n m).
  destruct (String.eqb_spec m n) as [->|Hne]; cbn [orb].
  - destruct (value n); [|done]. by destruct (existsb _ names).
  - by destruct (value m).
Qed.

Lemma edits_authorized {Hd} `{HeaderMapLaws Hd} names (response : HeaderMap) :
  edits (hook_for (fun n => hook_opt (hm_set n) (header_get n response)) names) tt
    (fun n vs => match header_get n response with Some v => if existsb (String.eqb n) names then [v] else vs | None => vs end).
Proof.
  eapply edits_ext; [|apply (edits_for _ _ _ (fun m => edits_opt _ _ (header_get m response) (fun v => edits_set m v)))].
  intros n vs. cbv beta. apply (foldl_authorized names n (fun m => header_get m response)).
Qed.

(** The request after the hook: what the authorizer owns is what it answered. *)
Definition authorized (names : list string) (response : HeaderMap) (n : string) (vs : list string) : list string :=
  if existsb (String.eqb n) names then option_list (header_get n response) else vs.

Lemma ext_authz_on_request_cases `{!AuthClient} {Hd} `{HeaderMapLaws Hd} p (h : Hd) :
  let sent := omap (fun n => (fun v => (n, v)) <$> hm_get n h) (ep_pass_request_headers p) in
  let answer := client_get (ep_client p) (ep_uri p) sent in
  let headers := match answer with Ok r => if is_success (ar_status r) then ar_headers r else [] | Err _ => [] end in
  snd (ExtAuthz_on_request p h) =
    Ok match answer with
       | Ok r => if is_success (ar_status r) then Continue else Respond (LocalResponse_new (ar_status r) "Unauthorized")
       | Err _ => Respond (LocalResponse_new 500 "Internal Auth Service Error")
       end /\
  forall n, hm_values n (fst (ExtAuthz_on_request p h)) = authorized (ep_pass_response_headers p) headers n (hm_values n h).
Proof.
  cbn zeta. set (sent := omap _ _). set (answer := client_get _ _ sent).
  change (ExtAuthz_on_request p h) with
    ((_ ← hook_for hook_remove (ep_pass_response_headers p);
      match answer with
      | Err _ => mret (Respond (LocalResponse_new 500 "Internal Auth Service Error"))
      | Ok r => if is_success (ar_status r) then
                  _ ← hook_for (fun n => hook_opt (hm_set n) (header_get n (ar_headers r))) (ep_pass_response_headers p); mret Continue
                else mret (Respond (LocalResponse_new (ar_status r) "Unauthorized"))
      end : hook Hd PluginFlow) h).
  pose proof (edits_remove_all (ep_pass_response_headers p)) as Hrm.
  assert (forall flow : PluginFlow, edits (_ ← hook_for hook_remove (ep_pass_response_headers p); mret flow) flow
    (authorized (ep_pass_response_headers p) [])) as Hrefuse.
  { intros flow. exact (edits_bind _ _ _ _ _ _ Hrm (edits_ret flow)). }
  destruct answer as [r|]; [|exact (Hrefuse _ h)]. destruct (is_success (ar_status r)); [|exact (Hrefuse _ h)].
  eapply (edits_ext _ Continue); [|eapply edits_bind; [exact Hrm|eapply edits_bind; [apply edits_authorized|apply edits_ret]]].
  intros n vs. cbv beta. unfold authorized.
  destruct (existsb _ _); [by destruct (header_get n _)|by destruct (header_get n _)].
Qed.

(** What a configuration says of the service and of the headers exchanged with it: the
    configured URL (an HTTP URL without credentials and fragment, on an allowed host),
    called by a client with the configured or the default time-out, of 1 ms to 30 s,
    that follows no redirects; the header names of its two lists. *)
Record authorizer `{!AuthClient} (config : ExtAuthzPluginConfig) (client : Client) (uri : Url) (passed owned : list string) : Prop := mkAuthorizer {
  az_uri : url_parse (ea_uri config) = Ok uri;
  az_scheme : http_scheme (url_scheme uri);
  az_credentials : url_username uri = "" /\ url_password uri = None /\ url_fragment uri = None;
  az_host : exists host value, url_host uri = Some host /\ value ∈ ea_allowed_hosts config /\ host_parse value = Some host;
  az_client : client_build (mkAuthClientBuilder (Some (from_millis (default DEFAULT_TIMEOUT_MS (ea_timeout_ms config)))) false) = Ok client;
  az_timeout : 1 <= default DEFAULT_TIMEOUT_MS (ea_timeout_ms config) <= MAX_TIMEOUT_MS;
  az_passed : Forall2 (fun written name => header_name_from written = Some name) (ea_pass_request_headers config) passed;
  az_owned : Forall2 (fun written name => header_name_from written = Some name) (ea_pass_response_headers config) owned
}.

Lemma parse_headers_names names field parsed :
  parse_headers names field = Ok parsed -> Forall2 (fun written name => header_name_from written = Some name) names parsed.
Proof. intros Hm%mapM_Ok. eapply Forall2_impl; [exact Hm|]. intros ? ? Hok. by apply ok_or_Ok in Hok. Qed.

Lemma ext_authz_build_confined `{!AuthClient} `{!FromValue ExtAuthzPluginConfig} spec config p :
  from_value (plugin_config spec) = Ok config -> ExtAuthz_build spec = Ok p ->
  authorizer config (ep_client p) (ep_uri p) (ep_pass_request_headers p) (ep_pass_response_headers p).
Proof.
  intros Hc Hb. unfold ExtAuthz_build, config_from_value in Hb. rewrite Hc in Hb. cbn [map_err mbind result_bind] in Hb.
  unfold parse_allowed_hosts, parse_uri, normalize_timeout in Hb. inv_ok. cbn [ep_client ep_uri ep_pass_request_headers ep_pass_response_headers].
  repeat match goal with Hn : negb _ = false |- _ => apply negb_false_iff in Hn end.
  repeat match goal with
  | Ho : _ || _ = false |- _ => apply orb_false_iff in Ho as [?%negb_false_iff ?]
  | Ho : _ && _ = true |- _ => apply andb_true_iff in Ho as [?%N.leb_le ?%N.leb_le]
  | Ho : is_some ?o = false |- _ => destruct o eqn:?; [done|clear Ho]
  | Ho : parse_headers _ _ = Ok _ |- _ => apply parse_headers_names in Ho
  | Ho : _ || _ = true |- _ => apply orb_true_iff in Ho
  end.
  constructor; [done| | | |done..].
  - match goal with Ho : _ \/ _ |- _ => by destruct Ho as [?%String.eqb_eq|?%String.eqb_eq]; [left|right] end.
  - split_and!; [by destruct (url_username _)|done..].
  - match goal with Hin : bool_decide (?host ∈ ?hosts) = true, Hm : mapM _ _ = Ok ?hosts |- _ =>
      exists host; apply bool_decide_eq_true, list_elem_of_lookup in Hin as [i Hi]; apply mapM_Ok in Hm;
      destruct (Forall2_lookup_r _ _ _ _ _ Hm Hi) as (value & Hvi & Hv); exists value end.
    apply ok_or_Ok in Hv. split_and!; [done|by eapply list_elem_of_lookup_2|done].
Qed.

(** C26: the external authorizer decides, and fails closed: a request goes on only
    after a 2xx answer to a sub-request that carried exactly the request headers the
    configuration lists; a failed sub-request is a 500 and any other answer is passed
    on with its status.  Whatever the outcome, a response header the configuration
    lists holds the authorizer's value or nothing, never what the client sent, and the
    other headers are untouched.  The service called is the configured one: an HTTP
    URL without credentials on an allowed host, reached by a client that follows no
    redirects and gives up after the configured time-out of 1 ms to 30 s. *)
Theorem ext_authz_gate `{!AuthClient} `{!FromValue ExtAuthzPluginConfig} {Hd} `{HeaderMapLaws Hd} spec config p (h : Hd) :
  from_value (plugin_config spec) = Ok config -> ExtAuthz_build spec = Ok p ->
  exists client uri passed owned, authorizer config client uri passed owned /\
  let answer := client_get client uri (omap (fun n => (fun v => (n, v)) <$> hm_get n h) passed) in
  (snd (ExtAuthz_on_request p h) = Ok Continue <-> exists r, answer = Ok r /\ is_success (ar_status r) = true) /\
  (snd (ExtAuthz_on_request p h) <> Ok Continue ->
    exists status body, snd (ExtAuthz_on_request p h) = Ok (Respond (LocalResponse_new status body)) /\
      status = match answer with Ok r => ar_status r | Err _ => 500 end) /\
  (forall n, n ∈ owned -> hm_values n (fst (ExtAuthz_on_request p h)) =
    match answer with Ok r => if is_success (ar_status r) then option_list (header_get n (ar_headers r)) else [] | Err _ => [] end) /\
  (forall n, n ∉ owned -> hm_values n (fst (ExtAuthz_on_request p h)) = hm_values n h).
Proof.
  intros Hc Hb. exists (ep_client p), (ep_uri p), (ep_pass_request_headers p), (ep_pass_response_headers p).
  split; [by eapply ext_authz_build_confined|]. cbn zeta. destruct (ext_authz_on_request_cases p h) as [Hr Hv]. rewrite !Hr.
  set (answer := client_get _ _ _) in *. split_and!.
  - split; [|by intros (r & -> & ->)]. destruct answer as [r|]; [|done]. intros E. exists r. split; [done|]. by destruct (is_success _).
  - intros Hn. destruct answer as [r|]; [|by exists 500, "Internal Auth Service Error"].
    destruct (is_success _); [congruence|]. by exists (ar_status r), "Unauthorized".
  - intros n Hn. rewrite Hv. unfold authorized. rewrite (proj2 (existsb_exists _ _)); [by destruct answer as [r|]; [destruct (is_success _)|]|].
    exists n. split; [by apply list_elem_of_In|apply String.eqb_refl].
  - intros n Hn. rewrite Hv. unfold authorized. destruct (existsb _ _) eqn:E; [|done].
    apply existsb_exists in E as (m & Hm%list_elem_of_In & <-%String.eqb_eq). done.
Qed.
End theorems.

(** ** Witnesses *)

Module AuthSample.
(** Hexadecimal instead of base 64. *)
Fixpoint hex (s : string) : string :=
  match s with
  | EmptyString => EmptyString
  | String c s' => String (lower_hex_digit (byte c / 16)) (String (lower_hex_digit (byte c mod 16)) (hex s'))
  end.
#[export] Instance base64 : Base64 := hex.
Definition hex_byte (c : ascii) : bool :=
  bool_decide (to_digit 16 (lower_hex_digit (byte c / 16)) = Some (byte c / 16)) &&
  bool_decide (to_digit 16 (lower_hex_digit (byte c mod 16)) = Some (byte c mod 16)) &&
  in_range 33 126 (lower_hex_digit (byte c / 16)) && in_range 33 126 (lower_hex_digit (byte c mod 16)).
Lemma hex_bytes c : hex_byte c = true.
Proof. destruct c as [[][][][][][][][]]; vm_compute; reflexivity. Qed.
#[export] Instance base64_laws : Base64Laws.
Proof.
  assert (forall c, to_digit 16 (lower_hex_digit (byte c / 16)) = Some (byte c / 16) /\
    to_digit 16 (lower_hex_digit (byte c mod 16)) = Some (byte c mod 16) /\
    in_range 33 126 (lower_hex_digit (byte c / 16)) = true /\ in_range 33 126 (lower_hex_digit (byte c mod 16)) = true) as Hb.
  { intros c. pose proof (hex_bytes c) as Hc. unfold hex_byte in Hc.
    apply andb_true_iff in Hc as [[[H1%bool_decide_eq_true H2%bool_decide_eq_true]%andb_true_iff H3]%andb_true_iff H4]. done. }
  constructor.
  - intros s. induction s as [|c s IH]; intros [|c' t]; [done..|]. intros [= E1 E2 E3]. f_equal; [|by apply IH].
    destruct (Hb c) as (D1 & D2 & _), (Hb c') as (D1' & D2' & _). rewrite E1, D1' in D1. rewrite E2, D2' in D2.
    injection D1 as D1. injection D2 as D2. rewrite <- (ascii_N_embedding c), <- (ascii_N_embedding c'). f_equal. unfold byte in *.
    rewrite (N.div_mod (N_of_ascii c) 16), (N.div_mod (N_of_ascii c') 16) by lia. congruence.
  - intros s. induction s as [|c s IH]; [done|]. change (str_all ?f (base64_encode (String c s))) with
      (f (lower_hex_digit (byte c / 16)) && (f (lower_hex_digit (byte c mod 16)) && str_all f (base64_encode s))).
    destruct (Hb c) as (_ & _ & -> & ->). exact IH.
  - by intros [].
Qed.
Definition spec : @PluginSpec Toy.crates := @mkPluginSpec Toy.crates "auth" (@to_value Toy.crates JNull).
#[export] Instance basic_config : @FromValue Toy.crates BasicAuthPluginConfig := fun _ => Ok (mkBasicAuthPluginConfig "u" "p" "r").
Definition basic : BasicAuthPlugin := mkBasicAuthPlugin (base64_encode "u:p") ("Basic realm=" +:+ byte1 34 +:+ "r" +:+ byte1 34).
Definition good : HeaderMap := [("authorization", "basic 753a70")].
Definition bad : HeaderMap := [("authorization", "Basic 753a71")].

(** Tokens are accepted when they name the issuer and the key; the scope follows. *)
#[export] Instance jwt : Jwt := {|
  algorithm_from_str s := if String.eqb s "HS256" then Ok HS256 else Err "InvalidAlgorithmName";
  validation_new a := mkValidation a {["exp"]} None None None;
  DecodingKey := string; from_secret s := s; from_rsa_pem s := Ok s; from_ec_pem s := Ok s; from_ed_pem s := Ok s;
  jwt_decode token key _ := ok_or ((fun s => Some s) <$> strip_prefix ("me." +:+ key +:+ ".") token) "InvalidSignature";
  fs_read _ := Err "not found"
|}.
Definition jwt_config : JwtAuthPluginConfig := mkJwtAuthPluginConfig "HS256" (Some "k") None (Some "me") [] None ["read"].
#[export] Instance jwt_from_value : @FromValue Toy.crates JwtAuthPluginConfig := fun _ => Ok jwt_config.
Definition jwt_plugin : @JwtAuthPlugin jwt :=
  @mkJwtAuthPlugin jwt "k" (mkValidation HS256 ({["iss"]} ∪ {["exp"]}) (Some {["me"]}) None None) ["read"].

(** An authorizer that accepts requests with a cookie. *)
#[export] Instance auth_client : @AuthClient Toy.crates := {|
  Host := string; host_parse s := Some s; url_host u := @url_host_str Toy.crates u;
  Client := AuthClientBuilder; client_build b := Ok b;
  client_get _ _ headers := Ok (mkAuthResponse (if is_nil headers then 403 else 200) [("x-user", "alice")])
|}.
Definition ext_config : ExtAuthzPluginConfig := mkExtAuthzPluginConfig "http://auth.test/" None ["auth.test"] ["cookie"] ["x-user"].
#[export] Instance ext_from_value : @FromValue Toy.crates ExtAuthzPluginConfig := fun _ => Ok ext_config.
Definition ext_plugin : result PluginBuildError (@ExtAuthzPlugin Toy.crates auth_client) :=
  @ExtAuthz_build Toy.crates auth_client ToyPlugins.http_errors ext_from_value spec.
Definition dummy : @ExtAuthzPlugin Toy.crates auth_client :=
  @mkExtAuthzPlugin Toy.crates auth_client Client_builder (Toy.mkUrl "" "" None "") [] [].
Definition ext : @ExtAuthzPlugin Toy.crates auth_client := match ext_plugin with Ok p => p | Err _ => dummy end.
Definition forged : HeaderMap := [("cookie", "c"); ("x-user", "root")].
Lemma ext_accepted : match ext_plugin with Ok _ => true | Err _ => false end = true.
Proof. vm_compute. reflexivity. Qed.
Lemma ext_built : @ExtAuthz_build Toy.crates auth_client ToyPlugins.http_errors ext_from_value spec = Ok ext.
Proof. change (ext_plugin = Ok ext). unfold ext. pose proof ext_accepted. by destruct ext_plugin. Qed.
Lemma ext_decoded : @from_value Toy.crates _ ext_from_value (plugin_config spec) = Ok ext_config.
Proof. reflexivity. Qed.
Lemma ext_accepts : snd (@ExtAuthz_on_request Toy.crates auth_client HeaderMap _ ext forged) = Ok Continue.
Proof. vm_compute. reflexivity. Qed.
Lemma ext_refuses :
  snd (@ExtAuthz_on_request Toy.crates auth_client HeaderMap _ ext []) = Ok (Respond (LocalResponse_new 403 "Unauthorized")).
Proof. vm_compute. reflexivity. Qed.
Lemma ext_identity : hm_values "x-user" (fst (@ExtAuthz_on_request Toy.crates auth_client HeaderMap _ ext forged)) = ["alice"].
Proof. vm_compute. reflexivity. Qed.
End AuthSample.

Lemma basic_auth_exact_witness :
  snd (@BasicAuth_on_request Toy.crates HeaderMap _ AuthSample.basic AuthSample.good) = Ok Continue /\
  exists r, snd (@BasicAuth_on_request Toy.crates HeaderMap _ AuthSample.basic AuthSample.bad) = Ok (Respond r) /\ lr_status r = 401.
Proof.
  assert (@basic_auth_built Toy.crates ToyPlugins.http_errors AuthSample.base64 AuthSample.basic_config (mkBasicAuthPluginConfig "u" "p" "r") AuthSample.basic) as Hb
    by (exists AuthSample.spec; split; vm_compute; reflexivity).
  split; [vm_compute; reflexivity|].
  destruct (@basic_auth_exact Toy.crates ToyPlugins.http_errors _ AuthSample.base64_laws AuthSample.basic_config HeaderMap _ _ AuthSample.basic AuthSample.bad Hb)
    as (_ & _ & Hr & _). destruct Hr as (r & Hr & Hs & _); [by vm_compute|]. by exists r.
Defined.

Lemma jwt_auth_enforced_witness :
  (exists key, @configured_key AuthSample.jwt AuthSample.jwt_config key) /\
  snd (@JwtAuth_on_request AuthSample.jwt HeaderMap _ (fun _ => true) AuthSample.jwt_plugin [("authorization", "Bearer me.k.read write")]) = Ok Continue /\
  (exists r, snd (@JwtAuth_on_request AuthSample.jwt HeaderMap _ (fun _ => true) AuthSample.jwt_plugin [("authorization", "Bearer me..read")]) = Ok (Respond r)
    /\ lr_status r = 401) /\
  (exists r, snd (@JwtAuth_on_request AuthSample.jwt HeaderMap _ (fun _ => true) AuthSample.jwt_plugin [("authorization", "Bearer me.k.write")]) = Ok (Respond r)
    /\ lr_status r = 401).
Proof.
  pose proof (fun h => @jwt_auth_enforced Toy.crates AuthSample.jwt AuthSample.jwt_from_value HeaderMap _ (fun _ => true) AuthSample.spec
    AuthSample.jwt_config AuthSample.jwt_plugin h eq_refl eq_refl) as Ht.
  split_and!.
  - destruct (Ht []) as (key & _ & Hk & _). by exists key.
  - vm_compute. reflexivity.
  - destruct (Ht [("authorization", "Bearer me..read")]) as (_ & _ & _ & _ & _ & _ & Hr). apply Hr. by vm_compute.
  - destruct (Ht [("authorization", "Bearer me.k.write")]) as (_ & _ & _ & _ & _ & _ & Hr). apply Hr. by vm_compute.
Defined.

Lemma ext_authz_gate_witness :
  snd (@ExtAuthz_on_request Toy.crates AuthSample.auth_client HeaderMap _ AuthSample.ext AuthSample.forged) = Ok Continue /\
  hm_values "x-user" (fst (@ExtAuthz_on_request Toy.crates AuthSample.auth_client HeaderMap _ AuthSample.ext AuthSample.forged)) = ["alice"] /\
  (exists client uri passed owned, @authorizer Toy.crates AuthSample.auth_client AuthSample.ext_config client uri passed owned) /\
  snd (@ExtAuthz_on_request Toy.crates AuthSample.auth_client HeaderMap _ AuthSample.ext []) = Ok (Respond (LocalResponse_new 403 "Unauthorized")).
Proof.
  pose proof (@ext_authz_gate Toy.crates ToyPlugins.http_errors AuthSample.auth_client AuthSample.ext_from_value HeaderMap _ _
    AuthSample.spec AuthSample.ext_config AuthSample.ext AuthSample.forged AuthSample.ext_decoded AuthSample.ext_built) as Ht.
  split; [exact AuthSample.ext_accepts|]. split; [exact AuthSample.ext_identity|]. split; [|exact AuthSample.ext_refuses].
  destruct Ht as (client & uri & passed & owned & Ha & _). by exists client, uri, passed, owned.
Defined.
