(* ===== verification/ScpRouting.v ===== *)
(** * SCP requests and exchanges
    (crates/ngxora-runtime/src/upstreams/scp/request.rs and scp.rs)

    A request to a service communication proxy is parsed and checked before any
    destination is chosen, then routed to an allowed target or to a producer that
    discovery returned; a failed connection may be retried once.  Discovery itself
    (the groups behind the bounded cache, their refresh and their load balancer) is
    the interface [ScpGroups]. *)

From S2P Require Import Prelude RustStr NetAddr Crates Headers PluginApi Ir Types HttpRoutes Routing Scp.
From S2P Require Import CompileUpstreams CompileRoutes CompileRouter Control.

Open Scope N_scope.

Definition MAX_CACHE_ENTRIES : nat := 256.
Definition IDLE_TTL : N := from_secs 300.
Definition DISCOVERY : string := "3gpp-sbi-discovery-".
Definition TARGET : string := "3gpp-sbi-target-apiroot".

Record ScpError := mkScpError { se_status : N; se_cause : string; se_detail : string }.
Definition ScpError_invalid (detail : string) : ScpError := mkScpError 400 "MANDATORY_IE_INCORRECT" detail.
Definition nrf_unreachable : ScpError := mkScpError 504 "NRF_NOT_REACHABLE" "No usable NRF snapshot".
Definition target_unreachable : ScpError :=
  mkScpError 504 "TARGET_NF_NOT_REACHABLE" "No reachable target in the allowed routing domain".
Definition loop_error : ScpError := mkScpError 508 "UNSPECIFIED_MSG_FAILURE" "SCP routing loop".

(** The result type of this file. *)
Abbreviation scp A := (result ScpError A).

Definition ScpError_response `{Crates} (e : ScpError) (identity : string) : LocalResponse :=
  let response := LocalResponse_new (se_status e) "" in
  let response := push_header response "content-type" "application/problem+json" in
  let response := push_header response "server" ("SCP-" +:+ identity) in
  let body := to_value (JObject [("status", JInt (Z.of_N (se_status e))); ("cause", JString (se_cause e)); ("detail", JString (se_detail e))]) in
  mkLocalResponse (lr_status response) (lr_headers response) (default "" (ok (json_to_string body))).

(** [s.replace(pat, by_)] for a non-empty pattern; [skip] bytes of a match are left. *)
Fixpoint replace_go (pat by_ : string) (skip : nat) (s : string) : string :=
  match s with
  | EmptyString => EmptyString
  | String c s' =>
      match skip with
      | S skip' => replace_go pat by_ skip' s'
      | O => if starts_with pat s then by_ +:+ replace_go pat by_ (String.length pat - 1) s'
             else String c (replace_go pat by_ 0 s')
      end
  end.
Definition replace (pat by_ s : string) : string := replace_go pat by_ 0 s.

(** ** Requests *)

Section request.
Context `{Crates}.

Definition single (headers : HeaderMap) (name : string) : scp (option string) :=
  match get_all name headers with
  | [] => Ok None
  | [first] =>
      value ← ok_or (header_to_str first) (ScpError_invalid ("Invalid " +:+ name));
      let value := trim value in
      _ ← fail_if (is_empty value || (2048 <? str_len value)) (ScpError_invalid ("Invalid " +:+ name));
      Ok (Some value)
  | _ => Err (ScpError_invalid ("Duplicate " +:+ name))
  end.

Definition token (value : string) : bool :=
  negb (is_empty value) && (str_len value <=? 256)
  && str_all (fun b => is_ascii_alphanumeric b || contains_char b "-_.") value.

Record Binding := mkBinding { bi_nf : option string; bi_service : option string; bi_service_name : option string }.

Definition binding_field (fields : gmap string string) (part : string) : scp (gmap string string) :=
  '(key, value) ← ok_or (split_once "=" (trim part)) (ScpError_invalid "Malformed routing binding");
  _ ← fail_if (negb (token value) || is_some (fields !! key)) (ScpError_invalid "Invalid or duplicate binding parameter");
  _ ← fail_if (negb (existsb (String.eqb key) ["bl"; "nfinst"; "nfservinst"; "servname"]))
        (ScpError_invalid "Unsupported binding parameter");
  Ok (<[key := value]> fields).
Definition binding (value : string) : scp Binding :=
  fields ← try_fold binding_field ∅ (split_on ";" value);
  let level := default "" (fields !! "bl") in
  _ ← fail_if (negb (String.eqb level "nf-instance" || String.eqb level "nfservice-instance")
               || is_none (fields !! "nfinst")
               || (String.eqb level "nfservice-instance" && is_none (fields !! "nfservinst"))
               || (String.eqb level "nf-instance" && is_some (fields !! "nfservinst")))
        (ScpError_invalid "Unsupported or incomplete routing binding");
  Ok (mkBinding (fields !! "nfinst") (fields !! "nfservinst") (fields !! "servname")).

Record NrfQuery := mkNrfQuery {
  nq_nf_instance_id : option string;
  nq_requester_instance_id : option string;
  nq_service_instance_id : option string;
  nq_api_version : string;
  nq_service_names : list string
}.
#[global] Instance NrfQuery_eq_dec : EqDecision NrfQuery.
Proof. solve_decision. Defined.

Record ScpRequest := mkScpRequest {
  sq_target : option ApiRoot;
  sq_target_type : option string;
  sq_requester_type : option string;
  sq_query : NrfQuery;
  sq_discovery : bool;
  sq_bound : bool;
  sq_path_query : string;
  sq_hops : N
}.

(** The loop over the header names. *)
Definition check_header_name (name : string) : scp unit :=
  _ ← match strip_prefix DISCOVERY name with
      | Some selector =>
          fail_if (negb (existsb (String.eqb selector)
                     ["target-nf-type"; "requester-nf-type"; "service-names"; "target-nf-instance-id"; "requester-nf-instance-id"]))
            (mkScpError 400 "INVALID_DISCOVERY_PARAM" "Unsupported discovery parameter")
      | None => Ok tt
      end;
  fail_if (existsb (String.eqb name) ["3gpp-sbi-nrf-uri"; "3gpp-sbi-scp-apiroot"; "3gpp-sbi-selection-info"])
    (ScpError_invalid "Request-driven NRF or next-hop selection is unsupported").

Definition same_authority (a b : ApiRoot) : bool := String.eqb (ar_host a) (ar_host b) && (ar_port a =? ar_port b).

(** The path below the SCP's own root, free of traversals. *)
Definition request_path (uri : Uri) (root : ApiRoot) : scp string :=
  path ← ok_or (match strip_prefix (ar_prefix root) (uri_path uri) with
                | Some p => if is_empty p || starts_with "/" p then Some p else None
                | None => None
                end) (ScpError_invalid "Request path is outside the configured SCP apiRoot");
  let path := if is_empty path then "/" else path in
  let checked_path := replace "%2e" "." (to_ascii_lowercase path) in
  _ ← fail_if (contains_char (ascii_of_N 92) checked_path || contains_str "%2f" checked_path || contains_str "%5c" checked_path
               || existsb (fun segment => String.eqb segment "." || String.eqb segment "..") (split_on "/" checked_path))
        (ScpError_invalid "Ambiguous or traversing request path");
  Ok path.

(** The query without its [ck] parameters. *)
Definition request_path_query (path : string) (query : option string) : string :=
  let query := (fun q => join "&" (List.filter (fun part => negb (String.eqb (default "" (head (split_on "=" part))) "ck")) (split_on "&" q))) <$> query in
  match query with
  | Some q => if is_empty q then path else path +:+ "?" +:+ q
  | None => path
  end.

Definition add_selector (headers : HeaderMap) (selectors : gmap string string) (name : string) : scp (gmap string string) :=
  value ← single headers (DISCOVERY +:+ name);
  match value with
  | Some value => _ ← fail_if (negb (token value)) (ScpError_invalid "Invalid discovery selector"); Ok (<[name := value]> selectors)
  | None => Ok selectors
  end.

(** [/service/vN/resource]. *)
Definition api_of_path (path : string) : scp (string * string) :=
  let parts := split_on "/" (trim_start_matches "/" path) in
  let service := default "" (head parts) in
  let version := default "" (parts !! 1%nat) in
  _ ← fail_if (negb (token service)
               || negb (match strip_prefix "v" version with
                        | Some v => negb (is_empty v) && str_all is_ascii_digit v
                        | None => false
                        end))
        (mkScpError 400 "INVALID_API" "Expected /service/vN/resource");
  Ok (service, version).

Definition ScpRequest_parse (headers : HeaderMap) (method : string) (uri : Uri) (root : ApiRoot) : scp ScpRequest :=
  _ ← fail_if (String.eqb method "CONNECT") (mkScpError 405 "UNSPECIFIED_MSG_FAILURE" "CONNECT is not supported by SCP");
  _ ← try_fold (fun _ name => check_header_name name) tt (fst <$> headers);
  target ← single headers TARGET;
  target ← transpose ((fun v => map_err ScpError_invalid (ApiRoot_parse v)) <$> target);
  _ ← fail_if (match target with Some t => same_authority t root | None => false end) loop_error;
  hops ← single headers "3gpp-sbi-max-forward-hops";
  hops ← transpose ((fun v => ok_or (parse_uint 255 v) (ScpError_invalid "Invalid hop count")) <$> hops);
  let hops := default 1 hops in
  _ ← fail_if (hops =? 0) (mkScpError 508 "UNSPECIFIED_MSG_FAILURE" "SCP hop limit exhausted");
  path ← request_path uri root;
  let path_query := request_path_query path (uri_query uri) in
  selectors ← try_fold (add_selector headers) ∅
                ["target-nf-type"; "requester-nf-type"; "target-nf-instance-id"; "requester-nf-instance-id"];
  names ← single headers "3gpp-sbi-discovery-service-names";
  bound ← single headers "3gpp-sbi-routing-binding";
  bound ← transpose (binding <$> bound);
  let discovery := is_none target || negb (bool_decide (selectors = ∅)) || is_some names || is_some bound in
  let service_names := default [] ((fun v => trim <$> split_on "," v) <$> names) in
  _ ← fail_if (existsb (fun n => negb (token n)) service_names || (16 <? N.of_nat (length service_names))
               || negb (bool_decide (NoDup service_names))) (ScpError_invalid "Invalid service-names");
  '(api_version, service_names) ←
    (if discovery || is_none target then
       '(service, version) ← api_of_path path;
       let service_names := if is_nil service_names then [service] else service_names in
       _ ← fail_if (negb (bool_decide (head service_names = Some service)))
             (mkScpError 400 "INVALID_API" "First service name differs from request API");
       Ok (version, service_names)
     else Ok ("", service_names));
  let nf_instance_id := selectors !! "target-nf-instance-id" in
  '(nf_instance_id, service_instance_id) ←
    match bound with
    | Some b =>
        _ ← fail_if ((is_some nf_instance_id && negb (bool_decide (nf_instance_id = bi_nf b)))
                     || (is_some (bi_service_name b) && negb (bool_decide (bi_service_name b = head service_names))))
              (ScpError_invalid "Binding conflicts with discovery");
        Ok (bi_nf b, bi_service b)
    | None => Ok (nf_instance_id, None)
    end;
  Ok (mkScpRequest target (selectors !! "target-nf-type") (selectors !! "requester-nf-type")
        (mkNrfQuery nf_instance_id (selectors !! "requester-nf-instance-id") service_instance_id api_version service_names)
        discovery (is_some bound) path_query (hops - 1)).
End request.

(** ** Discovery groups *)

(** A producer group of a discovery query, behind an [Arc]: its candidates and
    state change with the world [W] (the refreshes that ran, the clock). *)
Class ScpGroups `{RuntimeDeps} (W : Type) := {
  ScpGroup : Type;
  (** [RuntimeUpstreamGroup::from_compiled_query] *)
  scp_group_new : W -> CompiledUpstreamGroup -> NrfQuery -> W * result string ScpGroup;
  scp_group_hash_key : W -> ScpGroup -> option UpstreamHashKey;
  scp_candidates : W -> ScpGroup -> list CompiledUpstreamServer;
  scp_status : W -> ScpGroup -> scp unit;
  (** selecting moves the balancers on *)
  scp_select : W -> ScpGroup -> string -> (CompiledUpstreamServer -> bool) -> W * option CompiledUpstreamServer;
  (** the refresh of a group under a time-out, [false] when it expires *)
  scp_refresh : W -> ScpGroup -> N -> W * bool;
  scp_now : W -> N;
  (** [Arc::strong_count] of a cached group *)
  scp_strong_count : W -> ScpGroup -> N
}.

(** What the load balancer of a group promises: it answers a backend that the caller
    accepts, and none while the group has no valid snapshot. *)
Class ScpGroupLaws `{ScpGroups} := {
  scp_select_accepted : forall w g key accept w' b, scp_select w g key accept = (w', Some b) -> accept b = true;
  scp_select_status : forall w g key accept w' b, scp_select w g key accept = (w', Some b) -> scp_status w g = Ok tt
}.

Definition template_scheme `{Crates} (template : CompiledUpstreamGroup) : string :=
  match cn_endpoint_scheme <$> g_nrf_discovery template with Some NrfHttps => "https" | _ => "http" end.

Definition backend_root `{Crates} (backend : CompiledUpstreamServer) (scheme : string) : option ApiRoot :=
  let host := default (cs_host backend) (nrf_service backend ≫= authority) in
  let host := if contains_char ":" host then "[" +:+ host +:+ "]" else host in
  ok (ApiRoot_parse (scheme +:+ "://" +:+ host +:+ ":" +:+ pretty (cs_port backend) +:+ default "" (api_prefix backend))).

Section route.
Context `{RuntimeDeps} {W : Type} `{!ScpGroups W}.

(** *** The discovery cache *)

Record ScpCacheKey := mkScpCacheKey { ck_upstream : string; ck_query : NrfQuery }.
#[global] Instance ScpCacheKey_eq_dec : EqDecision ScpCacheKey.
Proof. solve_decision. Defined.
Record ScpCacheEntry := mkScpCacheEntry { ce_group : ScpGroup; ce_last_used : N }.
(** The entries of the hash map, in its iteration order. *)
Abbreviation ScpCache := (list (ScpCacheKey * ScpCacheEntry)).

Definition cache_find (key : ScpCacheKey) (cache : ScpCache) : option ScpCacheEntry :=
  snd <$> List.find (fun e => bool_decide (fst e = key)) cache.
Definition cache_remove (key : ScpCacheKey) (cache : ScpCache) : ScpCache :=
  List.filter (fun e => negb (bool_decide (fst e = key))) cache.
Definition cache_touch (now : N) (key : ScpCacheKey) (cache : ScpCache) : ScpCache :=
  (fun e => if bool_decide (fst e = key) then (fst e, mkScpCacheEntry (ce_group (snd e)) now) else e) <$> cache.

(** The least recently used entry that no request holds. *)
Definition older (best : option (ScpCacheKey * ScpCacheEntry)) (e : ScpCacheKey * ScpCacheEntry) :=
  match best with
  | Some b => if ce_last_used (snd e) <? ce_last_used (snd b) then Some e else Some b
  | None => Some e
  end.
Definition evictable (w : W) (cache : ScpCache) : option ScpCacheKey :=
  fst <$> foldl older None (List.filter (fun e => scp_strong_count w (ce_group (snd e)) =? 1) cache).

Definition template_matches (request : ScpRequest) (g : CompiledUpstreamGroup) : bool :=
  match g_nrf_discovery g with
  | Some nrf =>
      bool_decide (head (nq_service_names (sq_query request)) = Some (cn_service_name nrf))
      && match sq_target_type request with Some t => String.eqb t (cn_target_nf_type nrf) | None => true end
      && match sq_requester_type request with Some t => String.eqb t (cn_requester_nf_type nrf) | None => true end
  | None => false (* validated: every template has it *)
  end.
Definition domain_allows (templates : list CompiledUpstreamGroup) (selected : CompiledUpstreamGroup) (name : string) : bool :=
  existsb (fun g =>
    match g_nrf_discovery g, g_nrf_discovery selected with
    | Some nrf, Some sel => String.eqb (cn_service_name nrf) name && String.eqb (cn_target_nf_type nrf) (cn_target_nf_type sel)
                            && String.eqb (cn_requester_nf_type nrf) (cn_requester_nf_type sel)
    | _, _ => false
    end) templates.
Definition scp_template (p : RuntimeScp) (request : ScpRequest) : scp CompiledUpstreamGroup :=
  match List.filter (template_matches request) (rs_templates p) with
  | [selected] =>
      _ ← fail_if (existsb (fun name => negb (domain_allows (rs_templates p) selected name)) (nq_service_names (sq_query request)))
            (mkScpError 403 "UNSPECIFIED_MSG_FAILURE" "Service is outside the allowed discovery domain");
      Ok selected
  | _ => Err (mkScpError 403 "UNSPECIFIED_MSG_FAILURE"
                "Discovery factors must identify one allowed NF/service/requester combination")
  end.

(** The critical section of [discovered]: the cached group of the query, made and
    inserted (after an eviction when the cache is full) if there is none. *)
Definition cached_group (p : RuntimeScp) (w : W) (cache : ScpCache) (template : CompiledUpstreamGroup) (key : ScpCacheKey)
  : W * ScpCache * scp ScpGroup :=
  match cache_find key cache with
  | Some entry => (w, cache_touch (scp_now w) key cache, Ok (ce_group entry))
  | None =>
      let room := if (length cache =? MAX_CACHE_ENTRIES)%nat then
                    match evictable w cache with Some victim => Some (cache_remove victim cache) | None => None end
                  else Some cache in
      match room with
      | None => (w, cache, Err (mkScpError 503 "SCP_CONGESTION" "Discovery cache is busy"))
      | Some cache =>
          let compiled := mkCompiledUpstreamGroup (g_allow_empty template) (scp_name (rs_config p)) (g_policy template)
                            (g_hash_key template) (g_servers template) (g_nrf_discovery template) (g_health_check template) in
          let '(w, group) := scp_group_new w compiled (ck_query key) in
          match group with
          | Err e => (w, cache, Err (mkScpError 500 "SYSTEM_FAILURE" e))
          | Ok group => (w, cache ++ [(key, mkScpCacheEntry group (scp_now w))], Ok group)
          end
      end
  end.

Definition discovered (p : RuntimeScp) (w : W) (cache : ScpCache) (request : ScpRequest) : W * ScpCache * scp ScpGroup :=
  match scp_template p request with
  | Err e => (w, cache, Err e)
  | Ok template =>
      let '(w, cache, group) := cached_group p w cache template (mkScpCacheKey (g_name template) (sq_query request)) in
      match group with
      | Err e => (w, cache, Err e)
      | Ok group =>
          let '(w, refreshed) :=
            if is_ok (scp_status w group) then (w, true)
            else scp_refresh w group (default 0 (cn_timeout <$> g_nrf_discovery template)) in
          (w, cache, _ ← fail_if (negb refreshed) nrf_unreachable; _ ← scp_status w group; Ok group)
      end
  end.

(** [maintain]: entries idle for five minutes that no request holds are dropped; the
    cache that remains, the entry count reported, and the groups whose refresh starts. *)
Definition maintain (w : W) (cache : ScpCache) : ScpCache * nat * list ScpGroup :=
  let cache := List.filter (fun e => (elapsed (scp_now w) (ce_last_used (snd e)) <? IDLE_TTL)
                                     || (1 <? scp_strong_count w (ce_group (snd e)))) cache in
  (cache, length cache, (fun e => ce_group (snd e)) <$> cache).

(** *** Exchanges *)

Record ScpExchange := mkScpExchange {
  sx_profile : RuntimeScp;
  sx_request : ScpRequest;
  sx_root : ApiRoot;
  sx_backend : CompiledUpstreamServer;
  sx_group : option ScpGroup;
  sx_key : string;
  sx_attempted : list CompiledUpstreamServer
}.

Definition has_root (scheme : string) (root : ApiRoot) (b : CompiledUpstreamServer) : bool :=
  bool_decide (backend_root b scheme = Some root).

(** The search of the cached groups for a target that discovery returned before. *)
Fixpoint search_cache (p : RuntimeScp) (w : W) (request : ScpRequest) (root : ApiRoot) (client_ip : string)
    (seen cache : ScpCache) (unavailable : option ScpError) : W * ScpCache * scp ScpExchange :=
  match cache with
  | [] => (w, seen, Err (default (mkScpError 403 "UNSPECIFIED_MSG_FAILURE" "Target apiRoot is not authorized by this profile") unavailable))
  | (key, entry) :: cache' =>
      let scheme := default "http" (template_scheme <$> List.find (fun g => String.eqb (g_name g) (ck_upstream key)) (rs_templates p)) in
      if existsb (has_root scheme root) (scp_candidates w (ce_group entry)) then
        let touched := (key, mkScpCacheEntry (ce_group entry) (scp_now w)) in
        let unavailable := match scp_status w (ce_group entry) with Err e => e | Ok _ => target_unreachable end in
        let '(w, selected) := scp_select w (ce_group entry) client_ip (has_root scheme root) in
        match selected with
        | Some backend =>
            (w, seen ++ touched :: cache', Ok (mkScpExchange p request root backend (Some (ce_group entry)) client_ip []))
        | None => search_cache p w request root client_ip (seen ++ [touched]) cache' (Some unavailable)
        end
      else search_cache p w request root client_ip (seen ++ [(key, entry)]) cache' unavailable
  end.

(** The end of [route]: a producer among the discovered ones. *)
Definition route_discovered (p : RuntimeScp) (w : W) (request : ScpRequest) (group : ScpGroup) (headers : HeaderMap) (client_ip : string)
  : W * scp ScpExchange :=
  match (key ← match scp_group_hash_key w group with
               | Some (HashHeader name) => v ← single headers (to_ascii_lowercase name); Ok (default client_ip v)
               | _ => Ok client_ip
               end;
         template ← scp_template p request;
         Ok (key, template_scheme template)) with
  | Err e => (w, Err e)
  | Ok (key, scheme) =>
      let '(w, first) := match sq_target request with Some target => scp_select w group key (has_root scheme target) | None => (w, None) end in
      if is_none first && match sq_target request with
                          | Some target => negb (existsb (has_root scheme target) (scp_candidates w group))
                          | None => false
                          end then (w, Err (ScpError_invalid "Target conflicts with discovery or binding"))
      else
        let '(w, backend) := match first with Some b => (w, Some b) | None => scp_select w group key (fun _ => true) end in
        (w, backend ← ok_or backend target_unreachable;
            root ← ok_or (backend_root backend scheme) (mkScpError 502 "SYSTEM_FAILURE" "NRF returned an invalid target authority");
            _ ← fail_if (same_authority root (rs_root p)) loop_error;
            Ok (mkScpExchange p request root backend (Some group) key []))
  end.

Definition scp_route (p : RuntimeScp) (w : W) (cache : ScpCache) (request : ScpRequest) (headers : HeaderMap) (client_ip : string)
  : W * ScpCache * scp ScpExchange :=
  match sq_discovery request, sq_target request with
  | false, Some root =>
      if bool_decide (root ∈ rs_allowed p) then
        (w, cache, Ok (mkScpExchange p request root (ApiRoot_backend root) None "" []))
      else
        search_cache p w request root client_ip [] cache None
  | _, _ =>
      let '(w, cache, group) := discovered p w cache request in
      match group with
      | Err e => (w, cache, Err e)
      | Ok group => let '(w, r) := route_discovered p w request group headers client_ip in (w, cache, r)
      end
  end.

(** [retry_connect]: one more producer after a failed connection. *)
Definition retry_connect (w : W) (x : ScpExchange) : W * ScpExchange * bool :=
  match sx_attempted x, sx_group x with
  | [], Some group =>
      let attempted := [sx_backend x] in
      let accept b := negb (bool_decide (b ∈ attempted))
                      && (sq_discovery (sx_request x)
                          || bool_decide (backend_root b (ar_scheme (sx_root x)) = sq_target (sx_request x))) in
      let tried := mkScpExchange (sx_profile x) (sx_request x) (sx_root x) (sx_backend x) (sx_group x) (sx_key x) attempted in
      let '(w, selected) := scp_select w group (sx_key x) accept in
      match selected with
      | None => (w, tried, false)
      | Some backend =>
          match backend_root backend (ar_scheme (sx_root x)) with
          | None => (w, tried, false)
          | Some root =>
              if same_authority root (rs_root (sx_profile x)) then (w, tried, false)
              else (w, mkScpExchange (sx_profile x) (sx_request x) root backend (sx_group x) (sx_key x) attempted, true)
          end
      end
  | _, _ => (w, x, false)
  end.

Definition upstream_uri (x : ScpExchange) : scp Uri :=
  map_err (fun _ => ScpError_invalid "Invalid upstream URI")
    (uri_parse (ar_scheme (sx_root x) +:+ "://" +:+ ApiRoot_authority (sx_root x) +:+ ar_prefix (sx_root x)
                +:+ sq_path_query (sx_request x))).

(** [request_headers]: nothing that steers routing goes on to the producer. *)
Definition steering (name : string) : bool :=
  String.eqb name TARGET || starts_with DISCOVERY name || String.eqb name "3gpp-sbi-routing-binding".
Definition scp_request_headers (x : ScpExchange) (headers : HeaderMap) : result PError HeaderMap :=
  let headers := List.filter (fun p => negb (steering (fst p))) headers in
  headers ← insert_header "host" (ApiRoot_authority (sx_root x)) headers;
  insert_header "3gpp-sbi-max-forward-hops" (pretty (sq_hops (sx_request x))) headers.

Definition scp_response_headers (x : ScpExchange) (headers : HeaderMap) : result PError HeaderMap :=
  headers ← match nrf_service (sx_backend x) with
            | Some metadata => insert_header "3gpp-sbi-producer-id"
                ("nfinst=" +:+ nf_instance_id metadata +:+ "; nfservinst=" +:+ service_instance_id metadata) headers
            | None => Ok headers
            end;
  if negb (contains_key "location" headers)
     && (sq_discovery (sx_request x) || negb (bool_decide (sq_target (sx_request x) = Some (sx_root x))))
  then insert_header TARGET (ApiRoot_value (sx_root x)) headers else Ok headers.

(** ** Routing stays in the configured domain *)

Context `{!ScpGroupLaws}.

(** The group that a profile makes for a template and a query. *)
Definition renamed (p : RuntimeScp) (t : CompiledUpstreamGroup) : CompiledUpstreamGroup :=
  mkCompiledUpstreamGroup (g_allow_empty t) (scp_name (rs_config p)) (g_policy t) (g_hash_key t) (g_servers t) (g_nrf_discovery t) (g_health_check t).
Definition group_of_profile (p : RuntimeScp) (g : ScpGroup) : Prop :=
  exists t query w w', t ∈ rs_templates p /\ scp_group_new w (renamed p t) query = (w', Ok g).

Record scp_cache_ok (p : RuntimeScp) (cache : ScpCache) : Prop := mkScpCacheOk {
  sco_bound : (length cache <= MAX_CACHE_ENTRIES)%nat;
  sco_groups : Forall (fun e => group_of_profile p (ce_group (snd e))) cache
}.

(** A destination the profile allows: never the SCP itself; a configured root, or the
    root of a producer that a discovery of the profile selected; the requested target
    unless the request asked for discovery. *)
Record exchange_ok (x : ScpExchange) : Prop := mkExchangeOk {
  xo_loop : same_authority (sx_root x) (rs_root (sx_profile x)) = false;
  xo_domain : match sx_group x with
              | None => sx_root x ∈ rs_allowed (sx_profile x)
              | Some g => group_of_profile (sx_profile x) g /\
                  (exists w key accept w', scp_select w g key accept = (w', Some (sx_backend x))) /\
                  exists scheme, backend_root (sx_backend x) scheme = Some (sx_root x)
              end;
  xo_target : sq_discovery (sx_request x) = false -> sq_target (sx_request x) = Some (sx_root x)
}.

Lemma check_target_all root values roots roots' :
  try_fold (check_target root) roots values = Ok roots' ->
  Forall (fun v => exists t, ApiRoot_parse v = Ok t /\ same_authority t root = false) values.
Proof.
  revert roots. induction values as [|v values IH]; intros roots Hf; cbn [try_fold] in Hf; [constructor|].
  apply bind_Ok_inv in Hf as (roots1 & Hc & Hf). unfold check_target in Hc. inv_ok. constructor; [by exists a|by eapply IH].
Qed.

Lemma RuntimeScp_new_allowed generation config upstreams p t :
  RuntimeScp_new generation config upstreams = Ok p -> t ∈ rs_allowed p -> same_authority t (rs_root p) = false.
Proof.
  unfold RuntimeScp_new, validate_profile. intros Hn Ht. inv_ok. cbn [rs_allowed rs_root] in *.
  repeat match goal with H1 : ApiRoot_parse ?s = Ok ?a, H2 : ApiRoot_parse ?s = Ok ?b |- _ =>
    assert (a = b) by congruence; subst; clear H2 end.
  match goal with Hm : mapM _ _ = Ok _, Hc : try_fold (check_target _) _ _ = Ok _ |- _ =>
    apply mapM_Ok in Hm; apply check_target_all in Hc; apply list_elem_of_lookup in Ht as [i Hi];
    destruct (Forall2_lookup_r _ _ _ _ _ Hm Hi) as (v & Hv & Hp); destruct (Forall_lookup_1 _ _ _ _ Hc Hv) as (t' & Hp' & Hs) end.
  congruence.
Qed.

(** What a parsed request guarantees: it does not target the SCP, it has used up a
    hop, and its path is below the SCP's root without traversals. *)
Lemma ScpRequest_parse_ok headers method uri root request :
  ScpRequest_parse headers method uri root = Ok request ->
  (forall t, sq_target request = Some t -> same_authority t root = false) /\
  (exists v, single headers "3gpp-sbi-max-forward-hops" = Ok v /\
    match v with Some s => parse_uint 255 s = Some (sq_hops request + 1) | None => sq_hops request = 0 end) /\
  (exists path, request_path uri root = Ok path /\ sq_path_query request = request_path_query path (uri_query uri)) /\
  (sq_discovery request = false -> is_Some (sq_target request)).
Proof.
  unfold ScpRequest_parse. intros Hp.
  do 3 (apply bind_Ok_inv in Hp as (? & _ & Hp)). apply bind_Ok_inv in Hp as (target & _ & Hp).
  apply bind_Ok_inv in Hp as ([] & Hloop%fail_if_Ok & Hp). apply bind_Ok_inv in Hp as (raw & Hraw & Hp).
  apply bind_Ok_inv in Hp as (hops & Hh & Hp). apply bind_Ok_inv in Hp as ([] & Hz%fail_if_Ok & Hp).
  apply bind_Ok_inv in Hp as (path & Hpath & Hp). do 5 (apply bind_Ok_inv in Hp as (? & _ & Hp)).
  apply bind_Ok_inv in Hp as ([] & _ & Hp). apply bind_Ok_inv in Hp as ([] & _ & [= <-]).
  cbn [sq_target sq_hops sq_path_query sq_discovery]. split_and!.
  - intros t ->. exact Hloop.
  - exists raw. split; [done|]. apply transpose_Ok in Hh. destruct raw as [v|]; [|by subst hops].
    destruct Hh as (h & Hh%ok_or_Ok & ->). cbn in Hz |- *. apply N.eqb_neq in Hz. rewrite Hh. f_equal. lia.
  - by exists path.
  - destruct target; [done|]. cbn. done.
Qed.

Lemma group_of_profile_insert p t query g w w' :
  t ∈ rs_templates p -> scp_group_new w (renamed p t) query = (w', Ok g) -> group_of_profile p g.
Proof. intros Ht Hg. by exists t, query, w, w'. Qed.

Lemma scp_template_in p request t : scp_template p request = Ok t -> t ∈ rs_templates p.
Proof.
  unfold scp_template. destruct (List.filter _ _) as [|x [|]] eqn:E; [done| |done]. intros Ht. inv_ok.
  apply list_elem_of_In. eapply (proj1 (filter_In (template_matches request) t (rs_templates p))). rewrite E. by left.
Qed.

Lemma cache_ok_sub p cache cache' : scp_cache_ok p cache -> (length cache' <= length cache)%nat ->
  (forall e, e ∈ cache' -> exists e', e' ∈ cache /\ ce_group (snd e') = ce_group (snd e)) -> scp_cache_ok p cache'.
Proof.
  intros [Hb Hg] Hlen Hsub. constructor; [lia|]. apply Forall_forall. intros e He. destruct (Hsub e He) as (e' & He' & <-).
  by eapply Forall_forall in Hg.
Qed.

Lemma elem_of_filter_list {A} (f : A -> bool) l x : x ∈ List.filter f l -> x ∈ l /\ f x = true.
Proof. rewrite !list_elem_of_In. apply filter_In. Qed.

Lemma length_filter_list {A} (f : A -> bool) l : (length (List.filter f l) <= length l)%nat.
Proof. apply List.filter_length_le. Qed.

Lemma cache_remove_shorter key cache e :
  e ∈ cache -> fst e = key -> (length (cache_remove key cache) < length cache)%nat.
Proof.
  unfold cache_remove. induction 1 as [e cache|e e' cache He IH]; intros Hk; cbn [List.filter].
  - rewrite bool_decide_true by done. cbn. pose proof (length_filter_list (fun e => negb (bool_decide (fst e = key))) cache). lia.
  - specialize (IH Hk). destruct (negb (bool_decide (fst e' = key))); cbn; lia.
Qed.

Lemma older_in l best e : foldl older best l = Some e -> Some e = best \/ e ∈ l.
Proof.
  revert best. induction l as [|x l IH]; intros best Hf; cbn [foldl] in Hf; [by left|].
  destruct (IH _ Hf) as [E|?]; [|set_solver]. unfold older in E. destruct best as [b|]; [destruct (_ <? _)|]; simplify_eq; set_solver.
Qed.

Lemma evictable_in w cache key : evictable w cache = Some key -> exists e, e ∈ cache /\ fst e = key.
Proof.
  unfold evictable. destruct (foldl older None _) as [e|] eqn:E; [|done]. intros [= <-]. exists e.
  apply older_in in E as [?|E]; [done|]. apply elem_of_filter_list in E as [? _]. done.
Qed.

Lemma cached_group_ok p w cache template key w' cache' r :
  scp_cache_ok p cache -> template ∈ rs_templates p -> cached_group p w cache template key = (w', cache', r) ->
  scp_cache_ok p cache' /\ forall g, r = Ok g -> group_of_profile p g.
Proof.
  intros Hok Ht. unfold cached_group, cache_find. destruct (List.find _ cache) as [[k e]|] eqn:Ef; cbn [fmap option_fmap option_map snd].
  - intros [= <- <- <-]. apply find_some in Ef as [Hin _]. apply list_elem_of_In in Hin. split.
    + apply (cache_ok_sub p cache); [done|unfold cache_touch; by rewrite length_fmap|].
      intros x (y & -> & Hy)%list_elem_of_fmap. exists y. split; [done|]. by destruct (bool_decide _).
    + intros g [= <-]. destruct Hok as [_ Hg]. eapply Forall_forall in Hg; [|exact Hin]. exact Hg.
  - set (room := if (length cache =? MAX_CACHE_ENTRIES)%nat then _ else Some cache).
    assert (forall c, room = Some c -> scp_cache_ok p c /\ (length c < MAX_CACHE_ENTRIES)%nat) as Hroom.
    { subst room. destruct (Nat.eqb_spec (length cache) MAX_CACHE_ENTRIES) as [Hfull|Hne]; intros c Hc.
      - destruct (evictable w cache) as [victim|] eqn:Ev; [|done]. injection Hc as <-. destruct (evictable_in _ _ _ Ev) as (e & He & Hk).
        pose proof (cache_remove_shorter _ _ _ He Hk). split; [|lia]. apply (cache_ok_sub p cache); [done|lia|].
        intros x Hx. unfold cache_remove in Hx. apply elem_of_filter_list in Hx as [Hx _]. by exists x.
      - injection Hc as <-. split; [done|]. destruct Hok. lia. }
    destruct room as [c|]; [|by intros [= <- <- <-]]. destruct (Hroom c eq_refl) as [Hc Hlen].
    change (mkCompiledUpstreamGroup _ _ _ _ _ _ _) with (renamed p template).
    destruct (scp_group_new w (renamed p template) (ck_query key)) as [w1 [g|]] eqn:Eg; intros [= <- <- <-]; [|done].
    pose proof (group_of_profile_insert p template _ g _ _ Ht Eg) as Hg. split; [|naive_solver].
    destruct Hc as [_ Hcg]. constructor; [rewrite length_app; cbn; lia|]. apply Forall_app. split; [done|]. by repeat constructor.
Qed.

Lemma discovered_ok p w cache request w' cache' r :
  scp_cache_ok p cache -> discovered p w cache request = (w', cache', r) ->
  scp_cache_ok p cache' /\ forall g, r = Ok g -> group_of_profile p g.
Proof.
  intros Hok. unfold discovered. destruct (scp_template p request) as [t|] eqn:Et; [|by intros [= <- <- <-]].
  apply scp_template_in in Et. destruct (cached_group p w cache t _) as [[w0 c] g] eqn:Ec.
  destruct (cached_group_ok _ _ _ _ _ _ _ _ Hok Et Ec) as [Hc Hg]. destruct g as [g|]; [|by intros [= <- <- <-]].
  destruct (if is_ok (scp_status w0 g) then (w0, true) else _) as [w1 refreshed]. intros [= <- <- <-]. split; [done|].
  intros g' Hg'. inv_ok. by apply Hg.
Qed.

Lemma search_cache_ok p w request root ip seen cache unavailable w' cache' r :
  scp_cache_ok p (seen ++ cache) -> same_authority root (rs_root p) = false -> sq_target request = Some root ->
  search_cache p w request root ip seen cache unavailable = (w', cache', r) ->
  scp_cache_ok p cache' /\ forall x, r = Ok x -> exchange_ok x /\ sx_profile x = p /\ sx_request x = request /\ sx_attempted x = [].
Proof.
  intros Hok Hloop Ht. revert w seen unavailable Hok. induction cache as [|[key e] cache IH]; intros w seen unavailable Hok; cbn [search_cache].
  { intros [= <- <- <-]. by rewrite app_nil_r in Hok. }
  set (scheme := default _ _). set (touched := (key, mkScpCacheEntry (ce_group e) (scp_now w))).
  assert (scp_cache_ok p (seen ++ touched :: cache)) as Htouch.
  { apply (cache_ok_sub p _ _ Hok); [rewrite !length_app; done|]. intros x [Hx|[->|Hx]%elem_of_cons]%elem_of_app.
    - exists x. set_solver.
    - exists (key, e). set_solver.
    - exists x. set_solver. }
  destruct (existsb _ _).
  - destruct (scp_select w (ce_group e) ip (has_root scheme root)) as [w1 [b|]] eqn:Es.
    + intros [= <- <- <-]. split; [done|]. intros x [= <-]. split_and!; [|done..]. pose proof (scp_select_accepted _ _ _ _ _ _ Es) as Hr.
      apply bool_decide_eq_true in Hr. constructor; cbn; [done| |done]. split_and!; [|by eexists _, _, _, _|by exists scheme].
      destruct Hok as [_ Hg]. apply Forall_app in Hg as [_ Hg]. by apply Forall_cons in Hg as [Hg _].
    + intros E. eapply IH; [|exact E]. by rewrite <- app_assoc.
  - intros E. eapply IH; [|exact E]. by rewrite <- app_assoc.
Qed.

Lemma route_discovered_ok p w request group headers ip w' x :
  group_of_profile p group -> (sq_discovery request = false -> False) ->
  route_discovered p w request group headers ip = (w', Ok x) ->
  exchange_ok x /\ sx_profile x = p /\ sx_request x = request /\ sx_attempted x = [].
Proof.
  intros Hg Hd. unfold route_discovered. destruct (_ ← _; _ : scp _) as [[key scheme]|]; [|done].
  destruct (match sq_target request with Some _ => _ | None => _ end) as [w1 first] eqn:Ef. destruct (is_none first && _); [done|].
  assert (forall w2 b, (match first with Some b => (w1, Some b) | None => scp_select w1 group key (fun _ => true) end) = (w2, Some b) ->
    exists w key accept w', scp_select w group key accept = (w', Some b)) as Hsel.
  { intros w2 b. destruct first; [|by eauto]. intros [= <- <-]. destruct (sq_target request); [by eauto|done]. }
  destruct (match first with Some _ => _ | None => _ end) as [w2 backend]. intros Hr. injection Hr as <- Hr. inv_ok.
  split_and!; [|done..]. constructor; cbn; [done| |intros Hf; by destruct (Hd Hf)]. split_and!; [done|by eapply Hsel|by eexists].
Qed.

Lemma retry_connect_ok w x : exchange_ok x -> exchange_ok (snd (fst (retry_connect w x))).
Proof.
  intros Hx. pose proof Hx as [Hl Hd Ht]. unfold retry_connect. destruct (sx_attempted x) as [|]; [|exact Hx].
  destruct (sx_group x) as [g|] eqn:Eg; [|exact Hx].
  assert (exchange_ok (mkScpExchange (sx_profile x) (sx_request x) (sx_root x) (sx_backend x) (Some g) (sx_key x) [sx_backend x])) as Htried
    by (constructor; done).
  destruct (scp_select w g (sx_key x) _) as [w1 [b|]] eqn:Es; [|done]. destruct (backend_root b (ar_scheme (sx_root x))) as [root|] eqn:Er; [|done].
  destruct (same_authority root _) eqn:El; [done|]. destruct Hd as (Hg & _ & _). constructor; cbn; [done| |].
  - split_and!; [done|by eexists _, _, _, _|by eexists].
  - intros Hf. apply scp_select_accepted in Es. apply andb_true_iff in Es as [_ Es]. rewrite Hf in Es. cbn in Es.
    apply bool_decide_eq_true in Es. by rewrite <- Es.
Qed.

(** C28: an SCP only routes where its profile allows and never in circles: for a
    request that parses and a discovery cache the profile has filled, a route goes to
    a configured target or to a producer selected by a discovery of one of the
    profile's upstreams, never to the SCP's own authority, and to the requested target
    unless discovery was asked for; this survives the retry of a failed connection, of
    which there is at most one; the hop count has gone down; and the cache still holds
    at most 256 groups of the profile. *)
Theorem scp_route_confined generation config upstreams p w cache headers method uri request ip w' cache' r :
  RuntimeScp_new generation config upstreams = Ok p -> scp_cache_ok p cache ->
  ScpRequest_parse headers method uri (rs_root p) = Ok request ->
  scp_route p w cache request headers ip = (w', cache', r) ->
  scp_cache_ok p cache' /\
  (exists v, single headers "3gpp-sbi-max-forward-hops" = Ok v /\
    match v with Some s => parse_uint 255 s = Some (sq_hops request + 1) | None => sq_hops request = 0 end) /\
  forall x, r = Ok x -> exchange_ok x /\ sx_profile x = p /\ sx_request x = request /\
    forall w1, exchange_ok (snd (fst (retry_connect w1 x))) /\
      forall w2, snd (retry_connect w2 (snd (fst (retry_connect w1 x)))) = false.
Proof.
  intros Hp Hok Hreq. apply ScpRequest_parse_ok in Hreq as (Htarget & Hhops & _ & Hdisc). unfold scp_route. intros Hr.
  assert (scp_cache_ok p cache' /\ forall x, r = Ok x ->
    exchange_ok x /\ sx_profile x = p /\ sx_request x = request /\ sx_attempted x = []) as [Hc Hx].
  { assert (forall w' cache' r, (let '(w, cache, group) := discovered p w cache request in
      match group with
      | Err e => (w, cache, Err e)
      | Ok group => let '(w, r) := route_discovered p w request group headers ip in (w, cache, r)
      end) = (w', cache', r) ->
      sq_discovery request = true -> scp_cache_ok p cache' /\ forall x, r = Ok x ->
      exchange_ok x /\ sx_profile x = p /\ sx_request x = request /\ sx_attempted x = []) as Hdc.
    { clear Hr. intros w2 c2 r2. destruct (discovered p w cache request) as [[w1 c1] g] eqn:Ed.
      destruct (discovered_ok _ _ _ _ _ _ _ Hok Ed) as [Hc Hg]. destruct g as [g|]; [|by intros [= <- <- <-]].
      destruct (route_discovered p w1 request g headers ip) as [w3 r3] eqn:Erd. intros [= <- <- <-] Hd. split; [done|]. intros x ->.
      eapply route_discovered_ok; [by apply Hg|by rewrite Hd|done]. }
    destruct (sq_discovery request) eqn:Ed; [by apply (Hdc w')|]. destruct (Hdisc eq_refl) as [root Et]. rewrite Et in Hr.
    destruct (bool_decide (root ∈ rs_allowed p)) eqn:Ea.
    - injection Hr as <- <- <-. split; [done|]. intros x [= <-]. apply bool_decide_eq_true in Ea. split_and!; [|done..].
      constructor; cbn; [by eapply RuntimeScp_new_allowed|done|done].
    - eapply (search_cache_ok p w request root ip [] cache None); [exact Hok|by apply Htarget|done|exact Hr]. }
  split_and!; [done|done|]. intros x Er. destruct (Hx x Er) as (Hxo & H1 & H2 & Hatt). split_and!; [done..|]. intros w1.
  split; [by apply retry_connect_ok|]. intros w2. unfold retry_connect at 2. rewrite Hatt.
  destruct (sx_group x) as [g|] eqn:Eg; [|cbn [fst snd]; unfold retry_connect; by rewrite Hatt, Eg].
  destruct (scp_select w1 g _ _) as [w3 [b|]]; [|done]. destruct (backend_root b _); [|done]. by destruct (same_authority _ _).
Qed.
End route.

(** ** Witness *)

Module ScpSample.
(** The sample crates with URIs of the form [scheme://authority/path]. *)
Definition after_scheme (u : string) : string := match split_once_str "://" u with Some (_, r) => r | None => u end.
#[export] Instance crates : Crates := {|
  Url := @Url Toy.crates; url_parse := @url_parse Toy.crates; url_error_debug := @url_error_debug Toy.crates;
  url_scheme := @url_scheme Toy.crates; url_host_str := @url_host_str Toy.crates; url_port := @url_port Toy.crates;
  url_port_or_known_default := @url_port_or_known_default Toy.crates; url_username := @url_username Toy.crates;
  url_password := @url_password Toy.crates; url_path := @url_path Toy.crates; url_query := @url_query Toy.crates;
  url_fragment := @url_fragment Toy.crates; url_cannot_be_a_base := @url_cannot_be_a_base Toy.crates;
  url_to_string := @url_to_string Toy.crates; IpNet := @IpNet Toy.crates; ipnet_parse := @ipnet_parse Toy.crates;
  ipnet_from := @ipnet_from Toy.crates; ipnet_contains := @ipnet_contains Toy.crates; ipnet_to_string := @ipnet_to_string Toy.crates;
  regex_build := @regex_build Toy.crates; regex_is_match := @regex_is_match Toy.crates;
  header_name_from := @header_name_from Toy.crates; header_value_ok := @header_value_ok Toy.crates;
  header_to_str := @header_to_str Toy.crates; method_ok := @method_ok Toy.crates; path_and_query_ok := @path_and_query_ok Toy.crates;
  authority_host := @authority_host Toy.crates;
  Uri := string; uri_parse s := Ok s;
  uri_path u := match split_once "/" (after_scheme u) with Some (_, r) => "/" +:+ r | None => "/" end; uri_query _ := None;
  uri_scheme_str u := fst <$> split_once_str "://" u;
  uri_authority u := Some (match split_once "/" (after_scheme u) with Some (a, _) => a | None => after_scheme u end);
  uri_host u := let a := match split_once "/" (after_scheme u) with Some (a, _) => a | None => after_scheme u end in
                Some (match split_once ":" a with Some (h, _) => h | None => a end);
  uri_path_and_query u := None; uri_to_string u := u;
  form_urlencoded := @form_urlencoded Toy.crates; Value := @Value Toy.crates; to_value := @to_value Toy.crates;
  json_from_str := @json_from_str Toy.crates; json_to_string := @json_to_string Toy.crates
|}.
#[export] Instance deps : @RuntimeDeps crates := {|
  Plugin := string; factories := ∅; TrustedCa := PemSource; load_runtime_trusted_ca := fun s => Ok s;
  ClientIdentity := PemSource; load_runtime_client_identity := fun c _ => Ok c; validate_tls_identity := fun _ => Ok tt;
  Selector := unit; build_runtime_selector := fun _ _ _ => Ok tt; NrfRuntime := unit; build_nrf_runtime := fun _ _ => Ok tt
|}.
Definition producer (n : N) : CompiledUpstreamServer := mkCompiledUpstreamServer ("10.0.0." +:+ pretty n) 80 1 None None.
(** A world with two producers; the first that the caller accepts is selected. *)
#[export] Instance groups : @ScpGroups crates deps unit := {|
  ScpGroup := unit; scp_group_new w _ _ := (w, Ok tt); scp_group_hash_key _ _ := None; scp_candidates _ _ := [producer 1; producer 2];
  scp_status _ _ := Ok tt; scp_select w _ _ accept := (w, List.find accept [producer 1; producer 2]);
  scp_refresh w _ _ := (w, true); scp_now _ := 7; scp_strong_count _ _ := 1
|}.
#[export] Instance group_laws : @ScpGroupLaws crates deps unit groups.
Proof. constructor; [|done]. intros w g key accept w' b Hb. apply (f_equal snd) in Hb. by apply find_some in Hb as [_ Hb]. Qed.
Definition nrf : @CompiledNrfDiscovery crates :=
  @mkCompiledNrfDiscovery crates (Toy.mkUrl "http" "nrf.test" None "/") "SMF" "AMF" "nsmf" NrfHttp 0 0 UpstreamSslOptions_default.
Definition group : @CompiledUpstreamGroup crates :=
  @mkCompiledUpstreamGroup crates false "smf" RoundRobin None [] (Some nrf) None.
Definition profile : ScpProfile := mkScpProfile "scp" "http://scp.test" ["smf"] ["http://amf.test"].
Definition upstreams : gmap string (@CompiledUpstreamGroup crates) := {[ "smf" := group ]}.
Definition root : ApiRoot := mkApiRoot "http" "scp.test" 80 "".
Definition runtime : @RuntimeScp crates :=
  mkRuntimeScp 1 root profile [group] [mkApiRoot "http" "amf.test" 80 ""].
Definition headers : HeaderMap := [("3gpp-sbi-max-forward-hops", "3")].
Definition request : ScpRequest :=
  mkScpRequest None None None (mkNrfQuery None None None "v1" ["nsmf"]) true false "/nsmf/v1/x" 2.
Definition routed := @scp_route crates deps unit groups runtime tt [] request headers "192.0.2.1".
Definition x : @ScpExchange crates deps unit groups :=
  mkScpExchange runtime request (mkApiRoot "http" "10.0.0.1" 80 "") (producer 1) (Some tt) "192.0.2.1" [].
End ScpSample.

Lemma scp_route_confined_witness :
  snd ScpSample.routed = Ok ScpSample.x /\
  same_authority (sx_root (snd (fst (@retry_connect _ _ _ ScpSample.groups tt ScpSample.x)))) ScpSample.root = false /\
  sx_backend (snd (fst (@retry_connect _ _ _ ScpSample.groups tt ScpSample.x))) = ScpSample.producer 2.
Proof.
  destruct (@scp_route_confined ScpSample.crates ScpSample.deps unit ScpSample.groups ScpSample.group_laws 1 ScpSample.profile ScpSample.upstreams
    ScpSample.runtime tt [] ScpSample.headers "GET" "http://scp.test/nsmf/v1/x" ScpSample.request "192.0.2.1"
    (fst (fst ScpSample.routed)) (snd (fst ScpSample.routed)) (snd ScpSample.routed)) as (_ & _ & Hx).
  - reflexivity.
  - by repeat constructor.
  - reflexivity.
  - rewrite <- !surjective_pairing. reflexivity.
  - assert (snd ScpSample.routed = Ok ScpSample.x) as Hs by reflexivity.
    destruct (Hx ScpSample.x Hs) as (_ & _ & _ & Hr). destruct (Hr tt) as [[Hl _ _] _].
    split_and!; [exact Hs|exact Hl|reflexivity].
Defined.
