(* ===== verification/Nrf.v ===== *)
(** * The NRF client (crates/ngxora-runtime/src/upstreams/nrf.rs)

    Building the HTTP client of a discovery, asking the registry for the instances of
    a service, and turning the profiles of its answer into the endpoints that a group
    balances over.  The HTTP client (reqwest), the decoder of the answer (serde_json)
    and URL parsing are parameters. *)

From S2P Require Import Prelude RustStr NetAddr BTree Crates Headers Ir Types Scp Discovery ScpRouting.

Open Scope N_scope.

Definition DEFAULT_VALIDITY : N := from_secs 30.
Definition MAX_RESPONSE_BODY : N := 1024 * 1024.

(** ** The answer *)

Record IpEndPoint := mkIpEndPoint { ie_ipv4_address : option string; ie_ipv6_address : option string; ie_port : option N }.

Record NfService := mkNfService {
  ns_versions : list string;
  ns_service_instance_id : option string;
  ns_service_name : string;
  ns_scheme : string;
  ns_nf_service_status : string;
  ns_priority : option N;
  ns_capacity : option N;
  ns_fqdn : option string;
  ns_ip_end_points : list IpEndPoint;
  ns_api_prefix : option string
}.

Record NfProfile := mkNfProfile {
  np_nf_type : option string;
  np_nf_instance_id : option string;
  np_nf_status : string;
  np_priority : option N;
  np_capacity : option N;
  np_fqdn : option string;
  np_ipv4_addresses : list string;
  np_ipv6_addresses : list string;
  np_nf_services : list NfService;
  (** in the order of its keys *)
  np_nf_service_list : list (string * NfService)
}.

Record SearchResult := mkSearchResult { sr_validity_period : option N; sr_nf_instances : list NfProfile }.

(** [NrfServiceMetadata] compares field by field. *)
Definition metadata_fields (m : NrfServiceMetadata) : option string * string * string * N * N :=
  (authority m, nf_instance_id m, service_instance_id m, priority m, capacity m).
#[global] Instance metadata_ord : Ord NrfServiceMetadata := cmp_via metadata_fields.
#[global] Instance metadata_ord_laws : OrdLaws NrfServiceMetadata.
Proof. apply (cmp_via_laws metadata_fields (fun '(a, n, s, p, c) => mkNrfServiceMetadata a n s p c)). by intros []. Qed.

Notation Endpoint := (NrfServiceMetadata * string * N * option string)%type.

(** ** Third-party code *)

Record ClientBuilder (Certificate Identity : Type) := mkClientBuilder {
  cb_timeout : N;
  cb_http2_prior_knowledge : bool;
  cb_follow_redirects : bool;
  cb_user_agent : string;
  cb_accept_invalid_certs : bool;
  cb_root_certificates : list Certificate;
  cb_identity : option Identity
}.
Arguments mkClientBuilder {Certificate Identity}.
Arguments cb_timeout {Certificate Identity}.
Arguments cb_http2_prior_knowledge {Certificate Identity}.
Arguments cb_follow_redirects {Certificate Identity}.
Arguments cb_user_agent {Certificate Identity}.
Arguments cb_accept_invalid_certs {Certificate Identity}.
Arguments cb_root_certificates {Certificate Identity}.
Arguments cb_identity {Certificate Identity}.

(** A response whose body is read in chunks; [Err] is a read that fails. *)
Record NrfResponse := mkNrfResponse {
  nr_status : N;
  nr_content_length : option N;
  nr_chunks : list (result string string)
}.

Class NrfDeps `{Crates} := {
  (** [url::Host::parse(host).is_ok()] *)
  host_is_valid : string -> bool;
  (** the parse error and the query of a [PathAndQuery] *)
  path_and_query_error : string -> string;
  path_and_query_query : string -> option string;
  (** [Url::set_path], [Url::set_query] and [query_pairs_mut().append_pair] *)
  url_set_path : Url -> string -> Url;
  url_set_query : Url -> option string -> Url;
  url_append_pair : Url -> string -> string -> Url;
  (** [std::fs::read] *)
  pem_read : string -> result string string;
  (** [reqwest] *)
  Certificate : Type;
  from_pem_bundle : string -> result string (list Certificate);
  Identity : Type;
  identity_from_pem : string -> result string Identity;
  NrfHttpClient : Type;
  nrf_client_build : ClientBuilder Certificate Identity -> result string NrfHttpClient;
  status_to_string : N -> string;
  (** [serde_json::from_slice::<SearchResult>] *)
  decode_search_result : string -> result string SearchResult
}.

Section nrf.
Context `{NrfDeps}.

(** ** Building the client *)

Definition read_pem_source (source : PemSource) (label : string) : result string string :=
  match source with
  | PemPath path => map_err (fun err => "failed to read " +:+ label +:+ " `" +:+ path +:+ "`: " +:+ err) (pem_read path)
  | InlinePem pem => Ok pem
  end.

Record NrfClient := mkNrfClient {
  nc_config : CompiledNrfDiscovery;
  nc_client : NrfHttpClient;
  nc_query : option NrfQuery
}.

Definition add_root_certificates (b : ClientBuilder Certificate Identity) (certs : list Certificate) : ClientBuilder Certificate Identity :=
  mkClientBuilder (cb_timeout b) (cb_http2_prior_knowledge b) (cb_follow_redirects b) (cb_user_agent b)
    (cb_accept_invalid_certs b) (cb_root_certificates b ++ certs) (cb_identity b).
Definition set_identity (b : ClientBuilder Certificate Identity) (i : Identity) : ClientBuilder Certificate Identity :=
  mkClientBuilder (cb_timeout b) (cb_http2_prior_knowledge b) (cb_follow_redirects b) (cb_user_agent b)
    (cb_accept_invalid_certs b) (cb_root_certificates b) (Some i).

Definition nrf_client_builder (config : CompiledNrfDiscovery) : result string (ClientBuilder Certificate Identity) :=
  let tls := cn_tls_options config in
  let builder := mkClientBuilder (cn_timeout config) true false "ngxora/0.1.0"
                   (match verify_cert tls with Off => true | On => false end) [] None in
  builder ← match trusted_certificate tls with
            | None => Ok builder
            | Some source =>
                pem ← read_pem_source source "nrf_discovery ssl_trusted_certificate";
                certificates ← map_err (fun err => "failed to parse nrf_discovery ssl_trusted_certificate: " +:+ err) (from_pem_bundle pem);
                _ ← fail_if (is_nil certificates) "nrf_discovery ssl_trusted_certificate contains no certificates";
                Ok (add_root_certificates builder certificates)
            end;
  match client_certificate tls, client_certificate_key tls with
  | Some cert, Some key =>
      pem ← read_pem_source cert "nrf_discovery ssl_certificate";
      key_pem ← read_pem_source key "nrf_discovery ssl_certificate_key";
      identity ← map_err (fun err => "failed to parse nrf_discovery client identity: " +:+ err) (identity_from_pem (pem +:+ key_pem));
      Ok (set_identity builder identity)
  | _, _ => Ok builder
  end.

Definition NrfClient_new (config : CompiledNrfDiscovery) : result string NrfClient :=
  builder ← nrf_client_builder config;
  client ← map_err (fun err => "failed to build nrf_discovery HTTP client: " +:+ err) (nrf_client_build builder);
  Ok (mkNrfClient config client None).

(** ** Extracting endpoints *)

Definition non_empty_id (value : option string) : option string :=
  v ← value; let v := trim v in if is_empty v then None else Some v.

Definition optional_u16 (value : option N) (label : string) : result string (option N) :=
  transpose ((fun v => if v <=? u16_max then Ok v else Err (label +:+ " must be in the range 0..=65535")) <$> value).

Definition normalize_api_prefix (prefix : option string) : result string (option string) :=
  match prefix with
  | None => Ok None
  | Some prefix =>
      if is_empty prefix then Ok None else
      _ ← fail_if (negb (starts_with "/" prefix) || starts_with "//" prefix) "expected an absolute path beginning with one `/`";
      _ ← fail_if (contains_char "#" prefix) "fragments are not allowed";
      _ ← fail_if (negb (path_and_query_ok prefix)) ("invalid path: " +:+ path_and_query_error prefix);
      _ ← fail_if (is_some (path_and_query_query prefix)) "query parameters are not allowed";
      let prefix := trim_end_matches "/" prefix in
      Ok (if is_empty prefix then None else Some prefix)
  end.

(** [trim_matches(['[', ']'])] *)
Definition is_bracket (c : string) : bool := String.eqb c "[" || String.eqb c "]".
Definition trim_brackets (s : string) : string :=
  concat_str (rev (drop_while is_bracket (rev (drop_while is_bracket (chars s))))).

Definition add_endpoint (endpoints : list Endpoint) (host : string) (port : N) (api_prefix : option string)
    (metadata : NrfServiceMetadata) : list Endpoint :=
  let host := trim_brackets (trim host) in
  let valid_host := is_some (parse_ip host) || host_is_valid host in
  if is_empty host || (port =? 0) || negb valid_host then endpoints
  else bs_insert (metadata, to_ascii_lowercase host, port, api_prefix) endpoints.

Definition expected_scheme (config : CompiledNrfDiscovery) : string :=
  match cn_endpoint_scheme config with NrfHttp => "http" | NrfHttps => "https" end.
Definition expected_port (config : CompiledNrfDiscovery) : N :=
  if String.eqb (expected_scheme config) "https" then 443 else 80.

(** Why a profile is used, with its id, priority and capacity, or passed over. *)
Definition admit_profile (config : CompiledNrfDiscovery) (query : option NrfQuery) (profile : NfProfile)
  : option (string * option N * option N) :=
  if is_some query && negb (bool_decide (np_nf_type profile = Some (cn_target_nf_type config))) then None else
  if negb (eq_ignore_ascii_case (np_nf_status profile) "REGISTERED") then None else
  id ← non_empty_id (np_nf_instance_id profile);
  if match query ≫= nq_nf_instance_id with Some wanted => negb (String.eqb wanted id) | None => false end then None else
  priority ← ok (optional_u16 (np_priority profile) "profile priority");
  capacity ← ok (optional_u16 (np_capacity profile) "profile capacity");
  Some (id, priority, capacity).

(** Both forms of a profile's services; an entry of the list form must be filed under
    its own id. *)
Definition profile_services (profile : NfProfile) : list NfService :=
  np_nf_services profile ++
  omap (fun '(key, service) => if bool_decide (ns_service_instance_id service = Some key) then Some service else None)
    (np_nf_service_list profile).

Inductive ServiceVerdict :=
| Skipped
| WrongVersion
| Offered (metadata : NrfServiceMetadata) (api_prefix : option string).

(** The checks of one service before its endpoints are read. *)
Definition judge_service (config : CompiledNrfDiscovery) (query : option NrfQuery) (profile : NfProfile)
    (id : string) (profile_priority profile_capacity : option N) (service : NfService) : ServiceVerdict :=
  if negb (String.eqb (ns_service_name service) (cn_service_name config))
     || negb (eq_ignore_ascii_case (ns_nf_service_status service) "REGISTERED")
     || negb (eq_ignore_ascii_case (ns_scheme service) (expected_scheme config)) then Skipped else
  match non_empty_id (ns_service_instance_id service) with
  | None => Skipped
  | Some service_id =>
      if match query ≫= nq_service_instance_id with Some wanted => negb (String.eqb wanted service_id) | None => false end
      then Skipped else
      if match query with Some q => negb (existsb (String.eqb (nq_api_version q)) (ns_versions service)) | None => false end
      then WrongVersion else
      match optional_u16 (ns_priority service) "service priority", optional_u16 (ns_capacity service) "service capacity" with
      | Ok service_priority, Ok service_capacity =>
          let metadata :=
            mkNrfServiceMetadata (_ ← query; option_or (ns_fqdn service) (np_fqdn profile)) id service_id
              (default u16_max (option_or service_priority profile_priority))
              (default 1 (option_or service_capacity profile_capacity)) in
          if is_some query && (negb (token id) || negb (token service_id)) then Skipped else
          match normalize_api_prefix (ns_api_prefix service) with
          | Err _ => Skipped
          | Ok prefix =>
              let host := default "nf.invalid" (authority metadata) in
              if is_some query &&
                 match ApiRoot_parse (expected_scheme config +:+ "://" +:+ host +:+ default "" prefix) with
                 | Ok root => negb (String.eqb (ar_host root) (to_ascii_lowercase host)) || negb (ar_port root =? expected_port config)
                 | Err _ => true
                 end then Skipped
              else Offered metadata prefix
          end
      | _, _ => Skipped
      end
  end.

(** The ports of the service's endpoints, ascending. *)
Definition service_ports (service : NfService) : list N := bs_collect (omap ie_port (ns_ip_end_points service)).

(** The domain name that stands for the service, when it does. *)
Definition service_host (query : option NrfQuery) (profile : NfProfile) (service : NfService) : option string :=
  host ← option_or (ns_fqdn service) (np_fqdn profile);
  if is_none query || forallb (fun e => is_none (ie_ipv4_address e) && is_none (ie_ipv6_address e)) (ns_ip_end_points service)
  then Some host else None.

(** The addresses of an [ipEndPoint]. *)
Definition endpoint_addresses (config : CompiledNrfDiscovery) (e : IpEndPoint) : list (string * N) :=
  let port := default (expected_port config) (ie_port e) in
  option_list ((fun host => (host, port)) <$> ie_ipv4_address e) ++ option_list ((fun host => (host, port)) <$> ie_ipv6_address e).

Definition add_endpoints (metadata : NrfServiceMetadata) (api_prefix : option string) (endpoints : list Endpoint)
    (addresses : list (string * N)) : list Endpoint :=
  foldl (fun acc '(host, port) => add_endpoint acc host port api_prefix metadata) endpoints addresses.

(** The addresses a service lists itself, and those of its profile, used when the
    first ones added nothing to the set. *)
Definition own_addresses (config : CompiledNrfDiscovery) (service : NfService) : list (string * N) :=
  ns_ip_end_points service ≫= endpoint_addresses config.
Definition profile_addresses (config : CompiledNrfDiscovery) (profile : NfProfile) : list (string * N) :=
  (fun host => (host, expected_port config)) <$> (np_ipv4_addresses profile ++ np_ipv6_addresses profile).
Definition named_addresses (config : CompiledNrfDiscovery) (service : NfService) (host : string) : list (string * N) :=
  (fun port => (host, port)) <$> (if is_nil (service_ports service) then [expected_port config] else service_ports service).

Definition offer_service (config : CompiledNrfDiscovery) (query : option NrfQuery) (profile : NfProfile)
    (service : NfService) (metadata : NrfServiceMetadata) (prefix : option string) (endpoints : list Endpoint) : list Endpoint :=
  match service_host query profile service with
  | Some host => add_endpoints metadata prefix endpoints (named_addresses config service host)
  | None =>
      let endpoint_count := length endpoints in
      let endpoints := add_endpoints metadata prefix endpoints (own_addresses config service) in
      if (length endpoints =? endpoint_count)%nat
      then add_endpoints metadata prefix endpoints (profile_addresses config profile)
      else endpoints
  end.

Definition extract_service (config : CompiledNrfDiscovery) (query : option NrfQuery) (profile : NfProfile)
    (id : string) (profile_priority profile_capacity : option N) (st : list Endpoint * bool) (service : NfService)
  : list Endpoint * bool :=
  match judge_service config query profile id profile_priority profile_capacity service with
  | Skipped => st
  | WrongVersion => (fst st, true)
  | Offered metadata prefix => (offer_service config query profile service metadata prefix (fst st), snd st)
  end.

Definition extract_profile (config : CompiledNrfDiscovery) (query : option NrfQuery) (st : list Endpoint * bool)
    (profile : NfProfile) : list Endpoint * bool :=
  match admit_profile config query profile with
  | None => st
  | Some (id, priority, capacity) =>
      foldl (extract_service config query profile id priority capacity) st (profile_services profile)
  end.

Definition endpoint_server (e : Endpoint) : CompiledUpstreamServer :=
  let '(metadata, host, port, prefix) := e in mkCompiledUpstreamServer host port 1 prefix (Some metadata).

Definition extract_query_endpoints (config : CompiledNrfDiscovery) (profiles : list NfProfile) (query : option NrfQuery)
  : list CompiledUpstreamServer * bool :=
  let '(endpoints, invalid_api) := foldl (extract_profile config query) ([], false) profiles in
  let endpoints := endpoint_server <$> endpoints in
  (endpoints, invalid_api && is_nil endpoints).

(** ** Asking the registry *)

Definition discovery_url (c : NrfClient) : Url :=
  let config := nc_config c in
  let url := url_set_path (cn_api_root config) (trim_end_matches "/" (url_path (cn_api_root config)) +:+ "/nf-instances") in
  let pairs names url :=
    url_append_pair (url_append_pair (url_append_pair url "target-nf-type" (cn_target_nf_type config))
      "requester-nf-type" (cn_requester_nf_type config)) "service-names" names in
  let url := pairs (cn_service_name config) url in
  match nc_query c with
  | None => url
  | Some query =>
      let url := pairs (join "," (nq_service_names query)) (url_set_query url None) in
      let url := match nq_nf_instance_id query with Some id => url_append_pair url "target-nf-instance-id" id | None => url end in
      match nq_requester_instance_id query with Some id => url_append_pair url "requester-nf-instance-id" id | None => url end
  end.

Definition body_too_large : string := "NRF discovery response exceeds " +:+ pretty MAX_RESPONSE_BODY +:+ " bytes".

(** The loop over [response.chunk()]. *)
Fixpoint read_chunks (body : string) (chunks : list (result string string)) : result string string :=
  match chunks with
  | [] => Ok body
  | chunk :: chunks' =>
      chunk ← map_err (fun err => "failed to read NRF discovery response: " +:+ err) chunk;
      _ ← fail_if (MAX_RESPONSE_BODY <? saturating_add64 (str_len body) (str_len chunk)) body_too_large;
      read_chunks (body +:+ chunk) chunks'
  end.

Definition result_validity (validity_period : option N) : N :=
  default DEFAULT_VALIDITY (v ← from_secs <$> validity_period; if is_zero v then None else Some v).

(** [exchange] is what the registry answers to this request. *)
Definition discover (exchange : NrfHttpClient -> Url -> list (string * string) -> result string NrfResponse) (c : NrfClient)
  : result string DiscoveryResult :=
  response ← map_err (fun err => "NRF discovery request failed: " +:+ err)
               (exchange (nc_client c) (discovery_url c) [("accept", "application/json")]);
  _ ← fail_if (negb (nr_status response =? 200)) ("NRF discovery returned HTTP " +:+ status_to_string (nr_status response));
  _ ← fail_if (match nr_content_length response with Some n => MAX_RESPONSE_BODY <? n | None => false end) body_too_large;
  body ← read_chunks "" (nr_chunks response);
  result ← map_err (fun err => "invalid NRF SearchResult: " +:+ err) (decode_search_result body);
  let '(endpoints, invalid_api) := extract_query_endpoints (nc_config c) (sr_nf_instances result) (nc_query c) in
  Ok (mkDiscoveryResult (result_validity (sr_validity_period result)) endpoints invalid_api).

(** ** What is extracted *)

(** An address as it is stored: without brackets, in lower case, with a port. *)
Definition clean_address (address : string * N) : option (string * N) :=
  let host := trim_brackets (trim (fst address)) in
  if is_empty host || (snd address =? 0) || negb (is_some (parse_ip host) || host_is_valid host) then None
  else Some (to_ascii_lowercase host, snd address).

Lemma add_endpoint_clean endpoints host port prefix md :
  add_endpoint endpoints host port prefix md =
  match clean_address (host, port) with Some (h, p) => bs_insert (md, h, p, prefix) endpoints | None => endpoints end.
Proof. unfold add_endpoint, clean_address. simpl. by destruct (_ || _ || _). Qed.

Lemma add_endpoints_spec md prefix addresses endpoints :
  bs_wf endpoints ->
  bs_wf (add_endpoints md prefix endpoints addresses) /\
  (forall e, e ∈ add_endpoints md prefix endpoints addresses <->
    e ∈ endpoints \/ exists a h p, a ∈ addresses /\ clean_address a = Some (h, p) /\ e = (md, h, p, prefix)) /\
  (length endpoints <= length (add_endpoints md prefix endpoints addresses))%nat.
Proof.
  unfold add_endpoints. revert endpoints. induction addresses as [|[host port] addresses IH]; intros endpoints Hwf; simpl.
  - split_and!; [done|set_solver|lia].
  - rewrite add_endpoint_clean. destruct (clean_address (host, port)) as [[h p]|] eqn:E.
    + destruct (IH (bs_insert (md, h, p, prefix) endpoints)) as (Hw & He & Hl); [by apply bs_insert_wf|].
      pose proof (bs_insert_length (md, h, p, prefix) endpoints). split_and!; [done| |lia].
      intros e. rewrite He, elem_of_bs_insert. split.
      * intros [[->|?]|(a & h' & p' & ? & ? & ->)]; [|by left|]; right; [exists (host, port), h, p|exists a, h', p'];
          split_and!; try done; set_solver.
      * intros [?|(a & h' & p' & [->|?]%elem_of_cons & Ha & ->)]; [set_solver| |right; eauto 6].
        rewrite E in Ha. simplify_eq. set_solver.
    + destruct (IH endpoints Hwf) as (Hw & He & Hl). split_and!; [done| |done].
      intros e. rewrite He. split; [set_solver|]. intros [?|(a & h & p & [->|?]%elem_of_cons & Ha & ->)]; [by left|congruence|].
      right. eauto 6.
Qed.

(** The addresses a service can be reached at, the preferred ones and all of them. *)
Definition preferred_addresses config query profile service : list (string * N) :=
  match service_host query profile service with Some host => named_addresses config service host | None => own_addresses config service end.
Definition listed_addresses config query profile service : list (string * N) :=
  match service_host query profile service with
  | Some host => named_addresses config service host
  | None => own_addresses config service ++ profile_addresses config profile
  end.

Definition entry md prefix (addresses : list (string * N)) (e : Endpoint) : Prop :=
  exists a h p, a ∈ addresses /\ clean_address a = Some (h, p) /\ e = (md, h, p, prefix).

(** A service adds its domain name or its own addresses; the addresses of its profile
    exactly when its own are all in the set already. *)
Lemma offer_service_spec config query profile service md prefix endpoints :
  bs_wf endpoints ->
  let endpoints' := offer_service config query profile service md prefix endpoints in
  bs_wf endpoints' /\
  (forall e, e ∈ endpoints' <-> e ∈ endpoints \/ entry md prefix (preferred_addresses config query profile service) e \/
    (service_host query profile service = None /\ (forall e', entry md prefix (own_addresses config service) e' -> e' ∈ endpoints) /\
     entry md prefix (profile_addresses config profile) e)).
Proof.
  intros Hwf. cbn zeta. unfold offer_service, preferred_addresses. destruct (service_host query profile service) as [host|].
  { destruct (add_endpoints_spec md prefix (named_addresses config service host) endpoints Hwf) as (Hw & He & _).
    split; [done|]. intros e. rewrite He. unfold entry. naive_solver. }
  destruct (add_endpoints_spec md prefix (own_addresses config service) endpoints Hwf) as (Hw & He & Hl).
  destruct (add_endpoints_spec md prefix (profile_addresses config profile) _ Hw) as (Hw2 & He2 & _).
  set (own := add_endpoints md prefix endpoints (own_addresses config service)) in *.
  change (forall e, e ∈ own <-> e ∈ endpoints \/ entry md prefix (own_addresses config service) e) in He.
  destruct (Nat.eqb_spec (length own) (length endpoints)) as [Hlen|Hlen]; (split; [done|]); intros e.
  - assert (own ⊆ endpoints) as Hincl.
    { intros e' Hin%list_elem_of_In. apply list_elem_of_In. revert e' Hin.
      apply (NoDup_length_incl (l := endpoints)); [by apply NoDup_ListNoDup, bs_wf_nodup|lia|].
      intros e' Hin%list_elem_of_In. apply list_elem_of_In, He. by left. }
    rewrite He2, He. split.
    + intros [[?|?]|?]; [by left|by right; left|]. right; right. split_and!; [done| |done]. intros e' ?. apply Hincl, He. by right.
    + intros [?|[?|(_ & _ & ?)]]; [by left; left|by left; right|by right].
  - rewrite He. split; [intros [?|?]; [by left|by right; left]|]. intros [?|[?|(_ & Hall & _)]]; [by left|by right|].
    exfalso. apply Hlen. f_equal. apply bs_wf_ext; [done|done|]. intros e'. rewrite He. split; [|by left]. intros [?|?]; [done|by apply Hall].
Qed.

(** A service of a profile that passes the checks, or only lacks the API version. *)
Record Offering := mkOffering {
  of_profile : NfProfile;
  of_service : NfService;
  of_metadata : NrfServiceMetadata;
  of_prefix : option string
}.
Definition profile_offerings config query (profile : NfProfile) : list Offering :=
  match admit_profile config query profile with
  | None => []
  | Some (id, priority, capacity) =>
      omap (fun service => match judge_service config query profile id priority capacity service with
                           | Offered md prefix => Some (mkOffering profile service md prefix)
                           | Skipped | WrongVersion => None
                           end) (profile_services profile)
  end.
(** The services offered, in the order of the answer. *)
Definition offerings config query (profiles : list NfProfile) : list Offering := profiles ≫= profile_offerings config query.
Definition outdated_by config query profile : Prop :=
  exists service id priority capacity, service ∈ profile_services profile /\
    admit_profile config query profile = Some (id, priority, capacity) /\
    judge_service config query profile id priority capacity service = WrongVersion.

(** The endpoints that a sequence of offered services yields: each service its domain
    name or its own addresses, and the addresses of its profile when it has no domain
    name and the services before it yield every usable address of its own, as they do
    when it has none. *)
Inductive yields config query : list Offering -> Endpoint -> Prop :=
  | yields_before os o e : yields config query os e -> yields config query (os ++ [o]) e
  | yields_preferred os o e :
      entry (of_metadata o) (of_prefix o) (preferred_addresses config query (of_profile o) (of_service o)) e ->
      yields config query (os ++ [o]) e
  | yields_profile os o e :
      service_host query (of_profile o) (of_service o) = None ->
      (forall e', entry (of_metadata o) (of_prefix o) (own_addresses config (of_service o)) e' -> yields config query os e') ->
      entry (of_metadata o) (of_prefix o) (profile_addresses config (of_profile o)) e ->
      yields config query (os ++ [o]) e.

Lemma yields_nil config query e : ~ yields config query [] e.
Proof. intros Hy. by inversion Hy as [os ? ? ? E|os ? ? ? E|os ? ? ? ? ? E]; destruct os. Qed.

Lemma yields_snoc config query os o e :
  yields config query (os ++ [o]) e <->
  yields config query os e \/
  entry (of_metadata o) (of_prefix o) (preferred_addresses config query (of_profile o) (of_service o)) e \/
  (service_host query (of_profile o) (of_service o) = None /\
   (forall e', entry (of_metadata o) (of_prefix o) (own_addresses config (of_service o)) e' -> yields config query os e') /\
   entry (of_metadata o) (of_prefix o) (profile_addresses config (of_profile o)) e).
Proof.
  split.
  - intros Hy. inversion Hy as [os' ? ? ? E|os' ? ? ? E|os' ? ? ? ? ? E]; apply app_inj_tail in E as [-> ->]; auto.
  - intros [?|[?|(? & ? & ?)]]; [by apply yields_before|by apply yields_preferred|by apply yields_profile].
Qed.

Definition offer config query (endpoints : list Endpoint) (o : Offering) : list Endpoint :=
  offer_service config query (of_profile o) (of_service o) (of_metadata o) (of_prefix o) endpoints.

Lemma offers_yield config query os :
  bs_wf (foldl (offer config query) [] os) /\ (forall e, e ∈ foldl (offer config query) [] os <-> yields config query os e).
Proof.
  induction os as [|o os [Hw He]] using rev_ind.
  { split; [constructor|]. intros e. split; [by intros ?%elem_of_nil|]. by intros ?%yields_nil. }
  rewrite foldl_app. cbn [foldl]. destruct (offer_service_spec config query (of_profile o) (of_service o) (of_metadata o) (of_prefix o) _ Hw) as [Hw' He'].
  split; [done|]. intros e. unfold offer at 1. rewrite He', yields_snoc, He. setoid_rewrite He. done.
Qed.

Lemma extract_services_offer config query profile id priority capacity services st :
  foldl (extract_service config query profile id priority capacity) st services =
  (foldl (offer config query) (fst st)
     (omap (fun service => match judge_service config query profile id priority capacity service with
                           | Offered md prefix => Some (mkOffering profile service md prefix)
                           | Skipped | WrongVersion => None
                           end) services),
   snd st || existsb (fun service => match judge_service config query profile id priority capacity service with
                                     | WrongVersion => true | _ => false end) services).
Proof.
  revert st. induction services as [|service services IH]; intros [endpoints invalid]; cbn [foldl fst snd existsb omap list_omap].
  { by rewrite orb_false_r. }
  rewrite IH. unfold extract_service. by destruct (judge_service _ _ _ _ _ _ service); cbn [fst snd foldl]; rewrite ?orb_true_r.
Qed.

Lemma extract_profiles_offer config query profiles st :
  fst (foldl (extract_profile config query) st profiles) = foldl (offer config query) (fst st) (offerings config query profiles) /\
  (snd (foldl (extract_profile config query) st profiles) = true <->
    snd st = true \/ exists profile, profile ∈ profiles /\ outdated_by config query profile).
Proof.
  revert st. induction profiles as [|profile profiles IH]; intros st.
  { cbn. split; [done|]. split; [by left|]. by intros [?|(? & ?%elem_of_nil & _)]. }
  cbn [foldl]. destruct (IH (extract_profile config query st profile)) as [-> Hv]. rewrite Hv.
  change (offerings config query (profile :: profiles)) with (profile_offerings config query profile ++ offerings config query profiles).
  rewrite foldl_app. unfold extract_profile, profile_offerings.
  assert (snd (extract_profile config query st profile) = true <-> snd st = true \/ outdated_by config query profile) as Hone.
  { unfold extract_profile, outdated_by. destruct (admit_profile config query profile) as [[[id priority] capacity]|] eqn:Ea.
    - rewrite extract_services_offer. cbn [snd]. rewrite orb_true_iff, existsb_exists. split; (intros [?|Hj]; [by left|right]).
      + destruct Hj as (s & Hs%list_elem_of_In & Hj). exists s, id, priority, capacity. split_and!; [done..|]. by destruct (judge_service _ _ _ _ _ _ s).
      + destruct Hj as (s & ? & ? & ? & ? & [= <- <- <-] & Hj). exists s. rewrite Hj. split; [by apply list_elem_of_In|done].
    - split; [by left|]. intros [?|(? & ? & ? & ? & _ & [=] & _)]. done. }
  split.
  - destruct (admit_profile config query profile) as [[[id priority] capacity]|]; [|done]. by rewrite extract_services_offer.
  - fold (extract_profile config query st profile). rewrite Hone. setoid_rewrite elem_of_cons. split.
    + intros [[?|?]|(p & ? & ?)]; [by left|right; exists profile; auto|right; exists p; auto].
    + intros [?|(p & [->|?] & ?)]; [by left; left|by left; right|right; by exists p].
Qed.

Lemma elem_of_offerings config query profiles o :
  o ∈ offerings config query profiles ->
  of_profile o ∈ profiles /\ of_service o ∈ profile_services (of_profile o) /\
  exists id priority capacity, admit_profile config query (of_profile o) = Some (id, priority, capacity) /\
    judge_service config query (of_profile o) id priority capacity (of_service o) = Offered (of_metadata o) (of_prefix o).
Proof.
  intros (profile & Ho & Hp)%list_elem_of_bind. unfold profile_offerings in Ho.
  destruct (admit_profile config query profile) as [[[id priority] capacity]|] eqn:Ea; [|by apply elem_of_nil in Ho].
  apply list_elem_of_omap in Ho as (service & Hs & Ho). destruct (judge_service _ _ _ _ _ _ service) eqn:Ej; [done..|].
  injection Ho as <-. cbn [of_profile of_service of_metadata of_prefix]. split_and!; [done..|]. by exists id, priority, capacity.
Qed.

(** What is yielded is listed for an offered service. *)
Lemma yields_listed config query os e :
  yields config query os e ->
  exists o, o ∈ os /\ entry (of_metadata o) (of_prefix o) (listed_addresses config query (of_profile o) (of_service o)) e.
Proof.
  induction 1 as [os o e _ (o' & ? & ?)|os o e He|os o e Hn _ _ He].
  - exists o'. split; [|done]. apply elem_of_app. by left.
  - exists o. split; [apply elem_of_app; right; by apply list_elem_of_singleton|].
    destruct He as (a & h & p & Ha & Hc & ->). exists a, h, p. split_and!; [|done..].
    unfold preferred_addresses, listed_addresses in *. destruct (service_host _ _ _); [done|]. apply elem_of_app. by left.
  - exists o. split; [apply elem_of_app; right; by apply list_elem_of_singleton|].
    destruct He as (a & h & p & Ha & Hc & ->). exists a, h, p. split_and!; [|done..].
    unfold listed_addresses. rewrite Hn. apply elem_of_app. by right.
Qed.

(** ** Properties *)

Lemma non_empty_id_Some v id : non_empty_id v = Some id -> is_empty id = false.
Proof. destruct v as [v|]; [|done]. simpl. destruct (is_empty (trim v)) eqn:E; [done|]. intros [= <-]. done. Qed.

Lemma optional_u16_Ok v label r : optional_u16 v label = Ok r -> v = r /\ forall n, r = Some n -> n <= u16_max.
Proof.
  unfold optional_u16. destruct v as [v|]; cbn; [|intros [= <-]; by split].
  destruct (N.leb_spec v u16_max); cbn; [|by intros [=]]. intros [= <-]. split; [done|]. by intros ? [= <-].
Qed.

Lemma default_option_or_le (a b : option N) d m :
  d <= m -> (forall n, a = Some n -> n <= m) -> (forall n, b = Some n -> n <= m) -> default d (option_or a b) <= m.
Proof. intros Hd Ha Hb. destruct a as [a|]; simpl; [by apply Ha|]. destruct b as [b|]; simpl; [by apply Hb|done]. Qed.

Lemma admit_profile_Some config query profile id priority capacity :
  admit_profile config query profile = Some (id, priority, capacity) ->
  eq_ignore_ascii_case (np_nf_status profile) "REGISTERED" = true /\
  non_empty_id (np_nf_instance_id profile) = Some id /\
  (forall n, priority = Some n -> n <= u16_max) /\ (forall n, capacity = Some n -> n <= u16_max) /\
  (forall q, query = Some q -> np_nf_type profile = Some (cn_target_nf_type config) /\
    forall wanted, nq_nf_instance_id q = Some wanted -> wanted = id).
Proof.
  unfold admit_profile. intros Ha. destruct (is_some query && _) eqn:Et; [done|].
  destruct (eq_ignore_ascii_case (np_nf_status profile) "REGISTERED") eqn:Es; [|done]. simpl in Ha.
  destruct (non_empty_id (np_nf_instance_id profile)) as [i|]; [|done]. simpl in Ha.
  destruct (match query ≫= nq_nf_instance_id with Some _ => _ | None => _ end) eqn:Eq; [done|].
  destruct (optional_u16 (np_priority profile) _) as [pr|] eqn:Ep; [|done]. simpl in Ha.
  destruct (optional_u16 (np_capacity profile) _) as [ca|] eqn:Ec; [|done]. simpl in Ha. simplify_eq.
  apply optional_u16_Ok in Ep as [_ ?], Ec as [_ ?]. split_and!; [done..|].
  intros q ->. simpl in *. apply negb_false_iff in Et. split; [by apply bool_decide_eq_true in Et|].
  intros wanted Hw. rewrite Hw in Eq. apply negb_false_iff in Eq. by apply String.eqb_eq in Eq.
Qed.

Lemma judge_service_Offered config query profile id priority_ capacity_ service md prefix :
  judge_service config query profile id priority_ capacity_ service = Offered md prefix ->
  ns_service_name service = cn_service_name config /\
  eq_ignore_ascii_case (ns_nf_service_status service) "REGISTERED" = true /\
  eq_ignore_ascii_case (ns_scheme service) (expected_scheme config) = true /\
  non_empty_id (ns_service_instance_id service) = Some (service_instance_id md) /\
  nf_instance_id md = id /\
  ((forall n, priority_ = Some n -> n <= u16_max) -> priority md <= u16_max) /\
  ((forall n, capacity_ = Some n -> n <= u16_max) -> capacity md <= u16_max) /\
  normalize_api_prefix (ns_api_prefix service) = Ok prefix /\
  (forall q, query = Some q -> nq_api_version q ∈ ns_versions service /\
    (forall wanted, nq_service_instance_id q = Some wanted -> wanted = service_instance_id md) /\
    token (nf_instance_id md) = true /\ token (service_instance_id md) = true).
Proof.
  unfold judge_service. cbn zeta. intros Hj. destruct (_ || _ || _) eqn:Eb; [done|].
  apply orb_false_iff in Eb as [[En%negb_false_iff Es%negb_false_iff]%orb_false_iff Ec%negb_false_iff].
  destruct (non_empty_id (ns_service_instance_id service)) as [sid|] eqn:Eid; [|done].
  destruct (match query ≫= nq_service_instance_id with Some _ => _ | None => _ end) eqn:Ew; [done|].
  destruct (match query with Some _ => _ | None => _ end) eqn:Ev; [done|].
  destruct (optional_u16 (ns_priority service) _) as [pr|] eqn:Ep; [|done].
  destruct (optional_u16 (ns_capacity service) _) as [ca|] eqn:Eca; [|done].
  destruct (is_some query && (_ || _)) eqn:Etok; [done|].
  destruct (normalize_api_prefix _) as [pre|] eqn:Epre; [|done].
  match type of Hj with (if ?b then _ else _) = _ => destruct b; [done|] end. injection Hj as <- <-. simpl.
  apply optional_u16_Ok in Ep as [_ ?], Eca as [_ ?]. apply String.eqb_eq in En.
  split_and!; [done..| | |done|].
  - intros. by apply default_option_or_le.
  - intros. by apply default_option_or_le.
  - intros q ->. simpl in *. apply negb_false_iff, existsb_exists in Ev as (v & Hv & ->%String.eqb_eq).
    apply orb_false_iff in Etok as [?%negb_false_iff ?%negb_false_iff]. split_and!; [by apply list_elem_of_In| |done|done].
    intros wanted Hw. rewrite Hw in Ew. apply negb_false_iff in Ew. by apply String.eqb_eq in Ew.
Qed.

(** What the registry declared about an endpoint of the answer [profiles]. *)
Definition conforms (config : CompiledNrfDiscovery) (query : option NrfQuery) (profiles : list NfProfile)
    (s : CompiledUpstreamServer) : Prop :=
  exists profile service md address,
    profile ∈ profiles /\ service ∈ profile_services profile /\ nrf_service s = Some md /\
    eq_ignore_ascii_case (np_nf_status profile) "REGISTERED" = true /\
    eq_ignore_ascii_case (ns_nf_service_status service) "REGISTERED" = true /\
    ns_service_name service = cn_service_name config /\
    eq_ignore_ascii_case (ns_scheme service) (expected_scheme config) = true /\
    non_empty_id (np_nf_instance_id profile) = Some (nf_instance_id md) /\
    non_empty_id (ns_service_instance_id service) = Some (service_instance_id md) /\
    priority md <= u16_max /\ capacity md <= u16_max /\
    normalize_api_prefix (ns_api_prefix service) = Ok (api_prefix s) /\
    address ∈ listed_addresses config query profile service /\
    clean_address address = Some (cs_host s, cs_port s) /\
    (forall q, query = Some q ->
      np_nf_type profile = Some (cn_target_nf_type config) /\ nq_api_version q ∈ ns_versions service /\
      (forall id, nq_nf_instance_id q = Some id -> id = nf_instance_id md) /\
      (forall id, nq_service_instance_id q = Some id -> id = service_instance_id md) /\
      token (nf_instance_id md) = true /\ token (service_instance_id md) = true).

Lemma offered_conforms config query profiles o a h p :
  o ∈ offerings config query profiles -> a ∈ listed_addresses config query (of_profile o) (of_service o) ->
  clean_address a = Some (h, p) -> conforms config query profiles (endpoint_server (of_metadata o, h, p, of_prefix o)).
Proof.
  intros (Hp & Hs & id & pr & ca & Ha & Hj)%elem_of_offerings Hin Hc.
  apply admit_profile_Some in Ha as (? & Hid & ? & ? & Hq). apply judge_service_Offered in Hj as (? & ? & ? & ? & <- & ? & ? & ? & Hq').
  exists (of_profile o), (of_service o), (of_metadata o), a. split_and!; auto.
  intros q Eq. destruct (Hq q Eq), (Hq' q Eq) as (? & ? & ? & ?). done.
Qed.

Lemma endpoint_server_inj e e' : endpoint_server e = endpoint_server e' -> e = e'.
Proof. destruct e as [[[md h] p] pre], e' as [[[md' h'] p'] pre']. intros [=]. congruence. Qed.

(** The servers extracted are those the offered services yield. *)
Lemma extract_query_endpoints_yield config profiles query s :
  s ∈ fst (extract_query_endpoints config profiles query) <->
  exists e, yields config query (offerings config query profiles) e /\ s = endpoint_server e.
Proof.
  unfold extract_query_endpoints. destruct (extract_profiles_offer config query profiles ([], false)) as [Ho _].
  destruct (foldl (extract_profile _ _) _ _) as [endpoints invalid]. cbn [fst] in *. subst endpoints.
  destruct (offers_yield config query (offerings config query profiles)) as [_ Hy]. rewrite list_elem_of_fmap.
  split; intros (e & H1 & H2); exists e; [split; [by apply Hy|done]|split; [done|by apply Hy]].
Qed.

Lemma extract_query_endpoints_conform config profiles query :
  Forall (conforms config query profiles) (fst (extract_query_endpoints config profiles query)) /\
  NoDup (fst (extract_query_endpoints config profiles query)).
Proof.
  split.
  - apply Forall_forall. intros s (e & (o & Ho & a & h & p & ? & ? & ->)%yields_listed & ->)%extract_query_endpoints_yield. by eapply offered_conforms.
  - unfold extract_query_endpoints. destruct (extract_profiles_offer config query profiles ([], false)) as [Ho _].
    destruct (foldl (extract_profile _ _) _ _) as [endpoints invalid]. cbn [fst] in *. subst endpoints.
    apply NoDup_fmap_2; [|by apply bs_wf_nodup, offers_yield]. intros ? ?. apply endpoint_server_inj.
Qed.

Lemma read_chunks_Ok body chunks text :
  read_chunks body chunks = Ok text -> str_len body <= MAX_RESPONSE_BODY ->
  exists parts, chunks = Ok <$> parts /\ text = body +:+ concat_str parts /\ str_len text <= MAX_RESPONSE_BODY.
Proof.
  revert body. induction chunks as [|chunk chunks IH]; intros body; simpl.
  - intros [= <-] Hb. exists []. simpl. by rewrite append_nil_r.
  - intros Hr Hb. apply bind_Ok_inv in Hr as (part & Hpart & Hr). apply map_err_Ok in Hpart as ->.
    apply bind_Ok_inv in Hr as (? & Hsize & Hr). apply fail_if_Ok, N.ltb_ge in Hsize. unfold saturating_add64 in Hsize.
    assert (MAX_RESPONSE_BODY < u64_max) by done. apply IH in Hr as (parts & -> & -> & ?); [|rewrite str_len_append; lia].
    exists (part :: parts). simpl. by rewrite append_assoc in *.
Qed.

Lemma discover_Ok exchange c r :
  discover exchange c = Ok r ->
  exists response parts answer,
    exchange (nc_client c) (discovery_url c) [("accept", "application/json")] = Ok response /\
    nr_status response = 200 /\ nr_chunks response = Ok <$> parts /\
    str_len (concat_str parts) <= MAX_RESPONSE_BODY /\
    decode_search_result (concat_str parts) = Ok answer /\
    0 < dr_validity r /\ NoDup (dr_endpoints r) /\
    Forall (conforms (nc_config c) (nc_query c) (sr_nf_instances answer)) (dr_endpoints r) /\
    (dr_invalid_api r = true -> dr_endpoints r = []).
Proof.
  unfold discover. intros Hd. apply bind_Ok_inv in Hd as (response & Hr%map_err_Ok & Hd).
  apply bind_Ok_inv in Hd as (_ & Hs%fail_if_Ok & Hd). apply bind_Ok_inv in Hd as (_ & _ & Hd).
  apply bind_Ok_inv in Hd as (body & Hb & Hd). apply bind_Ok_inv in Hd as (answer & Ha%map_err_Ok & Hd).
  apply read_chunks_Ok in Hb as (parts & Hp & -> & Hlen); [|done]. simpl in Ha, Hlen.
  destruct (extract_query_endpoints_conform (nc_config c) (sr_nf_instances answer) (nc_query c)) as [Hc Hn].
  destruct (extract_query_endpoints _ _ _) as [endpoints invalid] eqn:Ee. injection Hd as <-. simpl in *.
  exists response, parts, answer. apply negb_false_iff, N.eqb_eq in Hs. split_and!; [done..| | |done|].
  - unfold result_validity. destruct (sr_validity_period answer) as [v|]; [|done]. simpl.
    destruct (is_zero (from_secs v)) eqn:E; [done|]. apply N.eqb_neq in E. simpl. lia.
  - done.
  - intros ->. unfold extract_query_endpoints in Ee. destruct (foldl _ _ _) as [es inv]. injection Ee as <- Hi.
    apply andb_true_iff in Hi as [_ Hi]. by destruct (endpoint_server <$> es).
Qed.

(** C33: an answer of the registry is used only within its limits: a discovery that
    succeeds came with status 200 and at most 1 MiB of body, stays valid for a positive
    time, and every endpoint it yields is one the answer lists for a registered
    instance and a registered service of the configured name and scheme, with a valid
    host, a nonzero port, 16-bit priority and capacity; under an SCP query also of the
    requested instance, service instance and API version, with ids that can be echoed in
    headers.  No endpoint is repeated. *)
Theorem nrf_discovery_confined exchange c r :
  discover exchange c = Ok r ->
  exists response parts answer,
    exchange (nc_client c) (discovery_url c) [("accept", "application/json")] = Ok response /\
    nr_status response = 200 /\ nr_chunks response = Ok <$> parts /\
    str_len (concat_str parts) <= MAX_RESPONSE_BODY /\
    decode_search_result (concat_str parts) = Ok answer /\
    0 < dr_validity r /\ NoDup (dr_endpoints r) /\
    Forall (conforms (nc_config c) (nc_query c) (sr_nf_instances answer)) (dr_endpoints r) /\
    (dr_invalid_api r = true -> dr_endpoints r = []).
Proof. apply discover_Ok. Qed.

(** The addresses of a service that is offered once: its domain name, else its own
    endpoints, else, when none of these is usable, the addresses of its profile. *)
Definition service_addresses config query (o : Offering) : list (string * N) :=
  match service_host query (of_profile o) (of_service o) with
  | Some host => omap clean_address (named_addresses config (of_service o) host)
  | None =>
      let own := omap clean_address (own_addresses config (of_service o)) in
      if is_nil own then omap clean_address (profile_addresses config (of_profile o)) else own
  end.

Lemma entry_clean md prefix addresses h p :
  entry md prefix addresses (md, h, p, prefix) <-> (h, p) ∈ omap clean_address addresses.
Proof.
  rewrite list_elem_of_omap. split; [intros (a & h' & p' & ? & ? & [= <- <-]); by exists a|]. intros (a & ? & ?). by exists a, h, p.
Qed.

(** What another service yields is of its own metadata. *)
Lemma yields_metadata config query os e : yields config query os e -> exists o, o ∈ os /\ of_metadata o = (fst (fst (fst e))).
Proof. intros (o & Ho & a & h & p & _ & _ & ->)%yields_listed. by exists o. Qed.

Lemma yields_once config query before o after h p :
  (forall o', o' ∈ before ++ after -> of_metadata o' <> of_metadata o) ->
  yields config query (before ++ o :: after) (of_metadata o, h, p, of_prefix o) <-> (h, p) ∈ service_addresses config query o.
Proof.
  intros Hother. induction after as [|o' after IH] using rev_ind.
  - assert (forall e', fst (fst (fst e')) = of_metadata o -> ~ yields config query before e') as Hnone.
    { intros e' He (o' & Ho' & E)%yields_metadata. apply (Hother o'); [by rewrite app_nil_r|congruence]. }
    rewrite yields_snoc. unfold service_addresses, preferred_addresses. destruct (service_host _ _ _) as [host|].
    { rewrite entry_clean. split; [intros [?%Hnone|[?|(? & _)]]; done|auto]. }
    rewrite !entry_clean. cbn zeta. destruct (omap clean_address (own_addresses config (of_service o))) as [|[h0 p0] own] eqn:Eo; cbn [is_nil].
    + split; [intros [?%Hnone|[?%elem_of_nil|(_ & _ & ?)]]; done|]. intros ?. right; right. split_and!; [done| |done].
      intros e' (a & h' & p' & Ha & Hc & ->). exfalso. eapply elem_of_nil. rewrite <- Eo. apply list_elem_of_omap. by exists a.
    + split; [|by right; left]. intros [Hy|[?|(_ & Hall & _)]]; [by apply Hnone in Hy|done|]. exfalso.
      eapply (Hnone (of_metadata o, h0, p0, of_prefix o)); [done|]. apply Hall, entry_clean. rewrite Eo. apply elem_of_cons. by left.
  - rewrite app_comm_cons, app_assoc, yields_snoc, IH by (intros o'' Hin; apply Hother; rewrite !elem_of_app in *; naive_solver).
    assert (of_metadata o' <> of_metadata o) as Hne by (apply Hother; rewrite !elem_of_app, list_elem_of_singleton; auto).
    split; [|by left]. intros [?|[(a & h' & p' & _ & _ & [=])|(_ & _ & a & h' & p' & _ & _ & [=])]]; [done|congruence..].
Qed.

(** C34: extraction neither invents nor loses endpoints.  The servers extracted are
    exactly those the offered services yield, taken in the order of the answer: each
    its domain name with each port it declares (or the scheme's default), or its own
    IP endpoints; and the addresses of its profile on the default port exactly when it
    has no domain name and adds no endpoint of its own, because it has no usable one or
    because services before it yielded them all.  So a service whose metadata no other
    offered one shares is extracted with its domain name, else its own usable
    addresses, else those of its profile, and no others.  The API version is reported
    as unsupported exactly when nothing was extracted and some service was passed over
    only for its version. *)
Theorem nrf_extraction_exact config profiles query :
  let '(servers, invalid_api) := extract_query_endpoints config profiles query in
  (forall s, s ∈ servers <-> exists e, yields config query (offerings config query profiles) e /\ s = endpoint_server e) /\
  (forall before o after h p, offerings config query profiles = before ++ o :: after ->
    (forall o', o' ∈ before ++ after -> of_metadata o' <> of_metadata o) ->
    mkCompiledUpstreamServer h p 1 (of_prefix o) (Some (of_metadata o)) ∈ servers <-> (h, p) ∈ service_addresses config query o) /\
  (invalid_api = true <-> servers = [] /\ exists profile, profile ∈ profiles /\ outdated_by config query profile).
Proof.
  pose proof (extract_query_endpoints_yield config profiles query) as Hy.
  assert (snd (extract_query_endpoints config profiles query) = true <->
    fst (extract_query_endpoints config profiles query) = [] /\ exists profile, profile ∈ profiles /\ outdated_by config query profile) as Hi.
  { unfold extract_query_endpoints. destruct (extract_profiles_offer config query profiles ([], false)) as [_ Hv].
    destruct (foldl (extract_profile _ _) _ _) as [endpoints invalid]. cbn [fst snd] in *. rewrite andb_true_iff, Hv.
    destruct endpoints; simpl; [|naive_solver]. split; [|naive_solver]. intros [[[=]|?] _]. done. }
  destruct (extract_query_endpoints config profiles query) as [servers invalid_api]. cbn [fst snd] in *.
  split_and!; [done| |done]. intros before o after h p Eo Hother. rewrite Hy, Eo, <- (yields_once config query before o after h p Hother). split.
  - intros (e & He & E). by apply (endpoint_server_inj (of_metadata o, h, p, of_prefix o)) in E as <-.
  - intros He. by eexists.
Qed.
End nrf.

(** ** Samples *)

Module NrfSample.
Definition set_path (u : @Url Toy.crates) (p : string) : @Url Toy.crates := Toy.mkUrl (Toy.t_scheme u) (Toy.t_host u) (Toy.t_port u) p.
(** A registry that answers every query with [answer], in two chunks. *)
Definition deps (answer : SearchResult) : @NrfDeps Toy.crates := {|
  host_is_valid := str_all (in_range 33 126);
  path_and_query_error _ := "invalid"; path_and_query_query s := snd <$> split_once "?" s;
  url_set_path := set_path; url_set_query := fun (u : @Url Toy.crates) _ => u; url_append_pair := fun (u : @Url Toy.crates) _ _ => u;
  pem_read _ := Err "not found";
  Certificate := string; from_pem_bundle s := Ok [s];
  Identity := string; identity_from_pem s := Ok s;
  NrfHttpClient := unit; nrf_client_build _ := Ok tt;
  status_to_string := pretty;
  decode_search_result s := if String.eqb s "abc" then Ok answer else Err "expected abc"
|}.
Definition exchange (_ : unit) (_ : @Url Toy.crates) (_ : list (string * string)) : result string NrfResponse :=
  Ok (mkNrfResponse 200 None [Ok "ab"; Ok "c"]).
Definition config : @CompiledNrfDiscovery Toy.crates :=
  @mkCompiledNrfDiscovery Toy.crates (Toy.mkUrl "http" "nrf" None "/nnrf-disc/v1") "SMF" "AMF" "nsmf-pdusession" NrfHttp
    (from_secs 3) (from_secs 60) UpstreamSslOptions_default.
Definition service : NfService :=
  mkNfService ["v1"] (Some "s1") "nsmf-pdusession" "http" "REGISTERED" None (Some 10) None
    [mkIpEndPoint (Some "10.0.0.1") None (Some 8080)] (Some "/smf/").
Definition profile : NfProfile :=
  mkNfProfile (Some "SMF") (Some "nf-1") "Registered" (Some 5) None None ["10.0.0.9"] [] [service] [].
(** The same service in the list form as well, as the deprecated and the current
    attribute of a profile are. *)
Definition profile_both : NfProfile :=
  mkNfProfile (Some "SMF") (Some "nf-1") "Registered" (Some 5) None None ["10.0.0.9"] [] [service] [("s1", service)].
Definition md : NrfServiceMetadata := mkNrfServiceMetadata None "nf-1" "s1" 5 10.
Definition server (host : string) (port : N) : CompiledUpstreamServer := mkCompiledUpstreamServer host port 1 (Some "/smf") (Some md).
Definition answer : SearchResult := mkSearchResult (Some 0) [profile].
Definition client : @NrfClient Toy.crates (deps answer) := @mkNrfClient Toy.crates (deps answer) config tt None.
Definition found : DiscoveryResult := mkDiscoveryResult (from_secs 30) [server "10.0.0.1" 8080] false.
Lemma client_finds : @discover Toy.crates (deps answer) exchange client = Ok found.
Proof. vm_compute. reflexivity. Qed.
End NrfSample.

Lemma nrf_discovery_confined_witness :
  @discover Toy.crates (NrfSample.deps NrfSample.answer) NrfSample.exchange NrfSample.client = Ok NrfSample.found /\ 0 < dr_validity NrfSample.found.
Proof.
  split; [exact NrfSample.client_finds|].
  destruct (@nrf_discovery_confined Toy.crates (NrfSample.deps NrfSample.answer) NrfSample.exchange NrfSample.client NrfSample.found NrfSample.client_finds)
    as (_ & _ & _ & _ & _ & _ & _ & _ & Hv & _). exact Hv.
Defined.

(** A service that is listed twice, once in each form, is also given the addresses of
    its profile on the default port: the second listing adds nothing new to the set,
    which is taken for a service without endpoints of its own. *)
Theorem nrf_service_listed_twice_widened :
  fst (@extract_query_endpoints Toy.crates (NrfSample.deps NrfSample.answer) NrfSample.config [NrfSample.profile] None) =
    [NrfSample.server "10.0.0.1" 8080] /\
  fst (@extract_query_endpoints Toy.crates (NrfSample.deps NrfSample.answer) NrfSample.config [NrfSample.profile_both] None) =
    [NrfSample.server "10.0.0.1" 8080; NrfSample.server "10.0.0.9" 80].
Proof. split; vm_compute; reflexivity. Qed.
