(* ===== verification/Groups.v ===== *)
(** * Running upstream groups
    (crates/ngxora-runtime/src/upstreams/runtime/groups.rs, groups/topology.rs)

    The backends of a group, its load balancer, and for a discovering group the tiers
    of priority with their pools of services: construction, selection, readiness and
    the periodic health check.  Pingora's load balancers and its health registry are
    parameters; the refresh of a discovering group is [Discovery]'s, at the backends
    and topologies of this file. *)

From S2P Require Import Prelude RustStr NetAddr BTree Crates Headers Ir Types Scp Topology Discovery Health ScpRouting Nrf.

Open Scope N_scope.

#[global] Instance NrfServiceMetadata_countable : Countable NrfServiceMetadata.
Proof.
  refine (inj_countable' metadata_fields (fun '(a, n, s, p, c) => mkNrfServiceMetadata a n s p c) _). by intros [].
Defined.

(** ** Third-party code *)

(** What is fed to a hasher. *)
Inductive HashField := HashStr (s : string) | HashU16 (n : N) | HashOptStr (o : option string).

Class Balancers := {
  (** the 64-bit [DefaultHasher] of the standard library, over what it is fed *)
  default_hasher : list HashField -> N;
  (** [LoadBalancer] of a policy over static backends; [None] when its first update
      does not end at once *)
  Lb : Type;
  lb_new : UpstreamSelectionPolicy -> list Backend -> option (result string Lb);
  (** [Backends::update] over static backends, with a health registry *)
  backends_update : list Backend -> result string unit;
  (** [select_with]: the callback sees a backend and its health; the balancer moves on *)
  lb_select_with : Lb -> string -> N -> (Backend -> bool) -> Lb * option Backend
}.

(** Documented behaviour: a balancer proposes its own backends, and selects one that
    the callback accepts. *)
Class BalancerLaws `{Balancers} := {
  lb_members : Lb -> list Backend;
  lb_new_members : forall policy backends lb, lb_new policy backends = Some (Ok lb) -> lb_members lb = backends;
  lb_select_members : forall lb key n accept, lb_members (fst (lb_select_with lb key n accept)) = lb_members lb;
  lb_select_sound : forall lb key n accept b, snd (lb_select_with lb key n accept) = Some b -> b ∈ lb_members lb /\ accept b = true
}.

Section groups.
Context `{Crates} `{Balancers}.

(** ** Backends *)

Definition stable_backend_id (server : CompiledUpstreamServer) : N :=
  default_hasher ([HashStr (cs_host server); HashU16 (cs_port server); HashOptStr (api_prefix server)] ++
    match nrf_service server with
    | Some service => [HashStr (nf_instance_id service); HashStr (service_instance_id service)]
    | None => []
    end).
(** The derived [Hash]: the fields in order. *)
Definition stable_nrf_service_id (service : NrfServiceMetadata) : N :=
  default_hasher [HashOptStr (authority service); HashStr (nf_instance_id service); HashStr (service_instance_id service);
                  HashU16 (priority service); HashU16 (capacity service)].

Definition server_backend (id : N) (server : CompiledUpstreamServer) : Backend :=
  mkBackend (synthetic_backend_addr id) (cs_weight server) (Some server) None.

Definition synthetic_backends (servers : list CompiledUpstreamServer) : list Backend :=
  bs_collect (imap (fun index server => server_backend (N.min u64_max (N.of_nat index)) server) servers).

Definition dynamic_synthetic_backends (servers : list CompiledUpstreamServer) : list Backend :=
  bs_collect (zip_with server_backend (dynamic_ids (stable_backend_id <$> servers)) servers).

(** ** Load balancers *)

(** [checker] is the health check as it is built. *)
Definition build_runtime_selector (policy : UpstreamSelectionPolicy) (backends : list Backend)
    (checker : option (result string NgxoraHealthCheck)) : result string Lb :=
  _ ← transpose checker;
  lb ← ok_or (lb_new policy backends) "static upstream update unexpectedly blocked";
  map_err (fun err => "failed to initialize upstream load balancer: " +:+ err) lb.

(** ** Topology *)

Record NrfEndpointIdentity := mkEndpointIdentity { ei_host : string; ei_port : N; ei_api_prefix : option string }.
#[global] Instance NrfEndpointIdentity_eq_dec : EqDecision NrfEndpointIdentity.
Proof. solve_decision. Defined.

Record RuntimeNrfService := mkRuntimeNrfService { rn_endpoints : list Backend; rn_next_endpoint : N }.
Record NrfServicePool := mkNrfServicePool { po_selector : Lb; po_services : gmap NrfServiceMetadata RuntimeNrfService }.
Record NrfServiceTier := mkNrfServiceTier { ti_positive_capacity : option NrfServicePool; ti_zero_capacity : option NrfServicePool }.
Record NrfServiceTopology := mkNrfServiceTopology {
  to_signature : list (NrfServiceMetadata * list NrfEndpointIdentity);
  to_tiers : list NrfServiceTier
}.

(** The representative backend of a service, under its hash or the next free id. *)
Definition representative (id : N) (e : (NrfServiceMetadata * list Backend) * N) : Backend :=
  mkBackend (synthetic_backend_addr id) (snd e) None (Some (fst (fst e))).

Definition pool_build (services : list (NrfServiceMetadata * list Backend)) (policy : UpstreamSelectionPolicy)
  : result string (option NrfServicePool) :=
  if is_nil services then Ok None else
  weights ← normalized_capacities ((fun e => N.max (capacity (fst e)) 1) <$> services);
  let entries := zip services weights in
  let representative_backends :=
    bs_collect (zip_with representative (dynamic_ids ((fun e => stable_nrf_service_id (fst (fst e))) <$> entries)) entries) in
  let runtime_services :=
    foldl (fun m e => <[fst (fst e) := mkRuntimeNrfService (snd (fst e)) 0]> m) ∅ entries in
  selector ← build_runtime_selector policy representative_backends None;
  Ok (Some (mkNrfServicePool selector runtime_services)).

Definition tier_build (services : list (NrfServiceMetadata * list Backend)) (policy : UpstreamSelectionPolicy)
  : result string NrfServiceTier :=
  let positive := filter (fun e => 0 < capacity (fst e)) services in
  let zero := filter (fun e => ~ 0 < capacity (fst e)) services in
  positive_capacity ← pool_build positive policy;
  zero_capacity ← pool_build zero policy;
  Ok (mkNrfServiceTier positive_capacity zero_capacity).

Definition server_identity (server : CompiledUpstreamServer) : NrfEndpointIdentity :=
  mkEndpointIdentity (cs_host server) (cs_port server) (api_prefix server).

(** The service of a backend, or why it has none. *)
Definition backend_service (backend : Backend) : result string (NrfServiceMetadata * Backend) :=
  server ← ok_or (bk_server backend) "NRF backend is missing compiled endpoint metadata";
  service ← ok_or (nrf_service server) "NRF backend is missing service metadata";
  Ok (service, backend).

(** The backends by service, and the services by priority. *)
Definition by_service (pairs : list (NrfServiceMetadata * Backend)) : list (NrfServiceMetadata * list Backend) :=
  (fun e : NrfServiceMetadata * list (NrfServiceMetadata * Backend) => (fst e, (snd e).*2)) <$> bm_group fst pairs.
Definition by_priority (services : list (NrfServiceMetadata * list Backend)) : list (N * list (NrfServiceMetadata * list Backend)) :=
  bm_group (fun e => priority (fst e)) services.

Definition topology_build (backends : list Backend) (policy : UpstreamSelectionPolicy) : result string (option NrfServiceTopology) :=
  pairs ← mapM backend_service backends;
  let services := by_service pairs in
  if is_nil services then Ok None else
  let signature := (fun e : NrfServiceMetadata * list Backend => (fst e, server_identity <$> omap bk_server (snd e))) <$> services in
  tiers ← mapM (fun e => tier_build (snd e) policy) (by_priority services);
  Ok (Some (mkNrfServiceTopology signature tiers)).

(** ** Selecting from a topology: the first tier that has a ready endpoint *)

Section select.
Context (ready : Backend -> bool).

Definition service_accepted (pool : NrfServicePool) (backend : Backend) : bool :=
  match bk_service backend ≫= fun service => po_services pool !! service with
  | Some service => existsb ready (rn_endpoints service)
  | None => false
  end.

Definition pool_select (key : string) (pool : NrfServicePool) : NrfServicePool * option CompiledUpstreamServer :=
  let max_iterations := N.max (N.of_nat (size (po_services pool))) 256 in
  let '(selector, backend) := lb_select_with (po_selector pool) key max_iterations (service_accepted pool) in
  let pool := mkNrfServicePool selector (po_services pool) in
  match backend ≫= bk_service with
  | None => (pool, None)
  | Some metadata =>
      match po_services pool !! metadata with
      | None => (pool, None)
      | Some service =>
          let '(next, endpoint) := select_endpoint ready (rn_endpoints service) (rn_next_endpoint service) in
          (mkNrfServicePool (po_selector pool) (<[metadata := mkRuntimeNrfService (rn_endpoints service) next]> (po_services pool)),
           endpoint ≫= bk_server)
      end
  end.

(** A pool that may be missing. *)
Definition pool_option_select (key : string) (pool : option NrfServicePool) : option NrfServicePool * option CompiledUpstreamServer :=
  match pool with
  | None => (None, None)
  | Some pool => let '(pool, server) := pool_select key pool in (Some pool, server)
  end.

Definition tier_select (key : string) (tier : NrfServiceTier) : NrfServiceTier * option CompiledUpstreamServer :=
  let '(positive, server) := pool_option_select key (ti_positive_capacity tier) in
  match server with
  | Some server => (mkNrfServiceTier positive (ti_zero_capacity tier), Some server)
  | None =>
      let '(zero, server) := pool_option_select key (ti_zero_capacity tier) in
      (mkNrfServiceTier positive zero, server)
  end.

Fixpoint tiers_select (key : string) (tiers : list NrfServiceTier) : list NrfServiceTier * option CompiledUpstreamServer :=
  match tiers with
  | [] => ([], None)
  | tier :: tiers' =>
      let '(tier, server) := tier_select key tier in
      match server with
      | Some server => (tier :: tiers', Some server)
      | None => let '(tiers', server) := tiers_select key tiers' in (tier :: tiers', server)
      end
  end.

Definition topology_select (key : string) (t : NrfServiceTopology) : NrfServiceTopology * option CompiledUpstreamServer :=
  let '(tiers, server) := tiers_select key (to_tiers t) in (mkNrfServiceTopology (to_signature t) tiers, server).
End select.

(** ** Lemmas *)

(** Three 16-bit digits above a constant. *)
Lemma digits_inj c x y z x' y' z' :
  x < 65536 -> y < 65536 -> z < 65536 -> x' < 65536 -> y' < 65536 -> z' < 65536 ->
  (((c * 65536 + x) * 65536 + y) * 65536 + z) * 65536 + 1 = (((c * 65536 + x') * 65536 + y') * 65536 + z') * 65536 + 1 ->
  x = x' /\ y = y' /\ z = z'.
Proof. lia. Qed.

Lemma mod_digits a : a mod 2 ^ 48 = a mod 65536 + 65536 * ((a / 65536) mod 65536 + 65536 * ((a / 4294967296) mod 65536)).
Proof.
  change (2 ^ 48) with (65536 * (65536 * 65536)). rewrite !N.Div0.mod_mul_r, N.Div0.div_div. done.
Qed.

Lemma synthetic_addr_inj a b : synthetic_backend_addr a = synthetic_backend_addr b -> a mod 2 ^ 48 = b mod 2 ^ 48.
Proof.
  unfold synthetic_backend_addr. intros [= He]. cbn [foldl] in He.
  change 65535 with (N.ones 16) in He. rewrite !N.land_ones, !N.shiftr_div_pow2 in He.
  change (2 ^ 16) with 65536 in He. change (2 ^ 32) with 4294967296 in He.
  apply digits_inj in He as (E1 & E2 & E3); try (apply N.mod_lt; done).
  by rewrite !mod_digits, E1, E2, E3.
Qed.

Lemma dynamic_ids_id hashes : NoDup hashes -> dynamic_ids hashes = hashes.
Proof.
  unfold dynamic_ids. intros Hn.
  enough (forall used, NoDup (used ++ hashes) -> foldl assign_id used hashes = used ++ hashes) as Hg by (by apply (Hg [])).
  clear Hn. induction hashes as [|h hashes IH]; intros used Hn; simpl; [by rewrite app_nil_r|].
  assert (assign_id used h = used ++ [h]) as ->.
  { unfold assign_id. simpl. rewrite bool_decide_eq_false_2; [done|]. apply NoDup_app in Hn as (_ & Hd & _). set_solver. }
  rewrite IH; [by rewrite <- app_assoc|by rewrite <- app_assoc].
Qed.

Lemma foldl_bump_length l ws : length (foldl bump ws l) = length ws.
Proof.
  revert ws. induction l as [|i l IH]; intros ws; simpl; [done|]. rewrite IH. unfold bump.
  destruct (ws !! i); [apply length_insert|done].
Qed.
Lemma normalized_capacities_length caps weights : normalized_capacities caps = Ok weights -> length weights = length caps.
Proof.
  unfold normalized_capacities. destruct (is_nil caps) eqn:En; [intros [= <-]; by destruct caps|]. intros Hw. inv_ok.
  destruct (_ <=? _); [by injection Hw as <-|]. injection Hw as <-. by rewrite foldl_bump_length, !length_fmap.
Qed.

(** ** The services of a pool *)

Definition Services : Type := list (NrfServiceMetadata * list Backend).

(** The endpoints of a service are servers of that service. *)
Definition services_wf (services : Services) : Prop :=
  NoDup services.*1 /\
  forall md eps b, (md, eps) ∈ services -> b ∈ eps -> exists s, bk_server b = Some s /\ nrf_service s = Some md.

(** The hashes of the services differ in the 48 bits an address keeps. *)
Definition hashes_distinct (services : Services) : Prop :=
  NoDup ((fun e => stable_nrf_service_id (fst e) mod 2 ^ 48) <$> services).

Context `{!BalancerLaws}.

(** A pool holds its services, and its balancer a representative of each; no service
    has answered more than [k] times. *)
Record pool_inv (services : Services) (k : N) (pool : NrfServicePool) : Prop := {
  pi_services : forall md svc, po_services pool !! md = Some svc ->
    (md, rn_endpoints svc) ∈ services /\ rn_next_endpoint svc <= k;
  pi_all : forall md eps, (md, eps) ∈ services -> exists svc, po_services pool !! md = Some svc /\ rn_endpoints svc = eps;
  pi_represented : hashes_distinct services -> forall md eps, (md, eps) ∈ services ->
    exists b, b ∈ lb_members (po_selector pool) /\ bk_service b = Some md;
  pi_size : (length (lb_members (po_selector pool)) <= size (po_services pool))%nat
}.

Definition pool_option_inv (services : Services) (k : N) (pool : option NrfServicePool) : Prop :=
  match pool with None => services = [] | Some pool => pool_inv services k pool end.

Lemma foldl_services (entries : list ((NrfServiceMetadata * list Backend) * N)) (m : gmap NrfServiceMetadata RuntimeNrfService) md :
  NoDup (entries.*1.*1) ->
  foldl (fun m e => <[fst (fst e) := mkRuntimeNrfService (snd (fst e)) 0]> m) m entries !! md =
  match list_find (fun e => fst (fst e) = md) entries with
  | Some (_, e) => Some (mkRuntimeNrfService (snd (fst e)) 0)
  | None => m !! md
  end.
Proof.
  revert m. induction entries as [|[[k eps] w] entries IH]; intros m Hn; simpl; [done|].
  inversion Hn as [|? ? Hni Hn']; subst. rewrite IH by done. destruct (decide (k = md)) as [->|Hne].
  - destruct (list_find _ entries) as [[i e]|] eqn:E.
    + exfalso. apply list_find_Some in E as (Hi & He & _). apply Hni. rewrite <- He.
      apply list_elem_of_fmap_2, list_elem_of_fmap_2. by eapply list_elem_of_lookup_2.
    + by rewrite lookup_insert_eq.
  - destruct (list_find (fun e => fst (fst e) = md) entries) as [[i e]|]; simpl; [done|]. by rewrite lookup_insert_ne.
Qed.

Lemma zip_fst_all {A C} (l : list A) (k : list C) : length k = length l -> (zip l k).*1 = l.
Proof. intros Hl. apply fst_zip. lia. Qed.

Lemma pool_build_inv services policy pool :
  services_wf services -> pool_build services policy = Ok pool -> pool_option_inv services 0 pool.
Proof.
  intros [Hn Hwf] Hb. unfold pool_build in Hb. destruct (is_nil services) eqn:E0.
  { injection Hb as <-. by destruct services. }
  apply bind_Ok_inv in Hb as (weights & Hw & Hb). apply normalized_capacities_length in Hw. rewrite length_fmap in Hw.
  apply bind_Ok_inv in Hb as (selector & Hs & Hb). injection Hb as <-.
  unfold build_runtime_selector in Hs. apply bind_Ok_inv in Hs as (_ & _ & Hs). inv_ok. apply lb_new_members in Hok.
  set (entries := zip services weights) in *. assert (entries.*1 = services) as He by (by apply zip_fst_all).
  assert (NoDup entries.*1.*1) as Hne by (by rewrite He).
  assert (forall md e, e ∈ entries -> fst (fst e) = md -> exists i, list_find (fun e => fst (fst e) = md) entries = Some (i, e)) as Hfind.
  { intros md e Hin Hmd. destruct (list_find (fun e => fst (fst e) = md) entries) as [[i e']|] eqn:Ef.
    - apply list_find_Some in Ef as (Hi & He' & _). exists i. apply list_elem_of_lookup in Hin as [j Hj].
      assert (i = j) as ->; [|congruence]. eapply (NoDup_lookup _ i j md); [exact Hne|..].
      + by rewrite !list_lookup_fmap, Hi; simpl; rewrite He'.
      + by rewrite !list_lookup_fmap, Hj; simpl; rewrite Hmd.
    - apply list_find_None in Ef. eapply Forall_forall in Ef; [|exact Hin]. done. }
  assert (forall md eps, (md, eps) ∈ services -> exists w, ((md, eps), w) ∈ entries) as Hent.
  { intros md eps Hin. rewrite <- He in Hin. apply list_elem_of_fmap in Hin as ([e w] & -> & Hin). by exists w. }
  simpl. constructor; simpl.
  - intros md svc. rewrite foldl_services by done. destruct (list_find _ entries) as [[i e]|] eqn:Ef; [|done].
    intros [= <-]. simpl. split; [|lia]. apply list_find_Some in Ef as (Hi & <- & _). rewrite <- He.
    destruct e as [[md eps] w]. apply (list_elem_of_fmap_2' fst _ ((md, eps), w)); [by eapply list_elem_of_lookup_2|done].
  - intros md eps Hin. destruct (Hent md eps Hin) as [w Hw']. destruct (Hfind md _ Hw' eq_refl) as [i Hi].
    exists (mkRuntimeNrfService eps 0). rewrite foldl_services by done. by rewrite Hi.
  - intros Hd md eps Hin. destruct (Hent md eps Hin) as [w Hw']. rewrite Hok.
    set (ids := (fun e => stable_nrf_service_id (fst (fst e))) <$> entries) in *.
    assert (NoDup ((fun id => id mod 2 ^ 48) <$> ids)) as Hids.
    { unfold ids. rewrite <- list_fmap_compose. unfold hashes_distinct in Hd. by rewrite <- He, <- list_fmap_compose in Hd. }
    assert (NoDup ids) as Hids' by (by apply NoDup_fmap_1 in Hids). rewrite dynamic_ids_id by done.
    apply list_elem_of_lookup in Hw' as [i Hi].
    exists (representative (stable_nrf_service_id md) ((md, eps), w)). split; [|done]. apply bs_collect_all.
    + intros i1 i2 x y Hx Hy Hc. rewrite lookup_zip_with in Hx, Hy. unfold ids in Hx, Hy. rewrite !list_lookup_fmap in Hx, Hy.
      destruct (entries !! i1) as [e1|] eqn:E1; [|done]. destruct (entries !! i2) as [e2|] eqn:E2; [|done].
      injection Hx as <-. injection Hy as <-. unfold cmp, backend_ord, cmp_via in Hc. apply then_with_eq in Hc as [Hc _]. simpl in Hc.
      unfold cmp, ip_ord, synthetic_backend_addr in Hc. apply cmp_eq in Hc.
      assert (stable_nrf_service_id (fst (fst e1)) mod 2 ^ 48 = stable_nrf_service_id (fst (fst e2)) mod 2 ^ 48) as Hm
        by (apply synthetic_addr_inj; unfold synthetic_backend_addr; by f_equal).
      eapply (NoDup_lookup _ i1 i2); [exact Hids|..]; unfold ids; rewrite !list_lookup_fmap, ?E1, ?E2; simpl; [done|by rewrite Hm].
    + apply list_elem_of_lookup. exists i. rewrite lookup_zip_with. unfold ids. rewrite list_lookup_fmap, Hi. done.
  - rewrite Hok. etransitivity; [apply bs_collect_length|]. rewrite length_zip_with.
    transitivity (length entries); [lia|]. replace (length entries) with (size (list_to_set (entries.*1.*1) : gset NrfServiceMetadata)).
    + rewrite <- size_dom. apply subseteq_size. intros md Hmd. apply elem_of_list_to_set in Hmd.
      apply list_elem_of_fmap in Hmd as (e1 & -> & Hmd). apply list_elem_of_fmap in Hmd as (e & -> & Hin).
      apply elem_of_dom. rewrite foldl_services by done. destruct (Hfind _ e Hin eq_refl) as [i Hi]. rewrite Hi. by eexists.
    + rewrite size_list_to_set by done. by rewrite !length_fmap.
Qed.

(** ** Selection *)

(** The server of a ready endpoint of [services]. *)
Definition ready_server (ready : Backend -> bool) (services : Services) (s : CompiledUpstreamServer) : Prop :=
  exists md eps b, (md, eps) ∈ services /\ b ∈ eps /\ ready b = true /\ bk_server b = Some s.

Lemma pool_inv_advance services k pool selector :
  lb_members selector = lb_members (po_selector pool) -> pool_inv services k pool ->
  pool_inv services (k + 1) (mkNrfServicePool selector (po_services pool)).
Proof.
  intros Hm [Hs Ha Hr Hz]. constructor; simpl; [|done|by rewrite Hm|by rewrite Hm].
  intros md svc Hl. destruct (Hs md svc Hl). split; [done|lia].
Qed.

Lemma pool_inv_insert services k pool md svc :
  pool_inv services k pool -> po_services pool !! md = Some svc -> k < u64_max ->
  pool_inv services (k + 1) (mkNrfServicePool (po_selector pool)
    (<[md := mkRuntimeNrfService (rn_endpoints svc) (wrapping_add64 (rn_next_endpoint svc) 1)]> (po_services pool))).
Proof.
  intros [Hs Ha Hr Hz] Hsvc Hk. constructor; simpl.
  - intros md' svc' Hl. apply lookup_insert_Some in Hl as [[<- <-]|[_ Hl]].
    + destruct (Hs md svc Hsvc) as [? Hle]. split; [done|]. simpl. rewrite wrapping_add64_exact by lia. lia.
    + destruct (Hs md' svc' Hl). split; [done|lia].
  - intros md' eps Hin. destruct (Ha md' eps Hin) as (svc' & Hl & He). destruct (decide (md = md')) as [<-|Hne].
    + eexists. rewrite lookup_insert_eq. split; [done|]. simpl. congruence.
    + exists svc'. by rewrite lookup_insert_ne.
  - done.
  - rewrite map_size_insert_Some; [done|by eexists].
Qed.

(** What one selection from a pool answers and leaves. *)
Lemma pool_select_spec ready key services k pool :
  services_wf services -> pool_inv services k pool -> k < u64_max ->
  let '(pool', r) := pool_select ready key pool in
  pool_inv services (k + 1) pool' /\ (forall s, r = Some s -> ready_server ready services s).
Proof.
  intros Hwf Hinv Hk. unfold pool_select. destruct (lb_select_with _ _ _ _) as [selector backend] eqn:Elb.
  pose proof (lb_select_members (po_selector pool) key (N.max (N.of_nat (size (po_services pool))) 256) (service_accepted ready pool)) as Hm.
  rewrite Elb in Hm. simpl in Hm. pose proof (pool_inv_advance services k pool selector Hm Hinv) as Hadv.
  destruct (backend ≫= bk_service) as [md|]; [|by split].
  cbn [po_services po_selector]. destruct (po_services pool !! md) as [svc|] eqn:Esvc; [|by split].
  destruct (select_endpoint ready (rn_endpoints svc) (rn_next_endpoint svc)) as [next endpoint] eqn:Ese.
  unfold select_endpoint in Ese. injection Ese as <- Ese. split.
  - replace selector with (po_selector (mkNrfServicePool selector (po_services pool))) by done.
    pose proof (pool_inv_insert services k pool md svc Hinv Esvc Hk) as [Hs Ha Hr Hz].
    constructor; simpl in *; [done|done|by rewrite Hm|by rewrite Hm].
  - intros s Hs. destruct endpoint as [b|]; [|done]. apply try_offsets_Some in Ese as [Hb Hready].
    destruct (pi_services services k pool Hinv md svc Esvc) as [Hin _]. exists md, (rn_endpoints svc), b. done.
Qed.

(** The balancer of [pool], which holds the service [md], was asked and found nothing,
    though it might look at as many backends as it has; it has a representative of the
    service that the question accepts, at least when [apart]. *)
Definition missed_in (apart : Prop) (ready : Backend -> bool) (key : string) (pool : NrfServicePool) (md : NrfServiceMetadata) : Prop :=
  is_Some (po_services pool !! md) /\
  snd (lb_select_with (po_selector pool) key (N.max (N.of_nat (size (po_services pool))) 256) (service_accepted ready pool)) = None /\
  N.of_nat (length (lb_members (po_selector pool))) <= N.max (N.of_nat (size (po_services pool))) 256 /\
  (apart -> exists rep, rep ∈ lb_members (po_selector pool) /\ bk_service rep = Some md /\ service_accepted ready pool rep = true).
Definition missed (apart : Prop) (ready : Backend -> bool) (key : string) (tiers : list NrfServiceTier) (md : NrfServiceMetadata) : Prop :=
  exists tier pool, tier ∈ tiers /\ (ti_positive_capacity tier = Some pool \/ ti_zero_capacity tier = Some pool) /\ missed_in apart ready key pool md.
(** The service of [s] was passed over for the reason [P]. *)
Definition excused (P : NrfServiceMetadata -> Prop) (s : CompiledUpstreamServer) : Prop := exists md, nrf_service s = Some md /\ P md.

(** A pool whose balancer finds a service answers. *)
Lemma pool_select_found ready key services k pool :
  services_wf services -> pool_inv services k pool ->
  (forall md eps, (md, eps) ∈ services -> k + N.of_nat (length eps) <= u64_max) -> snd (pool_select ready key pool) = None ->
  snd (lb_select_with (po_selector pool) key (N.max (N.of_nat (size (po_services pool))) 256) (service_accepted ready pool)) = None.
Proof.
  intros Hwf Hinv Hcount. destruct (snd (lb_select_with _ _ _ _)) as [chosen|] eqn:Hc; [|done].
  unfold pool_select. pose proof (lb_select_sound _ _ _ _ _ Hc) as [_ Hca]. destruct (lb_select_with _ _ _ _) as [selector backend].
  simpl in Hc. subst backend. simpl. unfold service_accepted in Hca. destruct (bk_service chosen) as [md'|]; [|done]. simpl in *.
  destruct (po_services pool !! md') as [svc'|] eqn:Esvc'; [|done].
  destruct (pi_services _ _ _ Hinv md' svc' Esvc') as [Hin' Hnext]. specialize (Hcount _ _ Hin').
  pose proof (select_endpoint_found ready (rn_endpoints svc') (rn_next_endpoint svc') ltac:(lia)) as Hse.
  apply existsb_exists in Hca as (b' & Hb' & Hready'). apply list_elem_of_In in Hb'.
  unfold select_endpoint in *. simpl in *. destruct (try_offsets ready _ _ _) as [e|]; simpl in *; [|specialize (Hse b' Hb'); congruence].
  destruct (proj2 Hwf md' _ e Hin' (proj1 Hse)) as (se & Hse' & _). congruence.
Qed.

(** A pool that does not answer has missed every ready service it holds. *)
Lemma pool_select_missed (apart : Prop) ready key services k pool s :
  services_wf services -> (apart -> hashes_distinct services) -> pool_inv services k pool ->
  (forall md eps, (md, eps) ∈ services -> k + N.of_nat (length eps) <= u64_max) ->
  ready_server ready services s -> snd (pool_select ready key pool) = None -> excused (missed_in apart ready key pool) s.
Proof.
  intros Hwf Hd Hinv Hcount (md & eps & b & Hin & Hb & Hready & Hsrv) Hnone.
  destruct (proj2 Hwf md eps b Hin Hb) as (s' & Hs' & Hmd). rewrite Hsrv in Hs'. injection Hs' as <-.
  destruct (pi_all _ _ _ Hinv md eps Hin) as (svc & Hsvc & Heps). exists md. split; [done|].
  split; [by eexists|]. split; [by eapply pool_select_found|]. split; [pose proof (pi_size _ _ _ Hinv); lia|]. intros Ha.
  destruct (pi_represented _ _ _ Hinv (Hd Ha) md eps Hin) as (rep & Hrep & Hrmd). exists rep. split_and!; [done..|].
  unfold service_accepted. rewrite Hrmd. simpl. rewrite Hsvc, Heps. apply existsb_exists. exists b. by rewrite <- list_elem_of_In.
Qed.

Lemma services_wf_filter (P : NrfServiceMetadata * list Backend -> Prop) `{!forall e, Decision (P e)} services :
  services_wf services -> services_wf (filter P services).
Proof.
  intros [Hn Hs]. split.
  - eapply sublist_NoDup; [exact Hn|]. apply fmap_sublist, sublist_filter.
  - intros md eps b Hin. apply list_elem_of_filter in Hin as [_ Hin]. by apply Hs.
Qed.
Lemma hashes_distinct_filter (P : NrfServiceMetadata * list Backend -> Prop) `{!forall e, Decision (P e)} services :
  hashes_distinct services -> hashes_distinct (filter P services).
Proof. intros Hd. eapply sublist_NoDup; [exact Hd|]. apply fmap_sublist, sublist_filter. Qed.
Lemma ready_server_filter (P : NrfServiceMetadata * list Backend -> Prop) `{!forall e, Decision (P e)} ready services s :
  ready_server ready (filter P services) s -> ready_server ready services s.
Proof. intros (md & eps & b & Hin & ?). apply list_elem_of_filter in Hin as [_ Hin]. by exists md, eps, b. Qed.
#[local] Hint Resolve services_wf_filter hashes_distinct_filter ready_server_filter : groups.

Lemma pool_inv_mono services k k' pool : pool_inv services k pool -> k <= k' -> pool_inv services k' pool.
Proof. intros [Hs Ha Hr Hz] Hk. constructor; [|done..]. intros md svc Hl. destruct (Hs md svc Hl). split; [done|lia]. Qed.
Lemma pool_option_inv_mono services k k' pool : pool_option_inv services k pool -> k <= k' -> pool_option_inv services k' pool.
Proof. destruct pool; [apply pool_inv_mono|done]. Qed.

Lemma pool_option_select_spec ready key services k pool :
  services_wf services -> pool_option_inv services k pool -> k < u64_max ->
  pool_option_inv services (k + 1) (fst (pool_option_select ready key pool)) /\
  (forall s, snd (pool_option_select ready key pool) = Some s -> ready_server ready services s).
Proof.
  intros Hwf Hinv Hk. destruct pool as [pool|]; simpl; [|by split].
  pose proof (pool_select_spec ready key services k pool Hwf Hinv Hk) as Hp. by destruct (pool_select ready key pool).
Qed.

(** Enough room in the 64-bit counters for one more round. *)
Definition counters_fit (services : Services) (k : N) : Prop :=
  forall md eps, (md, eps) ∈ services -> k + N.of_nat (length eps) <= u64_max.
Lemma counters_fit_filter (P : NrfServiceMetadata * list Backend -> Prop) `{!forall e, Decision (P e)} services k :
  counters_fit services k -> counters_fit (filter P services) k.
Proof. intros Hc md eps Hin. apply list_elem_of_filter in Hin as [_ Hin]. by eapply Hc. Qed.
#[local] Hint Resolve counters_fit_filter : groups.

Lemma pool_option_select_missed (apart : Prop) ready key services k pool s :
  services_wf services -> (apart -> hashes_distinct services) -> pool_option_inv services k pool -> counters_fit services k ->
  ready_server ready services s -> snd (pool_option_select ready key pool) = None ->
  exists pool', pool = Some pool' /\ excused (missed_in apart ready key pool') s.
Proof.
  intros Hwf Hd Hinv Hc Hr Hn. destruct pool as [pool|]; simpl in *.
  - exists pool. split; [done|]. eapply pool_select_missed; [done..|]. by destruct (pool_select ready key pool).
  - subst. destruct Hr as (? & ? & ? & ?%elem_of_nil & _). done.
Qed.

Definition positive (e : NrfServiceMetadata * list Backend) : Prop := 0 < capacity (fst e).
Definition tier_inv (services : Services) (k : N) (tier : NrfServiceTier) : Prop :=
  pool_option_inv (filter positive services) k (ti_positive_capacity tier) /\
  pool_option_inv (filter (fun e => ~ positive e) services) k (ti_zero_capacity tier).

(** Choosing among [services]: a ready server is chosen if there is one, of a service
    with positive capacity if such a one is ready; [P] excuses what is passed over. *)
Definition chosen_from (P : NrfServiceMetadata -> Prop) (ready : Backend -> bool) (services : Services) (r : option CompiledUpstreamServer) : Prop :=
  match r with
  | Some s => forall s', ready_server ready (filter positive services) s' -> ready_server ready (filter positive services) s \/ excused P s'
  | None => forall s, ready_server ready services s -> excused P s
  end.

Lemma tier_select_spec ready key services k tier :
  services_wf services -> tier_inv services k tier -> k < u64_max ->
  tier_inv services (k + 1) (fst (tier_select ready key tier)) /\
  (forall s, snd (tier_select ready key tier) = Some s -> ready_server ready services s).
Proof.
  intros Hwf [Hp Hz] Hk. unfold tier_select.
  destruct (pool_option_select_spec ready key (filter positive services) k (ti_positive_capacity tier)) as [Hp' Hps]; [auto with groups|done|done|].
  destruct (pool_option_select_spec ready key (filter (fun e => ~ positive e) services) k (ti_zero_capacity tier)) as [Hz' Hzs];
    [auto with groups|done|done|].
  destruct (pool_option_select ready key (ti_positive_capacity tier)) as [pp [s|]]; simpl in *.
  - split; [split; [done|eapply pool_option_inv_mono; [done|lia]]|]. intros s' [= <-]. eapply ready_server_filter; eauto.
  - destruct (pool_option_select ready key (ti_zero_capacity tier)) as [pz r]; simpl in *. split; [by split|].
    intros s ->. eapply ready_server_filter; eauto.
Qed.

Lemma tier_select_chosen (apart : Prop) ready key services k tier :
  services_wf services -> (apart -> hashes_distinct services) -> tier_inv services k tier -> counters_fit services k -> k < u64_max ->
  chosen_from (missed apart ready key [tier]) ready services (snd (tier_select ready key tier)).
Proof.
  intros Hwf Hd [Hp Hz] Hc Hk. unfold tier_select, chosen_from.
  assert (forall pool s, ti_positive_capacity tier = Some pool \/ ti_zero_capacity tier = Some pool ->
    excused (missed_in apart ready key pool) s -> excused (missed apart ready key [tier]) s) as Hex.
  { intros pool s Ho (md & Hm & Hi). exists md. split; [done|]. exists tier, pool. split_and!; [set_solver|done|done]. }
  destruct (pool_option_select_spec ready key (filter positive services) k (ti_positive_capacity tier)) as [_ Hps]; [auto with groups|done|done|].
  pose proof (fun s => pool_option_select_missed apart ready key (filter positive services) k (ti_positive_capacity tier) s
    ltac:(auto with groups) ltac:(auto with groups) Hp ltac:(auto with groups)) as Hpc.
  pose proof (fun s => pool_option_select_missed apart ready key (filter (fun e => ~ positive e) services) k (ti_zero_capacity tier) s
    ltac:(auto with groups) ltac:(auto with groups) Hz ltac:(auto with groups)) as Hzc.
  destruct (pool_option_select ready key (ti_positive_capacity tier)) as [pp [s|]]; simpl in *; [by intros; left; apply Hps|].
  assert (forall s, ready_server ready (filter positive services) s -> excused (missed apart ready key [tier]) s) as Hnone.
  { intros s Hs. destruct (Hpc s Hs eq_refl) as (pool & Hpool & He). eapply Hex; eauto. }
  destruct (pool_option_select ready key (ti_zero_capacity tier)) as [pz [s|]]; simpl in *; [intros s' Hs'; right; by apply Hnone|].
  intros s (md & eps & b & Hin & Hb). destruct (decide (positive (md, eps))) as [Hpos|Hneg].
  - apply (Hnone s). exists md, eps, b. split; [by apply list_elem_of_filter|done].
  - destruct (Hzc s) as (pool & Hpool & He); [|done|eapply Hex; eauto]. exists md, eps, b. split; [by apply list_elem_of_filter|done].
Qed.

Lemma chosen_from_mono (P Q : NrfServiceMetadata -> Prop) ready services r :
  (forall md, P md -> Q md) -> chosen_from P ready services r -> chosen_from Q ready services r.
Proof.
  intros HPQ. assert (forall s, excused P s -> excused Q s) as He by (intros s (md & ? & ?); exists md; auto).
  destruct r; simpl; [|by auto]. intros Hc s' Hs'. destruct (Hc s' Hs'); auto.
Qed.

Definition tiers_inv (groups : list Services) (k : N) (tiers : list NrfServiceTier) : Prop :=
  Forall2 (fun services tier => services_wf services /\ tier_inv services k tier) groups tiers.

(** The first group with a ready server that is not passed over decides. *)
Fixpoint chosen_first (P : NrfServiceMetadata -> Prop) (ready : Backend -> bool) (groups : list Services) (r : option CompiledUpstreamServer) : Prop :=
  match groups with
  | [] => r = None
  | services :: groups' =>
      match r with
      | None => (forall s, ready_server ready services s -> excused P s) /\ chosen_first P ready groups' r
      | Some s => (ready_server ready services s /\ chosen_from P ready services r) \/
                  ((forall s', ready_server ready services s' -> excused P s') /\ chosen_first P ready groups' r)
      end
  end.

Lemma tier_inv_mono services k k' tier : tier_inv services k tier -> k <= k' -> tier_inv services k' tier.
Proof. intros [? ?] ?. split; by eapply pool_option_inv_mono. Qed.

Lemma tiers_select_spec ready key groups k tiers :
  tiers_inv groups k tiers -> k < u64_max ->
  tiers_inv groups (k + 1) (fst (tiers_select ready key tiers)) /\
  (forall s, snd (tiers_select ready key tiers) = Some s -> exists services, services ∈ groups /\ ready_server ready services s).
Proof.
  intros Hinv Hk. induction Hinv as [|services tier groups tiers [Hwf Ht] Hinv [IHi IHs]]; simpl; [split; [constructor|done]|].
  destruct (tier_select_spec ready key services k tier Hwf Ht Hk) as [Ht' Hs].
  destruct (tier_select ready key tier) as [tier' [s|]]; simpl in *.
  - split; [|intros s' [= <-]; exists services; split; [set_solver|by apply Hs]]. constructor; [done|].
    eapply Forall2_impl; [exact Hinv|]. intros ? ? [? ?]. split; [done|]. eapply tier_inv_mono; [done|lia].
  - destruct (tiers_select ready key tiers) as [tiers' r]; simpl in *. split; [by constructor|].
    intros s Hr. destruct (IHs s Hr) as (services' & ? & ?). exists services'. split; [by apply elem_of_cons; right|done].
Qed.

Lemma tiers_select_chosen (apart : Prop) (P : NrfServiceMetadata -> Prop) ready key groups k tiers :
  (forall md, missed apart ready key tiers md -> P md) ->
  tiers_inv groups k tiers -> (apart -> Forall hashes_distinct groups) -> Forall (fun g => counters_fit g k) groups -> k < u64_max ->
  chosen_first P ready groups (snd (tiers_select ready key tiers)).
Proof.
  intros HP Hinv. induction Hinv as [|services tier groups tiers [Hwf Ht] Hinv IH]; simpl; [done|].
  intros Hd [Hc Hcs]%Forall_cons Hk.
  assert (forall tiers' md, tiers' ⊆ tier :: tiers -> missed apart ready key tiers' md -> P md) as HP'.
  { intros tiers' md Hsub (tier' & pool & Hin & Hm). apply HP. exists tier', pool. split; [by apply Hsub|done]. }
  specialize (IH (fun md => HP' tiers md ltac:(set_solver)) ltac:(intros Ha; by apply Forall_cons in Hd as [_ ?]) Hcs Hk).
  pose proof (tier_select_chosen apart ready key services k tier Hwf ltac:(intros Ha; by apply Forall_cons in Hd as [? _]) Ht Hc Hk) as Hch.
  apply (chosen_from_mono _ P) in Hch; [|intros md; apply HP'; set_solver].
  destruct (tier_select_spec ready key services k tier Hwf Ht Hk) as [_ Hs].
  destruct (tier_select ready key tier) as [tier' [s|]]; simpl in *; [left; split; [by apply Hs|exact Hch]|].
  destruct (tiers_select ready key tiers) as [tiers' [s|]]; simpl in *; [by right|by split].
Qed.

(** ** Topologies *)

Definition priority_of (e : NrfServiceMetadata * list Backend) : N := priority (fst e).

(** The services a topology was built from, by priority. *)
Definition topology_inv (services : Services) (k : N) (t : NrfServiceTopology) : Prop :=
  tiers_inv (snd <$> by_priority services) k (to_tiers t).

Lemma by_priority_groups services g : g ∈ snd <$> by_priority services -> exists p, g = filter (fun e => priority_of e = p) services.
Proof.
  intros Hg. apply list_elem_of_fmap in Hg as ([p g'] & -> & Hin). unfold by_priority in Hin.
  apply elem_of_bm_group in Hin as [-> _]. by exists p.
Qed.

Lemma by_service_wf pairs :
  Forall (fun e => exists s, bk_server (snd e) = Some s /\ nrf_service s = Some (fst e)) pairs ->
  services_wf (by_service pairs) /\
  (forall b, (exists md eps, (md, eps) ∈ by_service pairs /\ b ∈ eps) <-> b ∈ pairs.*2).
Proof.
  intros Hp. split; [split|].
  - unfold by_service. rewrite <- list_fmap_compose. apply bs_wf_nodup.
    destruct (bm_group_keys (fst : NrfServiceMetadata * Backend -> _) pairs) as [Hk _]. exact Hk.
  - intros md eps b Hin Hb. unfold by_service in Hin. apply list_elem_of_fmap in Hin as ([md' l] & [= -> ->] & Hin).
    apply elem_of_bm_group in Hin as [-> _]. apply list_elem_of_fmap in Hb as (e & -> & He).
    apply list_elem_of_filter in He as [<- He]. by eapply Forall_forall in Hp.
  - intros b. split.
    + intros (md & eps & Hin & Hb). unfold by_service in Hin. apply list_elem_of_fmap in Hin as ([md' l] & [= -> ->] & Hin).
      apply elem_of_bm_group in Hin as [-> _]. apply list_elem_of_fmap in Hb as (e & -> & He).
      apply list_elem_of_filter in He as [_ He]. by apply list_elem_of_fmap_2.
    + intros Hb. apply list_elem_of_fmap in Hb as ([md b'] & -> & Hb). exists md, ((filter (fun e => fst e = md) pairs).*2).
      assert ((md, b') ∈ filter (fun e => fst e = md) pairs) as Hf by (by apply list_elem_of_filter). split.
      * unfold by_service. apply list_elem_of_fmap. exists (md, filter (fun e => fst e = md) pairs). split; [done|].
        apply elem_of_bm_group. split; [done|]. intros E. rewrite E in Hf. set_solver.
      * by apply (list_elem_of_fmap_2' snd _ (md, b')).
Qed.

Lemma by_service_length pairs md eps : (md, eps) ∈ by_service pairs -> eps <> [] /\ (length eps <= length pairs)%nat.
Proof.
  unfold by_service. intros Hin. apply list_elem_of_fmap in Hin as ([md' l] & [= -> ->] & Hin).
  apply elem_of_bm_group in Hin as [-> Hne]. split; [by destruct (filter _ _)|].
  rewrite length_fmap. apply sublist_length, sublist_filter.
Qed.

Lemma mapM_backend_service backends pairs :
  mapM backend_service backends = Ok pairs ->
  pairs.*2 = backends /\ Forall (fun e => exists s, bk_server (snd e) = Some s /\ nrf_service s = Some (fst e)) pairs.
Proof.
  intros Hm. apply mapM_Ok in Hm. induction Hm as [|b e backends pairs He Hm [IH1 IH2]]; [done|].
  unfold backend_service in He. inv_ok. simpl. split; [done|]. constructor; [|done]. by eexists.
Qed.

Lemma topology_build_inv backends policy t :
  topology_build backends policy = Ok (Some t) ->
  exists services, services_wf services /\ topology_inv services 0 t /\
    (forall md eps, (md, eps) ∈ services -> eps <> [] /\ (length eps <= length backends)%nat) /\
    forall b, (exists md eps, (md, eps) ∈ services /\ b ∈ eps) <-> b ∈ backends.
Proof.
  unfold topology_build. intros Hb. apply bind_Ok_inv in Hb as (pairs & Hp & Hb).
  apply mapM_backend_service in Hp as [Hp2 Hp]. destruct (by_service_wf pairs Hp) as [Hwf Hall].
  destruct (is_nil (by_service pairs)); [done|]. apply bind_Ok_inv in Hb as (tiers & Ht & Hb). injection Hb as <-.
  exists (by_service pairs). split_and!; [done| |rewrite <- Hp2, length_fmap; apply by_service_length|by rewrite Hp2 in Hall].
  unfold topology_inv, tiers_inv. simpl. apply mapM_Ok in Ht. apply Forall2_fmap_l.
  assert (Forall (fun e => services_wf (snd e)) (by_priority (by_service pairs))) as Hgw.
  { apply Forall_forall. intros e He. destruct (by_priority_groups (by_service pairs) (snd e)) as [p ->]; [by apply list_elem_of_fmap_2|].
    by apply services_wf_filter. }
  clear Hall. induction Ht as [|e tier es tiers Hte Ht IH]; constructor.
  - apply Forall_cons in Hgw as [Hw _]. split; [done|]. unfold tier_build in Hte. inv_ok.
    split; simpl; [apply (pool_build_inv _ policy); [by apply services_wf_filter|exact Hok]
                  |apply (pool_build_inv _ policy); [by apply services_wf_filter|exact Hok0]].
  - apply IH. by apply Forall_cons in Hgw as [_ ?].
Qed.

(** A sequence of selections, each with its own readiness and key. *)
Fixpoint run_selects (calls : list ((Backend -> bool) * string)) (t : NrfServiceTopology) : NrfServiceTopology :=
  match calls with [] => t | (ready, key) :: calls' => run_selects calls' (fst (topology_select ready key t)) end.

Lemma topology_select_inv services ready key k t :
  topology_inv services k t -> k < u64_max -> topology_inv services (k + 1) (fst (topology_select ready key t)).
Proof.
  unfold topology_inv, topology_select. intros Hi Hk. destruct (tiers_select_spec ready key _ k (to_tiers t) Hi Hk) as [Hi' _].
  by destruct (tiers_select ready key (to_tiers t)).
Qed.

Lemma run_selects_inv services calls k t :
  topology_inv services k t -> k + N.of_nat (length calls) <= u64_max ->
  topology_inv services (k + N.of_nat (length calls)) (run_selects calls t).
Proof.
  revert k t. induction calls as [|[ready key] calls IH]; intros k t Hi Hk; simpl; [by rewrite N.add_0_r|].
  simpl in Hk. replace (k + N.of_nat (S (length calls))) with (k + 1 + N.of_nat (length calls)) by lia.
  apply IH; [apply topology_select_inv; [done|lia]|lia].
Qed.

Lemma topology_select_tiers ready key t : snd (topology_select ready key t) = snd (tiers_select ready key (to_tiers t)).
Proof. unfold topology_select. by destruct (tiers_select ready key (to_tiers t)). Qed.

Lemma chosen_first_Some P ready (l : list (N * Services)) s :
  bs_wf l.*1 -> chosen_first P ready l.*2 (Some s) ->
  exists p g, (p, g) ∈ l /\ ready_server ready g s /\ chosen_from P ready g (Some s) /\
    forall p' g' s', (p', g') ∈ l -> p' < p -> ready_server ready g' s' -> excused P s'.
Proof.
  induction l as [|[p g] l IH]; simpl; [done|]. intros Hs Hc. inversion Hs as [|? ? Hs' Hf]; subst.
  assert (forall p' g', (p', g') ∈ l -> p < p') as Hlt.
  { intros p' g' Hin. eapply Forall_forall in Hf; [|by apply (list_elem_of_fmap_2' fst _ (p', g'))]. by apply N.compare_lt_iff in Hf. }
  destruct Hc as [[Hr Hc]|[Hn Hc]].
  - exists p, g. split_and!; [set_solver|done|done|]. intros p' g' s' [[= -> ->]|Hin]%elem_of_cons Hp; [lia|].
    specialize (Hlt p' g' Hin). lia.
  - destruct (IH Hs' Hc) as (q & h & Hin & Hr & Hcf & Hmin). exists q, h. split_and!; [set_solver|done|done|].
    intros p' g' s' [[= -> ->]|Hin']%elem_of_cons Hp; [apply Hn|by eapply Hmin].
Qed.

Lemma chosen_first_None P ready groups s g : chosen_first P ready groups None -> g ∈ groups -> ready_server ready g s -> excused P s.
Proof. induction groups as [|g' groups IH]; simpl; [set_solver|]. intros [Hn Hc] [->|Hin]%elem_of_cons; [apply Hn|by apply IH]. Qed.

Lemma ready_server_priority ready services s md :
  services_wf services -> ready_server ready services s -> nrf_service s = Some md ->
  exists g, (priority md, g) ∈ by_priority services /\ ready_server ready g s /\
    (0 < capacity md -> ready_server ready (filter positive g) s).
Proof.
  intros Hwf (md' & eps & b & Hin & Hb & Hr & Hs) Hmd.
  destruct (proj2 Hwf md' eps b Hin Hb) as (s' & Hs' & Hmd'). rewrite Hs in Hs'. injection Hs' as <-.
  rewrite Hmd in Hmd'. injection Hmd' as <-. exists (filter (fun e => priority_of e = priority md) services).
  assert ((md, eps) ∈ filter (fun e => priority_of e = priority md) services) as Hf by (by apply list_elem_of_filter).
  split_and!.
  - apply elem_of_bm_group. split; [done|]. intros E. rewrite E in Hf. set_solver.
  - by exists md, eps, b.
  - intros Hc. exists md, eps, b. split; [by apply list_elem_of_filter|done].
Qed.

(** The server [s] of a ready backend comes before [s']: a smaller priority value, and
    at the same priority a service with capacity before one without. *)
Definition preferred_to (s s' : CompiledUpstreamServer) : Prop :=
  forall md md', nrf_service s = Some md -> nrf_service s' = Some md' ->
    priority md <= priority md' /\ (priority md = priority md' -> 0 < capacity md' -> 0 < capacity md).

(** The 48 bits of the hash that an address keeps tell the services of [backends] apart. *)
Definition services_hashed_apart (backends : list Backend) : Prop :=
  forall b b' s s' md md', b ∈ backends -> b' ∈ backends -> bk_server b = Some s -> bk_server b' = Some s' ->
    nrf_service s = Some md -> nrf_service s' = Some md' ->
    stable_nrf_service_id md mod 2 ^ 48 = stable_nrf_service_id md' mod 2 ^ 48 -> md = md'.

Lemma services_hashes_distinct services backends :
  services_wf services -> (forall b, (exists md eps, (md, eps) ∈ services /\ b ∈ eps) <-> b ∈ backends) ->
  (forall md eps, (md, eps) ∈ services -> eps <> [] /\ (length eps <= length backends)%nat) -> services_hashed_apart backends -> hashes_distinct services.
Proof.
  intros [Hn Hs] Hall Hne Hh. unfold hashes_distinct. apply NoDup_fmap_2_strong; [|by eapply NoDup_fmap_1].
  intros [md eps] [md' eps'] Hin Hin' He. simpl in He.
  destruct eps as [|b eps]; [by destruct (Hne _ _ Hin)|]. destruct eps' as [|b' eps']; [by destruct (Hne _ _ Hin')|].
  destruct (Hs md (b :: eps) b Hin ltac:(set_solver)) as (s & Hsb & Hmd). destruct (Hs md' (b' :: eps') b' Hin' ltac:(set_solver)) as (s' & Hsb' & Hmd').
  assert (md = md') as <-.
  { eapply (Hh b b' s s'); try done; apply Hall; [exists md, (b :: eps)|exists md', (b' :: eps')]; set_solver. }
  apply list_elem_of_lookup in Hin as [i Hi]. apply list_elem_of_lookup in Hin' as [j Hj].
  assert (i = j) as <-; [|congruence]. eapply (NoDup_lookup _ i j md); [exact Hn|..]; rewrite list_lookup_fmap; [by rewrite Hi|by rewrite Hj].
Qed.

(** The service [md] of a topology of [backends] is passed over: its pool was asked, and
    the balancer of the pool found nothing. *)
Definition passed_over (backends : list Backend) (ready : Backend -> bool) (key : string) (t : NrfServiceTopology) (md : NrfServiceMetadata) : Prop :=
  missed (services_hashed_apart backends) ready key (to_tiers t) md.

(** A built topology, after any selections: what its groups are and that the counters
    still have room. *)
Lemma topology_select_chosen backends policy t calls ready key :
  topology_build backends policy = Ok (Some t) -> N.of_nat (length calls + length backends) < u64_max ->
  exists services, services_wf services /\
    (forall b, (exists md eps, (md, eps) ∈ services /\ b ∈ eps) <-> b ∈ backends) /\
    chosen_first (passed_over backends ready key (run_selects calls t)) ready (by_priority services).*2
      (snd (topology_select ready key (run_selects calls t))).
Proof.
  intros Hb Hc. apply topology_build_inv in Hb as (services & Hwf & Hi & Hne & Hall).
  exists services. split_and!; [done|done|]. rewrite topology_select_tiers.
  apply (run_selects_inv services calls 0 t) in Hi; [|lia]. rewrite N.add_0_l in Hi.
  apply (tiers_select_chosen (services_hashed_apart backends) _ ready key _ (N.of_nat (length calls)) _ (fun md Hm => Hm) Hi); [| |lia].
  - intros Hh. apply Forall_forall. intros g Hg. apply by_priority_groups in Hg as [p ->].
    by apply hashes_distinct_filter, (services_hashes_distinct services backends).
  - apply Forall_forall. intros g Hg. apply by_priority_groups in Hg as [p ->]. apply counters_fit_filter.
    intros md eps Hin. destruct (Hne md eps Hin). lia.
Qed.

(** C31: a discovering group prefers the services the registry prefers.  However the
    readiness of the endpoints changed and whatever was selected before (fewer than 2^64
    times), a selection answers a ready endpoint; one with a lower priority value, or of a
    service with capacity at the same priority when its own has none, is ready only if
    the pool of that one was asked first and its balancer found nothing; the same holds of
    every ready endpoint when there is no answer.  A pool that was asked has a
    representative of each of its services, unless services collide in the 48 bits of
    their hashes that an address keeps. *)
Theorem nrf_selection_by_priority backends policy t calls ready key :
  topology_build backends policy = Ok (Some t) -> N.of_nat (length calls + length backends) < u64_max ->
  let passed s := excused (passed_over backends ready key (run_selects calls t)) s in
  match snd (topology_select ready key (run_selects calls t)) with
  | Some s => exists b, b ∈ backends /\ ready b = true /\ bk_server b = Some s /\
      forall b' s', b' ∈ backends -> ready b' = true -> bk_server b' = Some s' -> preferred_to s s' \/ passed s'
  | None => forall b s, b ∈ backends -> ready b = true -> bk_server b = Some s -> passed s
  end.
Proof.
  intros Hb Hc passed. destruct (topology_select_chosen backends policy t calls ready key Hb Hc) as (services & Hwf & Hall & Hch).
  assert (forall b s, b ∈ backends -> ready b = true -> bk_server b = Some s -> ready_server ready services s) as Hrs.
  { intros b s Hin Hr Hs. apply Hall in Hin as (md & eps & Hin & Hbe). by exists md, eps, b. }
  assert (forall b s, b ∈ backends -> bk_server b = Some s -> exists md, nrf_service s = Some md) as Hmd.
  { intros b s Hin Hs. apply Hall in Hin as (md & eps & Hin & Hbe). destruct (proj2 Hwf md eps b Hin Hbe) as (s' & Hs' & Hm). exists md. congruence. }
  destruct (snd _) as [s|].
  - destruct (bm_group_keys (fun e : NrfServiceMetadata * list Backend => priority (fst e)) services) as [Hsorted _].
    apply chosen_first_Some in Hch as (p & g & Hg & Hr & Hcf & Hmin); [|exact Hsorted].
    apply elem_of_bm_group in Hg as [-> _].
    destruct Hr as (md & eps & b & Hin & Hbe & Hready & Hsb). apply list_elem_of_filter in Hin as [Hp Hin]. simpl in Hp.
    destruct (proj2 Hwf md eps b Hin Hbe) as (s1 & Hs1 & Hmd1). rewrite Hsb in Hs1. injection Hs1 as <-.
    exists b. split_and!; [apply Hall; by exists md, eps|done|done|].
    intros b' s' Hb' Hr' Hs'. destruct (Hmd b' s' Hb' Hs') as [md2 Hm2].
    destruct (ready_server_priority ready services s' md2 Hwf (Hrs b' s' Hb' Hr' Hs') Hm2) as (g' & Hg' & Hr2 & Hpos2).
    destruct (N.lt_ge_cases (priority md2) p) as [Hlt|Hge]; [right; by eapply Hmin|].
    destruct (decide (priority md2 = p /\ 0 < capacity md2)) as [[Heq Hcap]|Hno].
    + apply elem_of_bm_group in Hg' as [-> _]. rewrite Heq in *. destruct (Hcf s' (Hpos2 Hcap)) as [(md3 & eps3 & b3 & Hin3 & Hb3 & _ & Hs3)|]; [|by right].
      left. intros mdx mdy Hmx Hmy. simplify_eq. apply list_elem_of_filter in Hin3 as [Hpos3 Hin3]. apply list_elem_of_filter in Hin3 as [_ Hin3].
      destruct (proj2 Hwf md3 eps3 b3 Hin3 Hb3) as (s3 & Hs3' & Hm3). simplify_eq. split; [lia|]. intros _ _. exact Hpos3.
    + left. intros mdx mdy Hmx Hmy. simplify_eq. split; [lia|]. intros Heq Hcap. exfalso. apply Hno. by split.
  - intros b s Hin Hr Hs. destruct (Hmd b s Hin Hs) as [md Hm].
    destruct (ready_server_priority ready services s md Hwf (Hrs b s Hin Hr Hs) Hm) as (g & Hg & Hrg & _).
    eapply chosen_first_None; [exact Hch| |exact Hrg]. by apply (list_elem_of_fmap_2' snd _ (priority md, g)).
Qed.
End groups.
