(* ===== verification/UpstreamGroup.v ===== *)
(** * A running upstream group
    (crates/ngxora-runtime/src/upstreams/runtime/groups.rs, groups/discovery.rs)

    The state of one group and all its operations: construction, selection, the refresh
    of a discovering group, the SCP view of it, readiness and the periodic health check.
    What the registry answers and which probes succeed are arguments of the operations. *)

From S2P Require Import Prelude RustStr NetAddr BTree Crates Headers Ir Types Scp Topology Discovery Health ScpRouting Nrf Groups.

Open Scope N_scope.

Section group.
Context `{NrfDeps} `{Balancers}.
(** The hash of the process identity and a group's name. *)
Context (refresh_hash : string -> N).

Record NrfSelectionSnapshot := mkNrfSelectionSnapshot { sl_topology : NrfServiceTopology; sl_backends : list Backend }.

Record RuntimeNrfDiscovery := mkRuntimeNrfDiscovery {
  nd_group_name : string;
  nd_client : NrfClient;
  nd_health_check : CompiledHealthCheck;
  nd_stale_if_error : N;
  nd_policy : UpstreamSelectionPolicy;
  nd_state : @NrfState NrfSelectionSnapshot
}.

Record RuntimeHealthCheckSchedule := mkHealthCheckSchedule { hs_interval : N; hs_next_run_at : N }.

(** The selector with the policy it was built for and its backends. *)
Record RuntimeUpstreamSelector := mkRuntimeUpstreamSelector { rs_policy : UpstreamSelectionPolicy; rs_lb : Lb; rs_backends : list Backend }.

Record RuntimeUpstreamGroup := mkRuntimeUpstreamGroup {
  ug_scp_refreshing : bool;
  ug_selector : RuntimeUpstreamSelector;
  ug_hash_key : option UpstreamHashKey;
  ug_health_check : option RuntimeHealthCheckSchedule;
  ug_nrf_discovery : option RuntimeNrfDiscovery
}.

Definition set_ug_selector (g : RuntimeUpstreamGroup) (s : RuntimeUpstreamSelector) : RuntimeUpstreamGroup :=
  mkRuntimeUpstreamGroup (ug_scp_refreshing g) s (ug_hash_key g) (ug_health_check g) (ug_nrf_discovery g).
Definition set_ug_refreshing (g : RuntimeUpstreamGroup) (b : bool) : RuntimeUpstreamGroup :=
  mkRuntimeUpstreamGroup b (ug_selector g) (ug_hash_key g) (ug_health_check g) (ug_nrf_discovery g).
Definition set_ug_health (g : RuntimeUpstreamGroup) (h : option RuntimeHealthCheckSchedule) : RuntimeUpstreamGroup :=
  mkRuntimeUpstreamGroup (ug_scp_refreshing g) (ug_selector g) (ug_hash_key g) h (ug_nrf_discovery g).
(** The state behind the selection and the schedule of a discovering group. *)
Definition set_nd_state (d : RuntimeNrfDiscovery) (s : @NrfState NrfSelectionSnapshot) : RuntimeNrfDiscovery :=
  mkRuntimeNrfDiscovery (nd_group_name d) (nd_client d) (nd_health_check d) (nd_stale_if_error d) (nd_policy d) s.
Definition set_ug_discovery (g : RuntimeUpstreamGroup) (d : RuntimeNrfDiscovery) : RuntimeUpstreamGroup :=
  mkRuntimeUpstreamGroup (ug_scp_refreshing g) (ug_selector g) (ug_hash_key g) (ug_health_check g) (Some d).

(** ** Construction *)

Definition initial_schedule (now : N) : NrfRefreshSchedule := mkNrfRefreshSchedule false 0 [] now None 0 None 0.

Definition from_compiled_query `{!HealthDeps} (now : N) (group : CompiledUpstreamGroup) (query : option NrfQuery)
  : result string RuntimeUpstreamGroup :=
  _ ← fail_if (is_nil (g_servers group) && is_none (g_nrf_discovery group) && negb (g_allow_empty group))
        ("upstream `" +:+ g_name group +:+ "` must define at least one server or nrf_discovery");
  let backends := synthetic_backends (g_servers group) in
  lb ← build_runtime_selector (g_policy group) backends (health_build <$> g_health_check group);
  nrf_discovery ←
    match g_nrf_discovery group, g_health_check group with
    | Some config, Some health_check =>
        client ← NrfClient_new config;
        _ ← health_build health_check;
        Ok (Some (mkRuntimeNrfDiscovery (g_name group) (mkNrfClient (nc_config client) (nc_client client) query) health_check
                    (cn_stale_if_error config) (g_policy group) (mkNrfState None (initial_schedule now))))
    | None, _ => Ok None
    | _, _ => Err ("upstream `" +:+ g_name group +:+ "` has incomplete nrf_discovery runtime state")
    end;
  Ok (mkRuntimeUpstreamGroup false (mkRuntimeUpstreamSelector (g_policy group) lb backends) (g_hash_key group)
        ((fun c => mkHealthCheckSchedule (hc_interval c) now) <$> g_health_check group) nrf_discovery).

Definition from_compiled `{!HealthDeps} (now : N) (group : CompiledUpstreamGroup) : result string RuntimeUpstreamGroup :=
  from_compiled_query now group None.

(** ** Selection.  [healthy] is the state of the health registry. *)

Definition uses_consistent_hash (g : RuntimeUpstreamGroup) : bool :=
  match rs_policy (ug_selector g) with ConsistentHash => true | _ => false end.

(** Selecting from a published snapshot. *)
Definition snapshot_select (ready : Backend -> bool) (key : string) (d : RuntimeNrfDiscovery)
  : RuntimeNrfDiscovery * option CompiledUpstreamServer :=
  match nrf_selection (nd_state d) with
  | None => (d, None)
  | Some snapshot =>
      let '(topology, server) := topology_select ready key (sl_topology snapshot) in
      (set_nd_state d (mkNrfState (Some (mkNrfSelectionSnapshot topology (sl_backends snapshot))) (nrf_schedule (nd_state d))), server)
  end.

Definition select (healthy : Backend -> bool) (key : string) (g : RuntimeUpstreamGroup)
  : RuntimeUpstreamGroup * option CompiledUpstreamServer :=
  match ug_nrf_discovery g with
  | Some discovery =>
      let '(discovery, server) := snapshot_select healthy key discovery in (set_ug_discovery g discovery, server)
  | None =>
      let s := ug_selector g in
      let backend_count := N.of_nat (length (rs_backends s)) in
      let max_iterations := if uses_consistent_hash g then N.max backend_count 256 else backend_count in
      let '(lb, backend) := lb_select_with (rs_lb s) key max_iterations healthy in
      (set_ug_selector g (mkRuntimeUpstreamSelector (rs_policy s) lb (rs_backends s)), backend ≫= bk_server)
  end.

Definition readiness (healthy : Backend -> bool) (g : RuntimeUpstreamGroup) : list (CompiledUpstreamServer * bool) :=
  let backends := match ug_nrf_discovery g with
                  | Some d => match nrf_selection (nd_state d) with Some snapshot => sl_backends snapshot | None => [] end
                  | None => rs_backends (ug_selector g)
                  end in
  omap (fun backend => (fun server => (server, healthy backend)) <$> bk_server backend) backends.

(** ** Refreshing *)

Definition same_signature (a b : NrfSelectionSnapshot) : bool :=
  bool_decide (to_signature (sl_topology a) = to_signature (sl_topology b)).
Definition snapshot_build (policy : UpstreamSelectionPolicy) (backends : list Backend) : result string (option NrfSelectionSnapshot) :=
  match topology_build backends policy with
  | Ok topology => Ok ((fun t => mkNrfSelectionSnapshot t backends) <$> topology)
  | Err e => Err e
  end.
(** The candidates that pass the check, as the set they are collected into. *)
Definition preflight `{!HealthDeps} (checker : result string NgxoraHealthCheck) (endpoints : list CompiledUpstreamServer) : list Backend :=
  match checker with
  | Ok checker => filter (fun b => is_ok (health_check checker b) = true) (dynamic_synthetic_backends endpoints)
  | Err _ => []
  end.

Definition discovery_run `{!HealthDeps} (exchange : NrfHttpClient -> Url -> list (string * string) -> result string NrfResponse)
    (now : N) (permit : bool) (done_at : N) (d : RuntimeNrfDiscovery) : RuntimeNrfDiscovery * option N :=
  let checker := health_build (nd_health_check d) in
  let '(s, next) :=
    Discovery.run_due_nrf_discovery (snapshot_build (nd_policy d)) same_signature (fun snapshot => backends_update (sl_backends snapshot))
      (is_some (nc_query (nd_client d))) (nd_stale_if_error d) (refresh_hash (nd_group_name d))
      (nd_state d) now permit (discover exchange (nd_client d)) done_at (preflight checker) (is_ok checker) in
  (set_nd_state d s, next).

Definition run_due_nrf_discovery `{!HealthDeps} (exchange : NrfHttpClient -> Url -> list (string * string) -> result string NrfResponse)
    (now : N) (permit : bool) (done_at : N) (g : RuntimeUpstreamGroup) : RuntimeUpstreamGroup * option N :=
  match ug_nrf_discovery g with
  | None => (g, None)
  | Some d => let '(d, next) := discovery_run exchange now permit done_at d in (set_ug_discovery g d, next)
  end.

(** The schedule part; the checks themselves are the health registry's.  [Instant]
    addition panics on overflow. *)
Definition run_due_health_check (now : N) (g : RuntimeUpstreamGroup) : RuntimeUpstreamGroup * option (N * bool) :=
  match ug_health_check g with
  | None => (g, None)
  | Some schedule =>
      if now <? hs_next_run_at schedule then (g, Some (hs_next_run_at schedule, false))
      else let next := now + hs_interval schedule in
           (set_ug_health g (Some (mkHealthCheckSchedule (hs_interval schedule) next)), Some (next, true))
  end.

(** ** SCP view *)

Definition group_candidates (g : RuntimeUpstreamGroup) : list CompiledUpstreamServer :=
  match ug_nrf_discovery g with Some d => sc_candidates (nrf_schedule (nd_state d)) | None => [] end.

(** The compare-and-exchange of [start_scp_refresh]: whether this caller starts the
    refresh, and the end of the task it spawns. *)
Definition start_scp_refresh (g : RuntimeUpstreamGroup) : RuntimeUpstreamGroup * bool :=
  if ug_scp_refreshing g then (g, false) else (set_ug_refreshing g true, true).
Definition finish_scp_refresh (g : RuntimeUpstreamGroup) : RuntimeUpstreamGroup := set_ug_refreshing g false.

Definition group_status (now : N) (g : RuntimeUpstreamGroup) : result ScpError unit :=
  match ug_nrf_discovery g with
  | None => Ok tt
  | Some d =>
      let schedule := nrf_schedule (nd_state d) in
      _ ← fail_if (is_none (sc_last_success_at schedule)
                   || match sc_expires_at schedule with Some at_ => at_ <=? now | None => true end) nrf_unreachable;
      _ ← fail_if (sc_invalid_api schedule) (mkScpError 400 "INVALID_API" "No NF supports the requested API major version");
      fail_if (sc_candidate_count schedule =? 0) (mkScpError 400 "NF_DISCOVERY_FAILURE" "No NF matches the discovery factors")
  end.

Definition group_scp_select (now : N) (healthy : Backend -> bool) (key : string) (accept : CompiledUpstreamServer -> bool)
    (g : RuntimeUpstreamGroup) : RuntimeUpstreamGroup * option CompiledUpstreamServer :=
  match group_status now g, ug_nrf_discovery g with
  | Ok _, Some d =>
      let '(d, server) :=
        snapshot_select (fun backend => healthy backend && match bk_server backend with Some s => accept s | None => false end) key d in
      (set_ug_discovery g d, server)
  | _, _ => (g, None)
  end.

(** ** What a topology selects from *)

Definition pool_from (P : Backend -> Prop) (pool : NrfServicePool) : Prop :=
  forall md svc, po_services pool !! md = Some svc -> Forall P (rn_endpoints svc).
Definition pool_option_from (P : Backend -> Prop) (pool : option NrfServicePool) : Prop :=
  match pool with Some pool => pool_from P pool | None => True end.
Definition topology_from (P : Backend -> Prop) (t : NrfServiceTopology) : Prop :=
  Forall (fun tier => pool_option_from P (ti_positive_capacity tier) /\ pool_option_from P (ti_zero_capacity tier)) (to_tiers t).
(** A server answered from the backends [P]. *)
Definition answered (P : Backend -> Prop) (ready : Backend -> bool) (r : option CompiledUpstreamServer) : Prop :=
  forall s, r = Some s -> exists b, P b /\ ready b = true /\ bk_server b = Some s.

Lemma pool_option_select_from P ready key pool :
  pool_option_from P pool ->
  pool_option_from P (fst (pool_option_select ready key pool)) /\ answered P ready (snd (pool_option_select ready key pool)).
Proof.
  intros Hp. destruct pool as [pool|]; simpl; [|by split]. simpl in Hp. unfold pool_select.
  destruct (lb_select_with _ _ _ _) as [selector backend]. destruct (backend ≫= bk_service) as [md|]; [|by split].
  cbn [po_services po_selector]. destruct (po_services pool !! md) as [svc|] eqn:Esvc; [|by split].
  unfold select_endpoint. simpl. split.
  - intros md' svc' Hl. simpl in Hl. apply lookup_insert_Some in Hl as [[<- <-]|[_ Hl]]; simpl; by eapply Hp.
  - intros s Hs. destruct (try_offsets _ _ _ _) as [b|] eqn:Et; [|done]. apply try_offsets_Some in Et as [Hb Hr].
    exists b. split_and!; [|done|done]. specialize (Hp md svc Esvc). by eapply Forall_forall in Hp.
Qed.

Lemma tiers_select_from P ready key tiers :
  Forall (fun tier => pool_option_from P (ti_positive_capacity tier) /\ pool_option_from P (ti_zero_capacity tier)) tiers ->
  Forall (fun tier => pool_option_from P (ti_positive_capacity tier) /\ pool_option_from P (ti_zero_capacity tier))
    (fst (tiers_select ready key tiers)) /\ answered P ready (snd (tiers_select ready key tiers)).
Proof.
  induction 1 as [|tier tiers [Hp Hz] Ht [IHt IHa]]; simpl; [split; [constructor|done]|]. unfold tier_select.
  destruct (pool_option_select_from P ready key (ti_positive_capacity tier) Hp) as [Hp' Hpa].
  destruct (pool_option_select_from P ready key (ti_zero_capacity tier) Hz) as [Hz' Hza].
  destruct (pool_option_select ready key (ti_positive_capacity tier)) as [pp [s|]]; simpl in *; [by split; [constructor|]|].
  destruct (pool_option_select ready key (ti_zero_capacity tier)) as [pz [s|]]; simpl in *; [by split; [constructor|]|].
  destruct (tiers_select ready key tiers) as [tiers' r]; simpl in *. by split; [constructor|].
Qed.

Lemma topology_select_from P ready key t :
  topology_from P t -> topology_from P (fst (topology_select ready key t)) /\ answered P ready (snd (topology_select ready key t)).
Proof.
  unfold topology_from, topology_select. intros Ht. destruct (tiers_select_from P ready key (to_tiers t) Ht) as [Ht' Ha].
  by destruct (tiers_select ready key (to_tiers t)).
Qed.

Context `{!BalancerLaws}.

Lemma topology_build_from backends policy t :
  topology_build backends policy = Ok (Some t) -> topology_from (fun b => b ∈ backends) t.
Proof.
  intros Hb. apply topology_build_inv in Hb as (services & _ & Ht & _ & Hall). unfold topology_from.
  assert (forall services' k pool, services' ⊆ services -> pool_option_inv services' k pool -> pool_option_from (fun b => b ∈ backends) pool) as Hp.
  { intros services' k [pool|] Hsub Hi; [|done]. intros md svc Hl. destruct (pi_services _ _ _ Hi md svc Hl) as [Hin _].
    apply Forall_forall. intros b Hb. apply Hall. exists md, (rn_endpoints svc). split; [by apply Hsub|done]. }
  assert (forall g, g ∈ snd <$> by_priority services -> g ⊆ services) as Hg.
  { intros g Hg e He. apply by_priority_groups in Hg as [p ->]. by apply list_elem_of_filter in He as [_ ?]. }
  unfold topology_inv, tiers_inv in Ht. revert Hg. induction Ht as [|g tier gs tiers [_ [Hpos Hzero]] Ht IH]; intros Hg; constructor.
  - assert (g ⊆ services) as Hgs by (apply Hg; set_solver).
    split; (eapply Hp; [|done]); intros e He; apply list_elem_of_filter in He as [_ ?]; by apply Hgs.
  - apply IH. intros g' Hg'. apply Hg. by apply elem_of_cons; right.
Qed.

(** ** Groups over time *)

(** One refresh of a discovering group: the probes and the registry as it meets them, its
    start, whether an SCP permit is free, and when the registry has answered. *)
Record Refresh := mkRefresh {
  rf_health : HealthDeps;
  rf_exchange : NrfHttpClient -> Url -> list (string * string) -> result string NrfResponse;
  rf_now : N;
  rf_permit : bool;
  rf_done_at : N
}.

(** What can happen to a group, and a history of it. *)
Inductive GroupEvent :=
| GeSelect (healthy : Backend -> bool) (key : string)
| GeScpSelect (now : N) (healthy : Backend -> bool) (key : string) (accept : CompiledUpstreamServer -> bool)
| GeRefresh (r : Refresh)
| GeHealth (now : N)
| GeStart
| GeFinish.
Definition refresh_group (r : Refresh) (g : RuntimeUpstreamGroup) : RuntimeUpstreamGroup :=
  fst (@run_due_nrf_discovery (rf_health r) (rf_exchange r) (rf_now r) (rf_permit r) (rf_done_at r) g).
Definition group_exec (g : RuntimeUpstreamGroup) (e : GroupEvent) : RuntimeUpstreamGroup :=
  match e with
  | GeSelect healthy key => fst (select healthy key g)
  | GeScpSelect now healthy key accept => fst (group_scp_select now healthy key accept g)
  | GeRefresh r => refresh_group r g
  | GeHealth now => fst (run_due_health_check now g)
  | GeStart => fst (start_scp_refresh g)
  | GeFinish => finish_scp_refresh g
  end.
Definition group_run (g : RuntimeUpstreamGroup) (events : list GroupEvent) : RuntimeUpstreamGroup := foldl group_exec g events.
Definition refreshes (events : list GroupEvent) : list Refresh :=
  omap (fun e => match e with GeRefresh r => Some r | _ => None end) events.

(** What the registry answered to [client] in the exchange of a refresh. *)
Definition registry_answered (r : Refresh) (client : NrfClient) (answer : SearchResult) : Prop :=
  exists response parts, rf_exchange r (nc_client client) (discovery_url client) [("accept", "application/json")] = Ok response /\
    nr_status response = 200 /\ nr_chunks response = Ok <$> parts /\ decode_search_result (concat_str parts) = Ok answer.

(** The refresh [r] vetted a backend: what the registry answered then lists its server,
    and the probe that was made then succeeded. *)
Definition vetted_by (r : Refresh) (client : NrfClient) (c : CompiledHealthCheck) (b : Backend) : Prop :=
  exists s answer checker, bk_server b = Some s /\ registry_answered r client answer /\
    conforms (nc_config client) (nc_query client) (sr_nf_instances answer) s /\
    @health_build _ (rf_health r) c = Ok checker /\ @health_check _ (rf_health r) checker b = Ok tt.
(** One of the refreshes [rs] did. *)
Definition vetted (rs : list Refresh) (client : NrfClient) (c : CompiledHealthCheck) (b : Backend) : Prop :=
  exists r, r ∈ rs /\ vetted_by r client c b.

Definition snapshot_ok (rs : list Refresh) (client : NrfClient) (c : CompiledHealthCheck) (snapshot : option NrfSelectionSnapshot) : Prop :=
  match snapshot with
  | None => True
  | Some snapshot => topology_from (vetted rs client c) (sl_topology snapshot) /\ Forall (vetted rs client c) (sl_backends snapshot)
  end.

(** The group of a compiled [group] and [query] after the refreshes [rs]. *)
Record group_ok (rs : list Refresh) (group : CompiledUpstreamGroup) (query : option NrfQuery) (g : RuntimeUpstreamGroup) : Prop := {
  go_backends : rs_backends (ug_selector g) = synthetic_backends (g_servers group);
  go_members : lb_members (rs_lb (ug_selector g)) = rs_backends (ug_selector g);
  go_discovery : match ug_nrf_discovery g with
    | None => g_nrf_discovery group = None
    | Some d => exists config client, nd_client d = mkNrfClient config client query /\
        g_nrf_discovery group = Some config /\ NrfClient_new config = Ok (mkNrfClient config client None) /\
        g_health_check group = Some (nd_health_check d) /\
        snapshot_ok rs (nd_client d) (nd_health_check d) (nrf_selection (nd_state d))
    end
}.

Lemma from_compiled_query_ok `{!HealthDeps} now group query g : from_compiled_query now group query = Ok g -> group_ok [] group query g.
Proof.
  unfold from_compiled_query. intros Hg. apply bind_Ok_inv in Hg as (_ & _ & Hg).
  apply bind_Ok_inv in Hg as (lb & Hlb & Hg). apply bind_Ok_inv in Hg as (nrf & Hnrf & Hg). injection Hg as <-.
  unfold build_runtime_selector in Hlb. apply bind_Ok_inv in Hlb as (_ & _ & Hlb). inv_ok. apply lb_new_members in Hok.
  constructor; simpl; [done|done|].
  destruct (g_nrf_discovery group) as [config|]; [|by injection Hnrf as <-].
  destruct (g_health_check group) as [hc|]; [|done]. apply bind_Ok_inv in Hnrf as (client & Hc & Hnrf). inv_ok. simpl.
  exists config, (nc_client client). unfold NrfClient_new in *. apply bind_Ok_inv in Hc as (builder & Hbu & Hc).
  apply bind_Ok_inv in Hc as (http & Hh & [= <-]). cbn [nc_config nc_client]. rewrite Hbu. cbn [mbind result_bind]. by rewrite Hh.
Qed.

Lemma vetted_mono rs rs' client c b : rs ⊆ rs' -> vetted rs client c b -> vetted rs' client c b.
Proof. intros Hs (r & Hr & Hv). exists r. auto. Qed.

Lemma topology_from_impl (P Q : Backend -> Prop) t : (forall b, P b -> Q b) -> topology_from P t -> topology_from Q t.
Proof.
  intros HPQ Ht. eapply Forall_impl; [exact Ht|]. intros tier [Hp Hz]. unfold pool_option_from, pool_from in *.
  split; [destruct (ti_positive_capacity tier)|destruct (ti_zero_capacity tier)]; try done; intros md svc Hl;
    (eapply Forall_impl; [by eauto|exact HPQ]).
Qed.

Lemma snapshot_ok_mono rs rs' client c snapshot : rs ⊆ rs' -> snapshot_ok rs client c snapshot -> snapshot_ok rs' client c snapshot.
Proof.
  intros Hs. destruct snapshot as [snapshot|]; [|done]. intros [Ht Hb].
  split; [by eapply topology_from_impl; [intros b; apply vetted_mono|]|]. eapply Forall_impl; [exact Hb|]. intros b. by apply vetted_mono.
Qed.

Lemma dynamic_backends_servers endpoints b :
  b ∈ dynamic_synthetic_backends endpoints -> exists s, bk_server b = Some s /\ s ∈ endpoints.
Proof.
  unfold dynamic_synthetic_backends. intros Hb%bs_collect_sub. apply list_elem_of_lookup in Hb as [i Hi].
  apply lookup_zip_with_Some in Hi as (id & s & -> & _ & Hs). exists s. split; [done|]. by eapply list_elem_of_lookup_2.
Qed.

(** The backends published after a discovery are vetted by it. *)
Lemma preflight_vetted r rs (d : RuntimeNrfDiscovery) found snapshot :
  r ∈ rs -> discover (rf_exchange r) (nd_client d) = Ok found ->
  snapshot_build (nd_policy d) (@preflight (rf_health r) (@health_build _ (rf_health r) (nd_health_check d)) (dr_endpoints found)) = Ok (Some snapshot) ->
  snapshot_ok rs (nd_client d) (nd_health_check d) (Some snapshot).
Proof.
  intros Hr Hd Hb. apply discover_Ok in Hd as (response & parts & answer & Hx & Hst & Hch & _ & Hdec & _ & _ & Hc & _).
  set (ready := @preflight _ _ _) in *. unfold snapshot_build in Hb.
  destruct (topology_build ready (nd_policy d)) as [[t|]|] eqn:Et; [|done|done]. injection Hb as <-. simpl.
  assert (forall b, b ∈ ready -> vetted rs (nd_client d) (nd_health_check d) b) as Hv.
  { unfold ready, preflight. destruct (health_build (nd_health_check d)) as [checker|] eqn:Ech; [|set_solver].
    intros b Hb. apply list_elem_of_filter in Hb as [Hok Hb]. apply dynamic_backends_servers in Hb as (s & Hs & Hin).
    exists r. split; [done|]. exists s, answer, checker. split_and!; [done|by exists response, parts| |done|].
    { rewrite Forall_forall in Hc. by apply Hc. }
    by destruct (health_check checker b) as [[]|]. }
  split; [|by apply Forall_forall]. apply topology_build_from in Et. eapply topology_from_impl; [exact Hv|exact Et].
Qed.

Lemma snapshot_select_ok rs client c ready key (d : RuntimeNrfDiscovery) :
  snapshot_ok rs client c (nrf_selection (nd_state d)) ->
  snapshot_ok rs client c (nrf_selection (nd_state (fst (snapshot_select ready key d)))) /\
  nd_client (fst (snapshot_select ready key d)) = nd_client d /\
  nd_health_check (fst (snapshot_select ready key d)) = nd_health_check d /\
  answered (vetted rs client c) ready (snd (snapshot_select ready key d)).
Proof.
  unfold snapshot_select. intros Hok. destruct (nrf_selection (nd_state d)) as [snapshot|] eqn:Es; simpl; [|rewrite Es; split_and!; [done..|]; by intros s].
  destruct Hok as [Ht Hb]. destruct (topology_select_from _ ready key (sl_topology snapshot) Ht) as [Ht' Ha].
  by destruct (topology_select ready key (sl_topology snapshot)).
Qed.

(** A discovering group whose state is replaced by another sound one. *)
Lemma group_ok_discovery rs rs' group query g d d' :
  rs ⊆ rs' -> group_ok rs group query g -> ug_nrf_discovery g = Some d -> nd_client d' = nd_client d -> nd_health_check d' = nd_health_check d ->
  (snapshot_ok rs (nd_client d) (nd_health_check d) (nrf_selection (nd_state d)) ->
   snapshot_ok rs' (nd_client d) (nd_health_check d) (nrf_selection (nd_state d'))) ->
  group_ok rs' group query (set_ug_discovery g d').
Proof.
  intros Hs [Hb Hm Hd] Ed Hc Hh Hok. constructor; [done|done|]. rewrite Ed in Hd. cbn [set_ug_discovery ug_nrf_discovery].
  destruct Hd as (config & client & Hcl & ? & ? & ? & Hsn). exists config, client. rewrite Hc, Hh. split_and!; auto.
Qed.

Lemma group_ok_mono rs rs' group query g : rs ⊆ rs' -> group_ok rs group query g -> group_ok rs' group query g.
Proof.
  intros Hs [Hb Hm Hd]. constructor; [done|done|]. destruct (ug_nrf_discovery g); [|done].
  destruct Hd as (config & client & ? & ? & ? & ? & Hsn). exists config, client. split_and!; [done..|]. by eapply snapshot_ok_mono.
Qed.

Lemma refresh_group_ok r rs group query g : group_ok rs group query g -> group_ok (rs ++ [r]) group query (refresh_group r g).
Proof.
  intros Hok. assert (rs ⊆ rs ++ [r]) as Hsub by set_solver. unfold refresh_group, run_due_nrf_discovery.
  destruct (ug_nrf_discovery g) as [d|] eqn:Ed; [|by eapply group_ok_mono]. unfold discovery_run.
  pose proof (run_due_selection (snapshot_build (nd_policy d)) same_signature (fun snapshot => backends_update (sl_backends snapshot))
    (is_some (nc_query (nd_client d))) (nd_stale_if_error d) (refresh_hash (nd_group_name d))
    (fun snapshot => snapshot_ok (rs ++ [r]) (nd_client d) (nd_health_check d) (Some snapshot)) (nd_state d) (rf_now r) (rf_permit r)
    (discover (rf_exchange r) (nd_client d)) (rf_done_at r) (@preflight (rf_health r) (@health_build _ (rf_health r) (nd_health_check d)))
    (is_ok (@health_build _ (rf_health r) (nd_health_check d)))) as Hrun.
  destruct (Discovery.run_due_nrf_discovery _ _ _ _ _ _ _ _ _ _ _ _ _) as [s next]. simpl in Hrun. cbn [fst].
  apply (group_ok_discovery rs _ _ _ _ d); [done..|]. cbn [set_nd_state nd_state]. intros Hs.
  destruct (nrf_selection s) as [snapshot|]; [|done]. apply Hrun; [| |done].
  - intros t Et. rewrite Et in Hs. by apply (snapshot_ok_mono rs _ _ _ (Some t)).
  - intros found t Hd Hb. apply (preflight_vetted r _ d found); [set_solver|done|done].
Qed.

Lemma group_exec_ok rs group query g e : group_ok rs group query g -> group_ok (rs ++ refreshes [e]) group query (group_exec g e).
Proof.
  intros Hok. pose proof Hok as [Hb Hm Hd].
  destruct e as [healthy key|now healthy key accept|r|now| |]; cbn [refreshes omap list_omap group_exec]; rewrite ?app_nil_r.
  - unfold select. destruct (ug_nrf_discovery g) as [d|] eqn:Ed.
    + destruct Hd as (config & client & _ & _ & _ & _ & Hs). destruct (snapshot_select_ok _ _ _ healthy key d Hs) as (Hs' & Hcl & Hhc & _).
      destruct (snapshot_select healthy key d) as [d' r]. by apply (group_ok_discovery rs _ _ _ _ d).
    + pose proof (lb_select_members (rs_lb (ug_selector g)) key
        (if uses_consistent_hash g then N.max (N.of_nat (length (rs_backends (ug_selector g)))) 256 else N.of_nat (length (rs_backends (ug_selector g)))) healthy) as Hl.
      destruct (lb_select_with _ _ _ _) as [lb b]. simpl in *. constructor; simpl; [done|congruence|by rewrite Ed].
  - unfold group_scp_select. destruct (group_status now g); [|done]. destruct (ug_nrf_discovery g) as [d|] eqn:Ed; [|done].
    destruct Hd as (config & client & _ & _ & _ & _ & Hs).
    destruct (snapshot_select_ok _ _ _ (fun backend => healthy backend && match bk_server backend with Some s => accept s | None => false end) key d Hs)
      as (Hs' & Hcl & Hhc & _).
    destruct (snapshot_select _ key d) as [d' r]. by apply (group_ok_discovery rs _ _ _ _ d).
  - by apply refresh_group_ok.
  - unfold run_due_health_check. destruct (ug_health_check g); [|done]. by destruct (now <? _).
  - unfold start_scp_refresh. by destruct (ug_scp_refreshing g).
  - done.
Qed.

Lemma group_run_ok rs group query g events : group_ok rs group query g -> group_ok (rs ++ refreshes events) group query (group_run g events).
Proof.
  revert rs g. induction events as [|e events IH]; intros rs g Hok; [by rewrite app_nil_r|].
  change (refreshes (e :: events)) with (omap (fun e => match e with GeRefresh r => Some r | _ => None end) ([e] ++ events)).
  rewrite omap_app, app_assoc. by apply (IH (rs ++ refreshes [e])), group_exec_ok.
Qed.

Lemma static_backends_servers servers b :
  b ∈ synthetic_backends servers -> exists s, bk_server b = Some s /\ s ∈ servers.
Proof.
  unfold synthetic_backends. intros Hb%bs_collect_sub. apply list_elem_of_lookup in Hb as [i Hi].
  rewrite list_lookup_imap in Hi. destruct (servers !! i) as [s|] eqn:Es; [|done]. injection Hi as <-. exists s.
  split; [done|]. by eapply list_elem_of_lookup_2.
Qed.

(** C30: a group only ever answers servers it may use.  After any history of selections,
    refreshes with whatever answers and probe results, health check rounds and SCP
    requests, a selected server belongs to a backend that is healthy now; without
    discovery it is one of the configured servers.  With discovery one of the refreshes
    of the history vetted it: the registry's answer in that refresh, to the client built
    from the configuration, lists it for the group's query, and the group's health check,
    probing as in that refresh, passed the backend. *)
Theorem group_selects_vetted `{!HealthDeps} now group query g0 events healthy key s :
  from_compiled_query now group query = Ok g0 -> snd (select healthy key (group_run g0 events)) = Some s ->
  exists b, healthy b = true /\ bk_server b = Some s /\
    match g_nrf_discovery group with
    | None => s ∈ g_servers group
    | Some config => exists r client answer c checker, r ∈ refreshes events /\
        NrfClient_new config = Ok (mkNrfClient config client None) /\
        registry_answered r (mkNrfClient config client query) answer /\ conforms config query (sr_nf_instances answer) s /\
        g_health_check group = Some c /\ @health_build _ (rf_health r) c = Ok checker /\ @health_check _ (rf_health r) checker b = Ok tt
    end.
Proof.
  intros Hg Hs. pose proof (group_run_ok [] group query g0 events (from_compiled_query_ok _ _ _ _ Hg)) as [Hb Hm Hd]. unfold select in Hs.
  set (g := group_run g0 events) in *. destruct (ug_nrf_discovery g) as [d|].
  - destruct Hd as (config & client & Hcl & Hc & Hn & Hh & Hok). destruct (snapshot_select_ok _ _ _ healthy key d Hok) as (_ & _ & _ & Ha).
    destruct (snapshot_select healthy key d) as [d' r]. simpl in *.
    destruct (Ha s Hs) as (b & (rf & Hr & s' & answer & checker & Hbs & Hans & Hcf & Hbu & Hch) & Hhb & Hbs').
    rewrite Hbs in Hbs'. injection Hbs' as ->. rewrite Hc. rewrite Hcl in *. exists b. split_and!; [done..|].
    by exists rf, client, answer, (nd_health_check d), checker.
  - rewrite Hd. destruct (lb_select_with _ _ _ _) as [lb [b|]] eqn:El; [|done]. simpl in Hs.
    pose proof (f_equal snd El) as El'. apply lb_select_sound in El' as [Hin Hhb]. rewrite Hm, Hb in Hin.
    apply static_backends_servers in Hin as (s' & Hbs & Hin). rewrite Hs in Hbs. injection Hbs as <-. by exists b.
Qed.

(** The SCP view of a group: it answers a server the caller accepts, and only while it
    has a valid snapshot. *)
Lemma group_scp_select_lawful now healthy key accept (g : RuntimeUpstreamGroup) s :
  snd (group_scp_select now healthy key accept g) = Some s ->
  accept s = true /\ group_status now g = Ok tt.
Proof.
  unfold group_scp_select. destruct (group_status now g) as [[]|]; [|done]. destruct (ug_nrf_discovery g) as [d|]; [|done].
  unfold snapshot_select. destruct (nrf_selection (nd_state d)) as [snapshot|]; [|done].
  set (ready := fun backend => _). destruct (topology_select_from (fun _ => True) ready key (sl_topology snapshot)) as [_ Ha].
  { apply Forall_true. intros [[] []]; split; simpl; try done; intros ???; by apply Forall_true. }
  destruct (topology_select ready key (sl_topology snapshot)) as [t r]. simpl in *. intros Hs.
  destruct (Ha s Hs) as (b & _ & [_ Hacc]%andb_true_iff & Hbs). by rewrite Hbs in Hacc.
Qed.

(** After the refreshes [rs] it also comes from a backend that one of them vetted and
    that is healthy now. *)
Lemma group_scp_select_vetted rs group query now healthy key accept (g : RuntimeUpstreamGroup) s :
  group_ok rs group query g -> snd (group_scp_select now healthy key accept g) = Some s ->
  exists b config client c, healthy b = true /\ bk_server b = Some s /\ g_nrf_discovery group = Some config /\
    NrfClient_new config = Ok (mkNrfClient config client None) /\ g_health_check group = Some c /\
    vetted rs (mkNrfClient config client query) c b.
Proof.
  intros [_ _ Hd]. unfold group_scp_select. destruct (group_status now g); [|done]. destruct (ug_nrf_discovery g) as [d|]; [|done].
  destruct Hd as (config & client & Hcl & Hc & Hn & Hh & Hs).
  destruct (snapshot_select_ok _ _ _ (fun backend => healthy backend && match bk_server backend with Some s => accept s | None => false end) key d Hs)
    as (_ & _ & _ & Ha).
  destruct (snapshot_select _ key d) as [d' r]. simpl in *. intros Hr.
  destruct (Ha s Hr) as (b & Hv & [Hhb _]%andb_true_iff & Hbs). exists b, config, client, (nd_health_check d). rewrite Hcl in Hv. by split_and!.
Qed.
End group.

(** ** Samples *)

Module GroupSample.
(** A balancer that answers the first acceptable backend; hashes that tell priorities apart. *)
#[export] Instance balancers : Balancers := {|
  default_hasher := foldr (fun f n => match f with HashU16 k => k + 65536 * n | _ => n end) 0;
  Lb := list Backend; lb_new _ backends := Some (Ok backends); backends_update _ := Ok tt;
  lb_select_with lb _ _ accept := (lb, List.find accept lb)
|}.
#[export] Instance balancer_laws : @BalancerLaws balancers.
Proof.
  refine (@Build_BalancerLaws balancers (fun lb => lb) _ _ _).
  - by intros policy backends lb [= ->].
  - done.
  - intros lb key n accept b Hf. apply find_some in Hf as [Hin Ha]. by rewrite list_elem_of_In.
Defined.
Definition md (p c : N) : NrfServiceMetadata := mkNrfServiceMetadata None "nf" "s" p c.
Definition backend (p c port : N) : Backend :=
  server_backend port (mkCompiledUpstreamServer "10.0.0.1" port 1 None (Some (md p c))).
Definition backends : list Backend := [backend 1 0 1; backend 1 5 2; backend 7 5 3].
Definition topology : NrfServiceTopology :=
  match @topology_build Toy.crates balancers backends RoundRobin with Ok (Some t) => t | _ => mkNrfServiceTopology [] [] end.
Lemma topology_built : @topology_build Toy.crates balancers backends RoundRobin = Ok (Some topology).
Proof. vm_compute. reflexivity. Qed.
(** The service with capacity of the first tier is down. *)
Definition ready (b : Backend) : bool := negb (bool_decide (bk_server b = bk_server (backend 1 5 2))).

#[export] Instance health : @HealthDeps Toy.crates := {|
  lookup_host _ port := Ok [(V4 1, port)]; request_build _ := Ok tt; host_header_ok _ := Ok tt;
  get_stream _ := Ok tt; get_http_session _ _ _ := Err "no session"
|}.
Definition check : CompiledHealthCheck := mkCompiledHealthCheck HcTcp 1 10 1 1.
Definition group : @CompiledUpstreamGroup Toy.crates :=
  @mkCompiledUpstreamGroup Toy.crates false "smf" RoundRobin None [] (Some NrfSample.config) (Some check).
Notation deps := (NrfSample.deps NrfSample.answer).
Definition built := @from_compiled_query Toy.crates deps balancers health 5 group None.
Definition g0 : option (@RuntimeUpstreamGroup Toy.crates deps balancers) := ok built.
Definition refresh : @Refresh Toy.crates deps := @mkRefresh Toy.crates deps health NrfSample.exchange 5 true 6.
Definition selected :=
  (fun g => snd (@select Toy.crates deps balancers (fun _ => true) "key" (group_run (fun _ => 0) g [GeRefresh refresh]))) <$> g0.
Lemma selected_is : selected = Some (Some (NrfSample.server "10.0.0.1" 8080)).
Proof. vm_compute. reflexivity. Qed.
End GroupSample.

Lemma nrf_selection_by_priority_witness :
  exists b, b ∈ GroupSample.backends /\ GroupSample.ready b = true /\ bk_server b = bk_server (GroupSample.backend 1 0 1).
Proof.
  pose proof (@nrf_selection_by_priority Toy.crates GroupSample.balancers GroupSample.balancer_laws
    GroupSample.backends RoundRobin GroupSample.topology [(fun _ => true, "k")] GroupSample.ready "k"
    GroupSample.topology_built ltac:(done)) as Ht.
  assert (snd (topology_select GroupSample.ready "k" (run_selects [(fun _ => true, "k")] GroupSample.topology)) =
    bk_server (GroupSample.backend 1 0 1)) as E by (vm_compute; reflexivity).
  cbv zeta in Ht. rewrite E in Ht. simpl in Ht. destruct Ht as (b & Hb & Hr & Hs & _). by exists b.
Defined.

Lemma group_selects_vetted_witness :
  exists g0 b answer, GroupSample.built = Ok g0 /\ bk_server b = Some (NrfSample.server "10.0.0.1" 8080) /\
    registry_answered GroupSample.refresh (@mkNrfClient Toy.crates GroupSample.deps NrfSample.config tt None) answer /\
    @health_check _ GroupSample.health (HealthTcp (mkTcpHealthCheck 1 1 1)) b = Ok tt.
Proof.
  pose proof GroupSample.selected_is as Hsel. unfold GroupSample.selected, GroupSample.g0 in Hsel.
  destruct GroupSample.built as [g0|] eqn:Eb; [|done]. simpl in Hsel. injection Hsel as Hsel.
  destruct (@group_selects_vetted Toy.crates GroupSample.deps GroupSample.balancers (fun _ => 0) GroupSample.balancer_laws GroupSample.health
    5 GroupSample.group None g0 [GeRefresh GroupSample.refresh] (fun _ => true) "key" (NrfSample.server "10.0.0.1" 8080) Eb Hsel)
    as (b & _ & Hb & r & client & answer & c & checker & Hr & _ & Ha & _ & [= <-] & Hbu & Hch).
  apply list_elem_of_singleton in Hr as ->. destruct client. exists g0, b, answer. split_and!; [done..|].
  injection Hbu as <-. exact Hch.
Defined.
