(* ===== verification/ScpSystem.v ===== *)
(** * SCP routing over running groups
    (crates/ngxora-runtime/src/upstreams/scp.rs, upstreams/runtime/groups.rs)

    [ScpRouting] is written against the interface [ScpGroups].  Here the interface is
    implemented by the groups of [UpstreamGroup]: the world holds the groups that
    discovery has made, each with its balancers and schedule, and a group is an address
    in it, as an [Arc] is.  The laws that routing relies on are proved of this
    implementation, and routing is then followed down to the answers of the registry. *)

From S2P Require Import Prelude RustStr NetAddr BTree Crates Headers Ir Types Scp Control Topology Discovery Health ScpRouting Nrf Groups UpstreamGroup.

Open Scope N_scope.

Section scp_system.
Context `{RuntimeDeps} `{!NrfDeps} `{!HealthDeps} `{Balancers} (refresh_hash : string -> N).

(** A group with what it was made from and the refreshes it has run. *)
Record GroupObject := mkGroupObject {
  ob_compiled : CompiledUpstreamGroup;
  ob_query : NrfQuery;
  ob_state : RuntimeUpstreamGroup;
  ob_log : list Refresh
}.
Definition set_ob_state (o : GroupObject) (g : RuntimeUpstreamGroup) : GroupObject := mkGroupObject (ob_compiled o) (ob_query o) g (ob_log o).

(** What the next refresh meets: the probes, the registry, a free permit, the time it
    takes, and whether that is within the time-out of the request that waits for it. *)
Record Pending := mkPending {
  pd_health : HealthDeps;
  pd_exchange : NrfHttpClient -> Url -> list (string * string) -> result string NrfResponse;
  pd_permit : bool;
  pd_done_at : N;
  pd_in_time : bool
}.
Definition pending_at (now : N) (pd : Pending) : Refresh := mkRefresh (pd_health pd) (pd_exchange pd) now (pd_permit pd) (pd_done_at pd).

Record ScpWorld := mkScpWorld {
  sw_now : N;
  sw_healthy : Backend -> bool;
  sw_counts : nat -> N;
  sw_heap : list GroupObject;
  sw_pending : list Pending
}.
Definition set_sw_heap (h : list GroupObject) (w : ScpWorld) : ScpWorld :=
  mkScpWorld (sw_now w) (sw_healthy w) (sw_counts w) h (sw_pending w).

Definition object_new (w : ScpWorld) (compiled : CompiledUpstreamGroup) (query : NrfQuery) : ScpWorld * result string nat :=
  match from_compiled_query (sw_now w) compiled (Some query) with
  | Err e => (w, Err e)
  | Ok g => (set_sw_heap (sw_heap w ++ [mkGroupObject compiled query g []]) w, Ok (length (sw_heap w)))
  end.

Definition object_select (w : ScpWorld) (i : nat) (key : string) (accept : CompiledUpstreamServer -> bool)
  : ScpWorld * option CompiledUpstreamServer :=
  match sw_heap w !! i with
  | None => (w, None)
  | Some o =>
      let '(g, server) := group_scp_select (sw_now w) (sw_healthy w) key accept (ob_state o) in
      (set_sw_heap (<[i := set_ob_state o g]> (sw_heap w)) w, server)
  end.

(** The task of [start_scp_refresh], unless one is running. *)
Definition refresh_task (r : Refresh) (g : RuntimeUpstreamGroup) : RuntimeUpstreamGroup :=
  let '(g, started) := start_scp_refresh g in
  if started : bool then
    let '(g, _) := run_due_health_check (rf_now r) g in
    finish_scp_refresh (refresh_group refresh_hash r g)
  else g.
Definition refresh_object (r : Refresh) (o : GroupObject) : GroupObject :=
  mkGroupObject (ob_compiled o) (ob_query o) (refresh_task r (ob_state o))
    (if snd (start_scp_refresh (ob_state o)) then ob_log o ++ [r] else ob_log o).

(** [timeout(refresh_scp())]: the task goes on when the request stops waiting. *)
Definition object_refresh (w : ScpWorld) (i : nat) (timeout : N) : ScpWorld * bool :=
  match sw_heap w !! i, sw_pending w with
  | Some o, pd :: rest =>
      (mkScpWorld (sw_now w) (sw_healthy w) (sw_counts w) (<[i := refresh_object (pending_at (sw_now w) pd) o]> (sw_heap w)) rest,
       pd_in_time pd)
  | _, _ => (w, false)
  end.

#[local] Instance running_groups : ScpGroups ScpWorld := {|
  ScpGroup := nat;
  scp_group_new := object_new;
  scp_group_hash_key w i := o ← sw_heap w !! i; ug_hash_key (ob_state o);
  scp_candidates w i := default [] ((fun o => group_candidates (ob_state o)) <$> sw_heap w !! i);
  scp_status w i := match sw_heap w !! i with Some o => group_status (sw_now w) (ob_state o) | None => Err nrf_unreachable end;
  scp_select := object_select;
  scp_refresh := object_refresh;
  scp_now := sw_now;
  scp_strong_count := sw_counts
|}.

(** ** The interface is implemented *)

#[local] Instance running_groups_laws : ScpGroupLaws.
Proof.
  constructor; intros w i key accept w' b Hs; simpl in *; unfold object_select in Hs;
    destruct (sw_heap w !! i) as [o|]; try done;
    destruct (group_scp_select _ _ _ _ _) as [g server] eqn:E; injection Hs as <- ->;
    by destruct (group_scp_select_lawful (sw_now w) (sw_healthy w) key accept (ob_state o) b ltac:(by rewrite E)).
Qed.

(** ** Worlds over time *)

Context `{!BalancerLaws}.

Definition object_next (o o' : GroupObject) : Prop :=
  ob_compiled o' = ob_compiled o /\ ob_query o' = ob_query o /\
  exists events, ob_state o' = group_run refresh_hash (ob_state o) events /\ ob_log o' = ob_log o ++ refreshes events.
Lemma object_next_trans o1 o2 o3 : object_next o1 o2 -> object_next o2 o3 -> object_next o1 o3.
Proof.
  intros (Hc & Hq & es & Hs & Hl) (Hc' & Hq' & es' & Hs' & Hl'). split_and!; [congruence..|]. exists (es ++ es').
  unfold group_run, refreshes in *. rewrite foldl_app, omap_app, app_assoc. by rewrite <- Hs, <- Hl.
Qed.
#[local] Instance object_next_refl : Reflexive object_next.
Proof. intros o. split_and!; [done..|]. exists []. by rewrite app_nil_r. Qed.
(** One event that is not a refresh. *)
Lemma object_next_event o e : refreshes [e] = [] -> object_next o (set_ob_state o (group_exec refresh_hash (ob_state o) e)).
Proof. intros He. split_and!; [done..|]. exists [e]. rewrite He. by rewrite app_nil_r. Qed.
Lemma refresh_object_next r o : object_next o (refresh_object r o).
Proof.
  split_and!; [done..|]. unfold refresh_object, refresh_task. cbn [ob_state ob_log].
  destruct (start_scp_refresh (ob_state o)) as [g1 started] eqn:Es. destruct started; cbn [snd].
  - exists [GeStart; GeHealth (rf_now r); GeRefresh r; GeFinish]. split; [|done].
    unfold group_run. cbn [foldl group_exec]. rewrite Es. cbn [fst]. by destruct (run_due_health_check (rf_now r) g1).
  - exists [GeStart]. split; [|by rewrite app_nil_r]. unfold group_run. cbn [foldl group_exec]. by rewrite Es.
Qed.
(** Objects stay where they are and keep what they were made from. *)
Definition world_next (w w' : ScpWorld) : Prop :=
  forall i o, sw_heap w !! i = Some o -> exists o', sw_heap w' !! i = Some o' /\ object_next o o'.
#[local] Instance world_next_preorder : PreOrder world_next.
Proof.
  split.
  - intros w i o Ho. by exists o.
  - intros w1 w2 w3 H12 H23 i o Ho. destruct (H12 i o Ho) as (o2 & Ho2 & Hr2).
    destruct (H23 i o2 Ho2) as (o3 & Ho3 & Hr3). exists o3. split; [done|]. by eapply object_next_trans.
Qed.

(** Every group satisfies its invariant: it was made for its query, and its published
    backends are vetted by refreshes it has run. *)
Definition heap_ok (w : ScpWorld) : Prop := Forall (fun o => group_ok (ob_log o) (ob_compiled o) (Some (ob_query o)) (ob_state o)) (sw_heap w).

(** One operation of routing: time and health stand still. *)
Record ran (w w' : ScpWorld) : Prop := mkRan {
  ran_now : sw_now w' = sw_now w;
  ran_healthy : sw_healthy w' = sw_healthy w;
  ran_next : world_next w w';
  ran_ok : heap_ok w -> heap_ok w'
}.
#[local] Instance ran_preorder : PreOrder ran.
Proof.
  split.
  - by intros w.
  - intros w1 w2 w3 [Hn1 Hh1 Hx1 Ho1] [Hn2 Hh2 Hx2 Ho2]. split; [congruence..|by etrans|auto].
Qed.

Lemma object_next_ok o o' : object_next o o' -> group_ok (ob_log o) (ob_compiled o) (Some (ob_query o)) (ob_state o) ->
  group_ok (ob_log o') (ob_compiled o') (Some (ob_query o')) (ob_state o').
Proof. intros (-> & -> & es & -> & ->) Hok. by apply group_run_ok. Qed.

Lemma ran_update w i o o' rest :
  sw_heap w !! i = Some o -> object_next o o' ->
  ran w (mkScpWorld (sw_now w) (sw_healthy w) (sw_counts w) (<[i := o']> (sw_heap w)) rest).
Proof.
  intros Ho Hg. split; simpl; [done..| |].
  - intros j oj Hoj. simpl. destruct (decide (i = j)) as [<-|Hne].
    + rewrite list_lookup_insert_eq by (by eapply lookup_lt_Some). simplify_eq. by eexists.
    + rewrite list_lookup_insert_ne by done. by exists oj.
  - unfold heap_ok. simpl. intros Hok. apply Forall_insert; [done|]. eapply object_next_ok; [done|]. by eapply Forall_lookup in Hok.
Qed.

Lemma ran_new w compiled query : ran w (fst (object_new w compiled query)).
Proof.
  unfold object_new. destruct (from_compiled_query (sw_now w) compiled (Some query)) as [g|] eqn:Eg; [|reflexivity].
  split; simpl; [done..| |].
  - intros i o Ho. exists o. simpl. by rewrite lookup_app_l by (by eapply lookup_lt_Some).
  - intros Hok. unfold heap_ok. simpl. apply Forall_app. split; [done|]. constructor; [|done]. by eapply from_compiled_query_ok.
Qed.

Lemma ran_select w i key accept : ran w (fst (object_select w i key accept)).
Proof.
  unfold object_select. destruct (sw_heap w !! i) as [o|] eqn:Eo; [|reflexivity].
  pose proof (object_next_event o (GeScpSelect (sw_now w) (sw_healthy w) key accept) eq_refl) as Hs. cbn [group_exec] in Hs.
  destruct (group_scp_select _ _ _ _ _) as [g r]. simpl in *. by apply (ran_update w i o).
Qed.

Lemma ran_refresh w i timeout : ran w (fst (object_refresh w i timeout)).
Proof.
  unfold object_refresh. destruct (sw_heap w !! i) as [o|] eqn:Eo; [|reflexivity]. destruct (sw_pending w) as [|r rest]; [reflexivity|].
  simpl. apply (ran_update w i o); [done|]. apply refresh_object_next.
Qed.

(** ** What routing selects *)

(** A server that is healthy now, that the registry listed for the query of the group in
    a refresh that the group has run, and that passed the health check in that refresh. *)
Definition vetted_server (healthy : Backend -> bool) (o : GroupObject) (s : CompiledUpstreamServer) : Prop :=
  exists b config client c, healthy b = true /\ bk_server b = Some s /\ g_nrf_discovery (ob_compiled o) = Some config /\
    NrfClient_new config = Ok (mkNrfClient config client None) /\ g_health_check (ob_compiled o) = Some c /\
    vetted (ob_log o) (mkNrfClient config client (Some (ob_query o))) c b.

(** [s] is an answer of the group at [i], whose snapshot is valid. *)
Definition answers (w : ScpWorld) (i : nat) (s : CompiledUpstreamServer) : Prop :=
  exists o, sw_heap w !! i = Some o /\ group_status (sw_now w) (ob_state o) = Ok tt /\
    vetted_server (sw_healthy w) o s.

Lemma group_scp_select_status now healthy key accept (g : RuntimeUpstreamGroup) :
  group_status now (fst (group_scp_select now healthy key accept g)) = group_status now g.
Proof.
  unfold group_scp_select. destruct (group_status now g) eqn:Es; [|done]. unfold group_status in *.
  destruct (ug_nrf_discovery g) as [d|] eqn:Ed; [|simpl; by rewrite Ed].
  assert (forall ready, nrf_schedule (nd_state (fst (snapshot_select ready key d))) = nrf_schedule (nd_state d)) as Hn.
  { intros ready. unfold snapshot_select. destruct (nrf_selection (nd_state d)); [|done]. by destruct (topology_select _ _ _). }
  specialize (Hn (fun backend => healthy backend && match bk_server backend with Some s => accept s | None => false end)).
  destruct (snapshot_select _ key d) as [d' r]. simpl in *. by rewrite Hn.
Qed.

Lemma object_select_answers w i key accept w' s :
  heap_ok w -> object_select w i key accept = (w', Some s) -> accept s = true /\ answers w' i s.
Proof.
  intros Hok. unfold object_select. destruct (sw_heap w !! i) as [o|] eqn:Eo; [|done].
  pose proof (group_scp_select_status (sw_now w) (sw_healthy w) key accept (ob_state o)) as Hst.
  destruct (group_scp_select _ _ _ _ _) as [g r] eqn:Es. intros [= <- ->]. simpl in Hst.
  destruct (group_scp_select_lawful (sw_now w) (sw_healthy w) key accept (ob_state o) s) as [Ha Hs]; [by rewrite Es|].
  split; [done|]. exists (set_ob_state o g). simpl. rewrite list_lookup_insert_eq by (by eapply lookup_lt_Some).
  split_and!; [done|congruence|]. apply (group_scp_select_vetted (ob_log o) (ob_compiled o) (Some (ob_query o)) (sw_now w) (sw_healthy w) key accept (ob_state o)).
  - unfold heap_ok in Hok. by eapply Forall_lookup in Hok.
  - by rewrite Es.
Qed.

(** *** The discovery cache *)

(** An entry leads to a group made from a template of the profile, for its query. *)
Definition entry_ok (p : RuntimeScp) (w : ScpWorld) (k : ScpCacheKey) (i : nat) : Prop :=
  exists o t, sw_heap w !! i = Some o /\ t ∈ rs_templates p /\ g_name t = ck_upstream k /\
    ob_compiled o = renamed p t /\ ob_query o = ck_query k.
Definition entries_ok (p : RuntimeScp) (w : ScpWorld) (cache : list (ScpCacheKey * ScpCacheEntry)) : Prop :=
  Forall (fun e => entry_ok p w (fst e) (ce_group (snd e))) cache.

Lemma entry_ok_next p w w' k i : world_next w w' -> entry_ok p w k i -> entry_ok p w' k i.
Proof.
  intros Hn (o & t & Ho & ? & ? & Hc & Hq). destruct (Hn i o Ho) as (o' & Ho' & Hc' & Hq' & _). exists o', t.
  split_and!; [done..|congruence|congruence].
Qed.
Lemma entries_ok_next p w w' cache : world_next w w' -> entries_ok p w cache -> entries_ok p w' cache.
Proof. intros Hn Hok. eapply Forall_impl; [exact Hok|]. intros e. by apply entry_ok_next. Qed.

Lemma entries_ok_sub p w cache cache' :
  entries_ok p w cache -> (forall e, e ∈ cache' -> exists e', e' ∈ cache /\ fst e' = fst e /\ ce_group (snd e') = ce_group (snd e)) ->
  entries_ok p w cache'.
Proof.
  unfold entries_ok. rewrite !Forall_forall. intros Hok Hsub e He. destruct (Hsub e He) as (e' & He' & Hk & Hg).
  rewrite <- Hk, <- Hg. by apply Hok.
Qed.

(** What an operation of routing leaves: a world it ran to, and a sound cache. *)
Definition routed (p : RuntimeScp) (w w' : ScpWorld) (cache' : list (ScpCacheKey * ScpCacheEntry)) : Prop :=
  ran w w' /\ heap_ok w' /\ entries_ok p w' cache'.

Lemma cached_group_routed p w cache t key w' cache' r :
  heap_ok w -> entries_ok p w cache -> t ∈ rs_templates p -> ck_upstream key = g_name t ->
  cached_group p w cache t key = (w', cache', r) ->
  routed p w w' cache' /\ forall i, r = Ok i -> entry_ok p w' key i.
Proof.
  intros Hok Hc Ht Hk. unfold cached_group, cache_find. destruct (List.find _ cache) as [[k e]|] eqn:Ef; cbn [fmap option_fmap option_map snd].
  - intros [= <- <- <-]. apply find_some in Ef as [Hin Hkk%bool_decide_eq_true]. simpl in Hkk. subst k. apply list_elem_of_In in Hin.
    split; [split_and!; [reflexivity|done|]|].
    + apply (entries_ok_sub p w cache); [done|]. unfold cache_touch. intros x (y & -> & Hy)%list_elem_of_fmap. exists y.
      by destruct (bool_decide _).
    + intros i [= <-]. unfold entries_ok in Hc. eapply Forall_forall in Hc; [|exact Hin]. exact Hc.
  - set (room := if (length cache =? MAX_CACHE_ENTRIES)%nat then _ else Some cache).
    assert (forall c, room = Some c -> entries_ok p w c) as Hroom.
    { subst room. destruct (length cache =? MAX_CACHE_ENTRIES)%nat; [|by intros c [= <-]]. destruct (evictable w cache) as [victim|]; [|done].
      intros c [= <-]. apply (entries_ok_sub p w cache); [done|]. intros x Hx. unfold cache_remove in Hx.
      apply elem_of_filter_list in Hx as [Hx _]. by exists x. }
    destruct room as [c|]; [|by intros [= <- <- <-]]. specialize (Hroom c eq_refl).
    change (mkCompiledUpstreamGroup _ _ _ _ _ _ _) with (renamed p t). cbn [scp_group_new running_groups].
    pose proof (ran_new w (renamed p t) (ck_query key)) as Hran. unfold object_new in *.
    destruct (from_compiled_query _ (renamed p t) _) as [g|] eqn:Eg; intros [= <- <- <-]; [|done].
    set (w1 := set_sw_heap _ w) in *. simpl in Hran.
    assert (entry_ok p w1 key (length (sw_heap w))) as Hnew.
    { exists (mkGroupObject (renamed p t) (ck_query key) g []), t. split_and!; [|done..]. simpl.
      by rewrite lookup_app_r, Nat.sub_diag by lia. }
    split; [split_and!; [done|by apply Hran|]|by intros i [= <-]].
    apply Forall_app. split; [by apply (entries_ok_next p w), Hroom; apply Hran|]. by repeat constructor.
Qed.

Lemma discovered_routed p w cache request w' cache' r :
  heap_ok w -> entries_ok p w cache -> discovered p w cache request = (w', cache', r) ->
  routed p w w' cache' /\ forall i, r = Ok i -> exists t, scp_template p request = Ok t /\
    entry_ok p w' (mkScpCacheKey (g_name t) (sq_query request)) i.
Proof.
  intros Hok Hc. unfold discovered. destruct (scp_template p request) as [t|] eqn:Et; [|by intros [= <- <- <-]].
  pose proof (scp_template_in _ _ _ Et) as Hin. destruct (cached_group p w cache t _) as [[w0 c] g] eqn:Ec.
  destruct (cached_group_routed p w cache t (mkScpCacheKey (g_name t) (sq_query request)) w0 c g Hok Hc Hin eq_refl Ec) as [(Hr & Hok0 & Hc0) Hg].
  destruct g as [i|]; [|by intros [= <- <- <-]]. specialize (Hg i eq_refl).
  set (pair := if is_ok (scp_status w0 i) then (w0, true) else scp_refresh w0 i _).
  assert (ran w0 (fst pair)) as Hrf.
  { unfold pair. destruct (is_ok _); [reflexivity|]. apply (ran_refresh w0 i). }
  destruct pair as [w1 refreshed]. simpl in Hrf. intros [= <- <- <-]. split; [split_and!; [by etrans|by apply Hrf|]|].
  - by eapply entries_ok_next; [apply Hrf|].
  - intros j Hj. inv_ok. exists t. split; [done|]. by eapply entry_ok_next; [apply Hrf|].
Qed.

(** *** Exchanges *)

(** Where an exchange goes: a configured root, or an answer of a group of the profile;
    when discovery was asked for, of the group of the request's own query. *)
Definition exchange_vetted (p : RuntimeScp) (w : ScpWorld) (x : ScpExchange) : Prop :=
  match sx_group x with
  | None => sx_root x ∈ rs_allowed p
  | Some i => answers w i (sx_backend x) /\ exists k, entry_ok p w k i /\
      (sq_discovery (sx_request x) = true -> ck_query k = sq_query (sx_request x) /\
        exists t, scp_template p (sx_request x) = Ok t /\ ck_upstream k = g_name t)
  end.

Lemma search_cache_routed p w request root ip seen cache unavailable w' cache' r :
  heap_ok w -> entries_ok p w (seen ++ cache) -> sq_discovery request = false ->
  search_cache p w request root ip seen cache unavailable = (w', cache', r) ->
  routed p w w' cache' /\ forall x, r = Ok x -> exchange_vetted p w' x /\ sx_request x = request.
Proof.
  intros Hok Hc Hd. revert w seen unavailable Hok Hc. induction cache as [|[key e] cache IH]; intros w seen unavailable Hok Hc; cbn [search_cache].
  { intros [= <- <- <-]. rewrite app_nil_r in Hc. done. }
  set (scheme := default _ _). set (touched := (key, mkScpCacheEntry (ce_group e) (scp_now w))).
  assert (entry_ok p w key (ce_group e)) as He by (apply Forall_app in Hc as [_ Hc]; by apply Forall_cons in Hc as [Hc _]).
  assert (entries_ok p w (seen ++ touched :: cache)) as Ht.
  { apply Forall_app in Hc as [Hs Hc]. apply Forall_cons in Hc as [_ Hc]. apply Forall_app. split; [done|]. by constructor. }
  destruct (existsb _ _); [|intros E; eapply IH; [done| |exact E]; by rewrite <- app_assoc].
  pose proof (ran_select w (ce_group e) ip (has_root scheme root)) as Hran.
  pose proof (fun w' s => object_select_answers w (ce_group e) ip (has_root scheme root) w' s Hok) as Hans.
  cbn [scp_select running_groups]. destruct (object_select _ _ _ _) as [w1 [b|]]; simpl in Hran.
  - intros [= <- <- <-]. destruct (Hans w1 b eq_refl) as [_ Ha].
    split; [split_and!; [done|by apply Hran|by eapply entries_ok_next; [apply Hran|]]|].
    intros x [= <-]. split; [|done]. split; [done|]. exists key. split; [by eapply entry_ok_next; [apply Hran|]|]. simpl. congruence.
  - intros E. eapply IH in E as [(Hr & Ho & He') Hx].
    + split; [split_and!; [by etrans|done|done]|done].
    + by apply Hran.
    + rewrite <- app_assoc. by eapply entries_ok_next; [apply Hran|].
Qed.

Lemma route_discovered_routed p w request i headers ip t w' r :
  heap_ok w -> scp_template p request = Ok t -> entry_ok p w (mkScpCacheKey (g_name t) (sq_query request)) i ->
  route_discovered p w request i headers ip = (w', r) ->
  ran w w' /\ heap_ok w' /\ forall x, r = Ok x -> exchange_vetted p w' x /\ sx_request x = request.
Proof.
  intros Hok Ht He. unfold route_discovered. destruct (_ ← _; _ : scp _) as [[key scheme]|]; [|by intros [= <- <-]].
  set (first := match sq_target request with Some _ => _ | None => _ end).
  assert (ran w (fst first) /\ forall b, snd first = Some b -> answers (fst first) i b) as [Hr1 Ha1].
  { unfold first. destruct (sq_target request) as [target|]; [|done]. cbn [scp_select running_groups].
    pose proof (ran_select w i key (has_root scheme target)) as Hran.
    destruct (object_select w i key _) as [w1 [b|]] eqn:Es; [|done]. split; [done|]. intros b' [= <-].
    by apply object_select_answers in Es as [_ ?]. }
  destruct first as [w1 first]. simpl in *. destruct (is_none first && _).
  { intros [= <- <-]. split_and!; [done|by apply Hr1|done]. }
  set (second := match first with Some _ => _ | None => _ end).
  assert (ran w (fst second) /\ forall b, snd second = Some b -> answers (fst second) i b) as [Hr2 Ha2].
  { unfold second. destruct first as [b|]; [by auto|]. cbn [scp_select running_groups].
    pose proof (ran_select w1 i key (fun _ => true)) as Hran.
    destruct (object_select w1 i key _) as [w2 [b|]] eqn:Es; (split; [by etrans|]); [|done]. intros b' [= <-].
    apply object_select_answers in Es as [_ ?]; [done|]. by apply Hr1. }
  destruct second as [w2 backend]. simpl in *. intros [= <- <-]. split_and!; [done|by apply Hr2|].
  intros x Hx. inv_ok. split; [|done]. split; [by apply Ha2|]. exists (mkScpCacheKey (g_name t) (sq_query request)).
  split; [by eapply entry_ok_next; [apply Hr2|]|]. intros _. split; [done|]. by exists t.
Qed.

Lemma retry_connect_vetted p w x :
  heap_ok w ->
  (forall i, sx_group x = Some i -> exists k, entry_ok p w k i /\
     (sq_discovery (sx_request x) = true -> ck_query k = sq_query (sx_request x) /\
        exists t, scp_template p (sx_request x) = Ok t /\ ck_upstream k = g_name t)) ->
  snd (retry_connect w x) = true ->
  let w' := fst (fst (retry_connect w x)) in ran w w' /\ heap_ok w' /\ exchange_vetted p w' (snd (fst (retry_connect w x))).
Proof.
  intros Hok Hk. unfold retry_connect. destruct (sx_attempted x); [|done]. destruct (sx_group x) as [i|]; [|done].
  destruct (Hk i eq_refl) as (k & He & Hq). cbn [scp_select running_groups]. set (accept := fun b => _).
  pose proof (ran_select w i (sx_key x) accept) as Hran.
  destruct (object_select w i (sx_key x) accept) as [w1 [b|]] eqn:Es; [|done]. simpl in Hran.
  apply object_select_answers in Es as [_ Ha]; [|done].
  destruct (backend_root b _); [|done]. destruct (same_authority _ _); [done|]. intros _. simpl.
  split_and!; [done|by apply Hran|]. split; [done|]. exists k. split; [by eapply entry_ok_next; [apply Hran|]|done].
Qed.

Lemma scp_route_vetted p w cache request headers ip w' cache' r :
  heap_ok w -> entries_ok p w cache -> scp_route p w cache request headers ip = (w', cache', r) ->
  routed p w w' cache' /\ forall x, r = Ok x -> exchange_vetted p w' x /\ sx_request x = request.
Proof.
  intros Hok Hc Hr.
  assert (forall w1 c1 g, discovered p w cache request = (w1, c1, g) ->
    (w', cache', r) = match g with Err e => (w1, c1, Err e) | Ok g => let '(w2, r2) := route_discovered p w1 request g headers ip in (w2, c1, r2) end ->
    routed p w w' cache' /\ forall x, r = Ok x -> exchange_vetted p w' x /\ sx_request x = request) as Hdisc.
  { intros w1 c1 g Edi E. destruct (discovered_routed _ _ _ _ _ _ _ Hok Hc Edi) as [(Hr1 & Hok1 & Hc1) Hg].
    destruct g as [i|]; [|by injection E as -> -> ->].
    destruct (Hg i eq_refl) as (t & Ht & He). destruct (route_discovered p w1 request i headers ip) as [w2 r2] eqn:Erd.
    injection E as -> -> ->. destruct (route_discovered_routed _ _ _ _ _ _ _ _ _ Hok1 Ht He Erd) as (Hr2 & Hok2 & Hx2).
    split; [split_and!; [by etrans|done|by eapply entries_ok_next; [apply Hr2|]]|done]. }
  unfold scp_route in Hr. destruct (discovered p w cache request) as [[w1 c1] g] eqn:Edi.
  destruct (sq_discovery request) eqn:Ed, (sq_target request) as [root|]; try (eapply Hdisc; [reflexivity|by rewrite <- Hr]).
  destruct (bool_decide _) eqn:Ea; [|by eapply (search_cache_routed _ _ _ _ _ [])].
  injection Hr as <- <- <-. split; [split_and!; [reflexivity|done|done]|]. intros x [= <-]. by apply bool_decide_eq_true in Ea.
Qed.

(** *** Histories *)

(** What can happen to a profile's groups and cache: requests, retries, the periodic
    maintenance and the refreshes it starts, other work on a group or a new group of
    another profile, and whatever time, probes and the holders of the groups do.  The
    order of a [HashMap] is arbitrary. *)
Inductive scp_step (p : RuntimeScp) : ScpWorld * list (ScpCacheKey * ScpCacheEntry) -> ScpWorld * list (ScpCacheKey * ScpCacheEntry) -> Prop :=
| ss_route w cache request headers ip : scp_step p (w, cache) (fst (scp_route p w cache request headers ip))
| ss_retry w cache x : scp_step p (w, cache) (fst (fst (retry_connect w x)), cache)
| ss_maintain w cache : scp_step p (w, cache) (w, fst (fst (maintain w cache)))
| ss_refresh w cache i timeout : scp_step p (w, cache) (fst (object_refresh w i timeout), cache)
| ss_group w cache i o e : sw_heap w !! i = Some o -> refreshes [e] = [] ->
    scp_step p (w, cache) (set_sw_heap (<[i := set_ob_state o (group_exec refresh_hash (ob_state o) e)]> (sw_heap w)) w, cache)
| ss_new w cache compiled query : scp_step p (w, cache) (fst (object_new w compiled query), cache)
| ss_environment w cache now healthy counts pending : scp_step p (w, cache) (mkScpWorld now healthy counts (sw_heap w) pending, cache)
| ss_order w cache cache' : cache ≡ₚ cache' -> scp_step p (w, cache) (w, cache').

Definition system_ok (p : RuntimeScp) (s : ScpWorld * list (ScpCacheKey * ScpCacheEntry)) : Prop := heap_ok (fst s) /\ entries_ok p (fst s) (snd s).

Lemma retry_connect_ran w x : ran w (fst (fst (retry_connect w x))).
Proof.
  unfold retry_connect. destruct (sx_attempted x); [|reflexivity]. destruct (sx_group x) as [i|]; [|reflexivity].
  cbn [scp_select running_groups]. set (accept := fun b => _). pose proof (ran_select w i (sx_key x) accept) as Hran.
  destruct (object_select w i (sx_key x) accept) as [w1 [b|]]; [|done]. destruct (backend_root b _); [|done].
  by destruct (same_authority _ _).
Qed.

(** A step that leaves the cache alone. *)
Lemma ran_system_ok p w w' cache : ran w w' -> system_ok p (w, cache) -> system_ok p (w', cache) /\ world_next w w'.
Proof. intros Hr [Hok Hc]. split_and!; [split; [by apply Hr|by eapply entries_ok_next; [apply Hr|]]|apply Hr]. Qed.

Lemma scp_step_ok p s s' : scp_step p s s' -> system_ok p s -> system_ok p s' /\ world_next (fst s) (fst s').
Proof.
  intros Hs Hok. destruct Hs as [w cache request headers ip|w cache x|w cache|w cache i timeout|w cache i o e Ho He|w cache compiled query|
    w cache now healthy counts pending|w cache cache' Hp]; cbn [fst].
  - destruct Hok as [Hok Hc]. destruct (scp_route p w cache request headers ip) as [[w' cache'] r] eqn:Er.
    destruct (scp_route_vetted _ _ _ _ _ _ _ _ _ Hok Hc Er) as [(Hran & Hok' & Hc') _]. by split; [split|apply Hran].
  - by apply ran_system_ok; [apply retry_connect_ran|].
  - split; [|reflexivity]. destruct Hok as [Hok Hc]. split; [done|]. apply (entries_ok_sub p w cache); [done|].
    intros e He. exists e. split; [|done]. unfold maintain in He. simpl in He. by apply elem_of_filter_list in He as [? _].
  - by apply ran_system_ok; [apply ran_refresh|].
  - apply ran_system_ok; [|done]. apply (ran_update w i o _ (sw_pending w)); [done|by apply object_next_event].
  - by apply ran_system_ok; [apply ran_new|].
  - split; [done|]. intros i o Ho. by exists o.
  - split; [|reflexivity]. destruct Hok as [Hok Hc]. split; [done|]. cbn [fst snd] in *. unfold entries_ok in *. by rewrite <- Hp.
Qed.

Lemma scp_steps_ok p s s' : rtc (scp_step p) s s' -> system_ok p s -> system_ok p s' /\ world_next (fst s) (fst s').
Proof.
  induction 1 as [s|s1 s2 s3 Hs _ IH]; intros Hok; [by split|]. destruct (scp_step_ok _ _ _ Hs Hok) as [Hok2 Hn].
  destruct (IH Hok2) as [Hok3 Hn3]. split; [done|by etrans].
Qed.

(** C29: over the running groups, an SCP only ever routes to vetted producers.  From a
    start with no group and an empty cache, after any history of requests, retries,
    maintenance, refreshes and other work on groups, an exchange goes to a configured
    root, or to a producer of a group made from a template of the profile whose snapshot
    is valid: it is healthy now, and in one of the refreshes that very group has run the
    registry's answer to the group's query lists it and the group's health check, probing
    as in that refresh, passed it; when the request asked for discovery, template and
    query are the request's.  The same holds of the retry after a failed connection,
    whatever happens in between. *)
Theorem scp_exchange_vetted p w0 w cache request headers ip w' cache' x :
  sw_heap w0 = [] -> rtc (scp_step p) (w0, []) (w, cache) ->
  scp_route p w cache request headers ip = (w', cache', Ok x) ->
  exchange_vetted p w' x /\
  forall w1 cache1, rtc (scp_step p) (w', cache') (w1, cache1) -> snd (retry_connect w1 x) = true ->
    exchange_vetted p (fst (fst (retry_connect w1 x))) (snd (fst (retry_connect w1 x))).
Proof.
  intros Hempty Hw Hr. assert (system_ok p (w0, [])) as Hok0 by (split; [by unfold heap_ok; simpl; rewrite Hempty|constructor]).
  destruct (scp_steps_ok _ _ _ Hw Hok0) as [[Hok Hc] _]. simpl in Hok, Hc.
  destruct (scp_route_vetted _ _ _ _ _ _ _ _ _ Hok Hc Hr) as [(Hran & Hok' & Hc') Hx]. destruct (Hx x eq_refl) as [Hv _]. split; [done|].
  intros w1 cache1 Hw1 Hret. destruct (scp_steps_ok _ _ _ Hw1 (conj Hok' Hc')) as [[Hok1 _] Hn]. simpl in Hok1, Hn.
  apply (retry_connect_vetted p w1 x); [done| |done].
  intros i Ei. unfold exchange_vetted in Hv. rewrite Ei in Hv. destruct Hv as (_ & k & He & Hq). exists k.
  split; [by eapply entry_ok_next|done].
Qed.
End scp_system.

(** ** Sample *)

Module ScpSystemSample.
(** The registry and the balancers of the samples, over URIs that parse. *)
#[local] Existing Instance ScpSample.crates.
Notation crates := ScpSample.crates.
#[export] Instance deps : @NrfDeps crates := {|
  host_is_valid := str_all (in_range 33 126);
  path_and_query_error _ := "invalid"; path_and_query_query s := snd <$> split_once "?" s;
  url_set_path := NrfSample.set_path : @Url crates -> string -> @Url crates;
  url_set_query := fun (u : @Url crates) _ => u; url_append_pair := fun (u : @Url crates) _ _ => u;
  pem_read _ := Err "not found";
  Certificate := string; from_pem_bundle s := Ok [s];
  Identity := string; identity_from_pem s := Ok s;
  NrfHttpClient := unit; nrf_client_build _ := Ok tt;
  status_to_string := pretty;
  decode_search_result s := if String.eqb s "abc" then Ok NrfSample.answer else Err "expected abc"
|}.
#[export] Instance health : @HealthDeps crates := {|
  lookup_host _ port := Ok [(V4 1, port)]; request_build _ := Ok tt; host_header_ok _ := Ok tt;
  get_stream _ := Ok tt; get_http_session _ _ _ := Err "no session"
|}.
Definition exchange (_ : unit) (_ : @Url crates) (_ : list (string * string)) : result string NrfResponse :=
  Ok (mkNrfResponse 200 None [Ok "ab"; Ok "c"]).
Definition nrf : @CompiledNrfDiscovery crates :=
  @mkCompiledNrfDiscovery crates (Toy.mkUrl "http" "nrf" None "/nnrf-disc/v1") "SMF" "AMF" "nsmf-pdusession" NrfHttp
    (from_secs 3) (from_secs 60) UpstreamSslOptions_default.
Definition template : @CompiledUpstreamGroup crates :=
  @mkCompiledUpstreamGroup crates false "smf" RoundRobin None [] (Some nrf) (Some GroupSample.check).
Definition profile : @RuntimeScp crates := mkRuntimeScp 1 ScpSample.root ScpSample.profile [template] [].
Definition request : ScpRequest :=
  mkScpRequest None None None (mkNrfQuery None None None "v1" ["nsmf-pdusession"]) true false "/nsmf-pdusession/v1/x" 2.
(** The first refresh answers in time. *)
Definition w0 : @ScpWorld crates deps GroupSample.balancers :=
  mkScpWorld 5 (fun _ => true) (fun _ => 1) [] [mkPending health exchange true 6 true].
Definition route :=
  @scp_route crates ScpSample.deps _ (@running_groups crates ScpSample.deps deps health GroupSample.balancers (fun _ => 0))
    profile w0 [] request [] "192.0.2.1".
Definition backend : option CompiledUpstreamServer := sx_backend <$> ok (snd route).
Lemma route_discovers : backend = Some (NrfSample.server "10.0.0.1" 8080).
Proof. vm_compute. reflexivity. Qed.
End ScpSystemSample.

(** The first request makes the group, waits for its refresh and is routed to the
    endpoint the registry lists. *)
Lemma scp_exchange_vetted_witness :
  ScpSystemSample.backend = Some (NrfSample.server "10.0.0.1" 8080) /\
  exists x, snd ScpSystemSample.route = Ok x /\ exchange_vetted (fun _ => 0) ScpSystemSample.profile (fst (fst ScpSystemSample.route)) x.
Proof.
  split; [exact ScpSystemSample.route_discovers|]. pose proof ScpSystemSample.route_discovers as Hb. unfold ScpSystemSample.backend in Hb.
  destruct (snd ScpSystemSample.route) as [x|] eqn:Er; [|done]. exists x. split; [done|].
  apply (@scp_exchange_vetted ScpSample.crates ScpSample.deps ScpSystemSample.deps ScpSystemSample.health GroupSample.balancers (fun _ => 0)
    GroupSample.balancer_laws ScpSystemSample.profile ScpSystemSample.w0 ScpSystemSample.w0 [] ScpSystemSample.request [] "192.0.2.1"
    (fst (fst ScpSystemSample.route)) (snd (fst ScpSystemSample.route)) x).
  - done.
  - constructor.
  - rewrite <- Er. by rewrite <- !surjective_pairing.
Defined.
