(* ===== verification/Registry.v ===== *)
(** * The plugin registry (crates/ngxora-plugin-registry/src/lib.rs)

    The built-in plugins behind one type, as [Arc<dyn HttpPlugin>] is, their factories by
    name, and the dispatch of the hooks; a hook that a plugin does not define continues
    (crates/ngxora-plugin-api/src/lib.rs).  The registry has every plugin feature, as the
    default build. *)

From S2P Require Import Prelude RustStr NetAddr Crates Headers PluginApi Ir RateLimit HeadersPlugin CorsPlugin AuthPlugins.

Open Scope N_scope.

Section registry.
Context `{AuthClient} `{HttpErrors} `{Base64} `{Jwt}.
Context `{!FromValue HeadersPluginConfig} `{!FromValue BasicAuthPluginConfig} `{!FromValue RateLimitPluginConfig}
  `{!FromValue CorsPluginConfig} `{!FromValue ExtAuthzPluginConfig} `{!FromValue JwtAuthPluginConfig}.
(** [std::str::from_utf8] on a header value, and the instant at which a limiter is made. *)
Context (utf8 : string -> bool) (built_at : N).

Inductive HttpPlugin :=
| PlHeaders (p : HeadersPlugin)
| PlBasicAuth (p : BasicAuthPlugin)
| PlRateLimit (p : RateLimitPlugin)
| PlCors (p : CorsPlugin)
| PlExtAuthz (p : ExtAuthzPlugin)
| PlJwtAuth (p : JwtAuthPlugin).

(** ** Factories *)

Definition Build : Type := PluginSpec -> result PluginBuildError HttpPlugin.
(** A factory: its [name] and its [build]. *)
Record PluginFactory := mkPluginFactory { pf_name : string; pf_build : Build }.

Definition HeadersPluginFactory : PluginFactory := mkPluginFactory "headers" (fun spec => PlHeaders <$> Headers_build spec).
Definition BasicAuthPluginFactory : PluginFactory := mkPluginFactory "basic-auth" (fun spec => PlBasicAuth <$> BasicAuth_build spec).
Definition RateLimitPluginFactory : PluginFactory := mkPluginFactory "rate-limit" (fun spec => PlRateLimit <$> RateLimit_build built_at spec).
Definition CorsPluginFactory : PluginFactory := mkPluginFactory "cors" (fun spec => PlCors <$> Cors_build spec).
Definition ExtAuthzPluginFactory : PluginFactory := mkPluginFactory "ext_authz" (fun spec => PlExtAuthz <$> ExtAuthz_build spec).
Definition JwtAuthPluginFactory : PluginFactory := mkPluginFactory "jwt_auth" (fun spec => PlJwtAuth <$> JwtAuth_build spec).

Definition PluginRegistry : Type := gmap string Build.
Definition PluginRegistry_new : PluginRegistry := ∅.
Definition register (registry : PluginRegistry) (factory : PluginFactory) : PluginRegistry :=
  <[pf_name factory := pf_build factory]> registry.
Definition register_builtin_plugins (registry : PluginRegistry) : PluginRegistry :=
  let registry := register registry HeadersPluginFactory in
  let registry := register registry BasicAuthPluginFactory in
  let registry := register registry RateLimitPluginFactory in
  let registry := register registry CorsPluginFactory in
  let registry := register registry ExtAuthzPluginFactory in
  register registry JwtAuthPluginFactory.
Definition with_builtin_plugins : PluginRegistry := register_builtin_plugins PluginRegistry_new.

(** Registering replaces the factory of the same name and no other. *)
Lemma register_lookup registry factory name :
  register registry factory !! name = if decide (pf_name factory = name) then Some (pf_build factory) else registry !! name.
Proof. apply lookup_insert. Qed.

(** The built-in registry has exactly the six names, each with its own factory. *)
Lemma builtin_lookup name build :
  with_builtin_plugins !! name = Some build ->
  exists f, f ∈ [HeadersPluginFactory; BasicAuthPluginFactory; RateLimitPluginFactory; CorsPluginFactory; ExtAuthzPluginFactory; JwtAuthPluginFactory] /\
    pf_name f = name /\ pf_build f = build.
Proof.
  unfold with_builtin_plugins, register_builtin_plugins. rewrite !register_lookup.
  repeat (case_decide as Hn; [intros [= <-]; eexists; split_and!; [|exact Hn|reflexivity]; rewrite !elem_of_cons; auto 10|clear Hn]).
  unfold PluginRegistry_new. intros E. by apply lookup_empty_Some in E.
Qed.

(** ** Hooks *)

(** The state of a limiter is shared with the other requests: its verdict on a client
    comes from the world, which the decision changes ([RateLimit] follows it through
    every interleaving). *)
Class RateLimiters (W : Type) := limiter_allows : W -> RateLimitPlugin -> IpAddr -> W * bool.

Section hooks.
Context {W : Type} `{!RateLimiters W}.

Definition plugin_on_request (plugin : HttpPlugin) (ctx : RequestCtx) (w : W) (state : PluginState) (h : HeaderMap)
  : W * PluginState * HeaderMap * result PluginError PluginFlow :=
  match plugin with
  | PlHeaders p => let '(h, r) := Headers_on_request p state ctx h in (w, state, h, r)
  | PlBasicAuth p => let '(h, r) := BasicAuth_on_request p h in (w, state, h, r)
  | PlRateLimit p =>
      match rc_client_ip ctx with
      | None => (w, state, h, Ok Continue)
      | Some ip => let '(w, allowed) := limiter_allows w p ip in
                   (w, state, h, Ok (if allowed then Continue else rate_limited_response p))
      end
  | PlCors p => let '(h, r) := Cors_on_request p ctx h in (w, state, h, r)
  | PlExtAuthz p => let '(h, r) := ExtAuthz_on_request p h in (w, state, h, r)
  | PlJwtAuth p => let '(h, r) := JwtAuth_on_request utf8 p h in (w, state, h, r)
  end.

Definition plugin_on_upstream_request (plugin : HttpPlugin) (w : W) (state : PluginState) (h : HeaderMap)
  : W * PluginState * HeaderMap * result PluginError PluginFlow :=
  match plugin with
  | PlHeaders p => let '(h, r) := Headers_on_upstream_request p h in (w, state, h, r)
  | _ => (w, state, h, Ok Continue)
  end.

Definition plugin_on_response (plugin : HttpPlugin) (w : W) (state : PluginState) (status : N) (h : HeaderMap)
  : W * PluginState * N * HeaderMap * result PluginError PluginFlow :=
  match plugin with
  | PlHeaders p => let '(h, r) := Headers_on_response p h in (w, state, status, h, r)
  | PlCors p => let '(h, r) := Cors_on_response p h in (w, state, status, h, r)
  | _ => (w, state, status, h, Ok Continue)
  end.

(** ** What a plugin lets through *)

(** Only two of the plugins edit a request. *)
Definition edits_requests (plugin : HttpPlugin) : bool := match plugin with PlHeaders _ | PlExtAuthz _ => true | _ => false end.

Lemma plugin_keeps_headers plugin ctx w state h :
  edits_requests plugin = false -> snd (fst (plugin_on_request plugin ctx w state h)) = h.
Proof.
  destruct plugin as [p|p|p|p|p|p]; try done; intros _; cbn [plugin_on_request].
  destruct (rc_client_ip ctx) as [ip|]; [|done]. by destruct (limiter_allows w p ip).
Qed.

(** The headers [h] satisfy the authentication that [spec] configures. *)
Definition authenticates (spec : PluginSpec) (h : HeaderMap) : Prop :=
  (plugin_name spec = "basic-auth" -> exists config raw value scheme,
     from_value (plugin_config spec) = Ok config /\ header_get "authorization" h = Some raw /\ header_to_str raw = Some value /\
     split_ascii_whitespace value = [scheme; base64_encode (ba_username config +:+ ":" +:+ ba_password config)]) /\
  (plugin_name spec = "jwt_auth" -> exists p token scope,
     JwtAuth_build spec = Ok p /\ header_get "authorization" h = Some ("Bearer " +:+ token) /\
     jwt_decode token (ja_decoding_key p) (ja_validation p) = Ok scope /\ has_required_scopes scope (ja_required_scopes p) = true) /\
  (plugin_name spec = "ext_authz" -> exists p answer,
     ExtAuthz_build spec = Ok p /\
     client_get (ep_client p) (ep_uri p) (omap (fun n => (fun v => (n, v)) <$> header_get n h) (ep_pass_request_headers p)) = Ok answer /\
     is_success (ar_status answer) = true).

(** A plugin of the registry that continues has authenticated the request. *)
Lemma builtin_authenticates spec build plugin ctx w state h :
  with_builtin_plugins !! plugin_name spec = Some build -> build spec = Ok plugin ->
  snd (plugin_on_request plugin ctx w state h) = Ok Continue -> authenticates spec h.
Proof.
  intros Hl Hb Hc. apply builtin_lookup in Hl as (f & Hf & Hn & <-).
  unfold authenticates. rewrite <- Hn in *. apply list_elem_of_In in Hf. simpl in Hf.
  destruct Hf as [<-|[<-|[<-|[<-|[<-|[<-|[]]]]]]]; split_and!; try done; intros _.
  all: cbn [pf_build BasicAuthPluginFactory JwtAuthPluginFactory ExtAuthzPluginFactory] in Hb;
    apply fmap_Ok_inv in Hb as (p & Ep & ->).
  - pose proof Ep as Ep'. unfold BasicAuth_build, config_from_value in Ep'. apply bind_Ok_inv in Ep' as (config & Hconfig%map_err_Ok & _).
    destruct (basic_auth_built_inv config p) as [He _]; [by exists spec|].
    pose proof (basic_auth_flow_cases p h) as Hcase. injection Hc as Hc. change (hm_get "authorization" h) with (header_get "authorization" h) in *.
    rewrite Hc in Hcase. destruct Hcase as (raw & value & scheme & ? & ? & Hs). exists config, raw, value, scheme. rewrite He in Hs. done.
  - cbn [plugin_on_request] in Hc. destruct (ext_authz_on_request_cases p h) as [Hr _].
    destruct (ExtAuthz_on_request p h) as [h' r]. simpl in Hc, Hr. rewrite Hc in Hr. injection Hr as Hr.
    destruct (client_get _ _ _) as [answer|] eqn:Ea; [|done]. destruct (is_success _) eqn:Es; [|done]. by exists p, answer.
  - injection Hc as Hc. pose proof (jwt_auth_flow_cases utf8 p (hm_get "authorization" h)) as Hcase.
    change (hm_get "authorization" h) with (header_get "authorization" h) in *. rewrite Hc in Hcase.
    destruct Hcase as (token & scope & ? & _ & ? & ?). by exists p, token, scope.
Qed.
End hooks.
End registry.
