(* ===== verification/Background.v ===== *)
(** * Background loops (crates/ngxora-runtime/src/control.rs)

    The services that run the health checks and the NRF discovery of the groups of the
    snapshot in force.  Each turn visits every group and sleeps until the next one is
    due, or for a second at most, so that the groups of a new snapshot are seen. *)

From S2P Require Import Prelude RustStr NetAddr BTree Crates Headers Ir Types Scp Control Topology Discovery Health ScpRouting Nrf Groups UpstreamGroup.

Open Scope N_scope.

(** [snapshot_refresh_interval], in nanoseconds *)
Definition snapshot_refresh_interval : N := 1000000000.

Section turn.
Context {G : Type} (run_due : G -> G * option N).

(** The [for] loop of a turn: every group in turn, and the earliest wake-up. *)
Fixpoint turn_groups (next_wake : N) (groups : list G) : list G * N :=
  match groups with
  | [] => ([], next_wake)
  | g :: groups =>
      let '(g, next_run) := run_due g in
      let next_wake := match next_run with Some next_run => N.min next_wake next_run | None => next_wake end in
      let '(groups, next_wake) := turn_groups next_wake groups in
      (g :: groups, next_wake)
  end.

Lemma turn_groups_spec next_wake groups :
  let '(groups', wake) := turn_groups next_wake groups in
  groups' = (fun g => fst (run_due g)) <$> groups /\ wake <= next_wake /\
  forall g next_run, g ∈ groups -> snd (run_due g) = Some next_run -> wake <= next_run.
Proof.
  revert next_wake. induction groups as [|g groups IH]; intros next_wake; cbn [turn_groups].
  - split_and!; [done|lia|]. by intros g next_run ?%not_elem_of_nil.
  - destruct (run_due g) as [g' next_run] eqn:Hg.
    specialize (IH (match next_run with Some next_run => N.min next_wake next_run | None => next_wake end)).
    destruct (turn_groups _ groups) as [groups' wake]. destruct IH as (-> & Hle & Hall). split_and!.
    + simpl. by rewrite Hg.
    + destruct next_run; lia.
    + intros x nr [->|Hx]%elem_of_cons Hn; [|by eapply Hall]. rewrite Hg in Hn. simpl in Hn. subst next_run. lia.
Qed.
End turn.

Section background.
Context `{RuntimeDeps} `{!NrfDeps} `{Balancers} (refresh_hash : string -> N) {W : Type} `{!ScpGroups W}.

(** One turn of the health checks; the checks of a group run when it is due. *)
Definition health_turn (now : N) (groups : list RuntimeUpstreamGroup) : list RuntimeUpstreamGroup * N :=
  turn_groups (fun g => let '(g, r) := run_due_health_check now g in (g, fst <$> r)) (now + snapshot_refresh_interval) groups.

(** One turn of the NRF discovery: each group with what its NRF answers; the SCP
    profiles of the snapshot then maintain their caches. *)
Definition discovery_turn `{!HealthDeps} (exchange : NrfHttpClient -> Url -> list (string * string) -> result string NrfResponse)
    (now done_at : N) (w : W) (groups : list RuntimeUpstreamGroup) (profiles : list (list (ScpCacheKey * ScpCacheEntry))) :=
  let '(groups, next_wake) :=
    turn_groups (run_due_nrf_discovery refresh_hash exchange now true done_at) (now + snapshot_refresh_interval) groups in
  (groups, maintain w <$> profiles, next_wake).

(** What ends the sleep of a turn. *)
Inductive BgEvent := BgShutdown (ok value : bool) | BgWake.

(** The turns of a service: those it takes before it is told to stop, each with the
    groups of the snapshot then in force. *)
Fixpoint service_turns {R} (turn : N -> list RuntimeUpstreamGroup -> R) (shutdown : bool)
    (wakes : list (N * list RuntimeUpstreamGroup * BgEvent)) : list R :=
  match wakes with
  | [] => []
  | (now, groups, event) :: wakes =>
      if shutdown then [] else
      turn now groups ::
      match event with
      | BgShutdown ok value => if negb ok || value then [] else service_turns turn value wakes
      | BgWake => service_turns turn shutdown wakes
      end
  end.

(** A turn checks every group that is due, schedules it one interval later, leaves the
    others alone, and sleeps past no group's next check and for no more than a second. *)
Theorem health_turn_exact now groups :
  let '(groups', wake) := health_turn now groups in
  wake <= now + snapshot_refresh_interval /\
  Forall2 (fun g g' =>
    match ug_health_check g with
    | None => g' = g
    | Some s => exists s', ug_health_check g' = Some s' /\ hs_interval s' = hs_interval s /\ wake <= hs_next_run_at s' /\
        hs_next_run_at s' = (if hs_next_run_at s <=? now then now + hs_interval s else hs_next_run_at s)
    end) groups groups'.
Proof.
  unfold health_turn. set (run := fun g => let '(g, r) := run_due_health_check now g in (g, fst <$> r)).
  pose proof (turn_groups_spec run (now + snapshot_refresh_interval) groups) as Hs.
  destruct (turn_groups run _ groups) as [groups' wake]. destruct Hs as (-> & Hle & Hall). split; [done|].
  apply Forall2_fmap_r, Forall_Forall2_diag, Forall_forall. intros g Hg. specialize (Hall g).
  unfold run, compose, run_due_health_check in *. destruct (ug_health_check g) as [s|] eqn:Es; [|done].
  destruct (N.ltb_spec now (hs_next_run_at s)) as [Hlt|Hge]; simpl in *.
  - exists s. rewrite (proj2 (N.leb_gt _ _)) by done. by split_and!; [..|apply Hall|].
  - exists (mkHealthCheckSchedule (hs_interval s) (now + hs_interval s)). rewrite (proj2 (N.leb_le _ _)) by done. by split_and!; [..|apply Hall|].
Qed.

(** A turn of the discovery loop sleeps past no group's next refresh and for no more than
    a second; what stays in an SCP cache was there, a group a request holds stays, and so
    does one used in the last five minutes. *)
Theorem discovery_turn_exact `{!HealthDeps} exchange now done_at w groups profiles :
  let '(groups', profiles', wake) := discovery_turn exchange now done_at w groups profiles in
  wake <= now + snapshot_refresh_interval /\
  groups' = (fun g => fst (run_due_nrf_discovery refresh_hash exchange now true done_at g)) <$> groups /\
  (forall g next, g ∈ groups -> snd (run_due_nrf_discovery refresh_hash exchange now true done_at g) = Some next -> wake <= next) /\
  Forall2 (fun cache '(cache', reported, refreshed) =>
    reported = length cache' /\ refreshed = (fun e => ce_group (snd e)) <$> cache' /\
    forall e, e ∈ cache' <-> e ∈ cache /\
      (elapsed (scp_now w) (ce_last_used (snd e)) < IDLE_TTL \/ 1 < scp_strong_count w (ce_group (snd e)))) profiles profiles'.
Proof.
  unfold discovery_turn.
  pose proof (turn_groups_spec (run_due_nrf_discovery refresh_hash exchange now true done_at) (now + snapshot_refresh_interval) groups) as Hs.
  destruct (turn_groups _ _ groups) as [groups' wake]. destruct Hs as (-> & Hle & Hall). split_and!; [done..|].
  apply Forall2_fmap_r, Forall_Forall2_diag, Forall_forall. intros cache _. unfold compose, maintain. split_and!; [done..|].
  intros e. by rewrite list_elem_of_In, filter_In, <- list_elem_of_In, orb_true_iff, !N.ltb_lt.
Qed.
End background.
