(* ===== verification/Server.v ===== *)
(** * Server bootstrap (crates/ngxora-runtime/src/server.rs)

    Checking listener certificates, readiness of a configuration, the certificate of a
    TLS handshake, and binding the listeners of a router with their TLS policy.  The
    development follows the default build, with the [openssl] feature.  OpenSSL and the
    file system at the moment of a call are parameters. *)

From S2P Require Import Prelude RustStr NetAddr Crates BTree Ir Types HttpRoutes Routing CompileRouter.

Open Scope N_scope.

(** ** OpenSSL *)

(** [std::cmp::Ordering] is [comparison]. *)
Class OpenSsl := {
  tls_file_read : string -> result string string;
  X509 : Type;
  PKey : Type;
  PubKey : Type;
  stack_from_pem : string -> result string (list X509);
  private_key_from_pem : string -> result string PKey;
  x509_public_key : X509 -> result string PubKey;
  public_eq : PubKey -> PKey -> bool;
  Asn1Time : Type;
  days_from_now : N -> result string Asn1Time;
  not_before : X509 -> Asn1Time;
  not_after : X509 -> Asn1Time;
  asn1_compare : Asn1Time -> Asn1Time -> result string comparison;
  (** settings of a TLS acceptor *)
  set_proto_version : TlsProtocolVersion -> result string unit;
  set_ca_file : string -> result string unit
}.

Section server.
Context `{Crates} `{OpenSsl} `{HashIter}.

(** ** Certificates *)

Definition read_tls_source (source : PemSource) (label : string) : result string string :=
  match source with
  | PemPath path => map_err (fun err => "failed to read " +:+ label +:+ " " +:+ path +:+ ": " +:+ err) (tls_file_read path)
  | InlinePem pem => if is_empty pem then Err (label +:+ " inline PEM is empty") else Ok pem
  end.

Definition validate_tls_identity (identity : TlsIdentity) : result string unit :=
  cert_pem ← read_tls_source (cert identity) "TLS certificate";
  certificates ← map_err (fun err => "failed to parse TLS certificate: " +:+ err) (stack_from_pem cert_pem);
  certificate ← ok_or (head certificates) "TLS certificate chain is empty";
  key_pem ← read_tls_source (key identity) "TLS private key";
  private_key ← map_err (fun err => "failed to parse TLS private key: " +:+ err) (private_key_from_pem key_pem);
  public_key ← map_err (fun err => "failed to read TLS certificate public key: " +:+ err) (x509_public_key certificate);
  _ ← fail_if (negb (public_eq public_key private_key)) "TLS certificate and private key do not match";
  now ← map_err (fun err => "failed to read current ASN.1 time: " +:+ err) (days_from_now 0);
  before ← map_err (fun err => "failed to compare TLS not-before time: " +:+ err) (asn1_compare (not_before certificate) now);
  _ ← fail_if (bool_decide (before = Gt)) "TLS certificate is not valid yet";
  after ← map_err (fun err => "failed to compare TLS expiry time: " +:+ err) (asn1_compare (not_after certificate) now);
  fail_if (bool_decide (after <> Gt)) "TLS certificate is expired".

(** Identities of a listener, the default one first. *)
Definition tls_identities (t : ListenerTlsConfig) : list TlsIdentity := option_list (tls_default t) ++ iter_values (tls_named t).

Definition ready_listener (router : CompiledRouter) (key : ListenKey) : result string unit :=
  t ← ok_or (r_listener_tls router !! key) ("TLS listener " +:+ listen_key_addr key +:+ " has no certificate configuration");
  _ ← for_each (fun identity => map_err (fun err => "TLS listener " +:+ listen_key_addr key +:+ " is not ready: " +:+ err)
                                  (validate_tls_identity identity)) (tls_identities t);
  fail_if (is_nil (tls_identities t)) ("TLS listener " +:+ listen_key_addr key +:+ " has no certificate identities").

Definition router_ready (router : CompiledRouter) : result string unit :=
  _ ← fail_if (bool_decide (r_listeners router = ∅)) "active configuration has no listeners";
  for_each (ready_listener router) (List.filter ssl (iter_keys (r_listeners router))).

(** ** The certificate of a handshake *)

Definition default_listener_tls (k : ListenKey) (t : ListenerTlsConfig) : result string TlsIdentity :=
  ok_or (option_or (tls_default t) (head (iter_values (tls_named t)))) ("ssl listener " +:+ listen_key_addr k +:+ " has no certificate").

Definition scored_identities (t : ListenerTlsConfig) (server_name : string) : list (score * TlsIdentity) :=
  omap (fun '(name, identity) => (fun s => (s, identity)) <$> hostname_score name server_name) (iter (tls_named t)).

Definition select_listener_tls (k : ListenKey) (t : ListenerTlsConfig) (server_name : option string) : result string TlsIdentity :=
  match (name ← server_name;
         snd <$> max_by (fun a b => score_leb (fst a) (fst b)) (scored_identities t (normalize_hostname name))) with
  | Some identity => Ok identity
  | None => default_listener_tls k t
  end.

(** ** Listeners *)

Inductive ALPN := AlpnH1 | AlpnH2 | AlpnH2H1.
Definition listener_alpn (protocol : ListenerProtocolConfig) : ALPN :=
  if lp_http2_only protocol then AlpnH2 else if lp_http2 protocol then AlpnH2H1 else AlpnH1.

(** [SslVerifyMode] as its bits. *)
Definition VERIFY_NONE : N := 0.
Definition VERIFY_PEER : N := 1.
Definition FAIL_IF_NO_PEER_CERT : N := 2.
Definition required_verify_mode : N := N.lor VERIFY_PEER FAIL_IF_NO_PEER_CERT.

(** The settings of a TLS acceptor; certificates come from the resolver of the listener. *)
Record TlsSettings := mkTlsSettings {
  se_resolver : ListenKey;
  se_alpn : option ALPN;
  se_min_proto : option TlsProtocolVersion;
  se_max_proto : option TlsProtocolVersion;
  se_verify : N;
  se_ca_file : option string
}.
Definition with_callbacks (k : ListenKey) : TlsSettings := mkTlsSettings k None None None VERIFY_NONE None.

Definition pem_source_path (source : PemSource) (label : string) : result string string :=
  match source with
  | PemPath path => Ok path
  | InlinePem _ => Err (label +:+ " inline PEM is not supported for listeners yet")
  end.

Definition apply_protocol_bounds (s : TlsSettings) (b : TlsProtocolBounds) : result string TlsSettings :=
  _ ← map_err (fun err => "failed to set minimum TLS version: " +:+ err) (set_proto_version (tls_min b));
  _ ← map_err (fun err => "failed to set maximum TLS version: " +:+ err) (set_proto_version (tls_max b));
  Ok (mkTlsSettings (se_resolver s) (se_alpn s) (Some (tls_min b)) (Some (tls_max b)) (se_verify s) (se_ca_file s)).

Definition apply_client_verification (s : TlsSettings) (t : ListenerTlsSettings) : result string TlsSettings :=
  let mode := match ts_verify_client t with
              | VerifyOff => VERIFY_NONE | VerifyOptional => VERIFY_PEER | VerifyRequired => required_verify_mode
              end in
  let s := mkTlsSettings (se_resolver s) (se_alpn s) (se_min_proto s) (se_max_proto s) mode (se_ca_file s) in
  match ts_verify_client t with
  | VerifyOff => Ok s
  | VerifyOptional | VerifyRequired =>
      client_ca ← ok_or (ts_client_certificate t) "ssl_verify_client requires ssl_client_certificate";
      path ← pem_source_path client_ca "ssl client certificate authority";
      _ ← map_err (fun err => "failed to set ssl_client_certificate `" +:+ path +:+ "`: " +:+ err) (set_ca_file path);
      Ok (mkTlsSettings (se_resolver s) (se_alpn s) (se_min_proto s) (se_max_proto s) (se_verify s) (Some path))
  end.

Definition apply_listener_tls_settings (s : TlsSettings) (protocol : ListenerProtocolConfig) (t : ListenerTlsSettings)
  : result string TlsSettings :=
  let s := mkTlsSettings (se_resolver s) (Some (listener_alpn protocol)) (se_min_proto s) (se_max_proto s) (se_verify s) (se_ca_file s) in
  s ← match ts_protocols t with Some b => apply_protocol_bounds s b | None => Ok s end;
  apply_client_verification s t.

Definition listener_tls_settings (k : ListenKey) (t : ListenerTlsConfig) (protocol : ListenerProtocolConfig) : result string TlsSettings :=
  apply_listener_tls_settings (with_callbacks k) protocol (settings t).

(** The order of the listeners: by the text of the address, port and TLS. *)
Definition listener_order (k : ListenKey) : string * N * bool := (show_ip (addr k), port k, ssl k).
Definition sorted_listener_keys (router : CompiledRouter) : list ListenKey :=
  stable_sort (fun a b => bool_decide (cmp (listener_order a) (listener_order b) <> Gt)) (iter_keys (r_listeners router)).

Definition listener_protocol (router : CompiledRouter) (k : ListenKey) (address : string) : result string ListenerProtocolConfig :=
  ok_or (r_listener_protocols router !! k) ("listener " +:+ address +:+ " is missing protocol configuration").
Definition listener_tls (router : CompiledRouter) (k : ListenKey) (address : string) : result string ListenerTlsConfig :=
  ok_or (r_listener_tls router !! k) ("ssl listener " +:+ address +:+ " is missing certificate configuration").

(** ** The HTTP service *)

Record HttpServerOptions := mkHttpServerOptions { so_h2c : bool; so_allow_connect : bool; so_keepalive_request_limit : option N }.
(** A value that is not set keeps the default of Pingora. *)
Record H2Options := mkH2Options { h2_max_concurrent_streams : option N; h2_max_header_list_size : option N;
  h2_initial_window_size : option N; h2_initial_connection_window_size : option N }.

(** A listening service: whether its application is present and not yet shared, the
    options of the proxy, and its endpoints with their TLS settings. *)
Record Service := mkService {
  sv_has_app : bool;
  sv_exclusive : bool;
  sv_server_options : option HttpServerOptions;
  sv_h2_options : option H2Options;
  sv_endpoints : list (string * option TlsSettings)
}.

Definition configure_proxy_service (svc : Service) (router : CompiledRouter) : result string Service :=
  _ ← fail_if (negb (sv_has_app svc)) "http proxy service application is missing";
  _ ← fail_if (negb (sv_exclusive svc)) "proxy already shared during configuration";
  let o := r_http_options router in
  let http2 := ro_http2 o in
  Ok (mkService (sv_has_app svc) (sv_exclusive svc)
        (Some (mkHttpServerOptions (ro_h2c o) (ro_allow_connect_method_proxying o) (ro_keepalive_requests o)))
        (Some (mkH2Options (max_concurrent_streams http2) (max_header_list_size http2) (stream_window_size http2) (connection_window_size http2)))
        (sv_endpoints svc)).

Definition add_endpoint (svc : Service) (address : string) (tls : option TlsSettings) : Service :=
  mkService (sv_has_app svc) (sv_exclusive svc) (sv_server_options svc) (sv_h2_options svc) (sv_endpoints svc ++ [(address, tls)]).

Definition bind_listener (router : CompiledRouter) (svc : Service) (k : ListenKey) : result string Service :=
  let address := listen_key_addr k in
  if ssl k then
    t ← listener_tls router k address;
    protocol ← listener_protocol router k address;
    s ← listener_tls_settings k t protocol;
    Ok (add_endpoint svc address (Some s))
  else Ok (add_endpoint svc address None).

Definition bind_listeners (svc : Service) (router : CompiledRouter) : result string Service :=
  svc ← configure_proxy_service svc router;
  try_fold (bind_listener router) svc (sorted_listener_keys router).

(** ** Properties *)

(** A certificate and key that belong together, within their validity. *)
Definition usable_identity (identity : TlsIdentity) : Prop :=
  exists cert_pem certificate chain key_pem private_key public_key now,
    read_tls_source (cert identity) "TLS certificate" = Ok cert_pem /\ stack_from_pem cert_pem = Ok (certificate :: chain) /\
    read_tls_source (key identity) "TLS private key" = Ok key_pem /\ private_key_from_pem key_pem = Ok private_key /\
    x509_public_key certificate = Ok public_key /\ public_eq public_key private_key = true /\ days_from_now 0 = Ok now /\
    (exists before, asn1_compare (not_before certificate) now = Ok before /\ before <> Gt) /\
    asn1_compare (not_after certificate) now = Ok Gt.

Lemma validate_tls_identity_iff identity : validate_tls_identity identity = Ok tt <-> usable_identity identity.
Proof.
  unfold validate_tls_identity. split.
  - intros Hv. apply bind_Ok_inv in Hv as (cert_pem & Hcert & Hv). apply bind_Ok_inv in Hv as (certs & Hstack%map_err_Ok & Hv).
    apply bind_Ok_inv in Hv as (certificate & Hhead%ok_or_Ok & Hv). apply bind_Ok_inv in Hv as (key_pem & Hkey & Hv).
    apply bind_Ok_inv in Hv as (private_key & Hpriv%map_err_Ok & Hv). apply bind_Ok_inv in Hv as (public_key & Hpub%map_err_Ok & Hv).
    apply bind_Ok_inv in Hv as (? & Heq%fail_if_Ok%negb_false_iff & Hv). apply bind_Ok_inv in Hv as (now & Hnow%map_err_Ok & Hv).
    apply bind_Ok_inv in Hv as (before & Hbefore%map_err_Ok & Hv). apply bind_Ok_inv in Hv as (? & Hb%fail_if_Ok & Hv).
    apply bind_Ok_inv in Hv as (after & Hafter%map_err_Ok & Ha%fail_if_Ok). apply bool_decide_eq_false in Hb, Ha.
    destruct certs as [|c chain]; [done|]. injection Hhead as ->.
    exists cert_pem, certificate, chain, key_pem, private_key, public_key, now. split_and!; eauto.
    destruct (decide (after = Gt)) as [->|]; [done|]. by destruct Ha.
  - intros (cert_pem & certificate & chain & key_pem & private_key & public_key & now & -> & Hs & Hk & Hp & Hpub & Heq & Hnow & (b & Hb & Hbn) & Ha).
    simpl. rewrite Hs. simpl. rewrite Hk. simpl. rewrite Hp. simpl. rewrite Hpub. simpl. rewrite Heq. simpl.
    rewrite Hnow. simpl. rewrite Hb. simpl. rewrite bool_decide_eq_false_2 by done. simpl. by rewrite Ha.
Qed.

Lemma for_each_iff {A} (f : A -> result string unit) l : for_each f l = Ok tt <-> Forall (fun x => f x = Ok tt) l.
Proof.
  split; [apply for_each_Ok|]. induction 1 as [|x l Hx Hl IH]; [done|]. unfold for_each in *. cbn [try_fold]. by rewrite Hx.
Qed.

Lemma elem_of_tls_identities (t : ListenerTlsConfig) i :
  i ∈ tls_identities t <-> tls_default t = Some i \/ exists name, tls_named t !! name = Some i.
Proof.
  unfold tls_identities. rewrite elem_of_app, elem_of_iter_values. destruct (tls_default t); simpl; set_solver.
Qed.

Lemma elem_of_ssl_keys router k :
  k ∈ List.filter ssl (iter_keys (r_listeners router)) <-> is_Some (r_listeners router !! k) /\ ssl k = true.
Proof. rewrite list_elem_of_In, filter_In, <- list_elem_of_In, elem_of_iter_keys. done. Qed.

Lemma tls_identities_nil (t : ListenerTlsConfig) : is_nil (tls_identities t) = false <-> is_Some (tls_default t) \/ tls_named t <> ∅.
Proof.
  split.
  - destruct (tls_identities t) as [|i l] eqn:E; [done|]. intros _. assert (i ∈ tls_identities t) as Hi by (rewrite E; set_solver).
    apply elem_of_tls_identities in Hi as [->|[name Hn]]; [left; by eexists|right]. intros He. by rewrite He, lookup_empty in Hn.
  - intros Hd. assert (exists i, i ∈ tls_identities t) as [i Hi].
    { destruct Hd as [[i Hi]|Hne]; [exists i; apply elem_of_tls_identities; by left|].
      apply map_choose in Hne as (name & i & Hi). exists i. apply elem_of_tls_identities. right. by exists name. }
    destruct (tls_identities t); [set_solver|done].
Qed.

Lemma ready_listener_iff router k :
  ready_listener router k = Ok tt <->
  exists t, r_listener_tls router !! k = Some t /\ (is_Some (tls_default t) \/ tls_named t <> ∅) /\
    forall i, tls_default t = Some i \/ (exists name, tls_named t !! name = Some i) -> usable_identity i.
Proof.
  unfold ready_listener. split.
  - intros Hr. apply bind_Ok_inv in Hr as (t & Ht%ok_or_Ok & Hr). apply bind_Ok_inv in Hr as ([] & Hall & Hn%fail_if_Ok).
    exists t. split_and!; [done|by apply tls_identities_nil|]. intros i Hi. apply elem_of_tls_identities in Hi.
    apply for_each_iff in Hall. eapply Forall_forall in Hall; [|done]. apply map_err_Ok in Hall. by apply validate_tls_identity_iff.
  - intros (t & -> & Hn%tls_identities_nil & Hall). cbn [ok_or mbind result_bind].
    match goal with |- context [for_each ?f ?l] => assert (for_each f l = Ok tt) as -> end; [|by rewrite Hn].
    apply for_each_iff, Forall_forall. intros i Hi%elem_of_tls_identities%Hall%validate_tls_identity_iff. by rewrite Hi.
Qed.

(** Readiness means that every listener can serve.  A router is ready
    exactly when the active configuration has a listener, and every TLS listener has at
    least one certificate identity, each of them readable, parsable, with a matching key
    and within its validity period. *)
Lemma router_ready_exact router :
  router_ready router = Ok tt <->
  r_listeners router <> ∅ /\
  forall k, is_Some (r_listeners router !! k) -> ssl k = true ->
    exists t, r_listener_tls router !! k = Some t /\
      (is_Some (tls_default t) \/ tls_named t <> ∅) /\
      forall i, tls_default t = Some i \/ (exists name, tls_named t !! name = Some i) -> usable_identity i.
Proof.
  unfold router_ready. split.
  - intros Hr. apply bind_Ok_inv in Hr as (? & Hne%fail_if_Ok%bool_decide_eq_false & Hr). split; [done|].
    intros k Hk Hssl. apply for_each_iff in Hr. eapply Forall_forall in Hr; [|by apply elem_of_ssl_keys].
    by apply ready_listener_iff.
  - intros [Hne Hall]. rewrite bool_decide_eq_false_2 by done. simpl. apply for_each_iff, Forall_forall.
    intros k [Hk Hs]%elem_of_ssl_keys. apply ready_listener_iff. by apply Hall.
Qed.

(** *** The certificate of a handshake *)

Lemma scored_identities_elem (t : ListenerTlsConfig) name s i :
  (s, i) ∈ scored_identities t name <-> exists pattern, tls_named t !! pattern = Some i /\ hostname_score pattern name = Some s.
Proof.
  unfold scored_identities. rewrite list_elem_of_omap. split.
  - intros ([pattern i'] & Hin & Hs). apply elem_of_iter in Hin. destruct (hostname_score pattern name) eqn:E; simpl in Hs; simplify_eq. eauto.
  - intros (pattern & Hn & Hs). exists (pattern, i). rewrite elem_of_iter, Hs. done.
Qed.

(** The certificate of a handshake is the one configured for the name: the identity
    of the best matching name of the listener, an exact name before any wildcard and a
    longer wildcard before a shorter one, whatever order the names are stored in; with
    no name or no match it is the listener's default. *)
Theorem handshake_certificate k (t : ListenerTlsConfig) server_name identity :
  select_listener_tls k t server_name = Ok identity ->
  match server_name with
  | Some name =>
      let host := normalize_hostname name in
      (exists pattern s, tls_named t !! pattern = Some identity /\ hostname_score pattern host = Some s /\
        forall pattern' s', is_Some (tls_named t !! pattern') -> hostname_score pattern' host = Some s' ->
          score_leb s' s = true /\ (s' = s -> pattern' = pattern)) \/
      ((forall pattern, is_Some (tls_named t !! pattern) -> hostname_score pattern host = None) /\
        default_listener_tls k t = Ok identity)
  | None => default_listener_tls k t = Ok identity
  end /\
  (forall name, server_name = Some name -> forall i, tls_named t !! normalize_hostname name = Some i -> identity = i).
Proof.
  unfold select_listener_tls. destruct server_name as [name|]; simpl; [|done]. set (host := normalize_hostname name).
  destruct (max_by _ _) as [[s i]|] eqn:Em.
  - intros [= <-]. apply max_by_Some in Em as [Hin Hmax]; [|intros; apply score_leb_total|intros ? ? ?; apply score_leb_trans].
    apply scored_identities_elem in Hin as (pattern & Hp & Hs).
    assert (forall pattern' s', is_Some (tls_named t !! pattern') -> hostname_score pattern' host = Some s' ->
      score_leb s' s = true /\ (s' = s -> pattern' = pattern)) as Hbest.
    { intros pattern' s' [i' Hp'] Hs'. split.
      - apply (Hmax (s', i')). apply scored_identities_elem. by exists pattern'.
      - intros ->. by eapply hostname_score_inj. }
    split; [left; by exists pattern, s|].
    intros ? [= <-] i' Hi'. assert (hostname_score host host = Some (true, str_len host)) as Hself by (by apply hostname_score_exact).
    destruct (Hbest host _ ltac:(by eexists) Hself) as [Hle _]. destruct s as [exact n].
    destruct exact; [|by unfold score_leb in Hle; simpl in Hle].
    apply hostname_score_exact in Hs as [-> _]. unfold host in *. congruence.
  - intros Hd. apply max_by_None in Em.
    assert (forall pattern, is_Some (tls_named t !! pattern) -> hostname_score pattern host = None) as Hn.
    { intros pattern [i Hi]. destruct (hostname_score pattern host) as [s|] eqn:Es; [|done].
      assert ((s, i) ∈ scored_identities t host) as Hin by (apply scored_identities_elem; by exists pattern). rewrite Em in Hin. set_solver. }
    split; [by right|]. intros ? [= <-] i Hi. specialize (Hn host ltac:(by eexists)).
    rewrite (proj2 (hostname_score_exact host host _) (conj eq_refl eq_refl)) in Hn. done.
Qed.

(** *** A build with one certificate per listener

    Without the openssl feature there is no resolver: the settings of a listener hold its
    only certificate, and what they cannot express is refused. *)

Definition listener_has_multiple_identities (t : ListenerTlsConfig) : bool :=
  match option_or (tls_default t) (head (iter_values (tls_named t))) with
  | None => false
  | Some reference => existsb (fun candidate => negb (bool_decide (candidate = reference))) (tls_identities t)
  end.

Definition resolve_single_listener_tls (k : ListenKey) (t : ListenerTlsConfig) : result string TlsIdentity :=
  identity ← default_listener_tls k t;
  _ ← fail_if (listener_has_multiple_identities t)
        ("ssl listener " +:+ listen_key_addr k +:+
         " has multiple certificate identities; build with feature `openssl` to enable SNI-based certificate selection");
  Ok identity.

Definition reject_openssl_only_tls_settings (s : ListenerTlsSettings) : result string unit :=
  _ ← fail_if (is_some (ts_protocols s)) "ssl_protocols requires build with feature `openssl`";
  fail_if (negb (bool_decide (ts_verify_client s = VerifyOff)) || is_some (ts_client_certificate s))
    "ssl_verify_client and ssl_client_certificate require build with feature `openssl`".

(** The files and the protocols of the settings. *)
Definition single_listener_settings (k : ListenKey) (t : ListenerTlsConfig) (protocol : ListenerProtocolConfig)
  : result string (string * string * ALPN) :=
  identity ← resolve_single_listener_tls k t;
  cert_path ← pem_source_path (cert identity) "ssl certificate";
  key_path ← pem_source_path (key identity) "ssl certificate key";
  _ ← reject_openssl_only_tls_settings (settings t);
  Ok (cert_path, key_path, listener_alpn protocol).

Lemma single_identity t i : listener_has_multiple_identities t = false -> i ∈ tls_identities t ->
  option_or (tls_default t) (head (iter_values (tls_named t))) = Some i.
Proof.
  unfold listener_has_multiple_identities. intros Hm Hi. destruct (option_or _ _) as [r|] eqn:Er.
  - f_equal. destruct (decide (i = r)) as [|Hne]; [done|].
    enough (existsb (fun candidate => negb (bool_decide (candidate = r))) (tls_identities t) = true) by congruence.
    apply existsb_exists. exists i. split; [by apply list_elem_of_In|]. by rewrite bool_decide_eq_false_2.
  - unfold tls_identities in Hi. destruct (tls_default t); [done|]. destruct (iter_values (tls_named t)); [|done]. simpl in Hi. set_solver.
Qed.

(** A listener that such a build accepts would serve the same certificate for every name
    in a build with SNI, and asks for nothing that this build leaves out. *)
Theorem single_certificate_build k t protocol cert_path key_path alpn :
  single_listener_settings k t protocol = Ok (cert_path, key_path, alpn) ->
  (forall server_name, select_listener_tls k t server_name = Ok (mkTlsIdentity (PemPath cert_path) (PemPath key_path))) /\
  ts_protocols (settings t) = None /\ ts_verify_client (settings t) = VerifyOff /\ ts_client_certificate (settings t) = None.
Proof.
  unfold single_listener_settings, resolve_single_listener_tls, reject_openssl_only_tls_settings. intros Hs.
  apply bind_Ok_inv in Hs as (i & Hi & Hs). apply bind_Ok_inv in Hi as (i' & Hd & Hi). apply bind_Ok_inv in Hi as ([] & Hm & [= ->]).
  apply bind_Ok_inv in Hs as (c & Hc & Hs). apply bind_Ok_inv in Hs as (ky & Hk & Hs). apply bind_Ok_inv in Hs as ([] & Hr & [= -> -> <-]).
  unfold fail_if in *. destruct (listener_has_multiple_identities t) eqn:Em; [done|].
  assert (i = mkTlsIdentity (PemPath cert_path) (PemPath key_path)) as ->.
  { destruct i as [[] []]; cbn in Hc, Hk; naive_solver. }
  split.
  - intros name. unfold select_listener_tls. destruct (name ≫= _) as [i|] eqn:En; [|done]. apply bind_Some in En as (n & _ & En).
    destruct (max_by _ _) as [[s i']|] eqn:Eb; [|done]. injection En as <-.
    apply max_by_Some in Eb as [Hin _]; [|intros; apply score_leb_total|intros ? ? ?; apply score_leb_trans].
    apply scored_identities_elem in Hin as (pattern & Hp & _). simpl.
    assert (i' ∈ tls_identities t) as Ht by (apply elem_of_app; right; apply elem_of_iter_values; eauto).
    apply (single_identity _ _ Em) in Ht. unfold default_listener_tls in Hd. rewrite Ht in Hd. injection Hd as ->. done.
  - destruct (ts_protocols (settings t)); [done|]. cbn in Hr. destruct (bool_decide_reflect (ts_verify_client (settings t) = VerifyOff)); [|done].
    by destruct (ts_client_certificate (settings t)).
Qed.

(** *** Binding *)

(** The TLS settings that the policy [t] of a listener asks for. *)
Record policy_kept (k : ListenKey) (protocol : ListenerProtocolConfig) (t : ListenerTlsSettings) (s : TlsSettings) : Prop := {
  pk_resolver : se_resolver s = k;
  pk_alpn : se_alpn s = Some (listener_alpn protocol);
  pk_bounds : se_min_proto s = tls_min <$> ts_protocols t /\ se_max_proto s = tls_max <$> ts_protocols t;
  pk_verify : match ts_verify_client t with
    | VerifyOff => se_verify s = VERIFY_NONE /\ se_ca_file s = None
    | VerifyOptional => se_verify s = VERIFY_PEER /\ exists path, ts_client_certificate t = Some (PemPath path) /\ se_ca_file s = Some path
    | VerifyRequired => se_verify s = N.lor VERIFY_PEER FAIL_IF_NO_PEER_CERT /\
        exists path, ts_client_certificate t = Some (PemPath path) /\ se_ca_file s = Some path
    end
}.

Lemma listener_tls_settings_Ok k t protocol s : listener_tls_settings k t protocol = Ok s -> policy_kept k protocol (settings t) s.
Proof.
  unfold listener_tls_settings, apply_listener_tls_settings. intros Hs. apply bind_Ok_inv in Hs as (s1 & H1 & Hs).
  assert (se_resolver s1 = k /\ se_alpn s1 = Some (listener_alpn protocol) /\ se_min_proto s1 = tls_min <$> ts_protocols (settings t) /\
    se_max_proto s1 = tls_max <$> ts_protocols (settings t) /\ se_ca_file s1 = None) as (Hr & Ha & Hmin & Hmax & Hca).
  { destruct (ts_protocols (settings t)) as [b|]; [|by injection H1 as <-]. unfold apply_protocol_bounds in H1. inv_ok. done. }
  unfold apply_client_verification in Hs. destruct (ts_verify_client (settings t)) eqn:Ev; [injection Hs as <-; by constructor; rewrite ?Ev|..];
    (apply bind_Ok_inv in Hs as (ca & Hca'%ok_or_Ok & Hs); apply bind_Ok_inv in Hs as (path & Hp & Hs); apply bind_Ok_inv in Hs as (? & _ & Hs);
     injection Hs as <-; destruct ca as [path'|]; [injection Hp as ->|done]; constructor; rewrite ?Ev; simpl; eauto).
Qed.

(** How the listener [k] is bound. *)
Definition bound (router : CompiledRouter) (k : ListenKey) (e : string * option TlsSettings) : Prop :=
  fst e = listen_key_addr k /\
  match snd e with
  | None => ssl k = false
  | Some s => ssl k = true /\ exists t protocol, r_listener_tls router !! k = Some t /\ r_listener_protocols router !! k = Some protocol /\
      policy_kept k protocol (settings t) s
  end.

Lemma bind_listener_Ok router svc k svc' :
  bind_listener router svc k = Ok svc' ->
  sv_server_options svc' = sv_server_options svc /\ exists e, sv_endpoints svc' = sv_endpoints svc ++ [e] /\ bound router k e.
Proof.
  unfold bind_listener. destruct (ssl k) eqn:Es; intros Hb.
  - apply bind_Ok_inv in Hb as (t & Ht%ok_or_Ok & Hb). apply bind_Ok_inv in Hb as (protocol & Hp%ok_or_Ok & Hb).
    apply bind_Ok_inv in Hb as (s & Hs%listener_tls_settings_Ok & Hb). injection Hb as <-. split; [done|].
    exists (listen_key_addr k, Some s). split; [done|]. split; [done|]. simpl. split; [done|]. by exists t, protocol.
  - injection Hb as <-. split; [done|]. by exists (listen_key_addr k, None).
Qed.

Lemma bind_all_Ok router keys svc svc' :
  try_fold (bind_listener router) svc keys = Ok svc' ->
  sv_server_options svc' = sv_server_options svc /\
  exists es, sv_endpoints svc' = sv_endpoints svc ++ es /\ Forall2 (bound router) keys es.
Proof.
  revert svc. induction keys as [|k keys IH]; intros svc; cbn [try_fold].
  - intros [= <-]. split; [done|]. exists []. by rewrite app_nil_r.
  - intros Hb. apply bind_Ok_inv in Hb as (svc1 & H1 & Hb). apply bind_listener_Ok in H1 as (Ho & e & He & Hbd).
    apply IH in Hb as (Ho' & es & Hes & Hall). split; [congruence|]. exists (e :: es). split; [|by constructor].
    by rewrite Hes, He, <- app_assoc.
Qed.

(** A policy that this build can apply. *)
Definition policy_supported (t : ListenerTlsSettings) : Prop :=
  (forall b, ts_protocols t = Some b -> set_proto_version (tls_min b) = Ok tt /\ set_proto_version (tls_max b) = Ok tt) /\
  (ts_verify_client t <> VerifyOff -> exists path, ts_client_certificate t = Some (PemPath path) /\ set_ca_file path = Ok tt).

Lemma listener_tls_settings_supported k t protocol : policy_supported (settings t) -> is_ok (listener_tls_settings k t protocol) = true.
Proof.
  intros [Hp Hv]. unfold listener_tls_settings, apply_listener_tls_settings, apply_client_verification, apply_protocol_bounds.
  destruct (ts_protocols (settings t)) as [b|]; simpl; [destruct (Hp b eq_refl) as [-> ->]; simpl|];
    (destruct (ts_verify_client (settings t)); simpl; [done|..]; destruct Hv as (path & -> & Hca); try done; simpl; by rewrite Hca).
Qed.

Lemma bind_all_supported router keys svc :
  Forall (fun k => ssl k = true -> exists t protocol, r_listener_tls router !! k = Some t /\
    r_listener_protocols router !! k = Some protocol /\ policy_supported (settings t)) keys ->
  is_ok (try_fold (bind_listener router) svc keys) = true.
Proof.
  intros Hk. revert svc. induction Hk as [|k keys Hk Hks IH]; intros svc; cbn [try_fold]; [done|].
  assert (is_ok (bind_listener router svc k) = true) as Hb.
  { unfold bind_listener. destruct (ssl k); [|done]. destruct (Hk eq_refl) as (t & protocol & Ht & Hp & Hs).
    unfold listener_tls, listener_protocol. rewrite Ht, Hp. simpl. pose proof (listener_tls_settings_supported k t protocol Hs) as Hok.
    by destruct (listener_tls_settings k t protocol). }
  destruct (bind_listener router svc k) as [svc1|]; [|done]. apply IH.
Qed.

(** C20: every listener of the configuration is bound once, with its own policy.  When
    binding succeeds the endpoints are the listeners of the router in address order, a
    TLS endpoint exactly for a TLS listener, with the ALPN of its protocol, the
    configured protocol versions, and client verification as strict as configured: a
    required client certificate always comes with the authority that checks it.  For the
    router of a compiled configuration whose policies the TLS library accepts, binding a
    fresh service does succeed. *)
Theorem listeners_bound_with_policy router svc :
  (forall svc', bind_listeners svc router = Ok svc' ->
    exists es, sv_endpoints svc' = sv_endpoints svc ++ es /\ Forall2 (bound router) (sorted_listener_keys router) es /\
      NoDup (sorted_listener_keys router) /\
      (forall k, k ∈ sorted_listener_keys router <-> is_Some (r_listeners router !! k)) /\
      sv_server_options svc' = Some (mkHttpServerOptions (ro_h2c (r_http_options router))
        (ro_allow_connect_method_proxying (r_http_options router)) (ro_keepalive_requests (r_http_options router)))) /\
  (router_wf router -> sv_has_app svc = true -> sv_exclusive svc = true ->
    (forall k t, r_listener_tls router !! k = Some t -> policy_supported (settings t)) ->
    exists svc', bind_listeners svc router = Ok svc').
Proof.
  assert (sorted_listener_keys router ≡ₚ iter_keys (r_listeners router)) as Hperm by apply stable_sort_perm.
  unfold bind_listeners, configure_proxy_service. split.
  - intros svc' Hb. apply bind_Ok_inv in Hb as (svc1 & H1 & Hb). inv_ok. apply bind_all_Ok in Hb as (Ho & es & He & Hall).
    exists es. split_and!; [done|done| | |done].
    + rewrite Hperm. unfold iter_keys. rewrite iter_perm. apply NoDup_fst_map_to_list.
    + intros k. rewrite Hperm. apply elem_of_iter_keys.
  - intros Hwf -> -> Hsup. cbn [negb fail_if mbind result_bind].
    match goal with |- exists _, try_fold ?f ?s ?l = _ => assert (is_ok (try_fold f s l) = true) as Hok end.
    + apply bind_all_supported, Forall_forall. intros k Hk Hssl. rewrite Hperm in Hk. apply elem_of_iter_keys in Hk.
      destruct (rw_tls _ Hwf k Hk Hssl) as [t Ht], (rw_protocols _ Hwf k Hk) as [protocol Hp]. exists t, protocol. eauto.
    + destruct (try_fold _ _ _) as [svc'|]; [by exists svc'|done].
Qed.
End server.
