(* ===== verification/Assembly.v ===== *)
(** * The parts together
    (crates/ngxora-runtime/src/upstreams/runtime/tls.rs and the components it completes)

    [Control] builds a snapshot over the interface [RuntimeDeps].  Here the interface is
    implemented by the other components: the plugin registry, the certificates of
    upstream connections, the validation of listener certificates, the balancers and the
    registry client.  A running group that [Control] builds over it is the group of
    [UpstreamGroup], error messages included. *)

From S2P Require Import Prelude RustStr NetAddr BTree Crates Headers PluginApi Ir Types HttpRoutes Routing Scp CompileUpstreams CompileRoutes CompileRouter.
From S2P Require Import Control RateLimit HeadersPlugin CorsPlugin AuthPlugins Registry Topology Discovery Health Nrf Groups UpstreamGroup Server.

Open Scope N_scope.

Section assembly.
Context `{AuthClient} `{HttpErrors} `{Base64} `{Jwt} `{OpenSsl} `{!NrfDeps} `{!HealthDeps} `{Balancers}.
Context `{!FromValue HeadersPluginConfig} `{!FromValue BasicAuthPluginConfig} `{!FromValue RateLimitPluginConfig}
  `{!FromValue CorsPluginConfig} `{!FromValue ExtAuthzPluginConfig} `{!FromValue JwtAuthPluginConfig}.
Context (built_at : N).

(** ** Certificates of upstream connections *)

Definition read_pem_source (source : PemSource) (label : string) : result string string :=
  match source with
  | PemPath path => map_err (fun err => "failed to read " +:+ label +:+ " `" +:+ path +:+ "`: " +:+ err) (tls_file_read path)
  | InlinePem pem => Ok pem
  end.

Definition load_runtime_trusted_ca (source : PemSource) : result string (list X509) :=
  pem ← read_pem_source source "proxy_ssl_trusted_certificate";
  certs ← map_err (fun err => "failed to parse proxy_ssl_trusted_certificate: " +:+ err) (stack_from_pem pem);
  _ ← fail_if (is_nil certs) "proxy_ssl_trusted_certificate does not contain any certificates";
  Ok certs.

Definition load_runtime_client_identity (cert_source key_source : PemSource) : result string (list X509 * PKey) :=
  cert_pem ← read_pem_source cert_source "proxy_ssl_certificate";
  certs ← map_err (fun err => "failed to parse proxy_ssl_certificate: " +:+ err) (stack_from_pem cert_pem);
  _ ← fail_if (is_nil certs) "proxy_ssl_certificate does not contain any certificates";
  key_pem ← read_pem_source key_source "proxy_ssl_certificate_key";
  key ← map_err (fun err => "failed to parse proxy_ssl_certificate_key: " +:+ err) (private_key_from_pem key_pem);
  Ok (certs, key).

(** ** The dependencies of a snapshot *)

(** A selector of [runtime/groups.rs], with the backends it was built over. *)
Definition selector_build (policy : UpstreamSelectionPolicy) (servers : list CompiledUpstreamServer) (health_check : option CompiledHealthCheck)
  : result string RuntimeUpstreamSelector :=
  let backends := synthetic_backends servers in
  lb ← Groups.build_runtime_selector policy backends (health_build <$> health_check);
  Ok (mkRuntimeUpstreamSelector policy lb backends).

(** The client of a discovering group; its checker is only tried. *)
Definition nrf_runtime_build (config : CompiledNrfDiscovery) (health_check : CompiledHealthCheck) : result string NrfClient :=
  client ← NrfClient_new config; _ ← health_build health_check; Ok client.

#[local] Instance assembled : RuntimeDeps := {|
  Plugin := HttpPlugin;
  factories := with_builtin_plugins built_at;
  TrustedCa := list X509;
  Control.load_runtime_trusted_ca := load_runtime_trusted_ca;
  ClientIdentity := list X509 * PKey;
  Control.load_runtime_client_identity := load_runtime_client_identity;
  Control.validate_tls_identity := Server.validate_tls_identity;
  Selector := RuntimeUpstreamSelector;
  Control.build_runtime_selector := selector_build;
  NrfRuntime := NrfClient;
  build_nrf_runtime := nrf_runtime_build
|}.

(** A source without certificates is refused: the trust anchors in use are never empty. *)
Lemma trusted_ca_nonempty source certs : load_runtime_trusted_ca source = Ok certs -> certs <> [].
Proof. unfold load_runtime_trusted_ca. intros Hl. inv_ok. by destruct certs. Qed.

(** ** Groups *)

(** What [Control] keeps of a group is what the group has. *)
Definition same_group (c : Control.RuntimeUpstreamGroup) (g : UpstreamGroup.RuntimeUpstreamGroup) : Prop :=
  rg_selector c = ug_selector g /\ rg_policy c = rs_policy (ug_selector g) /\ rg_hash_key c = ug_hash_key g /\
  is_some (rg_health_check c) = is_some (ug_health_check g) /\
  (nc_config <$> rg_nrf_discovery c) = ((fun d => nc_config (nd_client d)) <$> ug_nrf_discovery g).

(** Building a group succeeds in the control plane exactly when the group itself can be
    built, with the same parts, and fails with the same message. *)
Theorem control_builds_groups generation now group :
  match Control.from_compiled generation group, UpstreamGroup.from_compiled now group with
  | Ok c, Ok g => same_group c g
  | Err e, Err e' => e = e'
  | _, _ => False
  end.
Proof.
  unfold Control.from_compiled, UpstreamGroup.from_compiled, from_compiled_query. destruct (fail_if _ _); [|done].
  cbn [mbind result_bind]. unfold Control.build_runtime_selector, assembled, selector_build.
  destruct (Groups.build_runtime_selector _ _ _) as [lb|]; [|done]. cbn [mbind result_bind].
  destruct (g_nrf_discovery group) as [config|]; [|by destruct (g_health_check group)].
  destruct (g_health_check group) as [check|]; [|done]. unfold build_nrf_runtime, nrf_runtime_build.
  destruct (NrfClient_new config) as [client|]; [|done]. cbn [mbind result_bind fmap result_fmap].
  by destruct (health_build check).
Qed.
End assembly.
