(* ===== verification/TlsResolver.v ===== *)
(** * Certificates of TLS handshakes (crates/ngxora-runtime/src/server/openssl_listener_tls.rs)

    A resolver picks the identity of a handshake from the snapshot in force and keeps
    the parsed certificates until the configuration or the certificate files change.
    Handshakes run concurrently with the renewal of certificates: reading the snapshot,
    reading the generation of the files, and the two file reads of the locked section
    are separate steps, between which files may be written and renewals activated. *)

From S2P Require Import Prelude RustStr NetAddr Crates BTree Ir Types HttpRoutes Routing CompileRouter Server Control.

Open Scope N_scope.

(** What a handshake tells the request phase ([server.rs]). *)
Record DownstreamTlsInfo := mkDownstreamTlsInfo { dti_sni : option string }.

(** ** Loading an identity: two file reads, at two moments *)

Section load.
Context `{OpenSsl}.

Record LoadedTlsIdentity := mkLoadedTlsIdentity { li_cert : X509; li_chain : list X509; li_key : PKey }.

Definition read_source (read : string -> result string string) (k : ListenKey) (source : PemSource) (label : string) : result string string :=
  match source with
  | PemPath path =>
      map_err (fun err => "failed to read " +:+ label +:+ " for listener " +:+ listen_key_addr k +:+ " from " +:+ path +:+ ": " +:+ err) (read path)
  | InlinePem pem => Ok pem
  end.

Definition origin (source : PemSource) : string := match source with PemPath path => path | InlinePem _ => "inline PEM" end.

Definition load (read read' : string -> result string string) (k : ListenKey) (cert_source key_source : PemSource) : result string LoadedTlsIdentity :=
  cert_bytes ← read_source read k cert_source "ssl certificate";
  certs ← map_err (fun err => "failed to parse ssl certificate for listener " +:+ listen_key_addr k +:+ " from " +:+ origin cert_source +:+ ": " +:+ err)
            (stack_from_pem cert_bytes);
  leaf ← ok_or (head certs) ("ssl certificate for listener " +:+ listen_key_addr k +:+ " does not contain any certificates");
  key_bytes ← read_source read' k key_source "ssl private key";
  private_key ← map_err (fun err => "failed to parse ssl private key for listener " +:+ listen_key_addr k +:+ " from " +:+ origin key_source +:+ ": " +:+ err)
                  (private_key_from_pem key_bytes);
  Ok (mkLoadedTlsIdentity leaf (tail certs) private_key).

(** ** The cache of a resolver *)

(** [LoadedIdentityKey]: the two sources. *)
Definition LoadedIdentityKey : Type := PemSource * PemSource.

Record LoadedTlsIdentityCache := mkIdentityCache {
  ic_snapshot_generation : N;
  ic_tls_material_generation : N;
  ic_identities : gmap LoadedIdentityKey LoadedTlsIdentity
}.
Definition IdentityCache_default : LoadedTlsIdentityCache := mkIdentityCache 0 0 ∅.

Definition load_cached (read read' : string -> result string string) (k : ListenKey) (snapshot_generation material_generation : N)
    (identity : TlsIdentity) (cache : LoadedTlsIdentityCache) : LoadedTlsIdentityCache * result string LoadedTlsIdentity :=
  let source := (cert identity, key identity) in
  let cache := if negb (ic_snapshot_generation cache =? snapshot_generation) || negb (ic_tls_material_generation cache =? material_generation)
               then mkIdentityCache snapshot_generation material_generation ∅ else cache in
  match ic_identities cache !! source with
  | Some loaded => (cache, Ok loaded)
  | None =>
      match load read read' k (cert identity) (key identity) with
      | Err err => (cache, Err err)
      | Ok loaded =>
          (mkIdentityCache (ic_snapshot_generation cache) (ic_tls_material_generation cache) (<[source := loaded]> (ic_identities cache)), Ok loaded)
      end
  end.

(** ** Installing it in the handshake *)

Record SslRef := mkSslRef { ssl_servername : option string; ssl_certificate : option X509; ssl_private_key : option PKey; ssl_chain : list X509 }.

Class SslInstall := {
  ssl_use_certificate : SslRef -> X509 -> result string unit;
  ssl_use_private_key : SslRef -> PKey -> result string unit;
  ssl_add_chain_cert : SslRef -> X509 -> result string unit
}.
Context `{SslInstall}.

Fixpoint install_chain (k : ListenKey) (ssl : SslRef) (chain : list X509) : SslRef * result string unit :=
  match chain with
  | [] => (ssl, Ok tt)
  | c :: chain' =>
      match ssl_add_chain_cert ssl c with
      | Err err => (ssl, Err ("failed to install ssl certificate chain for listener " +:+ listen_key_addr k +:+ ": " +:+ err))
      | Ok _ => install_chain k (mkSslRef (ssl_servername ssl) (ssl_certificate ssl) (ssl_private_key ssl) (ssl_chain ssl ++ [c])) chain'
      end
  end.

Definition install_identity (k : ListenKey) (ssl : SslRef) (identity : LoadedTlsIdentity) : SslRef * result string unit :=
  match ssl_use_certificate ssl (li_cert identity) with
  | Err err => (ssl, Err ("failed to install ssl certificate for listener " +:+ listen_key_addr k +:+ ": " +:+ err))
  | Ok _ =>
      let ssl := mkSslRef (ssl_servername ssl) (Some (li_cert identity)) (ssl_private_key ssl) (ssl_chain ssl) in
      match ssl_use_private_key ssl (li_key identity) with
      | Err err => (ssl, Err ("failed to install ssl private key for listener " +:+ listen_key_addr k +:+ ": " +:+ err))
      | Ok _ => install_chain k (mkSslRef (ssl_servername ssl) (ssl_certificate ssl) (Some (li_key identity)) (ssl_chain ssl)) (li_chain identity)
      end
  end.

(** ** A handshake: what it has read, and its locked section *)

Context `{RuntimeDeps} `{HashIter}.

(** [select] up to the lock: the snapshot and then the generation of the files. *)
Record Handshake := mkHandshake { hd_snapshot : RuntimeSnapshot; hd_material_generation : N; hd_server_name : option string }.

Definition resolver_select (read read' : string -> result string string) (k : ListenKey) (h : Handshake) (cache : LoadedTlsIdentityCache)
  : LoadedTlsIdentityCache * result string LoadedTlsIdentity :=
  match (t ← ok_or (r_listener_tls (sn_router (hd_snapshot h)) !! k)
               ("ssl listener " +:+ listen_key_addr k +:+ " is missing certificate configuration");
         select_listener_tls k t (hd_server_name h)) with
  | Err err => (cache, Err err)
  | Ok identity => load_cached read read' k (sn_generation (hd_snapshot h)) (hd_material_generation h) identity cache
  end.

(** [certificate_callback]: an error is only logged, and leaves the handshake without
    a (complete) certificate. *)
Definition certificate_callback (read read' : string -> result string string) (k : ListenKey) (h : Handshake) (cache : LoadedTlsIdentityCache)
    (ssl : SslRef) : LoadedTlsIdentityCache * SslRef :=
  let '(cache, selected) := resolver_select read read' k h cache in
  match selected with
  | Err _ => (cache, ssl)
  | Ok identity => (cache, fst (install_identity k ssl identity))
  end.

Definition handshake_complete_callback (ssl : SslRef) : DownstreamTlsInfo :=
  mkDownstreamTlsInfo (to_ascii_lowercase <$> ssl_servername ssl).

(** ** Handshakes and renewals, interleaved *)

(** The files over time: [files v] is their contents at version [v]; writing a file
    moves to the next version, activating renewed material records the version at
    which the new generation starts. *)
Context (files : N -> string -> result string string) (k : ListenKey).

Record TlsWorld := mkTlsWorld {
  tw_version : N;
  tw_state : RuntimeState;
  (** the version at which each generation of the files was activated *)
  tw_activated : gmap N N;
  (** the snapshots that have been in force *)
  tw_past : list RuntimeSnapshot;
  (** handshakes that have taken the snapshot and the server name *)
  tw_opened : list (RuntimeSnapshot * option string);
  (** handshakes that have read the generation as well *)
  tw_handshakes : list Handshake;
  tw_cache : LoadedTlsIdentityCache;
  (** the holder of the cache's lock, and the version its certificate is read at *)
  tw_locked : option (Handshake * N);
  (** the handshakes whose callback is over, with what it installed *)
  tw_done : list (Handshake * SslRef)
}.

(** The connection a handshake starts with. *)
Definition ssl_new (h : Handshake) : SslRef := mkSslRef (hd_server_name h) None None [].

Inductive tls_step : TlsWorld -> TlsWorld -> Prop :=
| tls_write w :
    tls_step w (mkTlsWorld (tw_version w + 1) (tw_state w) (tw_activated w) (tw_past w) (tw_opened w) (tw_handshakes w) (tw_cache w) (tw_locked w) (tw_done w))
| tls_invalidate w :
    st_tls_material_generation (tw_state w) < u64_max ->
    let state := invalidate_tls_material (tw_state w) in
    tls_step w (mkTlsWorld (tw_version w) state (<[st_tls_material_generation state := tw_version w]> (tw_activated w)) (tw_past w)
      (tw_opened w) (tw_handshakes w) (tw_cache w) (tw_locked w) (tw_done w))
| tls_apply w next :
    let state := fst (apply_snapshot (tw_state w) next) in
    tls_step w (mkTlsWorld (tw_version w) state (tw_activated w) (st_current state :: tw_past w)
      (tw_opened w) (tw_handshakes w) (tw_cache w) (tw_locked w) (tw_done w))
| tls_open w server_name :
    tls_step w (mkTlsWorld (tw_version w) (tw_state w) (tw_activated w) (tw_past w)
      ((st_current (tw_state w), server_name) :: tw_opened w) (tw_handshakes w) (tw_cache w) (tw_locked w) (tw_done w))
| tls_begin w snapshot server_name :
    (snapshot, server_name) ∈ tw_opened w ->
    tls_step w (mkTlsWorld (tw_version w) (tw_state w) (tw_activated w) (tw_past w) (tw_opened w)
      (mkHandshake snapshot (st_tls_material_generation (tw_state w)) server_name :: tw_handshakes w) (tw_cache w) (tw_locked w) (tw_done w))
| tls_lock w h :
    h ∈ tw_handshakes w -> tw_locked w = None ->
    tls_step w (mkTlsWorld (tw_version w) (tw_state w) (tw_activated w) (tw_past w) (tw_opened w) (tw_handshakes w) (tw_cache w)
      (Some (h, tw_version w)) (tw_done w))
| tls_finish w h v cache ssl :
    tw_locked w = Some (h, v) -> certificate_callback (files v) (files (tw_version w)) k h (tw_cache w) (ssl_new h) = (cache, ssl) ->
    tls_step w (mkTlsWorld (tw_version w) (tw_state w) (tw_activated w) (tw_past w) (tw_opened w) (tw_handshakes w) cache None
      ((h, ssl) :: tw_done w)).

Definition tls_start (version : N) (state : RuntimeState) : TlsWorld :=
  mkTlsWorld version state {[st_tls_material_generation state := version]} [st_current state] [] [] IdentityCache_default None [].

(** Loaded from the files as they were at or after the start of generation [g]: the
    certificate at one version, the key at that or a later one. *)
Definition loaded_since (w : TlsWorld) (g : N) (source : LoadedIdentityKey) (l : LoadedTlsIdentity) : Prop :=
  exists since v v', tw_activated w !! g = Some since /\ since <= v /\ v <= v' <= tw_version w /\
    load (files v) (files v') k (fst source) (snd source) = Ok l.

(** What [install_identity] leaves of an identity: the certificate, then the key, then
    the chain, up to the first of them that OpenSSL refuses. *)
Definition installed (l : LoadedTlsIdentity) (ssl : SslRef) : Prop :=
  match ssl_certificate ssl with
  | None => ssl_private_key ssl = None /\ ssl_chain ssl = []
  | Some c => c = li_cert l /\
      match ssl_private_key ssl with
      | None => ssl_chain ssl = []
      | Some key => key = li_key l /\ ssl_chain ssl `prefix_of` li_chain l
      end
  end.

(** A handshake whose callback is over: it has no certificate, or those of the identity
    that its snapshot selects. *)
Definition presented (w : TlsWorld) (h : Handshake) (ssl : SslRef) : Prop :=
  ssl = ssl_new h \/
  exists t identity l, r_listener_tls (sn_router (hd_snapshot h)) !! k = Some t /\
    select_listener_tls k t (hd_server_name h) = Ok identity /\
    loaded_since w (hd_material_generation h) (cert identity, key identity) l /\
    ssl = fst (install_identity k (ssl_new h) l).

Record tls_inv (w : TlsWorld) : Prop := {
  ti_activated : forall g v, tw_activated w !! g = Some v -> g <= st_tls_material_generation (tw_state w) /\ v <= tw_version w;
  ti_current : is_Some (tw_activated w !! st_tls_material_generation (tw_state w));
  ti_past : st_current (tw_state w) ∈ tw_past w;
  ti_opened : Forall (fun e => fst e ∈ tw_past w) (tw_opened w);
  ti_handshakes : Forall (fun h => is_Some (tw_activated w !! hd_material_generation h) /\ hd_snapshot h ∈ tw_past w) (tw_handshakes w);
  ti_cached : forall source l, ic_identities (tw_cache w) !! source = Some l ->
    loaded_since w (ic_tls_material_generation (tw_cache w)) source l;
  ti_locked : forall h v, tw_locked w = Some (h, v) -> h ∈ tw_handshakes w /\ v <= tw_version w /\
    forall since, tw_activated w !! hd_material_generation h = Some since -> since <= v;
  ti_done : Forall (fun e => fst e ∈ tw_handshakes w /\ presented w (fst e) (snd e)) (tw_done w)
}.

Lemma loaded_since_mono w w' g source l :
  tw_version w <= tw_version w' -> (forall g v, tw_activated w !! g = Some v -> tw_activated w' !! g = Some v) ->
  loaded_since w g source l -> loaded_since w' g source l.
Proof. intros Hv Ha (since & v & v' & Hs & Hle & Hle' & Hl). exists since, v, v'. split_and!; [by apply Ha|lia..|done]. Qed.
Lemma presented_mono w w' h ssl :
  tw_version w <= tw_version w' -> (forall g v, tw_activated w !! g = Some v -> tw_activated w' !! g = Some v) ->
  presented w h ssl -> presented w' h ssl.
Proof.
  intros Hv Ha [->|(t & identity & l & Ht & Hi & Hl & ->)]; [by left|]. right. exists t, identity, l. split_and!; [done..| |done].
  by eapply loaded_since_mono.
Qed.

(** A step that leaves the files, the activations and the handshakes, or adds to them. *)
Lemma tls_done_mono w w' :
  tw_version w <= tw_version w' -> (forall g v, tw_activated w !! g = Some v -> tw_activated w' !! g = Some v) ->
  tw_handshakes w ⊆ tw_handshakes w' -> tls_inv w -> Forall (fun e => fst e ∈ tw_handshakes w' /\ presented w' (fst e) (snd e)) (tw_done w).
Proof.
  intros Hv Ha Hh Hinv. eapply Forall_impl; [apply (ti_done _ Hinv)|]. intros e [He Hp]. split; [by apply Hh|]. by eapply presented_mono.
Qed.
Lemma tls_cached_mono w w' :
  tw_version w <= tw_version w' -> (forall g v, tw_activated w !! g = Some v -> tw_activated w' !! g = Some v) -> tls_inv w ->
  forall source l, ic_identities (tw_cache w) !! source = Some l -> loaded_since w' (ic_tls_material_generation (tw_cache w)) source l.
Proof. intros Hv Ha Hinv source l Hl. eapply loaded_since_mono; [done|done|]. by apply Hinv. Qed.

(** The locked section, its certificate read at version [v]: what it answers and leaves. *)
Lemma resolver_select_spec w h v since :
  tls_inv w -> tw_activated w !! hd_material_generation h = Some since -> since <= v -> v <= tw_version w ->
  let '(cache, r) := resolver_select (files v) (files (tw_version w)) k h (tw_cache w) in
  (forall source l, ic_identities cache !! source = Some l -> loaded_since w (ic_tls_material_generation cache) source l) /\
  (forall l, r = Ok l -> exists t identity, r_listener_tls (sn_router (hd_snapshot h)) !! k = Some t /\
    select_listener_tls k t (hd_server_name h) = Ok identity /\
    loaded_since w (hd_material_generation h) (cert identity, key identity) l).
Proof.
  intros Hinv Hsince Hv Hv'. unfold resolver_select. destruct (_ ≫= _) as [identity|] eqn:Ei; [|by split; [apply Hinv|]].
  apply bind_Ok_inv in Ei as (t & Ht%ok_or_Ok & Hi). unfold load_cached. cbn zeta.
  set (cache := if negb _ || negb _ then _ else tw_cache w).
  assert (ic_tls_material_generation cache = hd_material_generation h /\
    forall source l, ic_identities cache !! source = Some l -> loaded_since w (hd_material_generation h) source l) as [Hgen Hcached].
  { unfold cache. destruct (negb _ || negb _) eqn:Eg; [by split|]. apply orb_false_iff in Eg as [_ Eg%negb_false_iff%N.eqb_eq].
    split; [done|]. intros source l Hl. rewrite <- Eg. by apply Hinv. }
  destruct (ic_identities cache !! (cert identity, key identity)) as [l|] eqn:El.
  - rewrite Hgen. split; [done|]. intros l' [= <-]. exists t, identity. auto.
  - destruct (load _ _ k _ _) as [l|] eqn:Eload; [|rewrite Hgen; by split].
    assert (loaded_since w (hd_material_generation h) (cert identity, key identity) l) as Hl.
    { exists since, v, (tw_version w). split_and!; [done..|lia|done]. }
    cbn [ic_tls_material_generation ic_identities]. rewrite Hgen. split.
    + intros source l' [[<- <-]|[_ Hs]]%lookup_insert_Some; [done|by apply Hcached].
    + intros l' [= <-]. exists t, identity. done.
Qed.

Lemma tls_finish_inv w h v :
  tls_inv w -> tw_locked w = Some (h, v) ->
  let '(cache, ssl) := certificate_callback (files v) (files (tw_version w)) k h (tw_cache w) (ssl_new h) in
  tls_inv (mkTlsWorld (tw_version w) (tw_state w) (tw_activated w) (tw_past w) (tw_opened w) (tw_handshakes w) cache None ((h, ssl) :: tw_done w)).
Proof.
  intros Hinv Hlock. destruct (ti_locked _ Hinv h v Hlock) as (Hin & Hv & Hs). pose proof (ti_handshakes _ Hinv) as Hh.
  eapply Forall_forall in Hh; [|exact Hin]. destruct Hh as [[since Hsince] _].
  pose proof (resolver_select_spec w h v since Hinv Hsince (Hs _ Hsince) Hv) as Hr. unfold certificate_callback.
  destruct (resolver_select _ _ k h (tw_cache w)) as [cache r]. destruct Hr as [Hc Hl].
  set (ssl := match r with Err _ => ssl_new h | Ok identity => fst (install_identity k (ssl_new h) identity) end).
  assert (presented w h ssl) as Hp.
  { unfold ssl. destruct r as [l|]; [|by left]. right. destruct (Hl l eq_refl) as (t & identity & ? & ? & ?). by exists t, identity, l. }
  replace (match r with Ok identity => (cache, _) | Err _ => (cache, ssl_new h) end) with (cache, ssl) by (by unfold ssl; destruct r).
  destruct Hinv as [Ha Hcur Hpast Hop Hh Hk Hlk Hd]. constructor; cbn; try done. by constructor.
Qed.

Lemma tls_step_inv w w' : tls_step w w' -> tls_inv w -> tls_inv w'.
Proof.
  intros Hs Hinv. pose proof Hinv as [Ha Hc Hpast Hop Hh Hk Hlk Hd].
  destruct Hs as [w|w Hlt state|w next state|w server_name|w snapshot server_name Hin|w h Hin Hfree|w h v cache ssl Hlock Hcb];
    match goal with |- tls_inv ?w1 => pose proof (tls_cached_mono w w1) as Hkm; pose proof (tls_done_mono w w1) as Hdm end;
    cbn [tw_version tw_state tw_activated tw_past tw_opened tw_handshakes tw_cache tw_locked tw_done] in Hkm, Hdm.
  - constructor; cbn; [|done|done|done|done|apply Hkm; [lia|done|done]| |apply Hdm; [lia|done|done|done]].
    + intros g v Hg. destruct (Ha g v Hg). split; [done|lia].
    + intros h v Hl. destruct (Hlk h v Hl) as (? & ? & ?). split_and!; [done|lia|done].
  - assert (st_tls_material_generation state = st_tls_material_generation (tw_state w) + 1) as Hg.
    { unfold state, invalidate_tls_material. simpl. apply wrapping_add64_exact. lia. }
    assert (forall g v, tw_activated w !! g = Some v -> <[st_tls_material_generation state := tw_version w]> (tw_activated w) !! g = Some v) as Hkeep.
    { intros g v Hv. rewrite lookup_insert_ne; [done|]. apply Ha in Hv. lia. }
    constructor; cbn [tw_version tw_state tw_activated tw_past tw_opened tw_handshakes tw_cache tw_locked tw_done];
      [| |done|done| |apply Hkm; [lia|done|done]| |apply Hdm; [lia|done|done|done]].
    + intros g v [[<- <-]|[_ Hv]]%lookup_insert_Some; [split; lia|]. destruct (Ha g v Hv). split; lia.
    + rewrite lookup_insert_eq. by eexists.
    + eapply Forall_impl; [exact Hh|]. intros h [[v Hv] Hsn]. split; [|done]. exists v. by apply Hkeep.
    + intros h v Hl. destruct (Hlk h v Hl) as (Hin & Hv & Hsince). split_and!; [done..|]. intros since Hg'.
      eapply Forall_forall in Hh; [|exact Hin]. destruct Hh as [[u Hu] _]. rewrite (Hkeep _ _ Hu) in Hg'. injection Hg' as <-. by apply Hsince.
  - assert (st_tls_material_generation state = st_tls_material_generation (tw_state w)) as Hg.
    { unfold state, apply_snapshot. repeat case_match; done. }
    constructor; cbn; rewrite ?Hg; [done|done|set_solver| | |apply Hkm; [lia|done|done]|done|apply Hdm; [lia|done|done|done]].
    + eapply Forall_impl; [exact Hop|]. intros e He. by apply elem_of_cons; right.
    + eapply Forall_impl; [exact Hh|]. intros h [? ?]. split; [done|]. by apply elem_of_cons; right.
  - constructor; cbn; try done. by constructor.
  - constructor; cbn; [done..| |done| |apply Hdm; [lia|done|set_solver|done]].
    + constructor; [|done]. split; [done|]. rewrite Forall_forall in Hop. apply (Hop _ Hin).
    + intros h v Hl. destruct (Hlk h v Hl) as (? & ? & ?). split_and!; [by apply elem_of_cons; right|done|done].
  - constructor; cbn; [done..| |done]. intros h' v [= <- <-]. split_and!; [done|lia|]. intros since Hs. by apply Ha in Hs as [_ ?].
  - pose proof (tls_finish_inv w h v Hinv Hlock) as Hf. by rewrite Hcb in Hf.
Qed.

Lemma tls_reach_inv version state w : rtc tls_step (tls_start version state) w -> tls_inv w.
Proof.
  intros Hr. assert (tls_inv (tls_start version state)) as Hi.
  { constructor; cbn; [|rewrite lookup_singleton_eq; by eexists|by constructor|done|done| |done|done].
    - intros g v [<- <-]%lookup_singleton_Some. lia.
    - intros source l Hl. by rewrite lookup_empty in Hl. }
  revert Hi. induction Hr as [|w1 w2 w Hs Hr IH]; intros Hi; [done|]. apply IH. by eapply tls_step_inv.
Qed.

Lemma install_chain_prefix ssl chain :
  let ssl' := fst (install_chain k ssl chain) in
  ssl_certificate ssl' = ssl_certificate ssl /\ ssl_private_key ssl' = ssl_private_key ssl /\
  exists done, done `prefix_of` chain /\ ssl_chain ssl' = ssl_chain ssl ++ done /\ (snd (install_chain k ssl chain) = Ok tt -> done = chain).
Proof.
  revert ssl. induction chain as [|c chain IH]; intros ssl; cbn [install_chain].
  { split_and!; [done..|]. exists []. by rewrite app_nil_r. }
  destruct (ssl_add_chain_cert ssl c).
  - destruct (IH (mkSslRef (ssl_servername ssl) (ssl_certificate ssl) (ssl_private_key ssl) (ssl_chain ssl ++ [c]))) as (Hc & Hp & d & Hd & Hch & Hok).
    split_and!; [done..|]. exists (c :: d). split_and!; [by apply prefix_cons|etrans; [exact Hch|]; cbn; by rewrite <- app_assoc|]. intros E. by rewrite (Hok E).
  - split_and!; [done..|]. exists []. split_and!; [apply prefix_nil|by rewrite app_nil_r|done].
Qed.

Lemma install_identity_installed h l :
  let '(ssl, r) := install_identity k (ssl_new h) l in
  installed l ssl /\ (r = Ok tt -> ssl_certificate ssl = Some (li_cert l) /\ ssl_private_key ssl = Some (li_key l) /\ ssl_chain ssl = li_chain l).
Proof.
  unfold install_identity, installed. destruct (ssl_use_certificate _ _); [|done]. cbn. destruct (ssl_use_private_key _ _); [|done].
  set (ssl0 := mkSslRef _ _ _ _). destruct (install_chain_prefix ssl0 (li_chain l)) as (Hc & Hp & d & Hd & Hch & Hok).
  destruct (install_chain k ssl0 (li_chain l)) as [ssl r]. cbn in *. rewrite Hc, Hp, Hch. cbn. split; [done|]. intros ->.
  split_and!; [done..|]. by apply Hok.
Qed.

(** C11: a renewed certificate reaches every handshake that starts after its
    activation.  However handshakes, certificate writes, activations and snapshot
    applies interleave, also between the two file reads of one handshake, what the
    callback of a handshake has installed comes from the identity that a snapshot that
    has been in force selects for the server name: its certificate and chain read from
    the files as they were at or after the activation of the generation the handshake
    read, its key at that moment or later.  A cached identity never outlives the
    material it was read from; nothing at all is installed when there is no identity or
    it cannot be loaded, and the whole of it when OpenSSL accepts it. *)
Theorem handshake_certificate_fresh version state w h ssl :
  rtc tls_step (tls_start version state) w -> (h, ssl) ∈ tw_done w ->
  hd_snapshot h ∈ tw_past w /\
  (ssl = ssl_new h \/
   exists t identity since v v' l, r_listener_tls (sn_router (hd_snapshot h)) !! k = Some t /\
     select_listener_tls k t (hd_server_name h) = Ok identity /\
     tw_activated w !! hd_material_generation h = Some since /\ since <= v /\ v <= v' <= tw_version w /\
     load (files v) (files v') k (cert identity) (key identity) = Ok l /\ installed l ssl /\
     (snd (install_identity k (ssl_new h) l) = Ok tt ->
      ssl_certificate ssl = Some (li_cert l) /\ ssl_private_key ssl = Some (li_key l) /\ ssl_chain ssl = li_chain l)).
Proof.
  intros Hr Hd. pose proof (tls_reach_inv version state w Hr) as Hinv. pose proof (ti_done _ Hinv) as Hdone.
  eapply Forall_forall in Hdone; [|exact Hd]. destruct Hdone as [Hin Hp]. cbn in *.
  pose proof (ti_handshakes _ Hinv) as Hh. eapply Forall_forall in Hh; [|exact Hin]. split; [apply Hh|].
  destruct Hp as [->|(t & identity & l & Ht & Hi & (since & v & v' & Hs & Hle & Hle' & Hl) & ->)]; [by left|right].
  pose proof (install_identity_installed h l) as Hinst. destruct (install_identity k (ssl_new h) l) as [ssl r] eqn:Ei.
  exists t, identity, since, v, v', l. cbn. destruct Hinst. rewrite Ei. split_and!; try done; lia.
Qed.
End load.
