(* ===== verification/Acme.v ===== *)
(** * Let's Encrypt certificates (crates/ngxora-runtime/src/le.rs)

    The manager of ACME certificates: its account, the check and the issue of a
    certificate, the store of HTTP-01 challenges and the periodic reconciliation.  The
    ACME protocol (instant-acme), OpenSSL and the outcome of each file operation come
    from the environment; the files and the challenge tokens are the state. *)

From S2P Require Import Prelude RustStr NetAddr Crates BTree Ir Types HttpRoutes Routing CompileRouter Control.

Open Scope N_scope.

(** ** Paths *)

(** [Path::components]: the root is the component ["/"]; empty and inner ["."]
    components do not count. *)
Definition components (path : string) : list string :=
  let parts := List.filter (fun c => negb (is_empty c)) (split_on "/" path) in
  let parts := match parts with
               | first :: rest => (if negb (starts_with "/" path) || negb (String.eqb first ".") then [first] else [])
                                  ++ List.filter (fun c => negb (String.eqb c ".")) rest
               | [] => []
               end in
  if starts_with "/" path then "/" :: parts else parts.

Definition components_prefix (base path : list string) : bool := bool_decide (take (length base) path = base).
(** [Path::starts_with] *)
Definition path_starts_with (base path : string) : bool := components_prefix (components base) (components path).

(** [Path::parent], as components. *)
Definition path_parent (path : string) : option (list string) :=
  match components path with [] => None | ["/"] => None | c => Some (removelast c) end.

(** ** State and environment *)

Record LeFile := mkLeFile { lf_data : string; lf_mode : N }.

(** Files by their components, the challenge tokens, and the rest of the world. *)
Record LeWorld (E : Type) := mkLeWorld { lw_files : gmap (list string) LeFile; lw_tokens : gmap string string; lw_env : E }.
Arguments mkLeWorld {E}.
Arguments lw_files {E}.
Arguments lw_tokens {E}.
Arguments lw_env {E}.

Inductive OrderStatus := OrderReady | OrderOther (debug : string).

(** Each call may fail, and sees the challenge tokens being served. *)
Class AcmeEnv (E : Type) := {
  (** a file operation, by name and path: whether it succeeds *)
  io : E -> string -> list string -> E * result string unit;
  Account : Type;
  Order : Type;
  Challenge : Type;
  Key : Type;
  Cert : Type;
  acme_builder : E -> E * result string unit;
  from_credentials : E -> string -> E * result string Account;
  credentials_parse : string -> result string string;
  (** the account and its serialised credentials *)
  acme_create : E -> list string -> string -> E * result string (Account * result string string);
  new_order : E -> Account -> string -> E * result string Order;
  (** the first authorization, [None] when there is none, and its HTTP-01 challenge *)
  next_authorization : E -> Order -> E * option (result string (option Challenge));
  acme_token : Challenge -> string;
  key_authorization : Challenge -> string;
  set_ready : E -> gmap string string -> Challenge -> E * result string unit;
  poll_ready : E -> gmap string string -> Order -> E * result string OrderStatus;
  finalize_csr : E -> Order -> string -> E * result string unit;
  poll_certificate : E -> Order -> E * result string string;
  (** OpenSSL *)
  cert_from_pem : string -> result string Cert;
  (** whether the certificate ends within the given days; [Err] when the time is not known *)
  expires_within : E -> Cert -> N -> result string bool;
  EcGroup : Type;
  EcKey : Type;
  X509Req : Type;
  Extension : Type;
  ec_group_prime256v1 : result string EcGroup;
  ec_key_generate : E -> EcGroup -> E * result string EcKey;
  pkey_from_ec_key : EcKey -> result string Key;
  private_key_to_pem_pkcs8 : Key -> result string string;
  private_key_from_pem : string -> result string Key;
  req_builder : result string X509Req;
  set_pubkey : X509Req -> Key -> result string X509Req;
  extension_stack : result string (list Extension);
  (** a subject alternative name, in the context of the request *)
  san_build : X509Req -> string -> result string Extension;
  stack_push : list Extension -> Extension -> result string (list Extension);
  add_extensions : X509Req -> list Extension -> result string X509Req;
  sign_sha256 : E -> X509Req -> Key -> E * result string X509Req;
  req_to_der : X509Req -> result string string
}.

(** ** The monad: a world, errors as values *)

Definition le (E A : Type) : Type := LeWorld E -> LeWorld E * result string A.
#[global] Instance le_ret {E} : MRet (le E) := fun A a w => (w, Ok a).
#[global] Instance le_bind {E} : MBind (le E) := fun A B f m w =>
  match m w with (w', Ok a) => f a w' | (w', Err e) => (w', Err e) end.
Definition lift {E A} (r : result string A) : le E A := fun w => (w, r).
(** [map_err] on a call of the environment. *)
Definition call {E A} (f : E -> E * result string A) (on_err : string -> string) : le E A := fun w =>
  let '(e, r) := f (lw_env w) in (mkLeWorld (lw_files w) (lw_tokens w) e, map_err on_err r).
Definition get_world {E} : le E (LeWorld E) := fun w => (w, Ok w).
(** A call that sees the tokens. *)
Definition call_tokens {E A} (f : E -> gmap string string -> E * result string A) (on_err : string -> string) : le E A := fun w =>
  let '(e, r) := f (lw_env w) (lw_tokens w) in (mkLeWorld (lw_files w) (lw_tokens w) e, map_err on_err r).

Definition put_file {E} (path : list string) (f : LeFile) : le E unit := fun w =>
  (mkLeWorld (<[path := f]> (lw_files w)) (lw_tokens w) (lw_env w), Ok tt).

Lemma wrapping_add64_next n : wrapping_add64 n 1 <> n.
Proof.
  unfold wrapping_add64. intros Heq. pose proof (N.div_mod (n + 1) (u64_max + 1) ltac:(done)) as Hd. rewrite Heq in Hd.
  generalize dependent ((n + 1) `div` (u64_max + 1)). unfold u64_max. lia.
Qed.

Section le.
Context {E : Type} `{!AcmeEnv E}.

(** ** Files *)

Definition file_exists (path : string) (w : LeWorld E) : bool := is_some (lw_files w !! components path).

Definition read_file (path : string) (on_err : string -> string) : le E string :=
  _ ← call (fun e => io e "read" (components path)) on_err;
  w ← get_world;
  lift (ok_or (lf_data <$> lw_files w !! components path) (on_err "not found")).

Definition create_dir_all (dir : list string) (on_err : string -> string) : le E unit := call (fun e => io e "create_dir_all" dir) on_err.

(** The temporary file is gone on every failure, and takes the place of the target
    at once when it is persisted. *)
Definition write_secure (path data : string) : le E unit :=
  let parent := match path_parent path with Some (c :: p) => c :: p | _ => ["."] end in
  _ ← call (fun e => io e "create temp" parent) (fun err => "failed to create temporary file for " +:+ path +:+ ": " +:+ err);
  _ ← call (fun e => io e "set permissions" parent) (fun err => "failed to set permissions on " +:+ path +:+ ": " +:+ err);
  _ ← call (fun e => io e "write" parent) (fun err => "failed to write " +:+ path +:+ ": " +:+ err);
  _ ← call (fun e => io e "sync" parent) (fun err => "failed to sync " +:+ path +:+ ": " +:+ err);
  _ ← call (fun e => io e "persist" (components path)) (fun err => "failed to persist " +:+ path +:+ ": " +:+ err);
  put_file (components path) (mkLeFile data 384).

(** ** Challenge tokens *)

Definition lookup_challenge (w : LeWorld E) (token : string) : option string := lw_tokens w !! token.
Definition insert_token (token key_authorization : string) : le E unit := fun w =>
  (mkLeWorld (lw_files w) (<[token := key_authorization]> (lw_tokens w)) (lw_env w), Ok tt).
Definition remove_token (token : string) (w : LeWorld E) : LeWorld E :=
  mkLeWorld (lw_files w) (delete token (lw_tokens w)) (lw_env w).
(** [ChallengeTokenGuard]: the token is stored while [body] runs and dropped on every
    way out of it. *)
Definition with_token_guard {A} (token key_authorization : string) (body : le E A) : le E A := fun w =>
  let '(w, r) := (_ ← insert_token token key_authorization; body) w in (remove_token token w, r).

(** ** The account *)

Record LeManager := mkLeManager { lm_account : Account; lm_cache_dir : string }.

Definition production_url : string := "https://acme-v02.api.letsencrypt.org/directory".
Definition directory_of (config : LetsEncryptConfig) : string := default production_url (acme_directory config).
Definition cache_dir_of (config : LetsEncryptConfig) : string := default "/var/lib/ngxora/certs" (cache_dir config).

Definition load_or_create_account (directory_url : string) (config : LetsEncryptConfig) (dir : string) : le E Account :=
  let path := path_join dir "account.json" in
  _ ← call acme_builder (fun e => "failed to create ACME account builder: " +:+ e);
  w ← get_world;
  if file_exists path w then
    raw ← read_file path (fun e => "failed to read " +:+ path +:+ ": " +:+ e);
    credentials ← lift (map_err (fun e => "failed to parse " +:+ path +:+ ": " +:+ e) (credentials_parse raw));
    call (fun e => from_credentials e credentials) (fun e => "failed to restore ACME account: " +:+ e)
  else
    let contacts := match email config with Some e => ["mailto:" +:+ e] | None => [] end in
    '(account, credentials) ← call (fun e => acme_create e contacts directory_url) (fun e => "failed to create ACME account: " +:+ e);
    raw ← lift (map_err (fun e => "failed to serialise ACME credentials: " +:+ e) credentials);
    _ ← write_secure path raw;
    mret account.

(** [LeManager::with_tokens]; [LeManager::new] differs in starting an empty store. *)
Definition with_tokens (config : LetsEncryptConfig) : le E LeManager :=
  let dir := cache_dir_of config in
  _ ← create_dir_all (components dir) (fun e => "failed to create LE cache dir " +:+ dir +:+ ": " +:+ e);
  account ← load_or_create_account (directory_of config) config dir;
  mret (mkLeManager account dir).

(** ** One certificate *)

Inductive CertStatus := Fresh | Missing | ExpiringSoon.

(** Any failure to read or parse the certificate counts as missing. *)
Definition check_cert (cert_path : string) : le E CertStatus :=
fun w =>
  if negb (file_exists cert_path w) then (w, Ok Missing) else
    match read_file cert_path (fun e => e) w with
    | (w, Err _) => (w, Ok Missing)
    | (w, Ok pem) =>
        match cert_from_pem pem with
        | Err _ => (w, Ok Missing)
        | Ok x509 =>
            match expires_within (lw_env w) x509 30 with
            | Err _ | Ok true => (w, Ok ExpiringSoon)
            | Ok false => (w, Ok Fresh)
            end
        end
    end.

Definition load_or_generate_key (key_source : PemSource) : le E Key :=
  match key_source with
  | PemPath path =>
      w ← get_world;
      if is_empty path || negb (file_exists path w) then
        ec_group ← lift (map_err (fun e => "failed to create EC group: " +:+ e) ec_group_prime256v1);
        ec_key ← call (fun e => ec_key_generate e ec_group) (fun e => "failed to generate ECDSA key: " +:+ e);
        key ← lift (map_err (fun e => "failed to convert EC key: " +:+ e) (pkey_from_ec_key ec_key));
        _ ← match path_parent path with
            | Some parent => create_dir_all parent (fun e => "failed to create key dir " +:+ join "/" parent +:+ ": " +:+ e)
            | None => mret tt
            end;
        pem ← lift (map_err (fun e => "failed to encode private key: " +:+ e) (private_key_to_pem_pkcs8 key));
        _ ← write_secure path pem;
        mret key
      else
        pem_bytes ← read_file path (fun e => "failed to read key " +:+ path +:+ ": " +:+ e);
        lift (map_err (fun e => "failed to parse key " +:+ path +:+ ": " +:+ e) (private_key_from_pem pem_bytes))
  | InlinePem pem => lift (map_err (fun e => "failed to parse inline key: " +:+ e) (private_key_from_pem pem))
  end.

Definition make_csr (key : Key) (domain : string) : le E string :=
  req ← lift (map_err (fun e => "failed to create X509 req builder: " +:+ e) req_builder);
  req ← lift (map_err (fun e => "failed to set CSR public key: " +:+ e) (set_pubkey req key));
  extensions ← lift (map_err (fun e => "failed to create extension stack: " +:+ e) extension_stack);
  san ← lift (map_err (fun e => "failed to build SAN extension: " +:+ e) (san_build req domain));
  extensions ← lift (map_err (fun e => "failed to push SAN: " +:+ e) (stack_push extensions san));
  req ← lift (map_err (fun e => "failed to add extensions: " +:+ e) (add_extensions req extensions));
  req ← call (fun e => sign_sha256 e req key) (fun e => "failed to sign CSR: " +:+ e);
  lift (map_err (fun e => "failed to DER-encode CSR: " +:+ e) (req_to_der req)).

Definition issue_certificate (m : LeManager) (domain cert_path : string) (key_source : PemSource) : le E unit :=
  order ← call (fun e => new_order e (lm_account m) domain) (fun e => domain +:+ ": failed to create ACME order: " +:+ e);
  challenge ← call (fun e => let '(e, auth) := next_authorization e order in
                             (e, match auth with
                                 | None => Err "order has no authorizations"
                                 | Some (Err err) => Err ("failed to get authorization: " +:+ err)
                                 | Some (Ok None) => Err "no HTTP-01 challenge available"
                                 | Some (Ok (Some c)) => Ok c
                                 end)) (fun e => domain +:+ ": " +:+ e);
  status ← with_token_guard (acme_token challenge) (key_authorization challenge)
             (_ ← call_tokens (fun e tokens => set_ready e tokens challenge) (fun e => domain +:+ ": failed to set challenge ready: " +:+ e);
              call_tokens (fun e tokens => poll_ready e tokens order) (fun e => domain +:+ ": order failed: " +:+ e));
  _ ← lift (match status with OrderReady => Ok tt | OrderOther s => Err (domain +:+ ": unexpected order status " +:+ s) end);
  private_key ← load_or_generate_key key_source;
  csr_der ← make_csr private_key domain;
  _ ← call (fun e => finalize_csr e order csr_der) (fun e => domain +:+ ": failed to finalize order: " +:+ e);
  cert_pem ← call (fun e => poll_certificate e order) (fun e => domain +:+ ": failed to get certificate: " +:+ e);
  parent ← lift (ok_or (path_parent cert_path) (domain +:+ ": cert path " +:+ cert_path +:+ " has no parent"));
  _ ← create_dir_all parent (fun e => domain +:+ ": failed to create dir " +:+ join "/" parent +:+ ": " +:+ e);
  write_secure cert_path cert_pem.

Definition ensure_certificate (m : LeManager) (domain cert_path : string) (key_source : PemSource) : le E bool :=
  status ← check_cert cert_path;
  match status with
  | Fresh => mret false
  | Missing | ExpiringSoon => _ ← issue_certificate m domain cert_path key_source; mret true
  end.

(** ** Reconciliation *)

(** One managed identity; an error is logged and counts as no change. *)
Definition reconcile_identity (m : LeManager) (w : LeWorld E) (updated : bool) (e : string * TlsIdentity) : LeWorld E * bool :=
  match cert (snd e) with
  | InlinePem _ => (w, updated)
  | PemPath cert_path =>
      if negb (path_starts_with (lm_cache_dir m) cert_path) then (w, updated)
      else match ensure_certificate m (fst e) cert_path (key (snd e)) w with
           | (w, Ok changed) => (w, updated || changed)
           | (w, Err _) => (w, updated)
           end
  end.

Definition managed_identities `{Crates} `{HashIter} (router : CompiledRouter) : list (string * TlsIdentity) :=
  iter_values (r_listener_tls router) ≫= fun t => iter (tls_named t).

Definition reconcile `{Crates} `{HashIter} (m : LeManager) (router : CompiledRouter) (w : LeWorld E) : LeWorld E * bool :=
  foldl (fun '(w, updated) e => reconcile_identity m w updated e) (w, false) (managed_identities router).

#[global] Instance LetsEncryptConfig_eq : EqDecision LetsEncryptConfig.
Proof. solve_decision. Defined.

(** The state of the background service. *)
Record Reconciler := mkReconciler { rc_manager : option LeManager; rc_last_config : option LetsEncryptConfig }.
Definition Reconciler_start : Reconciler := mkReconciler None None.

Definition refresh_manager (current : option LetsEncryptConfig) (r : Reconciler) (w : LeWorld E) : LeWorld E * Reconciler :=
  if negb (bool_decide (current = rc_last_config r)) || (is_some current && is_none (rc_manager r)) then
    match current with
    | Some config =>
        match with_tokens config w with
        | (w, Ok m) => (w, mkReconciler (Some m) current)
        | (w, Err _) => (w, mkReconciler None (rc_last_config r))
        end
    | None => (w, mkReconciler None None)
    end
  else (w, r).

(** The part of a pass up to the end of [reconcile], on the snapshot it started with. *)
Definition reconcile_pass `{Crates} `{HashIter} (r : Reconciler) (router : CompiledRouter) (w : LeWorld E)
  : LeWorld E * Reconciler * bool :=
  let '(w, r) := refresh_manager (r_le_config router) r w in
  match rc_manager r with
  | None => (w, r, false)
  | Some m => let '(w, updated) := reconcile m router w in (w, r, updated)
  end.

(** Snapshots may be applied while a pass awaits the ACME server: it reads the snapshot
    of its start, and invalidates the material of the state it finds at its end. *)
Definition reconcile_finish `{RuntimeDeps} (updated : bool) (s : RuntimeState) : RuntimeState :=
  if updated then invalidate_tls_material s else s.

(** What wakes the service: a change of the shutdown watch (or its sender gone), or a
    tick, with the snapshot then in force and the files as they then are; a pass takes
    a while, and the watch may have changed by its end. *)
Inductive LeEvent `{Crates} := ShutdownChanged (ok value : bool) | HourlyTick (router : CompiledRouter) (w : LeWorld E) (shutdown : bool).

(** One pass of the service: the snapshot and the world it started with, and the world
    and the flag it ended with. *)
Record Pass `{Crates} := mkPass { pass_router : CompiledRouter; pass_before : LeWorld E; pass_after : LeWorld E; pass_updated : bool }.

Definition run_pass `{Crates} `{HashIter} (r : Reconciler) (router : CompiledRouter) (w : LeWorld E) : Pass * Reconciler :=
  let '(w', r', updated) := reconcile_pass r router w in (mkPass _ router w w' updated, r').

Fixpoint service_loop `{Crates} `{HashIter} (events : list LeEvent) (shutdown : bool) (r : Reconciler) : list Pass :=
  if shutdown then [] else
  match events with
  | [] => []
  | ShutdownChanged ok value :: events => if negb ok || value then [] else service_loop events value r
  | HourlyTick router w shutdown :: events => let '(pass, r) := run_pass r router w in pass :: service_loop events shutdown r
  end.

(** The first pass runs at once. *)
Definition service_start `{Crates} `{HashIter} (router : CompiledRouter) (w : LeWorld E) (shutdown : bool) (events : list LeEvent) : list Pass :=
  let '(pass, r) := run_pass Reconciler_start router w in pass :: service_loop events shutdown r.

(** ** Lemmas *)

Lemma le_bind_inv {A B} (m : le E A) (f : A -> le E B) w w' r :
  (m ≫= f) w = (w', r) -> (exists e, m w = (w', Err e) /\ r = Err e) \/ (exists a w1, m w = (w1, Ok a) /\ f a w1 = (w', r)).
Proof. unfold mbind, le_bind. destruct (m w) as [w1 [a|e]]; intros H; [right|left]; [eauto|]. simplify_eq. eauto. Qed.

(** Neither the files nor the tokens change. *)
Definition same (w w' : LeWorld E) : Prop := lw_files w' = lw_files w /\ lw_tokens w' = lw_tokens w.
Definition quiet {A} (m : le E A) : Prop := forall w w' r, m w = (w', r) -> same w w'.

Lemma same_trans w1 w2 w3 : same w1 w2 -> same w2 w3 -> same w1 w3.
Proof. intros [H1 H2] [H3 H4]. split; congruence. Qed.
Lemma quiet_ret {A} (a : A) : quiet (mret a).
Proof. intros w w' r H. cbv in H. by simplify_eq. Qed.
Lemma quiet_lift {A} (x : result string A) : quiet (lift x).
Proof. intros w w' r H. cbv in H. by simplify_eq. Qed.
Lemma quiet_get : quiet get_world.
Proof. intros w w' r H. cbv in H. by simplify_eq. Qed.
Lemma quiet_call {A} (f : E -> E * result string A) on_err : quiet (call f on_err).
Proof. intros w w' r H. unfold call in H. destruct (f _). by simplify_eq. Qed.
Lemma quiet_call_tokens {A} (f : E -> gmap string string -> E * result string A) on_err : quiet (call_tokens f on_err).
Proof. intros w w' r H. unfold call_tokens in H. destruct (f _ _). by simplify_eq. Qed.
Lemma quiet_bind {A B} (m : le E A) (f : A -> le E B) : quiet m -> (forall a, quiet (f a)) -> quiet (m ≫= f).
Proof.
  intros Hm Hf w w' r [(e & H1 & ->)|(a & w1 & H1 & H2)]%le_bind_inv; [by eapply Hm|].
  eapply same_trans; [by eapply Hm|by eapply Hf].
Qed.
Hint Resolve quiet_ret quiet_lift quiet_get quiet_call quiet_call_tokens quiet_bind : acme.

Lemma quiet_read path on_err : quiet (read_file path on_err).
Proof. unfold read_file. auto with acme. Qed.
Lemma quiet_dir dir on_err : quiet (create_dir_all dir on_err).
Proof. unfold create_dir_all. auto with acme. Qed.
Lemma quiet_csr key domain : quiet (make_csr key domain).
Proof. unfold make_csr. auto 20 with acme. Qed.
Hint Resolve quiet_read quiet_dir quiet_csr : acme.
Lemma quiet_check path : quiet (check_cert path).
Proof.
  intros w w' r H. unfold check_cert in H. destruct (negb _); [by simplify_eq|].
  destruct (read_file _ _ w) as [w1 x] eqn:Hr. apply quiet_read in Hr.
  destruct x; [|by simplify_eq]. destruct (cert_from_pem _); [|by simplify_eq].
  destruct (expires_within _ _ _) as [[]|]; by simplify_eq.
Qed.

Lemma le_bind_quiet {A B} (m : le E A) (f : A -> le E B) w0 w w' r :
  quiet m -> same w0 w -> (m ≫= f) w = (w', r) ->
  (same w0 w' /\ exists e, r = Err e) \/ (exists a w1, m w = (w1, Ok a) /\ same w0 w1 /\ f a w1 = (w', r)).
Proof.
  intros Hm Hs [(e & H1 & ->)|(a & w1 & H1 & H2)]%le_bind_inv; [left|right].
  - split; [|eauto]. eapply same_trans; [done|by eapply Hm].
  - exists a, w1. split_and!; [done| |done]. eapply same_trans; [done|by eapply Hm].
Qed.
Lemma same_refl (w : LeWorld E) : same w w.
Proof. done. Qed.

(** One more quiet call in the run [H], with [Hs] what held before it. *)
Ltac quiet_step H Hs a := let Hx := fresh "Hx" in let Hm := fresh "Hcall" in
  eapply le_bind_quiet in H; [|first [by auto 8 with acme|destruct (path_parent _); by auto with acme]|exact Hs];
  clear Hs; destruct H as [[Hs Hx]|(a & ? & Hm & Hs & H)].

(** A write replaces the target with the whole of the data, or nothing. *)
Lemma write_secure_spec path data w w' r :
  write_secure path data w = (w', r) ->
  lw_tokens w' = lw_tokens w /\
  (r = Ok tt /\ lw_files w' = <[components path := mkLeFile data 384]> (lw_files w) \/ (exists e, r = Err e) /\ lw_files w' = lw_files w).
Proof.
  unfold write_secure. set (p := match path_parent path with Some _ => _ | None => _ end). clearbody p.
  intros H. pose proof (same_refl w) as Hs.
  do 5 (let u := fresh "u" in quiet_step H Hs u; [destruct Hs; by auto|]).
  unfold put_file in H. destruct Hs as [Hf Ht]. simplify_eq/=. rewrite Hf. auto.
Qed.

(** What looking for a key may do to the files: write a new key, only when there is
    none. *)
Definition key_written (src : PemSource) (files files' : gmap (list string) LeFile) : Prop :=
  files' = files \/
  exists path key pem, src = PemPath path /\ (path = "" \/ files !! components path = None) /\
    private_key_to_pem_pkcs8 key = Ok pem /\ files' = <[components path := mkLeFile pem 384]> files.

Lemma load_key_spec src w w' r :
  load_or_generate_key src w = (w', r) -> lw_tokens w' = lw_tokens w /\ key_written src (lw_files w) (lw_files w').
Proof.
  unfold load_or_generate_key, key_written. destruct src as [path|pem]; [|by intros [? ?]%quiet_lift; auto].
  intros H. apply le_bind_inv in H as [(e & Hq & ->)|(w0 & w1 & Hq & H)]; [by unfold get_world in Hq|].
  unfold get_world in Hq. injection Hq as <- <-. pose proof (same_refl w) as Hs.
  destruct (is_empty path || negb (file_exists path w)) eqn:Hg.
  - quiet_step H Hs g; [destruct Hs; by auto|]. quiet_step H Hs ec; [destruct Hs; by auto|].
    quiet_step H Hs pk; [destruct Hs; by auto|]. quiet_step H Hs u; [destruct Hs; by auto|].
    quiet_step H Hs pem; [destruct Hs; by auto|]. destruct Hs as [Hf Ht].
    apply le_bind_inv in H as [(e & Hq & ->)|(u' & w6 & Hq & H)].
    all: apply write_secure_spec in Hq as (Ht' & [[? Hf']|[[? ?] Hf']]); simplify_eq.
    + split; [congruence|]. left. congruence.
    + apply quiet_ret in H as [Hf6 Ht6]. split; [congruence|]. right. exists path, pk, pem.
      split_and!; [done| | |congruence].
      * unfold file_exists in Hg. destruct path; [by left|]. right. by destruct (lw_files w !! _).
      * unfold lift in Hcall3. by destruct (private_key_to_pem_pkcs8 pk); simplify_eq/=.
  - quiet_step H Hs pem; [destruct Hs; by auto|]. destruct Hs as [Hf Ht].
    apply quiet_lift in H as [? ?]. split; [congruence|left; congruence].
Qed.
Lemma call_ok {A} (f : E -> E * result string A) on_err w w1 a :
  call f on_err w = (w1, Ok a) -> f (lw_env w) = (lw_env w1, Ok a).
Proof. unfold call. destruct (f _) as [e [x|x]]; intros; by simplify_eq/=. Qed.
Lemma call_tokens_ok {A} (f : E -> gmap string string -> E * result string A) on_err w w1 a :
  call_tokens f on_err w = (w1, Ok a) -> f (lw_env w) (lw_tokens w) = (lw_env w1, Ok a).
Proof. unfold call_tokens. destruct (f _ _) as [e [x|x]]; intros; by simplify_eq/=. Qed.

(** The ACME server issued [pem] for [domain]: the order's HTTP-01 challenge was ready
    and validated while its answer was in the store that the proxy serves. *)
Definition issued (m : LeManager) (domain : string) (served : gmap string string) (pem : string) : Prop :=
  exists e0 e1 e2 e3 e4 e5 e6 order challenge,
    new_order e0 (lm_account m) domain = (e1, Ok order) /\
    next_authorization e1 order = (e2, Some (Ok (Some challenge))) /\
    let tokens := <[acme_token challenge := key_authorization challenge]> served in
    set_ready e2 tokens challenge = (e3, Ok tt) /\
    poll_ready e3 tokens order = (e4, Ok OrderReady) /\
    poll_certificate e5 order = (e6, Ok pem).

Lemma key_written_keeps src files files' :
  key_written src files files' ->
  (forall path f, src = PemPath path -> path <> "" -> files !! components path = Some f -> files' !! components path = Some f) /\
  (forall p, (forall path, src = PemPath path -> components path <> p) -> files' !! p = files !! p).
Proof.
  intros [->|(kp & k & pem & -> & Habs & _ & ->)]; [by auto|]. split.
  - intros path f [= <-] Hne Hf. destruct Habs as [->|Habs]; [done|congruence].
  - intros p Hp. rewrite lookup_insert_ne; [done|]. by apply Hp.
Qed.

(** The guarded section leaves the files alone and never leaves its token behind. *)
Lemma guard_spec {A} token auth (body : le E A) w w' r :
  quiet body -> with_token_guard token auth body w = (w', r) ->
  lw_files w' = lw_files w /\ lw_tokens w' = delete token (lw_tokens w) /\
  exists w1, body (mkLeWorld (lw_files w) (<[token := auth]> (lw_tokens w)) (lw_env w)) = (w1, r) /\ lw_env w' = lw_env w1.
Proof.
  intros Hq. unfold with_token_guard, insert_token, mbind, le_bind. destruct (body _) as [w1 x] eqn:Hb.
  intros. simplify_eq/=. destruct (Hq _ _ _ Hb) as [Hf Ht]. simpl in *. rewrite Hf, Ht. split_and!; [done| |eauto].
  apply delete_insert_eq.
Qed.

Lemma issue_spec m domain cert_path src w w' r :
  issue_certificate m domain cert_path src w = (w', r) ->
  (lw_tokens w' = lw_tokens w \/ exists t, lw_tokens w' = delete t (lw_tokens w)) /\
  exists files1, key_written src (lw_files w) files1 /\
    match r with
    | Ok _ => exists pem, issued m domain (lw_tokens w) pem /\ lw_files w' = <[components cert_path := mkLeFile pem 384]> files1
    | Err _ => lw_files w' = files1
    end.
Proof.
  unfold issue_certificate. intros H. pose proof (same_refl w) as Hs.
  quiet_step H Hs ord. { destruct Hs as [-> ->], Hx as [? ->]. split; [auto|]. eexists. split; [by left|done]. }
  quiet_step H Hs chal. { destruct Hs as [-> ->], Hx as [? ->]. split; [auto|]. eexists. split; [by left|done]. }
  apply call_ok in Hcall, Hcall0. simpl in Hcall0. destruct (next_authorization _ ord) as [e2 auth] eqn:Hauth.
  assert (auth = Some (Ok (Some chal)) /\ e2 = lw_env x0) as [-> ->].
  { destruct auth as [[[c|]|err]|]; by simplify_eq/=. }
  clear Hcall0. destruct Hs as [Hf0 Ht0].
  apply le_bind_inv in H as [(e & Hg & ->)|(status & w2 & Hg & H)].
  all: apply guard_spec in Hg as (Hf & Ht & wb & Hb & Henv); [|by auto with acme].
  { rewrite Ht, Hf, Hf0, Ht0. split; [eauto|]. eexists. split; [by left|done]. }
  assert (exists wc, set_ready (lw_env x0) (<[acme_token chal := key_authorization chal]> (lw_tokens w)) chal = (lw_env wc, Ok tt) /\
    poll_ready (lw_env wc) (<[acme_token chal := key_authorization chal]> (lw_tokens w)) ord = (lw_env wb, Ok status)) as (wc & Hready & Hpoll).
  { apply le_bind_inv in Hb as [(e & _ & ?)|([] & wc & Hset & Hp)]; [done|]. exists wc.
    pose proof (quiet_call_tokens _ _ _ _ _ Hset) as [_ Htc]. apply call_tokens_ok in Hset, Hp.
    rewrite Htc in Hp. simpl in *. by rewrite Ht0 in Hset, Hp. }
  rewrite Ht0 in Ht. rewrite Hf0 in Hf. clear Hf0 Ht0 Hb.
  assert (forall w' : LeWorld E, lw_tokens w' = lw_tokens w2 -> (lw_tokens w' = lw_tokens w \/ exists t, lw_tokens w' = delete t (lw_tokens w))) as Hdone.
  { intros ? ->. rewrite Ht. eauto. }
  pose proof (same_refl w2) as Hs. quiet_step H Hs u. { destruct Hs, Hx as [? ->]. split; [auto|]. exists (lw_files w). split; [by left|congruence]. }
  unfold lift in Hcall0. destruct status; simplify_eq/=. destruct Hs as [Hf1 Ht1].
  apply le_bind_inv in H as [(e & Hk & ->)|(pk & w3 & Hk & H)].
  all: apply load_key_spec in Hk as [Ht2 Hf2]; rewrite Hf in Hf2.
  { split; [auto|]. eauto. }
  assert (forall w', same w3 w' -> lw_tokens w' = lw_tokens w \/ exists t, lw_tokens w' = delete t (lw_tokens w)) as Hdone'.
  { intros w4 [_ Ht4]. apply Hdone. congruence. }
  pose proof (same_refl w3) as Hs.
  quiet_step H Hs csr. { destruct Hx as [? ->]. split; [auto|]. destruct Hs as [-> _]. eauto. }
  quiet_step H Hs u1. { destruct Hx as [? ->]. split; [auto|]. destruct Hs as [-> _]. eauto. }
  quiet_step H Hs pem. { destruct Hx as [? ->]. split; [auto|]. destruct Hs as [-> _]. eauto. }
  quiet_step H Hs par. { destruct Hx as [? ->]. split; [auto|]. destruct Hs as [-> _]. eauto. }
  quiet_step H Hs u2. { destruct Hx as [? ->]. split; [auto|]. destruct Hs as [-> _]. eauto. }
  apply call_ok in Hcall2. destruct Hs as [Hf3 Ht3].
  apply write_secure_spec in H as [Ht4 [[-> Hf4]|[[e ->] Hf4]]].
  - split; [apply Hdone; congruence|]. eexists. split; [exact Hf2|]. exists pem. split; [|congruence].
    unfold issued. repeat eexists; [exact Hcall|exact Hauth|exact Hready| |exact Hcall2].
    rewrite Hpoll. done.
  - split; [apply Hdone; congruence|]. eexists. split; [exact Hf2|]. congruence.
Qed.
Lemma get_world_inv {A} (f : LeWorld E -> le E A) w w' r : (get_world ≫= f) w = (w', r) -> f w w = (w', r).
Proof. done. Qed.

Definition account_path (config : LetsEncryptConfig) : list string := components (path_join (cache_dir_of config) "account.json").

(** The account is written only when there is none. *)
Lemma load_account_spec url config w w' r :
  load_or_create_account url config (cache_dir_of config) w = (w', r) ->
  lw_tokens w' = lw_tokens w /\
  (lw_files w' = lw_files w \/
   lw_files w !! account_path config = None /\ exists raw, lw_files w' = <[account_path config := mkLeFile raw 384]> (lw_files w)).
Proof.
  unfold load_or_create_account. intros H. pose proof (same_refl w) as Hs.
  quiet_step H Hs b; [destruct Hs; by auto|]. apply get_world_inv in H. unfold file_exists, account_path in *.
  destruct (is_some _) eqn:Hex.
  - quiet_step H Hs raw; [destruct Hs; by auto|]. quiet_step H Hs cred; [destruct Hs; by auto|].
    apply quiet_call in H. destruct (same_trans _ _ _ Hs H). auto.
  - assert (Hnone : lw_files w !! components (path_join (cache_dir_of config) "account.json") = None).
    { destruct Hs as [<- _]. by destruct (_ !! _). }
    quiet_step H Hs made; [destruct Hs; by auto|]. destruct made as [acct credentials].
    quiet_step H Hs raw; [destruct Hs; by auto|]. destruct Hs as [Hf Ht].
    apply le_bind_inv in H as [(e & Hq & ->)|(u & w6 & Hq & H)].
    all: apply write_secure_spec in Hq as (Ht' & [[? Hf']|[[? ?] Hf']]); simplify_eq.
    + split; [congruence|]. left. congruence.
    + apply quiet_ret in H as [Hf6 Ht6]. split; [congruence|]. right. split; [done|]. exists raw. congruence.
Qed.

(** A manager is of its configuration. *)
Lemma with_tokens_spec config w w' r :
  with_tokens config w = (w', r) ->
  (lw_tokens w' = lw_tokens w /\
   (lw_files w' = lw_files w \/
    lw_files w !! account_path config = None /\ exists raw, lw_files w' = <[account_path config := mkLeFile raw 384]> (lw_files w))) /\
  (forall m, r = Ok m -> lm_cache_dir m = cache_dir_of config).
Proof.
  unfold with_tokens. intros H. pose proof (same_refl w) as Hs.
  quiet_step H Hs u. { destruct Hs as [Hf Ht], Hx as [? ->]. split; [by auto|done]. }
  destruct Hs as [Hf Ht]. rewrite <- Hf, <- Ht.
  apply le_bind_inv in H as [(e & Hl & ->)|(acct & w1 & Hl & Hm)].
  - by apply load_account_spec in Hl.
  - unfold mret, le_ret in Hm. injection Hm as <- <-. apply load_account_spec in Hl. split; [done|]. by intros m [= <-].
Qed.

(** ** What a pass over the identities may change *)

(** An identity the reconciler looks after: it is configured for a domain, and its
    certificate is a path below the cache directory of the manager, whoever put it there. *)
Definition in_cache_dir (m : LeManager) (ids : list (string * TlsIdentity)) (domain : string) (id : TlsIdentity) (path : string) : Prop :=
  (domain, id) ∈ ids /\ cert id = PemPath path /\ path_starts_with (lm_cache_dir m) path = true.

(** The file at [p] is now a certificate issued for the domain of such an identity. *)
Definition renewed (m : LeManager) (ids : list (string * TlsIdentity)) (files' : gmap (list string) LeFile) (p : list string) : Prop :=
  exists domain id path served pem, in_cache_dir m ids domain id path /\ p = components path /\
    issued m domain served pem /\ files' !! p = Some (mkLeFile pem 384).
(** The file at [p] is now a key of such an identity, where there was none. *)
Definition key_created (m : LeManager) (ids : list (string * TlsIdentity)) (files files' : gmap (list string) LeFile) (p : list string) : Prop :=
  exists domain id cert_path path k pem, in_cache_dir m ids domain id cert_path /\ key id = PemPath path /\ p = components path /\
    (path = "" \/ files !! p = None) /\ private_key_to_pem_pkcs8 k = Ok pem /\ files' !! p = Some (mkLeFile pem 384).

Definition confined (m : LeManager) (ids : list (string * TlsIdentity)) (updated : bool) (w w' : LeWorld E) : Prop :=
  lw_tokens w' ⊆ lw_tokens w /\
  forall p, lw_files w' !! p = lw_files w !! p \/ updated = true /\ renewed m ids (lw_files w') p \/
    key_created m ids (lw_files w) (lw_files w') p.

Lemma confined_same m ids b w w' : same w w' -> confined m ids b w w'.
Proof. intros [Hf Ht]. split; [by rewrite Ht|]. rewrite Hf. auto. Qed.

Lemma confined_keeps m ids b w w' p : confined m ids b w w' -> lw_files w' !! p = None -> lw_files w !! p = None.
Proof.
  intros [_ Hc] Hn. destruct (Hc p) as [Heq|[[_ (?&?&?&?&?&_&_&_&?)]|(?&?&?&?&?&?&_&_&_&_&_&?)]]; congruence.
Qed.

Lemma confined_trans m ids b1 b2 w1 w2 w3 :
  confined m ids b1 w1 w2 -> confined m ids b2 w2 w3 -> confined m ids (b1 || b2) w1 w3.
Proof.
  intros H1 H2. split; [by transitivity (lw_tokens w2); [apply H2|apply H1]|]. intros p.
  destruct (proj2 H2 p) as [Heq|[[-> Hr]|(d&id&cp&path&k&pem&Hm&Hk&Hp&Habs&Hpem&Hf)]].
  - rewrite Heq. destruct (proj2 H1 p) as [->|[[-> (d&id&path&sv&pem&Hr)]|(d&id&cp&path&k&pem&Hr)]]; [by left|right; left..|right; right].
    + split; [done|]. exists d, id, path, sv, pem. by rewrite Heq.
    + exists d, id, cp, path, k, pem. by rewrite Heq.
  - right. left. split; [apply orb_true_r|done].
  - right. right. exists d, id, cp, path, k, pem. split_and!; try done.
    destruct Habs as [?|Habs]; [by left|right]. eapply confined_keeps; eassumption.
Qed.

Lemma key_step_created m ids domain id path files files' p :
  in_cache_dir m ids domain id path -> key_written (key id) files files' ->
  files' !! p = files !! p \/ key_created m ids files files' p.
Proof.
  intros Hm [->|(kp & k & pem & Hk & Habs & Hpem & ->)]; [by left|].
  destruct (decide (p = components kp)) as [->|Hne]; [right|left; by rewrite lookup_insert_ne].
  exists domain, id, path, kp, k, pem. rewrite lookup_insert_eq. by split_and!.
Qed.

Lemma tokens_shrink (tokens tokens' : gmap string string) :
  (tokens' = tokens \/ exists t, tokens' = delete t tokens) -> tokens' ⊆ tokens.
Proof. intros [->|[t ->]]; [done|apply delete_subseteq]. Qed.

Lemma issue_confined m ids domain id path w w' r :
  in_cache_dir m ids domain id path -> issue_certificate m domain path (key id) w = (w', r) ->
  confined m ids (match r with Ok _ => true | Err _ => false end) w w'.
Proof.
  intros Hm (Htok & files1 & Hk & Hr)%issue_spec. split; [by apply tokens_shrink|]. intros p.
  pose proof (key_step_created m ids domain id path _ _ p Hm Hk) as Hp.
  destruct r as [[]|e]; [|subst files1; tauto]. destruct Hr as (pem & Hi & ->).
  destruct (decide (p = components path)) as [->|Hne].
  - right. left. split; [done|]. exists domain, id, path, (lw_tokens w), pem. rewrite lookup_insert_eq. by split_and!.
  - rewrite (lookup_insert_ne _ (components path)) by done. destruct Hp as [Hp|(d&id'&cp&kp&k&kpem&H1&H2&H3&H4&H5&H6)]; [by left|].
    right. right. exists d, id', cp, kp, k, kpem. split_and!; try done. by rewrite lookup_insert_ne.
Qed.

Lemma ensure_confined m ids domain id path w w' r :
  in_cache_dir m ids domain id path -> ensure_certificate m domain path (key id) w = (w', r) ->
  confined m ids (match r with Ok changed => changed | Err _ => false end) w w'.
Proof.
  intros Hm H. unfold ensure_certificate in H.
  apply le_bind_inv in H as [(e & Hc & ->)|(status & w1 & Hc & H)]; apply quiet_check in Hc.
  { by apply confined_same. }
  assert (Hissue : (_ ← issue_certificate m domain path (key id); mret true) w1 = (w', r) ->
                   confined m ids (match r with Ok changed => changed | Err _ => false end) w w').
  { intros [(e & Hi & ->)|([] & w2 & Hi & Hr)]%le_bind_inv; (eapply (confined_trans _ _ false); [by apply confined_same|]).
    - by apply (issue_confined m ids domain id path w1 w' (Err e)).
    - unfold mret, le_ret in Hr. injection Hr as <- <-. by apply (issue_confined m ids domain id path w1 w2 (Ok tt)). }
  destruct status; [|by apply Hissue..]. apply quiet_ret in H as Hs. unfold mret, le_ret in H. simplify_eq.
  by apply confined_same.
Qed.

Lemma reconcile_identity_confined m ids w updated e w' updated' :
  e ∈ ids -> reconcile_identity m w updated e = (w', updated') ->
  exists b, updated' = updated || b /\ confined m ids b w w'.
Proof.
  destruct e as [domain id]. intros He H. unfold reconcile_identity in H. simpl in H.
  destruct (cert id) as [path|pem] eqn:Hcert.
  2: { simplify_eq. exists false. rewrite orb_false_r. split; [done|by apply confined_same]. }
  destruct (path_starts_with _ _) eqn:Hbelow; simpl in H.
  2: { simplify_eq. exists false. rewrite orb_false_r. split; [done|by apply confined_same]. }
  destruct (ensure_certificate _ _ _ _ w) as [w1 r] eqn:Hens.
  apply (ensure_confined m ids domain id path) in Hens; [|done].
  destruct r as [b|err]; simplify_eq; eexists; (split; [|exact Hens]); [done|by rewrite orb_false_r].
Qed.

Lemma reconcile_confined `{Crates} `{HashIter} m router w w' updated :
  reconcile m router w = (w', updated) -> confined m (managed_identities router) updated w w'.
Proof.
  unfold reconcile. set (ids := managed_identities router).
  cut (forall l w u w' u', (forall e, e ∈ l -> e ∈ ids) ->
    foldl (fun '(w, updated) e => reconcile_identity m w updated e) (w, u) l = (w', u') ->
    exists b, u' = u || b /\ confined m ids b w w').
  { intros Hl Hr. destruct (Hl ids w false w' updated) as (b & -> & Hc); [auto|done|]. exact Hc. }
  clear. induction l as [|e l IH]; intros w u w' u' Hin Hr; simpl in Hr.
  - simplify_eq. exists false. rewrite orb_false_r. split; [done|by apply confined_same].
  - destruct (reconcile_identity m w u e) as [w1 u1] eqn:He.
    apply (reconcile_identity_confined m ids) in He as (b1 & -> & H1); [|apply Hin; left].
    apply IH in Hr as (b2 & -> & H2); [|intros; apply Hin; by right].
    exists (b1 || b2). split; [by rewrite orb_assoc|]. eapply confined_trans; eassumption.
Qed.

(** ** The manager in force *)

(** A manager was made for the last configuration. *)
Definition manager_ok (r : Reconciler) : Prop :=
  forall m, rc_manager r = Some m -> exists config, rc_last_config r = Some config /\ lm_cache_dir m = cache_dir_of config.

Lemma manager_ok_start : manager_ok Reconciler_start.
Proof. by intros m. Qed.

(** After a refresh the manager, if there is one, is of the configuration in force. *)
Lemma refresh_spec current r w w' r' :
  manager_ok r -> refresh_manager current r w = (w', r') ->
  manager_ok r' /\ lw_tokens w' = lw_tokens w /\
  (lw_files w' = lw_files w \/ exists config, current = Some config /\ lw_files w !! account_path config = None /\
     exists raw, lw_files w' = <[account_path config := mkLeFile raw 384]> (lw_files w)) /\
  (forall m, rc_manager r' = Some m -> exists config, current = Some config /\ lm_cache_dir m = cache_dir_of config).
Proof.
  intros Hok H. unfold refresh_manager in H. destruct (negb _ || _) eqn:Hneed.
  - destruct current as [config|]; [|simplify_eq; split_and!; [by intros ?|done|by left|done]].
    destruct (with_tokens config w) as [w1 x] eqn:Hw. apply with_tokens_spec in Hw as ((Ht & Hf) & Hm).
    assert (lw_files w1 = lw_files w \/ exists c, Some config = Some c /\ lw_files w !! account_path c = None /\
      exists raw, lw_files w1 = <[account_path c := mkLeFile raw 384]> (lw_files w)) by (destruct Hf; eauto).
    destruct x as [m|e]; simplify_eq; split_and!; try done; intros m' [= <-]; eauto.
  - simplify_eq. split_and!; [done|done|by left|]. intros m Hm. apply orb_false_iff in Hneed as [Hc _].
    apply negb_false_iff, bool_decide_eq_true in Hc as ->. by apply Hok.
Qed.

(** One pass, with the snapshot of its start: what it changes, and for which configuration. *)
Definition pass_confined `{Crates} `{HashIter} (router : CompiledRouter) (updated : bool) (w w' : LeWorld E) : Prop :=
  lw_tokens w' ⊆ lw_tokens w /\
  forall p, lw_files w' !! p = lw_files w !! p \/
    exists config, r_le_config router = Some config /\
      (p = account_path config /\ lw_files w !! p = None /\ (exists raw, lw_files w' !! p = Some (mkLeFile raw 384)) \/
       exists m, lm_cache_dir m = cache_dir_of config /\
         (updated = true /\ renewed m (managed_identities router) (lw_files w') p \/
          key_created m (managed_identities router) (lw_files w) (lw_files w') p)).

Lemma pass_spec `{Crates} `{HashIter} r router w w' r' updated :
  manager_ok r -> reconcile_pass r router w = (w', r', updated) ->
  manager_ok r' /\ pass_confined router updated w w' /\ (updated = true -> is_Some (rc_manager r')).
Proof.
  intros Hok H1. unfold reconcile_pass in H1. destruct (refresh_manager _ r w) as [w1 r1] eqn:Hr.
  apply refresh_spec in Hr as (Hok1 & Ht1 & Hf1 & Hm1); [|done].
  assert (Hpre : forall p, lw_files w1 !! p = lw_files w !! p \/ exists config, r_le_config router = Some config /\
    p = account_path config /\ lw_files w !! p = None /\ exists raw, lw_files w1 !! p = Some (mkLeFile raw 384)).
  { intros p. destruct Hf1 as [->|(c & Hc & Hn & raw & ->)]; [by left|].
    destruct (decide (p = account_path c)) as [->|Hne]; [right|left; by rewrite lookup_insert_ne].
    exists c. rewrite lookup_insert_eq. by eauto 10. }
  destruct (rc_manager r1) as [m|] eqn:Hm.
  - destruct (reconcile m router w1) as [w2 u] eqn:Hrec. simplify_eq. apply reconcile_confined in Hrec as [Ht2 Hf2].
    split; [done|]. split; [|by rewrite Hm]. split; [by rewrite <- Ht1|]. intros p.
    destruct (Hm1 m eq_refl) as (config & Hcfg & Hdir).
    destruct (Hf2 p) as [Heq|[Hren|(d&id&cp&path&k&pem&K1&K2&K3&K4&K5&K6)]].
    + rewrite Heq. destruct (Hpre p) as [?|(c&?&?&?&?)]; [by left|right]. exists c. split; [done|]. left. auto.
    + right. exists config. split; [done|]. right. exists m. eauto.
    + right. exists config. split; [done|]. right. exists m. split; [done|right].
      exists d, id, cp, path, k, pem. split_and!; try done. destruct K4 as [?|K4]; [by left|right].
      destruct (Hpre p) as [?|(c&?&?&?&?&?)]; [congruence|done].
  - simplify_eq. split; [done|]. split; [|done]. split; [by rewrite Ht1|]. intros p.
    destruct (Hpre p) as [?|(c&?&?&?&?)]; [by left|right]. exists c. by eauto 10.
Qed.

Definition Pass_confined `{Crates} `{HashIter} (p : Pass) : Prop :=
  pass_confined (pass_router p) (pass_updated p) (pass_before p) (pass_after p).

Lemma run_pass_spec `{Crates} `{HashIter} r router w :
  manager_ok r -> Pass_confined (fst (run_pass r router w)) /\ manager_ok (snd (run_pass r router w)).
Proof.
  intros Hok. unfold run_pass. destruct (reconcile_pass r router w) as [[w' r'] u] eqn:Hp.
  by apply pass_spec in Hp as (? & ? & _).
Qed.

Lemma service_loop_spec `{Crates} `{HashIter} events shutdown r :
  manager_ok r -> Forall Pass_confined (service_loop events shutdown r).
Proof.
  revert shutdown r. induction events as [|[ok value|router w sd] events IH]; intros [] r Hok; try constructor; simpl.
  - destruct (negb ok || value); [constructor|]. by apply IH.
  - destruct (run_pass_spec r router w Hok) as [Hc Hr]. destruct (run_pass r router w) as [p r1].
    constructor; [done|by apply IH].
Qed.

Lemma service_start_head `{Crates} `{HashIter} router w shutdown events :
  fst (run_pass Reconciler_start router w) ∈ service_start router w shutdown events.
Proof. unfold service_start. destruct (run_pass _ _ _). left. Qed.

(** What changed an existing file is announced. *)
Lemma pass_announced `{Crates} `{HashIter} p path f :
  Pass_confined p -> path <> [] -> lw_files (pass_before p) !! path = Some f -> lw_files (pass_after p) !! path <> Some f ->
  pass_updated p = true.
Proof.
  intros [_ Hf] Hne Hb Ha. destruct (Hf path) as [Heq|(c & _ & [(_ & Hn & _)|(m & _ & [[? _]|(?&?&?&kp&?&?&_&_&->&[->|Hn]&_)])])].
  - congruence.
  - congruence.
  - done.
  - done.
  - congruence.
Qed.

(** *** The files that validation regards as owned *)

(** The certificate and key that the configuration generates for a domain. *)
Definition generated_file (config : LetsEncryptConfig) (p : list string) : Prop :=
  exists domain, is_ok (validate_hostname domain) = true /\
    (p = components (path_join (path_join (cache_dir_of config) domain) "fullchain.pem") \/
     p = components (path_join (path_join (cache_dir_of config) domain) "privkey.pem")).
(** The only certificates configured below the cache directory are generated ones. *)
Definition only_generated `{Crates} `{HashIter} (router : CompiledRouter) (config : LetsEncryptConfig) : Prop :=
  forall k t domain id path, r_listener_tls router !! k = Some t -> tls_named t !! domain = Some id -> cert id = PemPath path ->
    path_starts_with (cache_dir_of config) path = true -> is_le_identity router t id = true.

Lemma managed_identities_named `{Crates} `{HashIter} (router : CompiledRouter) domain id :
  (domain, id) ∈ managed_identities router -> exists k t, r_listener_tls router !! k = Some t /\ tls_named t !! domain = Some id.
Proof.
  unfold managed_identities. intros (t & Hid & Ht)%list_elem_of_bind. apply elem_of_iter_values in Ht as [k Hk].
  exists k, t. split; [done|]. rewrite (iter_perm _ _ (tls_named t)) in Hid. by apply elem_of_map_to_list in Hid.
Qed.

Lemma is_le_identity_files `{Crates} `{HashIter} (router : CompiledRouter) t id config :
  r_le_config router = Some config -> is_le_identity router t id = true ->
  (forall path, cert id = PemPath path -> generated_file config (components path)) /\
  (forall path, key id = PemPath path -> generated_file config (components path)).
Proof.
  unfold is_le_identity, generated_file, cache_dir_of. intros -> (domain & _ & Hd)%existsb_exists.
  apply andb_true_iff in Hd as [[Hv Hc]%andb_true_iff Hk]. apply bool_decide_eq_true in Hc, Hk.
  split; intros path Hp; exists domain; (split; [done|]); [left|right]; congruence.
Qed.

Lemma pass_generated `{Crates} `{HashIter} (p : Pass) config path :
  Pass_confined p -> r_le_config (pass_router p) = Some config -> only_generated (pass_router p) config ->
  lw_files (pass_after p) !! path <> lw_files (pass_before p) !! path -> path = account_path config \/ generated_file config path.
Proof.
  intros [_ Hf] Hc Hg Hne.
  assert (forall m domain id cp, lm_cache_dir m = cache_dir_of config -> in_cache_dir m (managed_identities (pass_router p)) domain id cp ->
    exists t, is_le_identity (pass_router p) t id = true) as Hle.
  { intros m domain id cp Hm (Hin & Hcp & Hs). apply managed_identities_named in Hin as (k & t & Hk & Ht). exists t.
    apply (Hg k t domain id cp); [done..|]. by rewrite <- Hm. }
  destruct (Hf path) as [?|(c & Hc' & Hch)]; [done|]. rewrite Hc in Hc'. injection Hc' as <-.
  destruct Hch as [(-> & _)|(m & Hm & [[_ (d & id & cp & _ & _ & Hi & -> & _)]|(d & id & cp & kp & _ & _ & Hi & Hk & -> & _)])]; [by left|right..];
    destruct (Hle m d id cp Hm Hi) as [t Ht]; destruct (is_le_identity_files _ t id config Hc Ht) as [Hcf Hkf].
  - apply Hcf, Hi.
  - by apply Hkf.
Qed.

(** ** Claims *)

(** C12: one managed certificate.  [ensure_certificate] touches nothing when the
    certificate is fresh; when it reports a change, the file holds, readable by its owner
    only, the certificate that the ACME server issued for the domain in an order whose
    HTTP-01 challenge was announced and validated while its answer was being served;
    when it fails, the old certificate is still in place.  In every case no challenge
    answer outlives the call, and an existing private key is not overwritten.  The last
    two need the key to be configured under another path than the certificate's. *)
Theorem certificate_renewal m domain cert_path src w w' r :
  ensure_certificate m domain cert_path src w = (w', r) ->
  lw_tokens w' ⊆ lw_tokens w /\
  (forall path f, src = PemPath path -> path <> "" -> components path <> components cert_path ->
     lw_files w !! components path = Some f -> lw_files w' !! components path = Some f) /\
  match r with
  | Ok false => same w w'
  | Ok true => exists pem, issued m domain (lw_tokens w) pem /\ lw_files w' !! components cert_path = Some (mkLeFile pem 384)
  | Err _ => (forall path, src = PemPath path -> components path <> components cert_path) ->
             lw_files w' !! components cert_path = lw_files w !! components cert_path
  end.
Proof.
  intros H. unfold ensure_certificate in H.
  apply le_bind_inv in H as [(e & Hc & ->)|(status & w1 & Hc & H)]; apply quiet_check in Hc as [Hf Ht].
  { rewrite Hf, Ht. auto. }
  destruct status.
  1: { unfold mret, le_ret in H. simplify_eq. unfold same. rewrite Hf, Ht. auto. }
  all: apply le_bind_inv in H as [(e & Hi & ->)|([] & w2 & Hi & H)];
    [|unfold mret, le_ret in H; injection H as <- <-]; apply issue_spec in Hi as (Htok & files1 & Hk & Hr);
    rewrite Ht in *; rewrite Hf in Hk; split; try (by apply tokens_shrink).
  all: pose proof (key_written_keeps _ _ _ Hk) as [Hkeep Hother].
  all: try (rewrite Hr; split; [by eauto|by eauto]).
  all: destruct Hr as (pem & Hi & ->); split; [intros; rewrite lookup_insert_ne by congruence; by eauto|].
  all: exists pem; by rewrite lookup_insert_eq.
Qed.

(** C13: the reconciler, over its whole life.  Whatever snapshots are in force at its ticks
    and whatever the ACME server, OpenSSL and the file system answer, each pass adds no
    challenge answer that it leaves behind and changes no file but these: the account of
    the configuration in force and the keys of the identities it looks after, where there
    was none, and the certificates of those identities that were issued for their
    domains; all readable by their owner only.  It looks after every named identity whose
    certificate lies below the configuration's cache directory, one put there by hand
    included; when all of those are identities that the validation of snapshots
    recognises as generated, it changes no file but the account and the [fullchain.pem]
    and [privkey.pem] of domains below the cache directory.  And when a file that existed
    has changed, the pass ends by invalidating the TLS material, so that handshakes load
    it again. *)
Theorem reconciler_confined `{RuntimeDeps} `{HashIter} router w shutdown events p :
  p ∈ service_start router w shutdown events ->
  pass_confined (pass_router p) (pass_updated p) (pass_before p) (pass_after p) /\
  (forall config path, r_le_config (pass_router p) = Some config -> only_generated (pass_router p) config ->
     lw_files (pass_after p) !! path <> lw_files (pass_before p) !! path -> path = account_path config \/ generated_file config path) /\
  (forall path f s, path <> [] -> lw_files (pass_before p) !! path = Some f -> lw_files (pass_after p) !! path <> Some f ->
     st_tls_material_generation (reconcile_finish (pass_updated p) s) <> st_tls_material_generation s).
Proof.
  intros Hp. assert (Hc : Pass_confined p).
  { revert Hp. unfold service_start. destruct (run_pass_spec Reconciler_start router w manager_ok_start) as [Hc Hr].
    destruct (run_pass _ _ _) as [p0 r]. intros [->|Hin]%elem_of_cons; [done|].
    by eapply Forall_forall in Hin; [|apply service_loop_spec]. }
  split; [done|]. split; [intros config path; by apply pass_generated|].
  intros path f s Hne Hb Ha. rewrite (pass_announced p path f) by done. simpl.
  apply wrapping_add64_next.
Qed.
End le.
