(* ===== verification/Admin.v ===== *)
(** * The admin listener (crates/ngxora-runtime/src/admin.rs)

    Metrics, liveness and readiness over HTTP.  The Prometheus application, which writes
    out the registry, and the readiness of a running group's backends are parameters;
    readiness of the configuration is [Server]'s, replacing the readiness gauges is
    [Metrics]'s. *)

From S2P Require Import Prelude RustStr NetAddr BTree Metrics Crates Headers Ir Types HttpRoutes Routing CompileRouter Control Server.

Open Scope N_scope.

Record AdminResponse := mkAdminResponse { ar_status : N; ar_headers : list (string * string); ar_body : string }.

Inductive AdminRoute := Healthz | Readyz | MetricsRoute | MethodNotAllowed | NotFoundRoute.

Definition route_admin (method path : string) : AdminRoute :=
  if negb (String.eqb method "GET") && negb (String.eqb method "HEAD") then MethodNotAllowed
  else if String.eqb path "/healthz" then Healthz
  else if String.eqb path "/readyz" then Readyz
  else if String.eqb path "/metrics" then MetricsRoute
  else NotFoundRoute.

Section admin.
Context `{RuntimeDeps} `{OpenSsl} `{HashIter}.
(** [RuntimeUpstreamGroup::readiness], the backends as their text, and the response of
    [PrometheusHttpApp]. *)
Context (group_readiness : RuntimeUpstreamGroup -> list (string * bool)) (prometheus : Registry -> AdminResponse).

(** [RuntimeSnapshot::upstream_backend_readiness] *)
Definition upstream_backend_readiness (sn : RuntimeSnapshot) : list (string * string * bool) :=
  iter (sn_upstream_groups sn) ≫= fun '(name, group) => (fun '(backend, ready) => (name, backend, ready)) <$> group_readiness group.

(** What a request works on: the metrics and the series of the last scrape. *)
Definition Telemetry : Type := Registry * gset (string * string).

Definition plain (status : N) (body : string) : AdminResponse :=
  mkAdminResponse status [("content-type", "text/plain"); ("content-length", pretty (str_len body))] body.

Definition respond_for_route (route : AdminRoute) (s : RuntimeState) (t : Telemetry) : Telemetry * AdminResponse :=
  match route with
  | Healthz => (t, plain 200 "OK")
  | Readyz => (t, match router_ready (sn_router (st_current s)) with Ok _ => plain 200 "OK" | Err _ => plain 503 "NOT READY" end)
  | MetricsRoute =>
      let t := replace_upstream_backend_readiness (upstream_backend_readiness (st_current s)) (snd t) (fst t) in
      (t, prometheus (fst t))
  | MethodNotAllowed => (t, mkAdminResponse 405 [("allow", "GET, HEAD"); ("content-type", "text/plain")] "Method Not Allowed")
  | NotFoundRoute => (t, mkAdminResponse 404 [("content-type", "text/plain")] "Not Found")
  end.

(** [AdminHttpApp::response] *)
Definition admin_response (method path : string) (s : RuntimeState) (t : Telemetry) : Telemetry * AdminResponse :=
  let '(t, response) := respond_for_route (route_admin method path) s t in
  (t, if String.eqb method "HEAD" then mkAdminResponse (ar_status response) (ar_headers response) "" else response).

(** ** Properties *)

(** Every listener of the configuration can serve. *)
Definition serves (router : CompiledRouter) : Prop :=
  r_listeners router <> ∅ /\
  forall k, is_Some (r_listeners router !! k) -> ssl k = true ->
    exists t, r_listener_tls router !! k = Some t /\
      (is_Some (tls_default t) \/ tls_named t <> ∅) /\
      forall i, tls_default t = Some i \/ (exists name, tls_named t !! name = Some i) -> usable_identity i.

Definition read_method (method : string) : Prop := method = "GET" \/ method = "HEAD".

Lemma route_admin_read method path : read_method method ->
  route_admin method path = if String.eqb path "/healthz" then Healthz else if String.eqb path "/readyz" then Readyz
    else if String.eqb path "/metrics" then MetricsRoute else NotFoundRoute.
Proof. by intros [-> | ->]. Qed.

Lemma admin_status method path s t :
  ar_status (snd (admin_response method path s t)) = ar_status (snd (respond_for_route (route_admin method path) s t)).
Proof. unfold admin_response. destruct (respond_for_route _ _ _) as [t' r]. simpl. by destruct (String.eqb method "HEAD"). Qed.

(** C37: the admin endpoints.  The liveness probe always succeeds; the readiness probe
    succeeds exactly when the active configuration has a listener and every TLS listener
    has certificates that are readable, match their keys and are within their validity,
    and otherwise answers 503; other methods than GET and HEAD are refused and change
    nothing; and a scrape that runs while no other does ([sw_running w = []]; concurrent
    ones can lose series, [concurrent_scrapes_lose_series]) leaves one readiness series
    per backend of the active snapshot, with its readiness, before the metrics are
    written out. *)
Theorem admin_endpoints method path s w :
  rtc scrape_step scrape_start w ->
  let t := (sw_registry w, sw_previous w) in
  let '(t', r) := admin_response method path s t in
  (~ read_method method -> ar_status r = 405 /\ t' = t) /\
  (read_method method -> path = "/healthz" -> ar_status r = 200) /\
  (read_method method -> path = "/readyz" ->
    (ar_status r = 200 <-> serves (sn_router (st_current s))) /\ (ar_status r = 503 <-> ~ serves (sn_router (st_current s)))) /\
  (read_method method -> path = "/metrics" ->
    ar_status r = ar_status (prometheus (fst t')) /\
    (sw_running w = [] -> forall series, ready_gauge (fst t') series = ready_value <$> readiness_of (upstream_backend_readiness (st_current s)) series)).
Proof.
  intros Hw t. pose proof (admin_status method path s t) as Hst.
  destruct (admin_response method path s t) as [t' r] eqn:Hr. cbn [snd] in Hst. rewrite Hst. clear Hst.
  assert (t' = fst (respond_for_route (route_admin method path) s t)) as ->.
  { unfold admin_response in Hr. destruct (respond_for_route _ _ _). by injection Hr as <- _. }
  split_and!.
  - intros Hm. assert (route_admin method path = MethodNotAllowed) as ->; [|done].
    unfold route_admin. destruct (String.eqb_spec method "GET"); [by destruct Hm; left|].
    by destruct (String.eqb_spec method "HEAD"); [destruct Hm; right|].
  - intros Hm ->. by rewrite route_admin_read.
  - intros Hm ->. rewrite route_admin_read by done. simpl. pose proof (router_ready_exact (sn_router (st_current s))) as Hrd.
    change (r_listeners _ <> ∅ /\ _) with (serves (sn_router (st_current s))) in Hrd.
    destruct (router_ready _) as [[]|err]; simpl; (split; split; [..|]); try done.
    + intros _. by apply Hrd.
    + intros []. by apply Hrd.
    + intros Hs%Hrd. done.
    + intros _ Hs%Hrd. done.
  - intros Hm ->. rewrite route_admin_read by done. split; [done|]. intros Hnone series.
    exact (readiness_exact w _ series Hw Hnone).
Qed.
End admin.
