(* ===== verification/Boot.v ===== *)
(** * Starting the process
    (crates/ngxora-cli/src/main.rs, crates/ngxora-runtime/src/grpc/transport.rs,
    server/client_timeouts.rs)

    From the command line to the running services: the configuration is loaded, the
    listeners are bound, the control planes and the admin endpoint that were asked for
    are started.  The transports' loops and the header deadline of a connection are
    here too. *)

From S2P Require Import Prelude RustStr NetAddr Include BTree Metrics Uds Crates Ir Types HttpRoutes Routing CompileRouter Control Cli Server.

Open Scope N_scope.

(** ** Control planes *)

Record GrpcTlsConfig := mkGrpcTlsConfig { gt_identity : string * string; gt_client_ca : string }.
Definition GrpcTlsConfig_from_pem (server_certificate server_key client_ca : string) : GrpcTlsConfig :=
  mkGrpcTlsConfig (server_certificate, server_key) client_ca.

Definition load_grpc_tls (read : string -> result string string) (files : GrpcTlsFiles) : result string GrpcTlsConfig :=
  certificate ← map_err (fun err => "failed to read gRPC server certificate " +:+ tf_certificate files +:+ ": " +:+ err) (read (tf_certificate files));
  key ← map_err (fun err => "failed to read gRPC server key " +:+ tf_key files +:+ ": " +:+ err) (read (tf_key files));
  client_ca ← map_err (fun err => "failed to read gRPC controller client CA " +:+ tf_client_ca files +:+ ": " +:+ err) (read (tf_client_ca files));
  Ok (GrpcTlsConfig_from_pem certificate key client_ca).

(** Tonic's [ServerTlsConfig], with the setters that are used, and its [Server]. *)
Record ServerTlsConfig := mkServerTlsConfig { tc_identity : option (string * string); tc_client_ca_root : option string; tc_client_auth_optional : bool }.
Definition ServerTlsConfig_new : ServerTlsConfig := mkServerTlsConfig None None false.
Definition set_identity (identity : string * string) (c : ServerTlsConfig) : ServerTlsConfig :=
  mkServerTlsConfig (Some identity) (tc_client_ca_root c) (tc_client_auth_optional c).
Definition set_client_ca_root (ca : string) (c : ServerTlsConfig) : ServerTlsConfig :=
  mkServerTlsConfig (tc_identity c) (Some ca) (tc_client_auth_optional c).
Record GrpcServer := mkGrpcServer { gs_tls : option ServerTlsConfig }.
Definition GrpcServer_builder : GrpcServer := mkGrpcServer None.

(** A control plane: its address, the server behind it, and whether binding is retried. *)
Inductive Plane := GrpcTcp (addr : SocketAddr) (server : GrpcServer) (retry_bind : bool) | GrpcUds (path : string) (server : GrpcServer) (retry_bind : bool).

(** The lifecycle events of Pingora that a control plane watches. *)
Inductive ExecutionPhase := PhSetup | PhBootstrap | PhBootstrapComplete | PhRunning | PhOther.
Inductive PhaseEvent := Phase (p : ExecutionPhase) | PhaseClosed | PhaseLagged (n : N).

(** [stopping]: whether it has returned after these events. *)
Fixpoint stopping (events : list PhaseEvent) : bool :=
  match events with
  | [] => false
  | Phase (PhSetup | PhBootstrap | PhBootstrapComplete | PhRunning) :: events => stopping events
  | Phase PhOther :: _ | PhaseClosed :: _ | PhaseLagged _ :: _ => true
  end.

(** [bind_retry]: the attempts, each with its time; the answer, unless it still retries,
    and the times of its warnings. *)
Fixpoint bind_retry {T} (retry : bool) (last_warning : option N) (attempts : list (N * result IoErr T)) : option (result IoErr T) * list N :=
  match attempts with
  | [] => (None, [])
  | (now, Ok listener) :: _ => (Some (Ok listener), [])
  | (now, Err (AddrInUse m)) :: attempts =>
      if retry then
        if match last_warning with None => true | Some last => 30000000000 <=? now - last end
        then let '(r, warnings) := bind_retry retry (Some now) attempts in (r, now :: warnings)
        else bind_retry retry last_warning attempts
      else (Some (Err (AddrInUse m)), [])
  | (now, Err err) :: _ => (Some (Err err), [])
  end.

(** The future of [spawn_control_plane] and [spawn_control_plane_uds]: binding, then
    serving, which ends as [served] says; [None] while it is pending. *)
Definition plane_future {T} (retry : bool) (attempts : list (N * result IoErr T)) (served : option (result string unit))
  : option (result (IoErr + string) unit) :=
  match fst (bind_retry retry None attempts) with
  | None => None
  | Some (Err err) => Some (Err (inl err))
  | Some (Ok _) => (fun r => map_err inr r) <$> served
  end.

(** [until_shutdown]: the shutdown is looked at first. *)
Inductive PlaneState := PlaneRunning | PlaneStopped | PlaneServed | PlaneFailed (err : IoErr + string).
Definition until_shutdown (phases : list PhaseEvent) (serve : option (result (IoErr + string) unit)) : PlaneState :=
  if stopping phases then PlaneStopped
  else match serve with None => PlaneRunning | Some (Ok _) => PlaneServed | Some (Err err) => PlaneFailed err end.

(** ** The header deadline of a connection *)

(** What [process_new_http] does before it hands the session to Pingora. *)
Inductive HeaderPolicy := PingoraDefault | NoReadTimeout | HeaderDeadline (timeout : N).
Definition header_policy (h1 : bool) (client_header_timeout : option N) : HeaderPolicy :=
  if negb h1 then PingoraDefault
  else match client_header_timeout with
       | None => PingoraDefault
       | Some timeout => if timeout =? 0 then NoReadTimeout else HeaderDeadline timeout
       end.

(** [on_connection_reuse] of the proxy, which Pingora calls when the header of a request is
    read: the data of the connection is the sender of the deadline's channel, or other
    data.  [header] is when the receiver has been woken. *)
Inductive UserContext := HeaderComplete | OtherContext.
Definition on_connection_reuse (now : N) (previous : UserContext) (header : option N) : option N :=
  match previous with HeaderComplete => option_or header (Some now) | OtherContext => header end.

(** The branches of the [select!]: the request finished, the deadline passed, the
    header was complete. *)
Inductive Waited := RequestDone | TimedOut | HeaderRead.
Definition at_of (w : Waited) (done header : option N) (timeout : N) : option N :=
  match w with RequestDone => done | TimedOut => Some timeout | HeaderRead => header end.
(** The branch taken is one that is ready first. *)
Definition first_ready (done header : option N) (timeout : N) (w : Waited) : Prop :=
  exists t, at_of w done header timeout = Some t /\ forall w' t', at_of w' done header timeout = Some t' -> t <= t'.
(** [None] closes the connection. *)
Definition after_wait {A} (w : Waited) (result : option A) : option A :=
  match w with RequestDone | HeaderRead => result | TimedOut => None end.

(** ** [main] *)

Inductive Background := ConfigReload | LeReconciler | GeoIpReload | UpstreamHealthChecks | NrfDiscoveryLoop.

Record Running `{RuntimeDeps} := mkRunning {
  rn_state : RuntimeState;
  rn_proxy : Service;
  rn_background : list Background;
  rn_planes : list Plane;
  rn_admin : option SocketAddr;
  rn_upgrade_sock : option string;
  rn_otel : option string
}.

(** How a start ends: a message and failure, a checked configuration, or the server
    running; [Panicked] is [RuntimeState::new] on a configuration it cannot build. *)
Inductive RunResult `{RuntimeDeps} := Failed (message : LoadErr) | Panicked | Checked | Started (r : Running).

Section boot.
Context `{RuntimeDeps} `{OpenSsl} `{!HashIter}.
(** [std::path::absolute], reading a file, the set-up of the reload service, what tonic
    says to a TLS configuration, and the threads of a server. *)
Context (absolute : string -> result string string) (read : string -> result string string)
  (config_reload_new : result string unit) (tls_config : ServerTlsConfig -> result string unit) (grpc_runtime : result string unit).

Definition grpc_server (tls : GrpcTlsConfig) : result string GrpcServer :=
  let config := set_client_ca_root (gt_client_ca tls) (set_identity (gt_identity tls) ServerTlsConfig_new) in
  _ ← tls_config config;
  Ok (mkGrpcServer (Some config)).

Definition spawn_control_plane (addr : SocketAddr) (tls : GrpcTlsConfig) (retry_bind : bool) : result string Plane :=
  server ← map_err (fun err => "invalid gRPC mTLS configuration: " +:+ err) (grpc_server tls);
  _ ← map_err (fun err => "failed to create gRPC runtime: " +:+ err) grpc_runtime;
  Ok (GrpcTcp addr server retry_bind).
Definition spawn_control_plane_uds (path : string) (retry_bind : bool) : result string Plane :=
  _ ← map_err (fun err => "failed to create gRPC runtime: " +:+ err) grpc_runtime;
  Ok (GrpcUds path GrpcServer_builder retry_bind).

Definition missing_tls : string := "internal error: missing validated gRPC TLS configuration for TCP listener".

(** The control planes of the command line. *)
Definition start_planes (cli : CliArgs) (tls : option GrpcTlsConfig) : result string (list Plane) :=
  tcp ← match grpc_addr cli with
        | Some addr => tls ← ok_or tls missing_tls; plane ← spawn_control_plane addr tls (upgrade cli); Ok [plane]
        | None => Ok []
        end;
  uds ← match grpc_uds cli with
        | Some path => plane ← spawn_control_plane_uds path (upgrade cli); Ok [plane]
        | None => Ok []
        end;
  Ok (tcp ++ uds).

(** A fresh HTTP proxy service ([http_proxy_service]). *)
Definition http_proxy_service : Service := mkService true true None None [].

(** The admin service, on its address. *)
Definition spawn_metrics_service_with_state (addr : SocketAddr) (state : RuntimeState) : result string SocketAddr := Ok addr.

(** [run], from the running state on. *)
Definition start_services (cli : CliArgs) (state : RuntimeState) : result string Running :=
  tls ← transpose (load_grpc_tls read <$> grpc_tls cli);
  _ ← config_reload_new;
  proxy ← map_err (fun err => "failed to bind listeners from config: " +:+ err)
            (bind_listeners http_proxy_service (sn_router (st_current state)));
  planes ← start_planes cli tls;
  admin ← transpose ((fun addr => map_err (fun err => "failed to spawn metrics service: " +:+ err)
                                    (spawn_metrics_service_with_state addr state)) <$> metrics_addr cli);
  Ok (mkRunning _ _ state proxy [ConfigReload; LeReconciler; GeoIpReload; UpstreamHealthChecks; NrfDiscoveryLoop] planes
        admin (upgrade_sock cli) (otel_endpoint cli)).

Definition run `{FileSystem} (cli : CliArgs) : RunResult :=
  match absolute (config_path cli) with
  | Err e => Failed (LoadMessage ("failed to resolve config path: " +:+ e))
  | Ok path =>
      match load_router path with
      | Err e => Failed e
      | Ok router =>
          match RuntimeState_new (mkConfigSnapshot ("file:" +:+ path) router) with
          | Err _ => Panicked
          | Ok state =>
              if check_only cli then Checked
              else match start_services cli state with Err e => Failed (LoadMessage e) | Ok running => Started running end
          end
      end
  end.

(** The command line, then [run]; [None] when the usage is printed. *)
Definition main `{FileSystem} (args : list string) : option RunResult :=
  match parse_cli_args args with
  | Err message => Some (Failed (LoadMessage message))
  | Ok None => None
  | Ok (Some cli) => Some (run cli)
  end.

(** ** Properties *)

(** A server that proves itself with an identity and requires of every client a
    certificate of the authority [ca]. *)
Definition requires_clients_of (server : GrpcServer) (identity : string * string) (ca : string) : Prop :=
  exists config, gs_tls server = Some config /\ tc_identity config = Some identity /\
    tc_client_ca_root config = Some ca /\ tc_client_auth_optional config = false.

(** A control plane that the command line asks for; over TCP its server requires client
    certificates of the authority in the file named there. *)
Definition plane_ok (cli : CliArgs) (p : Plane) : Prop :=
  match p with
  | GrpcTcp addr server retry => grpc_addr cli = Some addr /\ retry = upgrade cli /\
      exists files certificate key ca, grpc_tls cli = Some files /\ read (tf_certificate files) = Ok certificate /\
        read (tf_key files) = Ok key /\ read (tf_client_ca files) = Ok ca /\ requires_clients_of server (certificate, key) ca
  | GrpcUds path server retry => grpc_uds cli = Some path /\ retry = upgrade cli /\ gs_tls server = None
  end.

Lemma load_grpc_tls_ok files tls :
  load_grpc_tls read files = Ok tls ->
  exists certificate key ca, read (tf_certificate files) = Ok certificate /\ read (tf_key files) = Ok key /\
    read (tf_client_ca files) = Ok ca /\ tls = mkGrpcTlsConfig (certificate, key) ca.
Proof. unfold load_grpc_tls. intros Hl. inv_ok. by eauto 10. Qed.

Lemma start_planes_ok cli tls planes :
  args_safe cli -> transpose (load_grpc_tls read <$> grpc_tls cli) = Ok tls -> start_planes cli tls = Ok planes ->
  Forall (plane_ok cli) planes /\ (length planes <= 1)%nat.
Proof.
  intros Hsafe Htls Hp. unfold start_planes in Hp. inv_ok.
  assert (Ht : Forall (plane_ok cli) a /\ (length a <= 1)%nat /\ (grpc_addr cli = None -> a = [])).
  { destruct (grpc_addr cli) as [addr|] eqn:Ha; [|by simplify_eq; split_and!; [constructor|simpl; lia|]].
    apply bind_Ok_inv in Hok as (cfg & Hcfg%ok_or_Ok & Hok). apply bind_Ok_inv in Hok as (plane & Hpl & Hok). injection Hok as <-.
    unfold spawn_control_plane in Hpl. apply bind_Ok_inv in Hpl as (server & Hsv%map_err_Ok & Hpl). apply bind_Ok_inv in Hpl as (? & _ & Hpl). injection Hpl as <-.
    unfold grpc_server in Hsv. apply bind_Ok_inv in Hsv as (? & _ & Hsv). injection Hsv as <-.
    split_and!; [|simpl; lia|done]. constructor; [|constructor]. subst tls.
    destruct (grpc_tls cli) as [files|] eqn:Hf; simpl in Htls; [|done]. destruct (load_grpc_tls read files) as [cfg'|] eqn:Hl; [|done]. injection Htls as ->.
    destruct (load_grpc_tls_ok _ _ Hl) as (certificate & key & ca & ? & ? & ? & ->). split_and!; [done|done|].
    exists files, certificate, key, ca. split_and!; [done..|]. by eexists. }
  assert (Hu : Forall (plane_ok cli) a0 /\ (length a0 <= 1)%nat /\ (grpc_uds cli = None -> a0 = [])).
  { destruct (grpc_uds cli) as [path|] eqn:Ha; [|by simplify_eq; split_and!; [constructor|simpl; lia|]].
    apply bind_Ok_inv in Hok0 as (plane & Hpl & Hok0). injection Hok0 as <-.
    unfold spawn_control_plane_uds in Hpl. apply bind_Ok_inv in Hpl as (? & _ & Hpl). injection Hpl as <-.
    split_and!; [|simpl; lia|done]. constructor; [done|constructor]. }
  destruct Ht as (Ht & Htl & Htn), Hu as (Hu & Hul & Hun). split; [by apply Forall_app|]. rewrite length_app.
  destruct (as_one_transport _ Hsafe) as [Hn|Hn]; [rewrite (Htn Hn)|rewrite (Hun Hn)]; simpl; lia.
Qed.

(** The error for a TCP control plane without TLS is never seen. *)
Lemma start_planes_tls cli tls e :
  args_safe cli -> transpose (load_grpc_tls read <$> grpc_tls cli) = Ok tls -> start_planes cli tls = Err e -> e <> missing_tls.
Proof.
  intros Hsafe Htls Hp ->. unfold start_planes in Hp.
  assert (Hgot : is_Some (grpc_addr cli) -> is_Some tls).
  { intros Ha%(as_grpc_tls _ Hsafe). destruct Ha as [files Hf]. rewrite Hf in Htls. simpl in Htls.
    destruct (load_grpc_tls read files); [|done]. injection Htls as <-. by eexists. }
  destruct (grpc_addr cli) as [addr|].
  - destruct Hgot as [cfg ->]; [by eexists|]. simpl in Hp. unfold spawn_control_plane, spawn_control_plane_uds in Hp.
    destruct (grpc_server cfg) as [sv|]; simpl in Hp; [|done]. destruct grpc_runtime; simpl in Hp; [|done].
    by destruct (grpc_uds cli).
  - simpl in Hp. unfold spawn_control_plane_uds in Hp. destruct (grpc_uds cli); simpl in Hp; [|done]. by destruct grpc_runtime.
Qed.

(** C21: a process that starts is configured as its command line says.  It serves the
    state of its configuration file, with exactly the listeners of that configuration
    bound under their TLS policies; the server of a control plane over TCP is set up to
    require of its clients certificates of the authority whose file is named on the
    command line, and there is at most one control plane; the unauthenticated admin endpoint leaves the loopback interface only
    when asked to explicitly; and the internal error for a TCP control plane without
    TLS cannot occur. *)
Theorem startup_safe `{FileSystem} args :
  (forall r, main args = Some (Started r) ->
    exists cli path, parse_cli_args args = Ok (Some cli) /\ absolute (config_path cli) = Ok path /\
      boot _ path = Some (rn_state r) /\
      Forall2 (bound (sn_router (st_current (rn_state r)))) (sorted_listener_keys (sn_router (st_current (rn_state r)))) (sv_endpoints (rn_proxy r)) /\
      Forall (plane_ok cli) (rn_planes r) /\ (length (rn_planes r) <= 1)%nat /\
      (forall a, rn_admin r = Some a -> is_loopback (sa_ip a) = true \/ unsafe_admin_listen cli = true)) /\
  (forall cli tls e, parse_cli_args args = Ok (Some cli) -> transpose (load_grpc_tls read <$> grpc_tls cli) = Ok tls ->
    start_planes cli tls = Err e -> e <> missing_tls).
Proof.
  split.
  - intros r Hm. unfold main in Hm. destruct (parse_cli_args args) as [[cli|]|] eqn:Hcli; [|done|by injection Hm].
    injection Hm as Hm. pose proof (cli_args_safe args cli Hcli) as Hsafe. unfold run in Hm.
    destruct (absolute (config_path cli)) as [path|] eqn:Hpath; [|done].
    destruct (load_router path) as [router|] eqn:Hload; [|done].
    destruct (RuntimeState_new _) as [state|] eqn:Hstate; [|done]. destruct (check_only cli); [done|].
    destruct (start_services cli state) as [running|] eqn:Hstart; [|done]. injection Hm as <-.
    unfold start_services in Hstart. apply bind_Ok_inv in Hstart as (tls & Htls & Hstart).
    apply bind_Ok_inv in Hstart as (? & _ & Hstart). apply bind_Ok_inv in Hstart as (proxy & Hproxy%map_err_Ok & Hstart).
    apply bind_Ok_inv in Hstart as (planes & Hplanes & Hstart). apply bind_Ok_inv in Hstart as (admin & Hadmin & Hstart). injection Hstart as <-.
    assert (admin = metrics_addr cli) as -> by (unfold spawn_metrics_service_with_state in Hadmin; destruct (metrics_addr cli); simpl in Hadmin; congruence). simpl.
    exists cli, path. split_and!; [done|done| | | | |by apply (as_admin _ Hsafe)].
    + unfold boot. by rewrite Hload, Hstate.
    + unfold bind_listeners in Hproxy. apply bind_Ok_inv in Hproxy as (svc & Hsvc & Hb). apply bind_all_Ok in Hb as (_ & es & He & Hall).
      rewrite He. unfold configure_proxy_service in Hsvc. simpl in Hsvc. injection Hsvc as <-. done.
    + by eapply start_planes_ok.
    + by eapply start_planes_ok.
  - intros cli tls e Hcli%cli_args_safe. by apply start_planes_tls.
Qed.
End boot.

(** *** Transports *)

(** A busy address is the only error that is retried, and only during an upgrade. *)
Definition decisive {T} (retry : bool) (a : N * result IoErr T) : bool :=
  match snd a with Err (AddrInUse _) => negb retry | _ => true end.

(** The answer of [bind_retry] is that of the first attempt that is decisive. *)
Theorem bind_retry_first_decisive {T} retry last (attempts : list (N * result IoErr T)) :
  fst (bind_retry retry last attempts) = snd <$> List.find (decisive retry) attempts.
Proof.
  revert last. induction attempts as [|[now r] attempts IH]; intros last; [done|]. simpl. unfold decisive at 1. simpl.
  destruct r as [l|[]]; try done. destruct retry; simpl; [|done].
  case_match; [|done]. specialize (IH (Some now)). destruct (bind_retry true (Some now) attempts). exact IH.
Qed.

(** A control plane stops at the first event that is not part of starting up. *)
Definition starting_up (e : PhaseEvent) : bool :=
  match e with Phase (PhSetup | PhBootstrap | PhBootstrapComplete | PhRunning) => true | _ => false end.
Theorem stopping_exact events : stopping events = true <-> exists e, e ∈ events /\ starting_up e = false.
Proof.
  induction events as [|e events IH]; cbn [stopping].
  - split; [done|]. by intros (e & ?%not_elem_of_nil & _).
  - destruct (starting_up e) eqn:He.
    + transitivity (stopping events = true); [by destruct e as [[]| |]|]. rewrite IH.
      split; intros (x & Hx & Hn); exists x; (split; [|done]); [by right|]. apply elem_of_cons in Hx as [->|Hx]; [congruence|done].
    + split; [|by destruct e as [[]| |]]. intros _. exists e. split; [left|done].
Qed.

(** A control plane stops with the process in whatever state it is, a bind that is still
    retried included; otherwise it keeps trying while every attempt finds the address
    busy during an upgrade, and fails with the first other error. *)
Theorem plane_follows_process {T} phases retry (attempts : list (N * result IoErr T)) served :
  let p := until_shutdown phases (plane_future retry attempts served) in
  (p = PlaneStopped <-> exists e, e ∈ phases /\ starting_up e = false) /\
  ((forall e, e ∈ phases -> starting_up e = true) ->
    (Forall (fun a => decisive retry a = false) attempts -> p = PlaneRunning) /\
    (forall err, p = PlaneFailed (inl err) <-> snd <$> List.find (decisive retry) attempts = Some (Err err))).
Proof.
  cbv zeta. unfold until_shutdown, plane_future. rewrite bind_retry_first_decisive. pose proof (stopping_exact phases) as Hs. split.
  - rewrite <- Hs. destruct (stopping phases); [done|]. destruct (List.find _ _) as [[n [|]]|]; simpl; [|done..].
    by destruct served as [[]|].
  - intros Hup. destruct (stopping phases).
    { destruct (proj1 Hs eq_refl) as (e & He & Hf). rewrite (Hup e He) in Hf. done. }
    split.
    + intros Hall. destruct (List.find _ _) as [a|] eqn:Ef; [|done]. apply find_some in Ef as [Hin Hd].
      apply list_elem_of_In in Hin. eapply Forall_forall in Hall; [|done]. congruence.
    + intros err. destruct (List.find _ _) as [[n [|e]]|]; simpl; [|naive_solver..]. destruct served as [[]|]; simpl; naive_solver.
Qed.

(** *** Header deadlines *)

(** A connection whose header is not complete by the deadline is closed, and one whose
    header is complete before it is never closed by it. *)
Theorem header_deadline_exact {A} done header timeout w (result : option A) :
  first_ready done header timeout w ->
  ((forall t, done = Some t -> timeout < t) -> (forall t, header = Some t -> timeout < t) -> after_wait w result = None) /\
  ((exists t, header = Some t /\ t < timeout) -> after_wait w result = result).
Proof.
  intros (t & Ht & Hmin). split.
  - intros Hd Hh. pose proof (Hmin TimedOut timeout eq_refl) as Hle. destruct w; simpl in *; [|done|].
    + specialize (Hd t Ht). lia.
    + specialize (Hh t Ht). lia.
  - intros (th & -> & Hlt). pose proof (Hmin HeaderRead th eq_refl) as Hle. destruct w; simpl in *; [done| |done].
    injection Ht as <-. lia.
Qed.

(** So a header that Pingora has read before the deadline keeps its connection. *)
Theorem header_in_time_kept {A} done now timeout w (result : option A) :
  now < timeout -> first_ready done (on_connection_reuse now HeaderComplete None) timeout w -> after_wait w result = result.
Proof.
  intros Hlt (t & Ht & Hmin). pose proof (Hmin HeaderRead now eq_refl) as Hle. destruct w; [done| |done]. injection Ht as <-. lia.
Qed.
