(* ===== verification/ServerSamples.v ===== *)
(** * Sample runs of the server's certificates

    A toy OpenSSL, in which a certificate and its key are the text of their PEM, and a
    toy ACME server that validates the challenge it finds among the served tokens; with
    them, the theorems of [Server], [TlsResolver] and [Acme] on concrete listeners,
    handshakes and renewals. *)

From S2P Require Import Prelude RustStr NetAddr Crates BTree Ir Types HttpRoutes Routing CompileRouter Control Include Cli Server TlsResolver Acme Metrics Admin Boot.

Open Scope N_scope.

Module ServerSample.
#[export] Instance order : HashIter := iter_forward.
#[export] Instance openssl : OpenSsl := {|
  tls_file_read path := Ok path; X509 := string; PKey := string; PubKey := string;
  stack_from_pem pem := Ok [pem]; Server.private_key_from_pem pem := Ok pem; x509_public_key c := Ok c;
  public_eq c k := String.eqb c k; Asn1Time := N; days_from_now n := Ok n; not_before _ := 0; not_after _ := 1;
  asn1_compare a b := Ok (N.compare a b); set_proto_version _ := Ok tt; set_ca_file _ := Ok tt
|}.
#[export] Instance install : SslInstall :=
  {| ssl_use_certificate _ _ := Ok tt; ssl_use_private_key _ _ := Ok tt; ssl_add_chain_cert _ _ := Ok tt |}.

Definition listener : ListenKey := ToyDeps.key.
Definition identity (name : string) : TlsIdentity := mkTlsIdentity (PemPath ("/certs/" +:+ name)) (PemPath ("/keys/" +:+ name)).
(** An exact name, two wildcards, a default. *)
Definition tls : ListenerTlsConfig :=
  mkListenerTlsConfig
    {[ "a.example.org" := identity "a"; "*.example.org" := identity "wild"; "*.b.example.org" := identity "deep" ]}
    (Some (identity "default")) (ListenerTlsSettings_from DownstreamTlsOptions_default).

Definition service : Service := mkService true true None None [].

(** The contents of every file name the version they were written at. *)
Definition files (v : N) (path : string) : result string string := Ok (pretty v).
Definition snapshot : RuntimeSnapshot := st_current ToyDeps.the_state.
(** A handshake before the renewal has filled the cache; the certificate is written and
    activated, a second handshake starts, and another write falls between its two reads. *)
Definition generation : N := st_tls_material_generation ToyDeps.the_state.
Definition h1 : Handshake := mkHandshake snapshot generation None.
Definition callback (v v' : N) (h : @Handshake Toy.crates ToyDeps.deps) (cache : LoadedTlsIdentityCache) :=
  certificate_callback (files v) (files v') listener h cache (ssl_new h).
Definition w0 : TlsWorld := tls_start 0 ToyDeps.the_state.
Definition activated0 : gmap N N := tw_activated w0.
Definition opened : list (RuntimeSnapshot * option string) := [(snapshot, None)].
Definition done1 := (h1, snd (callback 0 0 h1 (tw_cache w0))).
Definition cache1 : LoadedTlsIdentityCache := fst (callback 0 0 h1 (tw_cache w0)).
Definition renewed_state : RuntimeState := invalidate_tls_material ToyDeps.the_state.
Definition activated1 : gmap N N := <[st_tls_material_generation renewed_state := 1]> activated0.
Definition h2 : Handshake := mkHandshake snapshot (st_tls_material_generation renewed_state) None.
Definition done2 := (h2, snd (callback 1 2 h2 cache1)).
Definition world_of (version : N) (state : RuntimeState) (activated : gmap N N) (handshakes : list Handshake)
    (cache : LoadedTlsIdentityCache) (locked : option (Handshake * N)) (done : list (Handshake * SslRef)) : TlsWorld :=
  mkTlsWorld version state activated [snapshot] opened handshakes cache locked done.
Definition s0 : RuntimeState := ToyDeps.the_state.
Definition w1 : TlsWorld := world_of 0 s0 activated0 [] (tw_cache w0) None [].
Definition w2 : TlsWorld := world_of 0 s0 activated0 [h1] (tw_cache w0) None [].
Definition w3 : TlsWorld := world_of 0 s0 activated0 [h1] (tw_cache w0) (Some (h1, 0)) [].
Definition w4 : TlsWorld := world_of 0 s0 activated0 [h1] cache1 None [done1].
Definition w5 : TlsWorld := world_of 1 s0 activated0 [h1] cache1 None [done1].
Definition w6 : TlsWorld := world_of 1 renewed_state activated1 [h1] cache1 None [done1].
Definition w7 : TlsWorld := world_of 1 renewed_state activated1 [h2; h1] cache1 None [done1].
Definition w8 : TlsWorld := world_of 1 renewed_state activated1 [h2; h1] cache1 (Some (h2, 1)) [done1].
Definition w9 : TlsWorld := world_of 2 renewed_state activated1 [h2; h1] cache1 (Some (h2, 1)) [done1].
Definition w10 : TlsWorld := world_of 2 renewed_state activated1 [h2; h1] (fst (callback 1 2 h2 cache1)) None [done2; done1].
Lemma w10_reached : rtc (tls_step files listener) w0 w10.
Proof.
  apply (rtc_l _ _ w1); [exact (tls_open files listener w0 None)|].
  apply (rtc_l _ _ w2); [exact (tls_begin files listener w1 snapshot None ltac:(left))|].
  apply (rtc_l _ _ w3); [exact (tls_lock files listener w2 h1 ltac:(left) eq_refl)|].
  apply (rtc_l _ _ w4); [exact (tls_finish files listener w3 h1 0 cache1 (snd done1) eq_refl (surjective_pairing _))|].
  apply (rtc_l _ _ w5); [exact (tls_write files listener w4)|].
  apply (rtc_l _ _ w6); [exact (tls_invalidate files listener w5 eq_refl)|].
  apply (rtc_l _ _ w7); [exact (tls_begin files listener w6 snapshot None ltac:(left))|].
  apply (rtc_l _ _ w8); [exact (tls_lock files listener w7 h2 ltac:(left) eq_refl)|].
  apply (rtc_l _ _ w9); [exact (tls_write files listener w8)|].
  apply rtc_once. exact (tls_finish files listener w9 h2 1 _ _ eq_refl (surjective_pairing _)).
Qed.

(** An ACME server whose validation succeeds while the challenge's answer is served. *)
#[export] Instance acme_env : AcmeEnv unit := {|
  io e _ _ := (e, Ok tt); Account := unit; Order := string; Challenge := string; Key := string; Cert := string;
  acme_builder e := (e, Ok tt); from_credentials e _ := (e, Ok tt); credentials_parse s := Ok s;
  acme_create e _ _ := (e, Ok (tt, Ok "credentials")); new_order e _ domain := (e, Ok domain);
  next_authorization e order := (e, Some (Ok (Some order))); acme_token c := "token of " +:+ c; key_authorization c := "answer of " +:+ c;
  set_ready e _ _ := (e, Ok tt);
  poll_ready e tokens order :=
    (e, Ok (if bool_decide (tokens !! ("token of " +:+ order) = Some ("answer of " +:+ order)) then OrderReady else OrderOther "Invalid"));
  finalize_csr e _ _ := (e, Ok tt); poll_certificate e order := (e, Ok ("certificate of " +:+ order));
  cert_from_pem s := Ok s; expires_within _ c _ := Ok (String.eqb c "old");
  EcGroup := unit; EcKey := unit; X509Req := unit; Extension := unit; ec_group_prime256v1 := Ok tt;
  ec_key_generate e _ := (e, Ok tt); pkey_from_ec_key _ := Ok "key"; private_key_to_pem_pkcs8 k := Ok k; private_key_from_pem k := Ok k;
  req_builder := Ok tt; set_pubkey _ _ := Ok tt; extension_stack := Ok []; san_build _ _ := Ok tt; stack_push l x := Ok (x :: l);
  add_extensions _ _ := Ok tt; sign_sha256 e _ _ := (e, Ok tt); req_to_der _ := Ok "csr"
|}.
Definition cert_file : string := "/var/certs/a.example.org/cert.pem".
Definition key_file : string := "/var/certs/a.example.org/key.pem".
Definition manager : LeManager := mkLeManager tt "/var/certs".
(** An expiring certificate, with its key. *)
Definition world : LeWorld unit :=
  mkLeWorld {[ components cert_file := mkLeFile "old" 384; components key_file := mkLeFile "my key" 384 ]} ∅ tt.
Definition renewal := ensure_certificate manager "a.example.org" cert_file (PemPath key_file) world.
(** The sample router with an ACME configuration and a managed name. *)
Definition acme_router : @CompiledRouter Toy.crates :=
  let r := RouterSample.router in
  mkCompiledRouter (r_geoip r) (r_scp_profiles r) (r_upstreams r) (r_listeners r) (r_listener_protocols r)
    {[ listener := mkListenerTlsConfig {[ "a.example.org" := mkTlsIdentity (PemPath cert_file) (PemPath key_file) ]} None
                     (ListenerTlsSettings_from DownstreamTlsOptions_default) ]}
    (r_http_options r) (Some (mkLetsEncryptConfig None (Some "ops@example.org") (Some "/var/certs"))).
(** The first pass of the service. *)
Definition first_pass : @Pass unit Toy.crates := fst (run_pass Reconciler_start acme_router world).
End ServerSample.
Import ServerSample.

Lemma handshake_certificate_witness :
  select_listener_tls listener tls (Some "X.B.example.org") = Ok (identity "deep") /\
  (forall i, tls_named tls !! "a.example.org" = Some i -> identity "a" = i) /\
  default_listener_tls listener tls = Ok (identity "default").
Proof.
  split; [reflexivity|]. split.
  - refine (proj2 (handshake_certificate listener tls (Some "A.example.org.") (identity "a") _) "A.example.org." eq_refl).
    vm_compute. reflexivity.
  - refine (proj1 (handshake_certificate listener tls None (identity "default") _)). reflexivity.
Defined.

Lemma listeners_bound_with_policy_witness :
  exists svc' (es : list (string * option TlsSettings)), bind_listeners service RouterSample.router = Ok svc' /\ sv_endpoints svc' = es /\
    Forall2 (bound RouterSample.router) (sorted_listener_keys RouterSample.router) es.
Proof.
  destruct (proj2 (listeners_bound_with_policy RouterSample.router service)) as [svc' H].
  - apply ToyDeps.router_ok.
  - reflexivity.
  - reflexivity.
  - intros k t Ht. assert (settings t = ListenerTlsSettings_from DownstreamTlsOptions_default) as ->.
    { assert (map_Forall (fun _ t => settings t = ListenerTlsSettings_from DownstreamTlsOptions_default) (r_listener_tls RouterSample.router)) as Hall.
      { apply map_Forall_to_list. vm_compute. repeat constructor. }
      by apply (Hall k t). }
    split; [|done]. by intros b.
  - destruct (proj1 (listeners_bound_with_policy RouterSample.router service) svc' H) as (es & He & Hb & _).
    exists svc', es. split; [exact H|split; [exact He|exact Hb]].
Defined.

Lemma handshake_certificate_fresh_witness :
  exists identity v v' l, 1 <= v /\ v <= v' <= 2 /\ ssl_certificate (snd done2) = Some "1" /\ ssl_private_key (snd done2) = Some "2" /\
    load (files v) (files v') listener (cert identity) (Ir.key identity) = Ok l /\
    li_cert l = "1" /\ li_key l = "2".
Proof.
  pose proof (handshake_certificate_fresh files listener 0 ToyDeps.the_state w10 h2 (snd done2) w10_reached ltac:(left)) as [_ Hp].
  assert (ssl_certificate (snd done2) = Some "1" /\ ssl_private_key (snd done2) = Some "2") as (Hc & Hk)
    by (split_and!; vm_compute; reflexivity).
  assert (tw_activated w10 !! hd_material_generation h2 = Some 1) as Hg by (vm_compute; reflexivity).
  generalize dependent (snd done2). intros ssl Hp Hc Hk.
  destruct Hp as [Hp|(t & id & since & v & v' & l & _ & _ & Hs & Hle & Hv & Hl & Hi & _)]; [subst ssl; discriminate Hc|].
  rewrite Hg in Hs. injection Hs as <-. exists id, v, v', l. unfold installed in Hi. rewrite Hc, Hk in Hi. destruct Hi as (E1 & E2 & _).
  split_and!; [exact Hle|apply Hv|apply Hv|exact Hc|exact Hk|exact Hl|by rewrite E1|by rewrite E2].
Defined.

Lemma certificate_renewal_witness :
  lw_tokens (fst renewal) ⊆ ∅ /\ lw_files (fst renewal) !! components key_file = Some (mkLeFile "my key" 384) /\
  exists pem, issued manager "a.example.org" ∅ pem /\ lw_files (fst renewal) !! components cert_file = Some (mkLeFile pem 384).
Proof.
  destruct (certificate_renewal manager "a.example.org" cert_file (PemPath key_file) world (fst renewal) (Ok true)) as (Ht & Hk & Hc).
  - vm_compute. reflexivity.
  - split; [exact Ht|]. split; [|exact Hc]. apply (Hk key_file); [reflexivity|discriminate|discriminate|reflexivity].
Defined.

Lemma reconciler_confined_witness :
  lw_files (pass_after first_pass) !! components cert_file = Some (mkLeFile "certificate of a.example.org" 384) /\
  st_tls_material_generation (reconcile_finish (pass_updated first_pass) ToyDeps.the_state) <> st_tls_material_generation ToyDeps.the_state.
Proof.
  split; [vm_compute; reflexivity|].
  destruct (@reconciler_confined unit acme_env Toy.crates ToyDeps.deps order acme_router world false [] first_pass) as (_ & _ & H).
  - apply service_start_head.
  - apply (H (components cert_file) (mkLeFile "old" 384)); [discriminate|reflexivity|vm_compute; discriminate].
Defined.

Definition sample_readiness (g : @RuntimeUpstreamGroup Toy.crates ToyDeps.deps) : list (string * bool) := [("10.0.0.1:80", true)].
Definition scrape := admin_response sample_readiness (fun _ => mkAdminResponse 200 [] "metrics") "GET" "/metrics" ToyDeps.the_state (Registry_empty, ∅).
Lemma admin_endpoints_witness :
  ready_gauge (fst (fst scrape)) ("web", "10.0.0.1:80") = Some 1%Z /\ ar_status (snd scrape) = 200.
Proof.
  pose proof (@admin_endpoints Toy.crates ToyDeps.deps openssl order sample_readiness (fun _ => mkAdminResponse 200 [] "metrics") "GET" "/metrics"
    ToyDeps.the_state scrape_start) as H.
  assert (rtc scrape_step scrape_start scrape_start) as Hr by apply rtc_refl.
  specialize (H Hr). cbn zeta in H.
  destruct (admin_response _ _ "GET" "/metrics" ToyDeps.the_state _) as [t' r] eqn:Hrun. destruct H as (_ & _ & _ & Hm).
  destruct Hm as [Hs Hg]; [by left|done|]. specialize (Hg eq_refl). unfold scrape. change (Registry_empty, ∅) with (sw_registry scrape_start, sw_previous scrape_start).
  rewrite Hrun. split; [|exact Hs]. rewrite Hg. vm_compute. reflexivity.
Defined.

(** The sample command line starts the server. *)
Definition started : option (@RunResult Toy.crates ToyDeps.deps) :=
  @main Toy.crates ToyDeps.deps openssl order (fun p => Ok p) (fun p => Ok p) (Ok tt) (fun _ => Ok tt) (Ok tt) CliSample.fs CliSample.args.
Definition is_started (r : option (@RunResult Toy.crates ToyDeps.deps)) : bool := match r with Some (Started _) => true | _ => false end.
Lemma startup_safe_witness : exists r, started = Some (Started r) /\ (length (rn_planes r) <= 1)%nat.
Proof.
  assert (is_started started = true) as Hs by (vm_compute; reflexivity).
  destruct started as [[| | |r]|] eqn:Hr; try discriminate Hs. exists r. split; [reflexivity|].
  destruct (proj1 (@startup_safe Toy.crates ToyDeps.deps openssl order (fun p => Ok p) (fun p => Ok p) (Ok tt) (fun _ => Ok tt) (Ok tt) CliSample.fs CliSample.args)
    r Hr) as (cli & path & _ & _ & _ & _ & _ & Hl & _).
  exact Hl.
Defined.
