(* ===== verification/GeoIp.v ===== *)
(** * GeoIP lookups (crates/ngxora-runtime/src/geoip.rs)

    A local database is polled and replaced as a whole when its file changed and the
    new one is usable; requests are annotated with what it says about the client. *)

From S2P Require Import Prelude RustStr NetAddr Crates Headers PluginApi Ir Types HttpRoutes Routing ClientIp.

Definition GEOIP_HEADERS : list string := ["x-geoip-city"; "x-geoip-country"; "x-geoip-country-iso"].

Record GeoIpRecord := mkGeoIpRecord {
  geoip_city : option string;
  geoip_country : option string;
  geoip_country_iso : option string
}.
Definition GeoIpRecord_default : GeoIpRecord := mkGeoIpRecord None None None.
Definition geoip_values (r : GeoIpRecord) : list (option string) := [geoip_city r; geoip_country r; geoip_country_iso r].

(** What the file system says of a file; its modification time may be unknown. *)
Record Metadata := mkMetadata {
  md_is_file : bool; md_modified : result string N; md_len : N; md_dev : N; md_ino : N; md_ctime : Z; md_ctime_nsec : Z
}.

(** The [maxminddb] crate and the file system.  A view is what one call on the file
    system is shown; a lookup decodes the English names and the ISO code of the entry. *)
Class GeoDb := {
  Reader : Type;
  FsView : Type;
  fs_metadata : FsView -> string -> result string Metadata;
  open_readfile : FsView -> string -> result string Reader;
  database_type : Reader -> string;
  reader_verify : Reader -> result string unit;
  reader_lookup : Reader -> IpAddr -> result string (option (option string * option string * option string))
}.

(** The identity of a file's contents, on Unix. *)
Record FileStamp := mkFileStamp { modified : N; len : N; identity : N * N * Z * Z }.
#[global] Instance FileStamp_eq_dec : EqDecision FileStamp.
Proof. solve_decision. Defined.

Section geoip.
Context `{Crates} `{HttpErrors} `{GeoDb}.

Record GeoIp := mkGeoIp {
  gi_config : GeoIpConfig;
  gi_reader : option Reader;
  gi_loaded : option FileStamp;
  gi_last_error : option string;
  gi_lookup_error_logged : bool
}.

(** ** Reloading *)

Definition file_stamp (view : FsView) (path : string) : result string FileStamp :=
  metadata ← fs_metadata view path;
  _ ← fail_if (negb (md_is_file metadata)) "database path is not a regular file";
  modified ← md_modified metadata;
  Ok (mkFileStamp modified (md_len metadata) (md_dev metadata, md_ino metadata, md_ctime metadata, md_ctime_nsec metadata)).

Definition supported_types : list string := ["GeoIP2-City"; "GeoLite2-City"; "GeoIP2-Country"; "GeoLite2-Country"].

(** [load_changed]: the file is stamped, read and stamped again, by three calls that
    may each be shown another file. *)
Definition load_changed (g : GeoIp) (before during after : FsView) : result string GeoIp :=
  let path := database (gi_config g) in
  stamp ← file_stamp before path;
  if bool_decide (gi_loaded g = Some stamp) then Ok g
  else
    reader ← open_readfile during path;
    _ ← fail_if (negb (existsb (String.eqb (database_type reader)) supported_types))
          ("unsupported database type `" +:+ database_type reader +:+ "`: expected City or Country");
    _ ← reader_verify reader;
    again ← file_stamp after path;
    _ ← fail_if (negb (bool_decide (again = stamp))) "database changed while reading; retrying on the next poll";
    Ok (mkGeoIp (gi_config g) (Some reader) (Some stamp) (gi_last_error g) false).

Definition refresh (g : GeoIp) (before during after : FsView) : GeoIp :=
  match load_changed g before during after with
  | Ok g => mkGeoIp (gi_config g) (gi_reader g) (gi_loaded g) None (gi_lookup_error_logged g)
  | Err error => mkGeoIp (gi_config g) (gi_reader g) (gi_loaded g) (Some error) (gi_lookup_error_logged g)
  end.

Definition GeoIp_new (config : GeoIpConfig) (before during after : FsView) : GeoIp :=
  refresh (mkGeoIp config None None None false) before during after.

(** ** Lookups *)

Definition non_empty (o : option string) : option string :=
  match o with Some v => if is_empty v then None else Some v | None => None end.
Definition geoip_lookup (reader : Reader) (ip : IpAddr) : result string GeoIpRecord :=
  city ← reader_lookup reader ip;
  match city with
  | None => Ok GeoIpRecord_default
  | Some (city, country, iso) =>
      let record := mkGeoIpRecord (non_empty city) (non_empty country) (non_empty iso) in
      _ ← fail_if (existsb (fun v => match v with Some v => negb (header_value_ok v) | None => false end) (geoip_values record))
            ("invalid GeoIP header value: " +:+ invalid_header_value);
      Ok record
  end.

(** The flag keeps a failure from being logged twice. *)
Definition lookup_ip (g : GeoIp) (ip : option IpAddr) : GeoIp * GeoIpRecord :=
  match ip, gi_reader g with
  | Some ip, Some reader =>
      match geoip_lookup reader ip with
      | Ok record => (g, record)
      | Err _ => (mkGeoIp (gi_config g) (gi_reader g) (gi_loaded g) (gi_last_error g) true, GeoIpRecord_default)
      end
  | _, _ => (g, GeoIpRecord_default)
  end.

Definition lookup_request (g : GeoIp) (peer : option IpAddr) (headers : HeaderMap) : GeoIp * GeoIpRecord :=
  let forwarded := if (length (get_all "x-forwarded-for" headers) =? 1)%nat
                   then header_get "x-forwarded-for" headers ≫= header_to_str else None in
  let ip := resolve_chain peer forwarded (geo_trusted_proxies (gi_config g)) ≫= head in
  lookup_ip g ip.

(** ** Headers *)

Definition remove_headers (request : HeaderMap) : HeaderMap := foldl (fun h name => header_remove name h) request GEOIP_HEADERS.
Definition set_headers (request : HeaderMap) (record : GeoIpRecord) : result PError HeaderMap :=
  try_fold (fun h '(name, value) => match value with Some v => insert_header name v h | None => Ok h end)
    (remove_headers request) (zip GEOIP_HEADERS (geoip_values record)).

Lemma remove_headers_others n request : n ∉ GEOIP_HEADERS -> get_all n (remove_headers request) = get_all n request.
Proof.
  unfold remove_headers. revert request. induction GEOIP_HEADERS as [|m names IH]; intros request Hn; cbn [foldl]; [done|].
  apply not_elem_of_cons in Hn as [Hne Hn]. rewrite IH, get_all_remove by done. destruct (String.eqb_spec m n); [congruence|done].
Qed.

(** ** The background service *)

(** What ends a wait of the loop: a change of the shutdown watch ([ok]: the sender is
    alive; the watch's value), or a tick, with the file system as the three calls of the refresh see it. *)
Inductive GeoEvent := GeShutdown (ok value : bool) | GeTick (before during after : FsView).

Fixpoint geoip_service_run (shutdown : bool) (g : GeoIp) (events : list GeoEvent) : GeoIp :=
  match events with
  | [] => g
  | event :: events =>
      if shutdown then g else
      match event with
      | GeShutdown ok value => if negb ok || value then g else geoip_service_run value g events
      | GeTick before during after => geoip_service_run shutdown (refresh g before during after) events
      end
  end.
Definition GeoIpService_start (shutdown : bool) (geoip : option GeoIp) (events : list GeoEvent) : option GeoIp :=
  (fun g => geoip_service_run shutdown g events) <$> geoip.

(** ** Theorems *)

(** A database in use, when the file system shows [fs t] at time [t]: read from the
    configured file between two moments at which that file had this one stamp, of a
    supported type, verified. *)
Definition usable (fs : N -> FsView) (config : GeoIpConfig) (reader : Reader) (stamp : FileStamp) : Prop :=
  (exists t1 t2 t3, t1 <= t2 <= t3 /\ file_stamp (fs t1) (database config) = Ok stamp /\
     open_readfile (fs t2) (database config) = Ok reader /\ file_stamp (fs t3) (database config) = Ok stamp) /\
  database_type reader ∈ supported_types /\ reader_verify reader = Ok tt.

(** A poll makes its three calls one after the other. *)
Inductive geoip_step (fs : N -> FsView) : GeoIp -> GeoIp -> Prop :=
| geoip_poll g t1 t2 t3 : t1 <= t2 <= t3 -> geoip_step fs g (refresh g (fs t1) (fs t2) (fs t3))
| geoip_ip g ip : geoip_step fs g (fst (lookup_ip g ip)).

Definition geoip_ok (fs : N -> FsView) (config : GeoIpConfig) (g : GeoIp) : Prop :=
  gi_config g = config /\
  match gi_reader g, gi_loaded g with
  | None, None => True
  | Some reader, Some stamp => usable fs config reader stamp
  | _, _ => False
  end.

Lemma load_changed_ok fs config g t1 t2 t3 g' :
  t1 <= t2 <= t3 -> geoip_ok fs config g -> load_changed g (fs t1) (fs t2) (fs t3) = Ok g' -> geoip_ok fs config g'.
Proof.
  intros Ht [<- Hg]. unfold load_changed. intros Hl. apply bind_Ok_inv in Hl as (stamp & Hs & Hl).
  destruct (bool_decide _); [by injection Hl as <-|]. inv_ok. split; [done|]. cbn.
  repeat match goal with Hn : negb _ = false |- _ => apply negb_false_iff in Hn end.
  repeat match goal with Hd : bool_decide (_ = _) = true |- _ => apply bool_decide_eq_true in Hd; subst end.
  split_and!; [by exists t1, t2, t3| |done].
  apply existsb_exists in Hok0 as (t & Hin%list_elem_of_In & ->%String.eqb_eq). done.
Qed.

Lemma geoip_step_ok fs config g g' : geoip_step fs g g' -> geoip_ok fs config g -> geoip_ok fs config g'.
Proof.
  destruct 1 as [g t1 t2 t3 Ht|g ip]; intros Hg.
  - unfold refresh. destruct (load_changed g _ _ _) as [g1|] eqn:E; [|done]. by apply (load_changed_ok fs config) in E.
  - unfold lookup_ip. destruct ip as [ip|], (gi_reader g) eqn:Er; try done. destruct (geoip_lookup _ ip); [done|].
    destruct Hg as [Hc Hg]. split; [done|]. cbn. by rewrite Er in *.
Qed.

(** A poll that succeeds leaves the database loaded under the stamp it found. *)
Lemma load_changed_current g before during after g' :
  load_changed g before during after = Ok g' ->
  exists stamp, file_stamp before (database (gi_config g)) = Ok stamp /\ gi_loaded g' = Some stamp.
Proof.
  unfold load_changed. intros Hl. apply bind_Ok_inv in Hl as (stamp & Hs & Hl). exists stamp. split; [done|].
  case_bool_decide; [by injection Hl as <-|]. by inv_ok.
Qed.

(** C35: lookups never use a broken or torn database: after any sequence of polls and
    lookups, whatever the file system shows each call of a poll, the database in use,
    if any, was read from the configured file between two moments at which the file had
    the same stamp, is of a supported type and verified; a poll that succeeds leaves in
    use the database loaded under the stamp the poll found; and a poll that fails
    keeps the database that worked. *)
Theorem geoip_database_usable fs config t1 t2 t3 g :
  t1 <= t2 <= t3 -> rtc (geoip_step fs) (GeoIp_new config (fs t1) (fs t2) (fs t3)) g ->
  (forall reader, gi_reader g = Some reader -> exists stamp, gi_loaded g = Some stamp /\ usable fs config reader stamp) /\
  (forall v1 v2 v3 g', load_changed g v1 v2 v3 = Ok g' ->
    exists reader stamp, file_stamp v1 (database config) = Ok stamp /\
      gi_loaded (refresh g v1 v2 v3) = Some stamp /\ gi_reader (refresh g v1 v2 v3) = Some reader) /\
  (forall v1 v2 v3 e, load_changed g v1 v2 v3 = Err e ->
    gi_reader (refresh g v1 v2 v3) = gi_reader g /\ gi_loaded (refresh g v1 v2 v3) = gi_loaded g).
Proof.
  intros Ht Hr. assert (geoip_ok fs config g) as [Hc Hg].
  { assert (geoip_ok fs config (GeoIp_new config (fs t1) (fs t2) (fs t3))) as Hnew.
    { unfold GeoIp_new. by apply (geoip_step_ok fs config (mkGeoIp config None None None false)); [constructor|]. }
    revert Hnew. induction Hr as [|x y z Hxy _ IH]; [done|]. intros Hx. apply IH. by eapply geoip_step_ok. }
  split_and!.
  - intros reader E. rewrite E in Hg. destruct (gi_loaded g) as [stamp|]; [|done]. by exists stamp.
  - intros v1 v2 v3 g' E. destruct (load_changed_current _ _ _ _ _ E) as (stamp & Hs & Hl). rewrite Hc in Hs.
    assert (is_Some (gi_reader g')) as [reader Hreader].
    { unfold load_changed in E. rewrite Hc, Hs in E. cbn [mbind result_bind] in E. case_bool_decide; [|by inv_ok].
      injection E as <-. destruct (gi_reader g), (gi_loaded g); done. }
    exists reader, stamp. unfold refresh. rewrite E. done.
  - intros v1 v2 v3 e E. unfold refresh. by rewrite E.
Qed.

(** The service refreshes once per tick until it is told to stop, and never after. *)
Definition stops (event : GeoEvent) : bool := match event with GeShutdown ok value => negb ok || value | GeTick _ _ _ => false end.
Fixpoint until_stop (events : list GeoEvent) : list GeoEvent :=
  match events with [] => [] | e :: events => if stops e then [] else e :: until_stop events end.
Definition tick_views (event : GeoEvent) : option (FsView * FsView * FsView) :=
  match event with GeTick before during after => Some (before, during, after) | GeShutdown _ _ => None end.

Theorem geoip_service_refreshes g events :
  geoip_service_run false g events = foldl (fun g '(before, during, after) => refresh g before during after) g (omap tick_views (until_stop events)) /\
  geoip_service_run true g events = g.
Proof.
  split; [|by destruct events].
  revert g. induction events as [|[ok value|before during after] events IH]; intros g; [done| |apply IH]. cbn.
  destruct ok, value; cbn; [done|apply IH|done..].
Qed.

(** Every record that a lookup returns can be sent as headers. *)
Definition record_ok (record : GeoIpRecord) : Prop := forall v, Some v ∈ geoip_values record -> header_value_ok v = true.

Lemma geoip_lookup_ok reader ip record : geoip_lookup reader ip = Ok record -> record_ok record.
Proof.
  unfold geoip_lookup. destruct (reader_lookup reader ip) as [[[[city country] iso]|]|]; cbn -[existsb geoip_values];
    [|by intros [= <-] v Hv; set_solver|done].
  destruct (existsb _ _) eqn:Hno; [done|]. intros [= <-] v Hv. destruct (header_value_ok v) eqn:E; [done|].
  assert (existsb (fun v => match v with Some v => negb (header_value_ok v) | None => false end)
    (geoip_values (mkGeoIpRecord (non_empty city) (non_empty country) (non_empty iso))) = true) as Hex; [|congruence].
  apply existsb_exists. exists (Some v). split; [by apply list_elem_of_In|]. by rewrite E.
Qed.
Lemma lookup_ip_ok g ip : record_ok (snd (lookup_ip g ip)).
Proof.
  unfold lookup_ip. repeat case_match; try (intros v Hv; cbn in Hv; set_solver). by eapply geoip_lookup_ok.
Qed.

Lemma set_headers_ok request record :
  record_ok record ->
  set_headers request record =
  Ok (foldl (fun h '(name, value) => match value with Some v => header_insert name v h | None => h end)
       (remove_headers request) (zip GEOIP_HEADERS (geoip_values record))).
Proof.
  destruct record as [city country iso]. unfold set_headers, record_ok, GEOIP_HEADERS, geoip_values, insert_header. intros Hok.
  assert (forall v, city = Some v \/ country = Some v \/ iso = Some v -> header_value_ok v = true) as Hv by (intros v Hv; apply Hok; set_solver).
  destruct city, country, iso; cbn; rewrite ?Hv by auto; done.
Qed.

(** the GeoIP headers a backend receives are the database's: whatever the request
    carried, the record that a lookup returned is always accepted, each of the three
    headers holds exactly its value, or is absent when the record has none, and no other
    header changes. *)
Theorem geoip_headers_exact g ip request :
  let record := snd (lookup_ip g ip) in
  exists headers, set_headers request record = Ok headers /\
  get_all "x-geoip-city" headers = option_list (geoip_city record) /\
  get_all "x-geoip-country" headers = option_list (geoip_country record) /\
  get_all "x-geoip-country-iso" headers = option_list (geoip_country_iso record) /\
  forall n, n ∉ GEOIP_HEADERS -> get_all n headers = get_all n request.
Proof.
  intros record. rewrite set_headers_ok by apply lookup_ip_ok. eexists; split; [done|].
  destruct record as [city country iso]. unfold remove_headers, GEOIP_HEADERS, geoip_values. cbn [foldl zip zip_with geoip_city geoip_country geoip_country_iso].
  split_and!; [destruct city, country, iso; rewrite ?get_all_insert, ?get_all_remove; done..|].
  intros n Hn. rewrite !not_elem_of_cons in Hn. destruct Hn as (? & ? & ? & _).
  assert (forall m, n <> m -> String.eqb m n = false) as Hne by (intros m Hm; by apply String.eqb_neq, not_eq_sym).
  destruct city, country, iso; rewrite ?get_all_insert, ?get_all_remove, ?Hne by done; done.
Qed.
End geoip.

Module GeoIpSample.
(** A view is the modification time; even times hold a City database. *)
#[export] Instance db : GeoDb := {|
  Reader := N; FsView := N; fs_metadata v _ := Ok (mkMetadata true (Ok v) 1 1 1 0 0); open_readfile v _ := Ok v;
  database_type r := if N.even r then "GeoLite2-City" else "GeoLite2-ASN"; reader_verify _ := Ok tt;
  reader_lookup _ _ := Ok (Some (Some "Paris", Some "France", Some ""))
|}.
Definition config : @GeoIpConfig Toy.crates := @mkGeoIpConfig Toy.crates "/db" 0 [].
(** The file is replaced at time 3 by one of another type and at time 5 by a good one,
    while the poll at 4 runs. *)
Definition fs (t : N) : N := if t <? 3 then 2 else if t <? 5 then 3 else 6.
Definition g0 : @GeoIp Toy.crates db := @GeoIp_new Toy.crates db config (fs 0) (fs 1) (fs 2).
Definition g1 : @GeoIp Toy.crates db := @refresh Toy.crates db g0 (fs 3) (fs 3) (fs 4).
Definition g2 : @GeoIp Toy.crates db := @refresh Toy.crates db g1 (fs 4) (fs 5) (fs 6).
Definition g3 : @GeoIp Toy.crates db := @refresh Toy.crates db g2 (fs 7) (fs 8) (fs 9).
End GeoIpSample.

Lemma geoip_database_usable_witness :
  @gi_reader _ GeoIpSample.db GeoIpSample.g2 = Some 2%N /\ @gi_reader _ GeoIpSample.db GeoIpSample.g3 = Some 6%N /\
  exists stamp, @usable _ GeoIpSample.db GeoIpSample.fs GeoIpSample.config 6%N stamp.
Proof.
  split; [reflexivity|]. split; [reflexivity|].
  destruct (@geoip_database_usable Toy.crates ToyPlugins.http_errors GeoIpSample.db GeoIpSample.fs GeoIpSample.config 0 1 2 GeoIpSample.g3) as [Hu _].
  - lia.
  - eapply rtc_l; [apply (geoip_poll _ _ 3 3 4); lia|]. eapply rtc_l; [apply (geoip_poll _ _ 4 5 6); lia|].
    apply rtc_once. apply (geoip_poll _ _ 7 8 9). lia.
  - destruct (Hu 6%N) as (stamp & _ & Hs); [reflexivity|]. by exists stamp.
Defined.
