(* ===== verification/Peer.v ===== *)
(** * Upstream peers (crates/ngxora-runtime/src/upstreams/runtime/tls.rs)

    The transport options that a selected route puts on the peer Pingora connects to. *)

From S2P Require Import Prelude RustStr NetAddr Crates Headers Ir Types HttpRoutes Routing Scp.
From S2P Require Import CompileUpstreams CompileRoutes CompileRouter Control Selection.

Open Scope N_scope.

(** The default options of a Pingora peer. *)
Class PeerDefaults := {
  peer_http_version : N * N;
  peer_max_h2_streams : N;
  peer_timeout : option N;
  peer_verify : bool
}.

Section peer.
Context `{RuntimeDeps} `{PeerDefaults}.

(** The parts of [HttpPeer] and its options that are set here or kept from
    [HttpPeer::new]. *)
Record HttpPeer := mkHttpPeer {
  hp_address : string;
  hp_port : N;
  hp_tls : bool;
  hp_sni : string;
  hp_group_key : N;
  hp_connection_timeout : option N;
  hp_read_timeout : option N;
  hp_write_timeout : option N;
  hp_http_version : N * N;
  hp_max_h2_streams : N;
  hp_h2_stream_window_size : option N;
  hp_h2_connection_window_size : option N;
  hp_verify_cert : bool;
  hp_verify_hostname : bool;
  hp_ca : option TrustedCa;
  hp_client_cert_key : option ClientIdentity
}.
(** [HttpPeer::new]. *)
Definition HttpPeer_new (address : string) (port : N) (tls : bool) (sni : string) : HttpPeer :=
  mkHttpPeer address port tls sni 0 peer_timeout peer_timeout peer_timeout peer_http_version peer_max_h2_streams None None
    peer_verify peer_verify None None.

Definition normalized_peer_timeout (timeout : option N) : option N :=
  match timeout with Some t => if is_zero t then None else Some t | None => None end.

Definition apply_upstream_timeouts (peer : HttpPeer) (t : UpstreamTimeouts) : HttpPeer :=
  mkHttpPeer (hp_address peer) (hp_port peer) (hp_tls peer) (hp_sni peer) (hp_group_key peer)
    (normalized_peer_timeout (connect t)) (normalized_peer_timeout (read t)) (normalized_peer_timeout (write t))
    (hp_http_version peer) (hp_max_h2_streams peer) (hp_h2_stream_window_size peer) (hp_h2_connection_window_size peer)
    (hp_verify_cert peer) (hp_verify_hostname peer) (hp_ca peer) (hp_client_cert_key peer).

Definition apply_upstream_http_protocol (peer : HttpPeer) (protocol : option UpstreamHttpProtocol) : HttpPeer :=
  let version := match protocol with
                 | Some H1 => (1, 1)
                 | Some H2 | Some H2c => (2, 2)
                 | None => hp_http_version peer
                 end in
  mkHttpPeer (hp_address peer) (hp_port peer) (hp_tls peer) (hp_sni peer) (hp_group_key peer)
    (hp_connection_timeout peer) (hp_read_timeout peer) (hp_write_timeout peer) version (hp_max_h2_streams peer)
    (hp_h2_stream_window_size peer) (hp_h2_connection_window_size peer)
    (hp_verify_cert peer) (hp_verify_hostname peer) (hp_ca peer) (hp_client_cert_key peer).

Definition apply_upstream_ssl_options (peer : HttpPeer) (options : UpstreamSslOptions) (ca : option TrustedCa)
    (identity : option ClientIdentity) : HttpPeer :=
  let verify := match verify_cert options with On => true | Off => false end in
  mkHttpPeer (hp_address peer) (hp_port peer) (hp_tls peer) (hp_sni peer) (hp_group_key peer)
    (hp_connection_timeout peer) (hp_read_timeout peer) (hp_write_timeout peer) (hp_http_version peer) (hp_max_h2_streams peer)
    (hp_h2_stream_window_size peer) (hp_h2_connection_window_size peer) verify verify ca identity.

(** [isolate_pool]; [pool_hash] is the standard library's default hasher. *)
Definition isolate_pool (pool_hash : N -> N -> N) (peer : HttpPeer) (generation route_id : N) : HttpPeer :=
  mkHttpPeer (hp_address peer) (hp_port peer) (hp_tls peer) (hp_sni peer) (pool_hash generation route_id)
    (hp_connection_timeout peer) (hp_read_timeout peer) (hp_write_timeout peer) (hp_http_version peer) (hp_max_h2_streams peer)
    (hp_h2_stream_window_size peer) (hp_h2_connection_window_size peer)
    (hp_verify_cert peer) (hp_verify_hostname peer) (hp_ca peer) (hp_client_cert_key peer).

Definition apply_upstream_http2 (peer : HttpPeer) (options : UpstreamHttp2Options) : HttpPeer :=
  mkHttpPeer (hp_address peer) (hp_port peer) (hp_tls peer) (hp_sni peer) (hp_group_key peer)
    (hp_connection_timeout peer) (hp_read_timeout peer) (hp_write_timeout peer) (hp_http_version peer)
    (default (hp_max_h2_streams peer) (up_max_concurrent_streams options)) (up_stream_window_size options)
    (up_connection_window_size options) (hp_verify_cert peer) (hp_verify_hostname peer) (hp_ca peer) (hp_client_cert_key peer).

Definition verify_unsupported (peer : HttpPeer) (options : UpstreamSslOptions) : bool :=
  hp_tls peer && bool_decide (verify_cert options = On) && (is_empty (hp_sni peer) || is_some (parse_ip (hp_sni peer))).

Definition configure_peer (pool_hash : N -> N -> N) (route : SelectedRoute) (peer : HttpPeer) (generation : N)
    (protocol : option UpstreamHttpProtocol) : result PError HttpPeer :=
  _ ← fail_if (verify_unsupported peer (sl_upstream_ssl_options route))
        (mkPError (HTTPStatus 502)
           "verified HTTPS upstream requires a DNS hostname; IP certificate verification is unsupported");
  let peer := isolate_pool pool_hash peer generation (sl_route_id route) in
  let peer := apply_upstream_timeouts peer (sl_upstream_timeouts route) in
  let peer := apply_upstream_http_protocol peer protocol in
  let peer := apply_upstream_http2 peer (sl_upstream_http2 route) in
  Ok (apply_upstream_ssl_options peer (sl_upstream_ssl_options route) (sl_upstream_trusted_ca route)
        (sl_upstream_client_identity route)).

(** C32: certificate verification is never lost on the way to the upstream: a peer
    configured for a route with verification on checks both the certificate and the
    host name against exactly the trust anchors of the snapshot, and over TLS it has a
    DNS name to check; where that is impossible the request is a 502 instead.  Without
    verification nothing is refused.  Time-outs of zero mean none. *)
Theorem upstream_verification_kept pool_hash route address port tls sni generation protocol :
  match configure_peer pool_hash route (HttpPeer_new address port tls sni) generation protocol with
  | Ok peer =>
      hp_address peer = address /\ hp_port peer = port /\ hp_tls peer = tls /\ hp_sni peer = sni /\
      hp_ca peer = sl_upstream_trusted_ca route /\ hp_client_cert_key peer = sl_upstream_client_identity route /\
      hp_group_key peer = pool_hash generation (sl_route_id route) /\
      hp_connection_timeout peer <> Some 0 /\ hp_read_timeout peer <> Some 0 /\ hp_write_timeout peer <> Some 0 /\
      (verify_cert (sl_upstream_ssl_options route) = On ->
        hp_verify_cert peer = true /\ hp_verify_hostname peer = true /\
        (tls = true -> is_empty sni = false /\ parse_ip sni = None))
  | Err e => etype e = HTTPStatus 502 /\ tls = true /\ verify_cert (sl_upstream_ssl_options route) = On /\
      (sni = "" \/ is_Some (parse_ip sni))
  end.
Proof.
  assert (forall t, normalized_peer_timeout t <> Some 0) as Hz.
  { intros [t|]; cbn; [|done]. unfold is_zero. destruct (N.eqb_spec t 0); [done|]. congruence. }
  unfold configure_peer. destruct (verify_unsupported _ _) eqn:Ev; cbn [fail_if mbind result_bind].
  - unfold verify_unsupported in Ev. cbn [hp_tls hp_sni HttpPeer_new] in Ev.
    apply andb_true_iff in Ev as [[-> Hv%bool_decide_eq_true]%andb_true_iff Hs]. split_and!; [done..|].
    apply orb_true_iff in Hs as [?|Hs]; [left; by destruct sni|right]. by destruct (parse_ip sni).
  - cbn. split_and!; try done. intros Hv. rewrite Hv. split_and!; [done..|]. intros ->.
    unfold verify_unsupported in Ev. cbn [hp_tls hp_sni HttpPeer_new] in Ev. rewrite bool_decide_true in Ev by done.
    apply orb_false_iff in Ev as [? Hp]. split; [done|]. by destruct (parse_ip sni).
Qed.
End peer.
