(* ===== verification/ProxyState.v ===== *)
(** * The state of a proxied request
    (crates/ngxora-runtime/src/upstreams/runtime.rs, runtime/response.rs)

    A request lives in Pingora's callbacks, which share the downstream session and the
    request's [ProxyContext]; behind them are the response cache, the counters of the
    captured snapshot, the SCP discovery caches and the GeoIP database.  A callback is
    a computation over that state that may fail with a Pingora error.  Plugins, sockets,
    the clock and name resolution are the class [ProxyEnv] over a world [W].

    [px_trace] records the hooks that have run, with what they returned, and the
    response headers sent: it is only read by theorems. *)

From S2P Require Import Prelude RustStr NetAddr Crates Headers PluginApi Ir Types HttpRoutes Routing Scp Cache.
From S2P Require Import CompileUpstreams CompileRoutes CompileRouter Control Selection ClientIp ScpRouting GeoIp Peer.

Open Scope N_scope.

Record ResponseHeader := mkResponseHeader { rh_status : N; rh_headers : HeaderMap }.

(** A hook of a plugin with its outcome; a response header on the wire. *)
Inductive Event `{RuntimeDeps} :=
  | HookRequest (plugin : Plugin) (outcome : result PluginError PluginFlow)
  | HookUpstream (plugin : Plugin) (outcome : result PluginError PluginFlow)
  | HookResponse (plugin : Plugin) (outcome : result PluginError PluginFlow)
  | SentHeader (status : N).

(** Plugins act on the headers and state of a message, and on the world. *)
Class ProxyEnv `{RuntimeDeps} (W : Type) := {
  on_request : Plugin -> RequestCtx -> W -> PluginState -> HeaderMap -> W * PluginState * HeaderMap * result PluginError PluginFlow;
  on_upstream_request : Plugin -> W -> PluginState -> HeaderMap -> W * PluginState * HeaderMap * result PluginError PluginFlow;
  on_response : Plugin -> W -> PluginState -> N -> HeaderMap -> W * PluginState * N * HeaderMap * result PluginError PluginFlow;
  (** writing a response header, a piece of its body, a generated error page *)
  io_header : W -> W * option PError;
  io_body : W -> W * option PError;
  error_page_headers : N -> HeaderMap;
  (** [Instant::now()], HTTP-01 tokens, the headers of the trace context *)
  clock : W -> N;
  challenge_token : W -> string -> option string;
  trace_headers : W -> HeaderMap;
  (** resolving a host within a time-out *)
  lookup_host : W -> string -> N -> N -> W * result PError string
}.

Section state.
Context `{RuntimeDeps} `{GeoDb} {W : Type} `{!ScpGroups W} `{!ProxyEnv W}.

(** *** The downstream session *)

Record Downstream := mkDownstream {
  ds_method : string;
  ds_uri : Uri;
  ds_headers : HeaderMap;
  ds_http2 : bool;
  ds_server_addr : option (option (IpAddr * N));
  ds_tls : bool;
  ds_sni : option string;
  ds_host : option (option string);
  ds_client_addr : option IpAddr;
  ds_upgraded : bool;
  ds_retry_buffer_truncated : bool;
  ds_keepalive : option N;
  ds_read_timeout : option N;
  ds_write_timeout : option N;
  ds_response : option ResponseHeader;
  ds_body : list string;
  ds_finished : bool
}.
Definition set_ds_headers (v : HeaderMap) (s : Downstream) : Downstream :=
  mkDownstream (ds_method s) (ds_uri s) v (ds_http2 s) (ds_server_addr s) (ds_tls s) (ds_sni s) (ds_host s)
  (ds_client_addr s) (ds_upgraded s) (ds_retry_buffer_truncated s) (ds_keepalive s) (ds_read_timeout s)
  (ds_write_timeout s) (ds_response s) (ds_body s) (ds_finished s).
Definition set_ds_keepalive (v : option N) (s : Downstream) : Downstream :=
  mkDownstream (ds_method s) (ds_uri s) (ds_headers s) (ds_http2 s) (ds_server_addr s) (ds_tls s) (ds_sni s)
  (ds_host s) (ds_client_addr s) (ds_upgraded s) (ds_retry_buffer_truncated s) v (ds_read_timeout s)
  (ds_write_timeout s) (ds_response s) (ds_body s) (ds_finished s).
Definition set_ds_read_timeout (v : option N) (s : Downstream) : Downstream :=
  mkDownstream (ds_method s) (ds_uri s) (ds_headers s) (ds_http2 s) (ds_server_addr s) (ds_tls s) (ds_sni s)
  (ds_host s) (ds_client_addr s) (ds_upgraded s) (ds_retry_buffer_truncated s) (ds_keepalive s) v
  (ds_write_timeout s) (ds_response s) (ds_body s) (ds_finished s).
Definition set_ds_write_timeout (v : option N) (s : Downstream) : Downstream :=
  mkDownstream (ds_method s) (ds_uri s) (ds_headers s) (ds_http2 s) (ds_server_addr s) (ds_tls s) (ds_sni s)
  (ds_host s) (ds_client_addr s) (ds_upgraded s) (ds_retry_buffer_truncated s) (ds_keepalive s) (ds_read_timeout s) v
  (ds_response s) (ds_body s) (ds_finished s).
Definition set_ds_response (v : option ResponseHeader) (s : Downstream) : Downstream :=
  mkDownstream (ds_method s) (ds_uri s) (ds_headers s) (ds_http2 s) (ds_server_addr s) (ds_tls s) (ds_sni s)
  (ds_host s) (ds_client_addr s) (ds_upgraded s) (ds_retry_buffer_truncated s) (ds_keepalive s) (ds_read_timeout s)
  (ds_write_timeout s) v (ds_body s) (ds_finished s).
Definition set_ds_body (v : list string) (s : Downstream) : Downstream :=
  mkDownstream (ds_method s) (ds_uri s) (ds_headers s) (ds_http2 s) (ds_server_addr s) (ds_tls s) (ds_sni s)
  (ds_host s) (ds_client_addr s) (ds_upgraded s) (ds_retry_buffer_truncated s) (ds_keepalive s) (ds_read_timeout s)
  (ds_write_timeout s) (ds_response s) v (ds_finished s).
Definition set_ds_finished (v : bool) (s : Downstream) : Downstream :=
  mkDownstream (ds_method s) (ds_uri s) (ds_headers s) (ds_http2 s) (ds_server_addr s) (ds_tls s) (ds_sni s)
  (ds_host s) (ds_client_addr s) (ds_upgraded s) (ds_retry_buffer_truncated s) (ds_keepalive s) (ds_read_timeout s)
  (ds_write_timeout s) (ds_response s) (ds_body s) v.

(** What routing reads of it. *)
Definition session_of (d : Downstream) : Session :=
  @mkSession _ (ds_server_addr d) (ds_tls d) (ds_sni d) (ds_host d)
    (@mkRequest _ (ds_method d) (ds_uri d) (fun n => get_all n (ds_headers d))).

(** *** The context of a request *)

(** Timing and tracing fields are left out. *)
Record ProxyContext := mkProxyContext {
  cx_client_ip : option IpAddr;
  cx_geoip : GeoIpRecord;
  cx_snapshot : option RuntimeSnapshot;
  cx_response_plugins_applied : bool;
  cx_snapshot_generation : N;
  cx_scp : option ScpExchange;
  cx_scp_profile : option RuntimeScp;
  cx_selected : option SelectedRoute;
  cx_plugin_state : PluginState;
  cx_client_max_body_size : option N;
  cx_received_body_bytes : N;
  cx_cache_key : option CacheKey;
  cx_cache_store_allowed : bool;
  cx_cache_status : option N;
  cx_cache_headers : option HeaderMap;
  cx_cache_body_limit : option N;
  cx_response_body_buf : string;
  cx_cache_hit : bool;
  cx_upstream_attempted : bool
}.
Definition ProxyContext_default : ProxyContext :=
  mkProxyContext None GeoIpRecord_default None false 0 None None None PluginState_default None 0 None false None None None
    "" false false.
Definition set_cx_client_ip (v : option IpAddr) (s : ProxyContext) : ProxyContext :=
  mkProxyContext v (cx_geoip s) (cx_snapshot s) (cx_response_plugins_applied s) (cx_snapshot_generation s) (cx_scp s)
  (cx_scp_profile s) (cx_selected s) (cx_plugin_state s) (cx_client_max_body_size s) (cx_received_body_bytes s)
  (cx_cache_key s) (cx_cache_store_allowed s) (cx_cache_status s) (cx_cache_headers s) (cx_cache_body_limit s)
  (cx_response_body_buf s) (cx_cache_hit s) (cx_upstream_attempted s).
Definition set_cx_geoip (v : GeoIpRecord) (s : ProxyContext) : ProxyContext :=
  mkProxyContext (cx_client_ip s) v (cx_snapshot s) (cx_response_plugins_applied s) (cx_snapshot_generation s)
  (cx_scp s) (cx_scp_profile s) (cx_selected s) (cx_plugin_state s) (cx_client_max_body_size s)
  (cx_received_body_bytes s) (cx_cache_key s) (cx_cache_store_allowed s) (cx_cache_status s) (cx_cache_headers s)
  (cx_cache_body_limit s) (cx_response_body_buf s) (cx_cache_hit s) (cx_upstream_attempted s).
Definition set_cx_snapshot (v : option RuntimeSnapshot) (s : ProxyContext) : ProxyContext :=
  mkProxyContext (cx_client_ip s) (cx_geoip s) v (cx_response_plugins_applied s) (cx_snapshot_generation s)
  (cx_scp s) (cx_scp_profile s) (cx_selected s) (cx_plugin_state s) (cx_client_max_body_size s)
  (cx_received_body_bytes s) (cx_cache_key s) (cx_cache_store_allowed s) (cx_cache_status s) (cx_cache_headers s)
  (cx_cache_body_limit s) (cx_response_body_buf s) (cx_cache_hit s) (cx_upstream_attempted s).
Definition set_cx_response_plugins_applied (v : bool) (s : ProxyContext) : ProxyContext :=
  mkProxyContext (cx_client_ip s) (cx_geoip s) (cx_snapshot s) v (cx_snapshot_generation s) (cx_scp s)
  (cx_scp_profile s) (cx_selected s) (cx_plugin_state s) (cx_client_max_body_size s) (cx_received_body_bytes s)
  (cx_cache_key s) (cx_cache_store_allowed s) (cx_cache_status s) (cx_cache_headers s) (cx_cache_body_limit s)
  (cx_response_body_buf s) (cx_cache_hit s) (cx_upstream_attempted s).
Definition set_cx_snapshot_generation (v : N) (s : ProxyContext) : ProxyContext :=
  mkProxyContext (cx_client_ip s) (cx_geoip s) (cx_snapshot s) (cx_response_plugins_applied s) v (cx_scp s)
  (cx_scp_profile s) (cx_selected s) (cx_plugin_state s) (cx_client_max_body_size s) (cx_received_body_bytes s)
  (cx_cache_key s) (cx_cache_store_allowed s) (cx_cache_status s) (cx_cache_headers s) (cx_cache_body_limit s)
  (cx_response_body_buf s) (cx_cache_hit s) (cx_upstream_attempted s).
Definition set_cx_scp (v : option ScpExchange) (s : ProxyContext) : ProxyContext :=
  mkProxyContext (cx_client_ip s) (cx_geoip s) (cx_snapshot s) (cx_response_plugins_applied s)
  (cx_snapshot_generation s) v (cx_scp_profile s) (cx_selected s) (cx_plugin_state s) (cx_client_max_body_size s)
  (cx_received_body_bytes s) (cx_cache_key s) (cx_cache_store_allowed s) (cx_cache_status s) (cx_cache_headers s)
  (cx_cache_body_limit s) (cx_response_body_buf s) (cx_cache_hit s) (cx_upstream_attempted s).
Definition set_cx_scp_profile (v : option RuntimeScp) (s : ProxyContext) : ProxyContext :=
  mkProxyContext (cx_client_ip s) (cx_geoip s) (cx_snapshot s) (cx_response_plugins_applied s)
  (cx_snapshot_generation s) (cx_scp s) v (cx_selected s) (cx_plugin_state s) (cx_client_max_body_size s)
  (cx_received_body_bytes s) (cx_cache_key s) (cx_cache_store_allowed s) (cx_cache_status s) (cx_cache_headers s)
  (cx_cache_body_limit s) (cx_response_body_buf s) (cx_cache_hit s) (cx_upstream_attempted s).
Definition set_cx_selected (v : option SelectedRoute) (s : ProxyContext) : ProxyContext :=
  mkProxyContext (cx_client_ip s) (cx_geoip s) (cx_snapshot s) (cx_response_plugins_applied s)
  (cx_snapshot_generation s) (cx_scp s) (cx_scp_profile s) v (cx_plugin_state s) (cx_client_max_body_size s)
  (cx_received_body_bytes s) (cx_cache_key s) (cx_cache_store_allowed s) (cx_cache_status s) (cx_cache_headers s)
  (cx_cache_body_limit s) (cx_response_body_buf s) (cx_cache_hit s) (cx_upstream_attempted s).
Definition set_cx_plugin_state (v : PluginState) (s : ProxyContext) : ProxyContext :=
  mkProxyContext (cx_client_ip s) (cx_geoip s) (cx_snapshot s) (cx_response_plugins_applied s)
  (cx_snapshot_generation s) (cx_scp s) (cx_scp_profile s) (cx_selected s) v (cx_client_max_body_size s)
  (cx_received_body_bytes s) (cx_cache_key s) (cx_cache_store_allowed s) (cx_cache_status s) (cx_cache_headers s)
  (cx_cache_body_limit s) (cx_response_body_buf s) (cx_cache_hit s) (cx_upstream_attempted s).
Definition set_cx_client_max_body_size (v : option N) (s : ProxyContext) : ProxyContext :=
  mkProxyContext (cx_client_ip s) (cx_geoip s) (cx_snapshot s) (cx_response_plugins_applied s)
  (cx_snapshot_generation s) (cx_scp s) (cx_scp_profile s) (cx_selected s) (cx_plugin_state s) v
  (cx_received_body_bytes s) (cx_cache_key s) (cx_cache_store_allowed s) (cx_cache_status s) (cx_cache_headers s)
  (cx_cache_body_limit s) (cx_response_body_buf s) (cx_cache_hit s) (cx_upstream_attempted s).
Definition set_cx_received_body_bytes (v : N) (s : ProxyContext) : ProxyContext :=
  mkProxyContext (cx_client_ip s) (cx_geoip s) (cx_snapshot s) (cx_response_plugins_applied s)
  (cx_snapshot_generation s) (cx_scp s) (cx_scp_profile s) (cx_selected s) (cx_plugin_state s)
  (cx_client_max_body_size s) v (cx_cache_key s) (cx_cache_store_allowed s) (cx_cache_status s) (cx_cache_headers s)
  (cx_cache_body_limit s) (cx_response_body_buf s) (cx_cache_hit s) (cx_upstream_attempted s).
Definition set_cx_cache_key (v : option CacheKey) (s : ProxyContext) : ProxyContext :=
  mkProxyContext (cx_client_ip s) (cx_geoip s) (cx_snapshot s) (cx_response_plugins_applied s)
  (cx_snapshot_generation s) (cx_scp s) (cx_scp_profile s) (cx_selected s) (cx_plugin_state s)
  (cx_client_max_body_size s) (cx_received_body_bytes s) v (cx_cache_store_allowed s) (cx_cache_status s)
  (cx_cache_headers s) (cx_cache_body_limit s) (cx_response_body_buf s) (cx_cache_hit s) (cx_upstream_attempted s).
Definition set_cx_cache_store_allowed (v : bool) (s : ProxyContext) : ProxyContext :=
  mkProxyContext (cx_client_ip s) (cx_geoip s) (cx_snapshot s) (cx_response_plugins_applied s)
  (cx_snapshot_generation s) (cx_scp s) (cx_scp_profile s) (cx_selected s) (cx_plugin_state s)
  (cx_client_max_body_size s) (cx_received_body_bytes s) (cx_cache_key s) v (cx_cache_status s) (cx_cache_headers s)
  (cx_cache_body_limit s) (cx_response_body_buf s) (cx_cache_hit s) (cx_upstream_attempted s).
Definition set_cx_cache_status (v : option N) (s : ProxyContext) : ProxyContext :=
  mkProxyContext (cx_client_ip s) (cx_geoip s) (cx_snapshot s) (cx_response_plugins_applied s)
  (cx_snapshot_generation s) (cx_scp s) (cx_scp_profile s) (cx_selected s) (cx_plugin_state s)
  (cx_client_max_body_size s) (cx_received_body_bytes s) (cx_cache_key s) (cx_cache_store_allowed s) v
  (cx_cache_headers s) (cx_cache_body_limit s) (cx_response_body_buf s) (cx_cache_hit s) (cx_upstream_attempted s).
Definition set_cx_cache_headers (v : option HeaderMap) (s : ProxyContext) : ProxyContext :=
  mkProxyContext (cx_client_ip s) (cx_geoip s) (cx_snapshot s) (cx_response_plugins_applied s)
  (cx_snapshot_generation s) (cx_scp s) (cx_scp_profile s) (cx_selected s) (cx_plugin_state s)
  (cx_client_max_body_size s) (cx_received_body_bytes s) (cx_cache_key s) (cx_cache_store_allowed s)
  (cx_cache_status s) v (cx_cache_body_limit s) (cx_response_body_buf s) (cx_cache_hit s) (cx_upstream_attempted s).
Definition set_cx_cache_body_limit (v : option N) (s : ProxyContext) : ProxyContext :=
  mkProxyContext (cx_client_ip s) (cx_geoip s) (cx_snapshot s) (cx_response_plugins_applied s)
  (cx_snapshot_generation s) (cx_scp s) (cx_scp_profile s) (cx_selected s) (cx_plugin_state s)
  (cx_client_max_body_size s) (cx_received_body_bytes s) (cx_cache_key s) (cx_cache_store_allowed s)
  (cx_cache_status s) (cx_cache_headers s) v (cx_response_body_buf s) (cx_cache_hit s) (cx_upstream_attempted s).
Definition set_cx_response_body_buf (v : string) (s : ProxyContext) : ProxyContext :=
  mkProxyContext (cx_client_ip s) (cx_geoip s) (cx_snapshot s) (cx_response_plugins_applied s)
  (cx_snapshot_generation s) (cx_scp s) (cx_scp_profile s) (cx_selected s) (cx_plugin_state s)
  (cx_client_max_body_size s) (cx_received_body_bytes s) (cx_cache_key s) (cx_cache_store_allowed s)
  (cx_cache_status s) (cx_cache_headers s) (cx_cache_body_limit s) v (cx_cache_hit s) (cx_upstream_attempted s).
Definition set_cx_cache_hit (v : bool) (s : ProxyContext) : ProxyContext :=
  mkProxyContext (cx_client_ip s) (cx_geoip s) (cx_snapshot s) (cx_response_plugins_applied s)
  (cx_snapshot_generation s) (cx_scp s) (cx_scp_profile s) (cx_selected s) (cx_plugin_state s)
  (cx_client_max_body_size s) (cx_received_body_bytes s) (cx_cache_key s) (cx_cache_store_allowed s)
  (cx_cache_status s) (cx_cache_headers s) (cx_cache_body_limit s) (cx_response_body_buf s) v
  (cx_upstream_attempted s).
Definition set_cx_upstream_attempted (v : bool) (s : ProxyContext) : ProxyContext :=
  mkProxyContext (cx_client_ip s) (cx_geoip s) (cx_snapshot s) (cx_response_plugins_applied s)
  (cx_snapshot_generation s) (cx_scp s) (cx_scp_profile s) (cx_selected s) (cx_plugin_state s)
  (cx_client_max_body_size s) (cx_received_body_bytes s) (cx_cache_key s) (cx_cache_store_allowed s)
  (cx_cache_status s) (cx_cache_headers s) (cx_cache_body_limit s) (cx_response_body_buf s) (cx_cache_hit s) v.

(** *** The state *)

Abbreviation ScpCache := (list (ScpCacheKey * ScpCacheEntry)).
Record PState := mkPState {
  px_down : Downstream;
  px_ctx : ProxyContext;
  px_cache : CacheBackend;
  px_counters : gmap N N;
  px_scp_caches : gmap string ScpCache;
  px_geo : option GeoIp;
  px_world : W;
  px_trace : list Event
}.
Definition set_px_down (v : Downstream) (s : PState) : PState :=
  mkPState v (px_ctx s) (px_cache s) (px_counters s) (px_scp_caches s) (px_geo s) (px_world s) (px_trace s).
Definition set_px_ctx (v : ProxyContext) (s : PState) : PState :=
  mkPState (px_down s) v (px_cache s) (px_counters s) (px_scp_caches s) (px_geo s) (px_world s) (px_trace s).
Definition set_px_cache (v : CacheBackend) (s : PState) : PState :=
  mkPState (px_down s) (px_ctx s) v (px_counters s) (px_scp_caches s) (px_geo s) (px_world s) (px_trace s).
Definition set_px_counters (v : gmap N N) (s : PState) : PState :=
  mkPState (px_down s) (px_ctx s) (px_cache s) v (px_scp_caches s) (px_geo s) (px_world s) (px_trace s).
Definition set_px_scp_caches (v : gmap string ScpCache) (s : PState) : PState :=
  mkPState (px_down s) (px_ctx s) (px_cache s) (px_counters s) v (px_geo s) (px_world s) (px_trace s).
Definition set_px_geo (v : option GeoIp) (s : PState) : PState :=
  mkPState (px_down s) (px_ctx s) (px_cache s) (px_counters s) (px_scp_caches s) v (px_world s) (px_trace s).
Definition set_px_world (v : W) (s : PState) : PState :=
  mkPState (px_down s) (px_ctx s) (px_cache s) (px_counters s) (px_scp_caches s) (px_geo s) v (px_trace s).
Definition set_px_trace (v : list Event) (s : PState) : PState :=
  mkPState (px_down s) (px_ctx s) (px_cache s) (px_counters s) (px_scp_caches s) (px_geo s) (px_world s) v.

(** A callback, with Rust's [?]. *)
Definition px (A : Type) : Type := PState -> PState * result PError A.
#[global] Instance px_ret : MRet px := fun A a s => (s, Ok a).
#[global] Instance px_bind : MBind px := fun A B f m s =>
  match m s with (s', Ok a) => f a s' | (s', Err e) => (s', Err e) end.
Definition px_fail {A} (e : PError) : px A := fun s => (s, Err e).
Definition px_lift {A} (r : result PError A) : px A := fun s => (s, r).
Definition px_get {A} (f : PState -> A) : px A := fun s => (s, Ok (f s)).
Definition on_ctx (f : ProxyContext -> ProxyContext) : px unit := fun s => (set_px_ctx (f (px_ctx s)) s, Ok tt).
Definition on_down (f : Downstream -> Downstream) : px unit := fun s => (set_px_down (f (px_down s)) s, Ok tt).
Definition on_cache (f : CacheBackend -> CacheBackend) : px unit := fun s => (set_px_cache (f (px_cache s)) s, Ok tt).
Definition px_when (b : bool) (m : px unit) : px unit := if b then m else mret tt.
(** [if let Err(_) = m { ... }]: the error is only logged. *)
Definition px_try {A} (m : px A) : px (option A) := fun s =>
  match m s with (s', Ok a) => (s', Ok (Some a)) | (s', Err _) => (s', Ok None) end.

(** ** Writing responses *)

Definition set_keepalive (v : option N) : px unit := on_down (set_ds_keepalive v).

(** The header counts as written once it is on the wire. *)
Definition write_response_header (header : ResponseHeader) : px unit := fun s =>
  let '(w, failed) := io_header (px_world s) in
  let s := set_px_world w s in
  match failed with
  | Some e => (s, Err e)
  | None =>
      (set_px_trace (px_trace s ++ [SentHeader (rh_status header)]) (set_px_down (set_ds_response (Some header) (px_down s)) s),
       Ok tt)
  end.
Definition write_response_body (body : option string) (end_of_stream : bool) : px unit := fun s =>
  let '(w, failed) := io_body (px_world s) in
  let s := set_px_world w s in
  match failed with
  | Some e => (s, Err e)
  | None =>
      let d := px_down s in
      (set_px_down (set_ds_finished (ds_finished d || end_of_stream) (set_ds_body (ds_body d ++ option_list body) d)) s, Ok tt)
  end.
(** [Session::respond_error]: Pingora's own page. *)
Definition respond_error (status : N) : px unit :=
  _ ← write_response_header (mkResponseHeader status (error_page_headers status));
  write_response_body None true.

Definition map_plugin_error (stage : string) (err : PluginError) : PError :=
  mkPError InternalError ("plugin hook failed during " +:+ stage +:+ ": " +:+ show_plugin_error err).
Definition respond_from_plugin_flow (flow : PluginFlow) (stage : string) : result PError unit :=
  match flow with
  | Continue => Ok tt
  | Respond _ =>
      Err (mkPError InternalError ("plugin attempted local response during " +:+ stage +:+ ", which is not supported"))
  end.

(** The loop over the response hooks. *)
Fixpoint response_hooks (plugins : list Plugin) (header : ResponseHeader) : px ResponseHeader :=
  match plugins with
  | [] => mret header
  | plugin :: plugins' =>
      fun s =>
        let '(w, state, status, headers, r) :=
          on_response plugin (px_world s) (cx_plugin_state (px_ctx s)) (rh_status header) (rh_headers header) in
        let s := set_px_trace (px_trace s ++ [HookResponse plugin r]) (set_px_world w s) in
        let s := set_px_ctx (set_cx_plugin_state state (px_ctx s)) s in
        (flow ← px_lift (map_err (map_plugin_error "response_filter") r);
         _ ← px_lift (respond_from_plugin_flow flow "response_filter");
         response_hooks plugins' (mkResponseHeader status headers)) s
  end.

Definition apply_response_plugins (header : ResponseHeader) : px ResponseHeader :=
  applied ← px_get (fun s => cx_response_plugins_applied (px_ctx s));
  if applied : bool then mret header
  else
    _ ← on_ctx (set_cx_response_plugins_applied true);
    selected ← px_get (fun s => cx_selected (px_ctx s));
    match selected with
    | None => mret header
    | Some selected => response_hooks (reverse (sl_plugins selected)) header
    end.

Definition is_informational (status : N) : bool := (100 <=? status) && (status <=? 199).
Definition body_forbidden (status : N) : bool := is_informational status || (status =? 204) || (status =? 304).

(** The framing of a local response. *)
Definition frame_response (header : ResponseHeader) (body : string) : ResponseHeader :=
  let headers := header_remove "transfer-encoding" (rh_headers header) in
  mkResponseHeader (rh_status header)
    (if body_forbidden (rh_status header) then header_remove "content-length" headers
     else header_insert "content-length" (pretty (str_len body)) headers).

Definition write_route_response (response : LocalResponse) : px unit :=
  let header := mkResponseHeader (lr_status response)
                  (foldl (fun h '(n, v) => header_append n v h) [] (lr_headers response)) in
  header ← apply_response_plugins header;
  let framed := frame_response header (lr_body response) in
  method ← px_get (fun s => ds_method (px_down s));
  if is_empty (lr_body response) || body_forbidden (rh_status framed) || String.eqb method "HEAD" then
    _ ← write_response_header framed; write_response_body None true
  else
    _ ← write_response_header framed; write_response_body (Some (lr_body response)) true.

Definition write_cached_response (cached : CachedResponse) : px unit :=
  let header := mkResponseHeader (cr_status cached)
                  (foldl (fun h '(n, v) => header_insert n v h) [] (cr_headers cached)) in
  _ ← write_response_header header;
  write_response_body (if is_empty (cr_body cached) then None else Some (cr_body cached)) true.

(** ** Limits (limits.rs) *)

Definition restrict_client_max_body_size : px bool :=
  limit ← px_get (fun s => cx_client_max_body_size (px_ctx s));
  header ← px_get (fun s => header_get "content-length" (ds_headers (px_down s)));
  if bool_decide (content_length_limit_exceeded (header ≫= header_to_str) limit = Some true) then
    _ ← set_keepalive None; _ ← respond_error 413; mret true
  else mret false.
End state.
