(* ===== verification/Proxy.v ===== *)
(** * The request lifecycle
    (crates/ngxora-runtime/src/upstreams/runtime/proxy.rs, completion.rs)

    The callbacks of Pingora's [ProxyHttp], each the whole handler over the state of
    [ProxyState].  [request_filter] captures a snapshot, resolves the client, routes,
    enforces limits and policy and may answer from the cache; the response callbacks
    run the response hooks and collect what may be cached; [finish_request] commits it. *)

From S2P Require Import Prelude RustStr NetAddr Crates Headers PluginApi Ir Types HttpRoutes Routing Scp Cache.
From S2P Require Import CompileUpstreams CompileRoutes CompileRouter Control Selection ClientIp ScpRouting GeoIp Peer ProxyState.

Open Scope N_scope.

(** A [pingora::Error] handed to a callback: its type and source. *)
Inductive ErrorSource := SourceUpstream | SourceDownstream | SourceInternal | SourceUnset.
Inductive ProxyErrorType := EtHTTPStatus (code : N) | EtReadTimedout | EtOther.
Record ProxyError := mkProxyError { pe_type : ProxyErrorType; pe_source : ErrorSource }.

Record FailToProxy := mkFailToProxy { can_reuse_downstream : bool; error_code : N }.

(** [RetryType] and its [decide_reuse]. *)
Inductive RetryType := Decided (retry : bool) | ReusedOnly.
Definition decide_reuse (r : RetryType) (reused : bool) : RetryType :=
  match r with ReusedOnly => Decided reused | Decided b => Decided b end.

Definition is_idempotent (method : string) : bool :=
  existsb (String.eqb method) ["GET"; "HEAD"; "OPTIONS"; "TRACE"; "PUT"; "DELETE"].

Definition cache_store_allowed (cfg : CacheConfig) (threshold_reached : bool) : bool :=
  (default 1 (min_uses cfg) <=? 1) || threshold_reached.

Section proxy.
Context `{RuntimeDeps} `{HttpErrors} `{GeoDb} `{PeerDefaults} `{HashIter} {W : Type} `{!ScpGroups W} `{!ProxyEnv W} `{!GroupSelect}.

Abbreviation px := (@px _ _ _ W _).

Definition ctx_of {A} (f : ProxyContext -> A) : px A := px_get (fun s => f (px_ctx s)).
Definition down_of {A} (f : Downstream -> A) : px A := px_get (fun s => f (px_down s)).

(** ** request_filter *)

(** The client of the request, behind trusted proxies when so configured. *)
Definition resolve_client (real_ip : option RealIpConfig) : px unit :=
  peer ← down_of ds_client_addr;
  _ ← on_ctx (set_cx_client_ip peer);
  match real_ip with
  | None => mret tt
  | Some config =>
      headers ← down_of ds_headers;
      let chain := resolve_headers peer headers (real_ip_header config) (trusted_proxies config) (recursive config) in
      _ ← on_ctx (set_cx_client_ip (chain ≫= head));
      on_ctx (set_cx_plugin_state (mkPluginState (Some (mkResolvedClientIp chain))))
  end.

Definition resolve_geoip (real_ip : option RealIpConfig) : px unit :=
  geo ← px_get px_geo;
  match geo with
  | None => mret tt
  | Some geo =>
      ip ← ctx_of cx_client_ip;
      headers ← down_of ds_headers;
      let '(geo, record) := if is_some real_ip then lookup_ip geo ip else lookup_request geo ip headers in
      _ ← (fun s => (set_px_geo (Some geo) s, Ok tt));
      _ ← on_ctx (set_cx_geoip record);
      on_down (set_ds_headers (remove_headers headers))
  end.

Definition apply_client_timeouts (body send : option N) : px unit :=
  let body := default (from_secs 60) body in
  _ ← on_down (set_ds_read_timeout (if is_zero body then None else Some body));
  match send with
  | Some timeout => on_down (set_ds_write_timeout (if is_zero timeout then None else Some timeout))
  | None => mret tt
  end.

(** The HTTP-01 responder; [true] when the request is answered. *)
Definition acme_challenge : px bool :=
  uri ← down_of ds_uri;
  match strip_prefix "/.well-known/acme-challenge/" (uri_path uri) with
  | Some token =>
      if is_empty token || contains_char "/" token then mret false
      else
        key_auth ← px_get (fun s => challenge_token (px_world s) token);
        match key_auth with
        | Some key_auth =>
            let response := push_header (LocalResponse_new 200 "") "content-type" "text/plain" in
            _ ← set_keepalive None;
            _ ← write_route_response (mkLocalResponse (lr_status response) (lr_headers response) key_auth);
            mret true
        | None => mret false
        end
  | None => mret false
  end.

(** The loop over the request hooks: the first response ends it. *)
Fixpoint request_hooks (plugins : list Plugin) (rc : RequestCtx) : px (option LocalResponse) :=
  match plugins with
  | [] => mret None
  | plugin :: plugins' =>
      fun s =>
        let '(w, state, headers, r) :=
          on_request plugin rc (px_world s) (cx_plugin_state (px_ctx s)) (ds_headers (px_down s)) in
        let s := set_px_trace (px_trace s ++ [HookRequest plugin r]) (set_px_world w s) in
        let s := set_px_ctx (set_cx_plugin_state state (px_ctx s)) (set_px_down (set_ds_headers headers (px_down s)) s) in
        (flow ← px_lift (map_err (map_plugin_error "request_filter") r);
         match flow with
         | Respond response => mret (Some response)
         | Continue => request_hooks plugins' rc
         end) s
  end.

(** [session.set_keepalive(None); write_route_response(...); return Ok(true)]. *)
Definition refuse (response : LocalResponse) : px bool :=
  _ ← set_keepalive None; _ ← write_route_response response; mret true.

Definition authorize_request (selected : SelectedRoute) (host : option string) : px bool :=
  uri ← down_of ds_uri;
  method ← down_of ds_method;
  client_ip ← ctx_of cx_client_ip;
  if negb (location_allows_client (sl_access_rules selected) client_ip) then refuse (LocalResponse_new 403 "")
  else
    let methods := allowed_methods (sl_client_limits selected) in
    if negb (is_nil methods) && negb (existsb (String.eqb method) methods) then
      let allow := join ", " methods in
      _ ← px_lift (fail_if (negb (header_value_ok allow)) (mkPError InternalError invalid_header_value));
      refuse (push_header (LocalResponse_new 405 "") "allow" allow)
    else
      answer ← request_hooks (sl_plugins selected) (mkRequestCtx (uri_path uri) host method client_ip);
      match answer with
      | Some response => refuse response
      | None => mret false
      end.

Definition prepare_scp_request (snapshot : RuntimeSnapshot) (selected : SelectedRoute) : px bool :=
  match sl_target selected with
  | StScp name =>
      client_ip ← ctx_of cx_client_ip;
      profile ← px_lift (ok_or (sn_scp_profiles snapshot !! name) (mkPError InternalError "SCP profile missing in snapshot"));
      _ ← on_ctx (set_cx_scp_profile (Some profile));
      d ← down_of (fun d => d);
      let answer e := _ ← write_route_response (ScpError_response e (ar_host (rs_root profile))); mret true in
      if negb (ds_http2 d) then
        answer (mkScpError 505 "UNSPECIFIED_MSG_FAILURE" "SCP requires HTTP/2")
      else
        match ScpRequest_parse (ds_headers d) (ds_method d) (ds_uri d) (rs_root profile) with
        | Err error => answer error
        | Ok request =>
            result ← (fun s =>
              let '(w, cache, result) := scp_route profile (px_world s) (default [] (px_scp_caches s !! name)) request
                                           (ds_headers d) (default "" (show_ip <$> client_ip)) in
              (set_px_world w (set_px_scp_caches (<[name := cache]> (px_scp_caches s)) s), Ok result));
            match result with
            | Err error => answer error
            | Ok exchange => _ ← on_ctx (set_cx_scp (Some exchange)); mret false
            end
        end
  | _ => mret false
  end.

Definition try_cache (host : option string) : px bool :=
  selected ← ctx_of cx_selected;
  match selected with
  | None => mret false
  | Some selected =>
      d ← down_of (fun d => d);
      match sl_cache selected with
      | Some cfg =>
          if is_cacheable_request (ds_method d) (ds_headers d) then
            generation ← ctx_of cx_snapshot_generation;
            let key := build_cache_key (ds_method d) (uri_to_string (ds_uri d)) generation (sl_route_id selected) (default "" host) cfg in
            cached ← px_get (fun s => CacheBackend_get (clock (px_world s)) (px_cache s) key cfg);
            match cached with
            | Some cached => _ ← on_ctx (set_cx_cache_hit true); _ ← write_cached_response cached; mret true
            | None =>
                admitted ← (fun s => let '(b, r) := CacheBackend_record_miss (clock (px_world s)) (px_cache s) key cfg in
                                     (set_px_cache b s, Ok r));
                _ ← on_ctx (set_cx_cache_store_allowed admitted);
                _ ← on_ctx (set_cx_cache_key (Some key));
                mret false
            end
          else mret false
      | None => mret false
      end
  end.

(** A pending target is resolved to a backend. *)
Definition select_backend (snapshot : RuntimeSnapshot) (selected : SelectedRoute) : px SelectedRoute :=
  match sl_target selected with
  | StPending target =>
      d ← down_of (fun d => d);
      client_ip ← ctx_of cx_client_ip;
      target ← (fun s => let '(counters, r) := select_backend_target snapshot (px_counters s) (sl_route_id selected) target (session_of d) client_ip in
                         (set_px_counters counters s, r));
      let selected := mkSelectedRoute (sl_client_limits selected) (sl_url_rewrite selected) (sl_matched_prefix selected)
                        (sl_route_id selected) target (sl_access_rules selected) (sl_upstream_timeouts selected)
                        (sl_upstream_protocol selected) (sl_upstream_http2 selected) (sl_upstream_ssl_options selected)
                        (sl_upstream_trusted_ca selected) (sl_upstream_client_identity selected) (sl_plugins selected)
                        (sl_cache selected) in
      _ ← on_ctx (set_cx_selected (Some selected));
      mret selected
  | _ => mret selected
  end.

(** [StatusCode::from_u16]. *)
Definition status_ok (status : N) : bool := (100 <=? status) && (status <=? 999).

Definition respond_to_selected_target (selected : SelectedRoute) : px bool :=
  match sl_target selected with
  | StDirectResponse status =>
      _ ← px_lift (fail_if (negb (status_ok status)) (runtime_config_error "invalid status code"));
      _ ← write_route_response (LocalResponse_new status ""); mret true
  | StReturn status location =>
      _ ← px_lift (fail_if (negb (status_ok status)) (mkPError InternalError ("invalid redirect status code: " +:+ pretty status)));
      _ ← px_lift (fail_if (negb (header_value_ok location)) (mkPError InternalError ("invalid redirect location: " +:+ location)));
      refuse (push_header (LocalResponse_new status "") "location" location)
  | _ => mret false
  end.

(** [snapshot] is the active one when the request starts; [generation] the state's
    generation when the cache is told. *)
Definition request_filter (snapshot : RuntimeSnapshot) (generation : N) : px bool :=
  let options := r_http_options (sn_router snapshot) in
  _ ← resolve_client (ro_real_ip options);
  _ ← resolve_geoip (ro_real_ip options);
  _ ← set_keepalive (downstream_keepalive_timeout options);
  _ ← apply_client_timeouts (ro_client_body_timeout options) (ro_send_timeout options);
  _ ← on_ctx (fun c => set_cx_received_body_bytes 0 (set_cx_client_max_body_size (ro_client_max_body_size options)
                         (set_cx_snapshot_generation (sn_generation snapshot) (set_cx_snapshot (Some snapshot) c))));
  _ ← on_cache (fun b => advance_generation b generation);
  answered ← acme_challenge;
  if answered : bool then mret true
  else
    d ← down_of (fun d => d);
    route ← px_lift (select_runtime_route snapshot (session_of d));
    match route with
    | None => _ ← on_ctx (set_cx_selected None); restrict_client_max_body_size
    | Some (selected, host) =>
        _ ← on_ctx (set_cx_selected (Some selected));
        _ ← match max_body_size (sl_client_limits selected) with
            | Some limit => on_ctx (set_cx_client_max_body_size (if limit =? 0 then None else Some limit))
            | None => mret tt
            end;
        _ ← apply_client_timeouts (option_or (body_timeout (sl_client_limits selected)) (ro_client_body_timeout options))
              (option_or (limit_send_timeout (sl_client_limits selected)) (ro_send_timeout options));
        answered ← restrict_client_max_body_size;
        if answered : bool then mret true
        else
          was_cacheable ← down_of (fun d => is_cacheable_request (ds_method d) (ds_headers d));
          answered ← authorize_request selected host;
          if answered : bool then mret true
          else
            answered ← prepare_scp_request snapshot selected;
            if answered : bool then mret true
            else
              answered ← (if was_cacheable : bool then try_cache host else mret false);
              if answered : bool then mret true
              else selected ← select_backend snapshot selected; respond_to_selected_target selected
    end.

(** ** Streaming *)

Definition request_body_filter (body : option string) : px unit :=
  upgraded ← down_of ds_upgraded;
  if upgraded : bool then mret tt
  else
    received ← ctx_of cx_received_body_bytes;
    limit ← ctx_of cx_client_max_body_size;
    received ← px_lift (update_received_body_bytes received body limit);
    on_ctx (set_cx_received_body_bytes received).

Fixpoint upstream_hooks (plugins : list Plugin) (headers : HeaderMap) : px HeaderMap :=
  match plugins with
  | [] => mret headers
  | plugin :: plugins' =>
      fun s =>
        let '(w, state, headers, r) := on_upstream_request plugin (px_world s) (cx_plugin_state (px_ctx s)) headers in
        let s := set_px_trace (px_trace s ++ [HookUpstream plugin r]) (set_px_world w s) in
        let s := set_px_ctx (set_cx_plugin_state state (px_ctx s)) s in
        (flow ← px_lift (map_err (map_plugin_error "upstream_request_filter") r);
         _ ← px_lift (respond_from_plugin_flow flow "upstream_request_filter");
         upstream_hooks plugins' headers) s
  end.

Definition prefixed_upstream_uri (uri : Uri) (prefix : string) : result string Uri :=
  map_err (fun err => "failed to apply NRF apiPrefix `" +:+ prefix +:+ "`: " +:+ err)
    (uri_parse (prefix +:+ uri_path uri +:+ match uri_query uri with Some q => "?" +:+ q | None => "" end)).

(** The upstream request: its URI and headers. *)
Definition upstream_request_filter (uri : Uri) (headers : HeaderMap) : px (Uri * HeaderMap) :=
  selected ← ctx_of cx_selected;
  match selected with
  | None => mret (uri, headers)
  | Some selected =>
      '(uri, headers) ←
        match sl_url_rewrite selected with
        | Some rewrite =>
            uri ← px_lift (map_err runtime_config_error (rewrite_uri uri (rewrite_path rewrite) (sl_matched_prefix selected)));
            headers ← px_lift (match rewrite_hostname rewrite with Some h => insert_header "host" h headers | None => Ok headers end);
            mret (uri, headers)
        | None => mret (uri, headers)
        end;
      uri ← match sl_target selected with
            | StUpstream peer =>
                match sp_api_prefix peer with
                | Some prefix => px_lift (map_err (mkPError InternalError) (prefixed_upstream_uri uri prefix))
                | None => mret uri
                end
            | _ => mret uri
            end;
      headers ← upstream_hooks (sl_plugins selected) headers;
      geo ← px_get px_geo;
      record ← ctx_of cx_geoip;
      headers ← px_lift (if is_some geo then set_headers headers record else Ok headers);
      trace ← px_get (fun s => trace_headers (px_world s));
      let headers := foldl (fun h '(n, v) => header_insert n v h) headers trace in
      scp ← ctx_of cx_scp;
      match scp with
      | None => mret (uri, headers)
      | Some exchange =>
          uri ← px_lift (map_err (fun e => mkPError (HTTPStatus (se_status e)) (se_detail e)) (upstream_uri exchange));
          headers ← px_lift (scp_request_headers exchange headers);
          mret (uri, headers)
      end
  end.

(** ** The response *)

Definition response_filter (header : ResponseHeader) : px ResponseHeader :=
  selected ← ctx_of cx_selected;
  match selected with
  | None => mret header
  | Some selected =>
      header ← apply_response_plugins header;
      let status := rh_status header in
      scp ← ctx_of cx_scp;
      headers ← px_lift (match scp with
                         | Some exchange => scp_response_headers exchange (rh_headers header)
                         | None => Ok (rh_headers header)
                         end);
      let header := mkResponseHeader status headers in
      key ← ctx_of cx_cache_key;
      admitted ← ctx_of cx_cache_store_allowed;
      _ ← match key, sl_cache selected with
          | Some key, Some cfg =>
              if cache_store_allowed cfg admitted && is_cacheable status (rh_headers header) cfg then
                limit ← px_get (fun s => max_size (px_cache s) cfg);
                let overhead := saturating_add64 (saturating_add64 (estimated_headers_size (rh_headers header)) 128) (key_size key) in
                let body_limit := saturating_sub limit overhead in
                let fits := match header_get "content-length" (rh_headers header) with
                            | Some value => match header_to_str value ≫= parse_uint u64_max with
                                            | Some length => length <=? body_limit
                                            | None => false
                                            end
                            | None => true
                            end in
                px_when fits (on_ctx (fun c => set_cx_cache_body_limit (Some body_limit)
                                (set_cx_cache_headers (Some (rh_headers header)) (set_cx_cache_status (Some status) c))))
              else mret tt
          | _, _ => mret tt
          end;
      mret header
  end.

(** Nothing is kept of a response that will not be cached. *)
Definition forget_response (c : ProxyContext) : ProxyContext :=
  set_cx_response_body_buf "" (set_cx_cache_body_limit None (set_cx_cache_headers None (set_cx_cache_status None c))).

Definition response_body_filter (body : option string) : px unit :=
  limit ← ctx_of cx_cache_body_limit;
  match limit, body with
  | Some body_limit, Some chunk =>
      buf ← ctx_of cx_response_body_buf;
      let next_size := saturating_add64 (str_len buf) (str_len chunk) in
      if body_limit <? next_size then on_ctx forget_response
      else on_ctx (set_cx_response_body_buf (buf +:+ chunk))
  | _, _ => mret tt
  end.

(** [finish_request], from the cache onwards: metrics and logs come before it. *)
Definition finish_request (generation : N) (failed : bool) : px unit :=
  _ ← on_cache (fun b => advance_generation b generation);
  if failed then on_ctx forget_response
  else
    c ← ctx_of (fun c => c);
    match cx_cache_key c, cx_selected c ≫= sl_cache with
    | Some key, Some cfg =>
        if negb (cache_store_allowed cfg (cx_cache_store_allowed c)) then on_ctx forget_response
        else
          match cx_cache_status c, cx_cache_headers c with
          | Some status, Some headers =>
              _ ← on_ctx (fun c => set_cx_response_body_buf "" (set_cx_cache_headers None c));
              now ← px_get (fun s => clock (px_world s));
              on_cache (fun b => CacheBackend_put now b key (mkCachedResponse status headers (cx_response_body_buf c) now) cfg)
          | _, _ => on_ctx (set_cx_cache_headers None)
          end
    | _, _ => mret tt
    end.

(** ** Peers and failures *)

Definition upstream_peer (pool_hash : N -> N -> N) (active : RuntimeSnapshot) : px HttpPeer :=
  selected ← ctx_of cx_selected;
  selected ← match selected with
             | Some selected => mret selected
             | None =>
                 captured ← ctx_of cx_snapshot;
                 let snapshot := default active captured in
                 _ ← on_ctx (fun c => set_cx_snapshot_generation (sn_generation snapshot) (set_cx_snapshot (Some snapshot) c));
                 d ← down_of (fun d => d);
                 route ← px_lift (select_runtime_route snapshot (session_of d));
                 match route with
                 | None => px_fail (mkPError (HTTPStatus 404) "no location matched")
                 | Some (selected, _) => _ ← on_ctx (set_cx_selected (Some selected)); mret selected
                 end
             end;
  captured ← ctx_of cx_snapshot;
  selected ← select_backend (default active captured) selected;
  generation ← ctx_of cx_snapshot_generation;
  match sl_target selected with
  | StScp _ =>
      scp ← ctx_of cx_scp;
      exchange ← px_lift (ok_or scp (mkPError InternalError "SCP request was not authorized"));
      _ ← on_ctx (set_cx_upstream_attempted true);
      let tls := String.eqb (ar_scheme (sx_root exchange)) "https" in
      let timeout := default (from_secs 5) (connect (sl_upstream_timeouts selected)) in
      address ← (fun s => let '(w, r) := lookup_host (px_world s) (cs_host (sx_backend exchange)) (cs_port (sx_backend exchange)) timeout in
                          (set_px_world w s, r));
      px_lift (configure_peer pool_hash selected (HttpPeer_new address (cs_port (sx_backend exchange)) tls (ar_host (sx_root exchange)))
                 generation (Some (if tls then H2 else H2c)))
  | StUpstream peer =>
      _ ← on_ctx (set_cx_upstream_attempted true);
      px_lift (configure_peer pool_hash selected (HttpPeer_new (sp_host peer) (sp_port peer) (sp_tls peer) (sp_sni peer))
                 generation (sl_upstream_protocol selected))
  | _ => px_fail (mkPError InternalError "upstream_peer called on a return target — request_filter should have short-circuited")
  end.

Definition fail_to_connect (retry : RetryType) : px RetryType :=
  scp ← ctx_of cx_scp;
  match scp with
  | Some exchange =>
      '(exchange, again) ← (fun s => let '(w, exchange, again) := retry_connect (px_world s) exchange in
                                     (set_px_world w s, Ok (exchange, again)));
      _ ← on_ctx (set_cx_scp (Some exchange));
      mret (Decided again)
  | None => mret retry
  end.

Definition error_while_proxy (retry : RetryType) (reused : bool) : px RetryType :=
  profile ← ctx_of cx_scp_profile;
  d ← down_of (fun d => d);
  mret (if is_some profile || negb (is_idempotent (ds_method d)) || ds_retry_buffer_truncated d then Decided false
        else decide_reuse retry (reused && negb (ds_retry_buffer_truncated d))).

(** The SCP's answer to a proxy error. *)
Definition scp_failure (error : ProxyError) : ScpError :=
  match pe_type error, pe_source error with
  | EtHTTPStatus 504, _ => target_unreachable
  | EtHTTPStatus status, _ => mkScpError status "UNSPECIFIED_MSG_FAILURE" "HTTP request failed"
  | _, SourceUpstream => target_unreachable
  | _, SourceDownstream => mkScpError 400 "UNSPECIFIED_MSG_FAILURE" "Downstream request failed"
  | _, _ => mkScpError 500 "SYSTEM_FAILURE" "Internal proxy failure"
  end.
Definition failure_code (error : ProxyError) : N :=
  match pe_type error, pe_source error with
  | EtHTTPStatus code, _ => code
  | EtReadTimedout, SourceDownstream => 408
  | _, SourceUpstream => 502
  | _, SourceDownstream => 400
  | _, _ => 500
  end.

(** A response to a failure; when it cannot be written, Pingora's error page. *)
Definition write_failure (response : LocalResponse) : px unit :=
  written ← px_try (write_route_response response);
  match written with
  | Some _ => mret tt
  | None =>
      already ← down_of ds_response;
      if is_none already then _ ← px_try (respond_error 500); mret tt else mret tt
  end.
Definition written_status (fallback : N) : px N :=
  response ← down_of ds_response; mret (match response with Some r => rh_status r | None => fallback end).

Definition fail_to_proxy (generation : N) (error : ProxyError) : px FailToProxy :=
  _ ← on_cache (fun b => advance_generation b generation);
  profile ← ctx_of cx_scp_profile;
  written ← down_of ds_response;
  match profile with
  | Some profile =>
      let e := scp_failure error in
      match written with
      | Some response => mret (mkFailToProxy false (rh_status response))
      | None =>
          _ ← write_failure (ScpError_response e (ar_host (rs_root profile)));
          code ← written_status (se_status e);
          mret (mkFailToProxy false code)
      end
  | None =>
      match written with
      | Some response => mret (mkFailToProxy false (rh_status response))
      | None =>
          c ← ctx_of (fun c => c);
          cached ← px_get (fun s =>
            match pe_source error, cx_selected c ≫= sl_cache, cx_cache_key c with
            | SourceUpstream, Some cache, Some key =>
                if is_some (stale_if_error cache) then CacheBackend_get_stale (clock (px_world s)) (px_cache s) key cache else None
            | _, _, _ => None
            end);
          match cached with
          | Some cached =>
              let cached := mkCachedResponse (cr_status cached) (header_insert "x-cache" "STALE" (cr_headers cached)) (cr_body cached) (created_at cached) in
              _ ← on_ctx (set_cx_cache_hit true);
              sent ← px_try (write_cached_response cached);
              mret (mkFailToProxy (is_some sent) (cr_status cached))
          | None =>
              let code := failure_code error in
              let status := if status_ok code then code else 500 in
              _ ← write_failure (LocalResponse_new status "");
              code ← written_status code;
              mret (mkFailToProxy false code)
          end
      end
  end.
End proxy.
