(* ===== verification/Lifecycle.v ===== *)
(** * Properties of the request lifecycle

    Triples over the callbacks of [Proxy]; what the response writers may change; the
    order of policy, cache and upstream; and the life of a request as a step relation
    over its callbacks, with the invariants of every run. *)

From S2P Require Import Prelude RustStr NetAddr Crates Headers PluginApi Ir Types HttpRoutes Routing Scp Cache.
From S2P Require Import CompileUpstreams CompileRoutes CompileRouter Control Selection ClientIp ScpRouting GeoIp Peer ProxyState Proxy.

Open Scope N_scope.

Create HintDb px discriminated.

Section lifecycle.
Context `{RuntimeDeps} `{HttpErrors} `{GeoDb} `{PeerDefaults} `{HashIter} {W : Type} `{!ScpGroups W} `{!ProxyEnv W} `{!GroupSelect}.

Abbreviation px := (@px _ _ _ W _).
Abbreviation PState := (@PState _ _ _ W _).

(** ** Triples *)

(** The postcondition sees the outcome, errors included. *)
Definition hoare {A} (P : PState -> Prop) (m : px A) (Q : result PError A -> PState -> Prop) : Prop :=
  forall s, P s -> Q (snd (m s)) (fst (m s)).
Definition keeps {A} (P : PState -> Prop) (m : px A) : Prop := hoare P m (fun _ => P).

Lemma hoare_post {A} P (m : px A) (Q Q' : result PError A -> PState -> Prop) :
  hoare P m Q' -> (forall r s, Q' r s -> Q r s) -> hoare P m Q.
Proof. intros Hm HQ s Hs. apply HQ, Hm, Hs. Qed.

Lemma hoare_pre {A} (P P' : PState -> Prop) (m : px A) Q : hoare P' m Q -> (forall s, P s -> P' s) -> hoare P m Q.
Proof. intros Hm HP s Hs. apply Hm, HP, Hs. Qed.

Lemma hoare_ret {A} (P : PState -> Prop) (a : A) (Q : result PError A -> PState -> Prop) :
  (forall s, P s -> Q (Ok a) s) -> hoare P (mret a) Q.
Proof. done. Qed.

Lemma hoare_lift {A} (P : PState -> Prop) r (Q : result PError A -> PState -> Prop) :
  (forall s, P s -> Q r s) -> hoare P (px_lift r) Q.
Proof. done. Qed.

Lemma hoare_bind {A B} (R : A -> PState -> Prop) P (m : px A) (f : A -> px B) Q :
  hoare P m (fun r s => match r with Ok a => R a s | Err e => Q (Err e) s end) ->
  (forall a, hoare (R a) (f a) Q) -> hoare P (m ≫= f) Q.
Proof.
  intros Hm Hf s Hs. specialize (Hm s Hs). unfold mbind, px_bind.
  destruct (m s) as [s' [a|e]]; simpl in *; [by apply Hf|done].
Qed.

(** Reading the state leaves it as it is. *)
Lemma hoare_get {A B} P (f : PState -> A) (k : A -> px B) Q :
  (forall a, hoare (fun s => P s /\ f s = a) (k a) Q) -> hoare P (px_get f ≫= k) Q.
Proof. intros Hk s Hs. by apply Hk. Qed.

Lemma keeps_bind {A B} P (m : px A) (f : A -> px B) : keeps P m -> (forall a, keeps P (f a)) -> keeps P (m ≫= f).
Proof. intros Hm Hf. apply (hoare_bind (fun _ => P)); [|done]. eapply hoare_post; [exact Hm|]. by intros [] ?. Qed.

Lemma keeps_first {A B} P (m : px A) (f : A -> px B) Q :
  keeps P m -> (forall e s, P s -> Q (Err e) s) -> (forall a, hoare P (f a) Q) -> hoare P (m ≫= f) Q.
Proof. intros Hm He Hf. apply (hoare_bind (fun _ => P)); [|done]. eapply hoare_post; [exact Hm|]. intros [] ? ?; auto. Qed.

(** A relation of what a computation may change, from any state. *)
Definition within {A} (R : relation PState) (m : px A) : Prop := forall s, R s (fst (m s)).

Lemma within_bind {A B} (R : relation PState) `{!Transitive R} (m : px A) (f : A -> px B) :
  within R m -> (forall a, within R (f a)) -> within R (m ≫= f).
Proof.
  intros Hm Hf s. specialize (Hm s). unfold mbind, px_bind.
  destruct (m s) as [s' [a|e]]; simpl in *; [|done]. etrans; [exact Hm|apply Hf].
Qed.
Lemma within_ret {A} (R : relation PState) `{!Reflexive R} (a : A) : within R (mret a).
Proof. intros s. simpl. reflexivity. Qed.
Lemma within_lift {A} (R : relation PState) `{!Reflexive R} (r : result PError A) : within R (px_lift r).
Proof. intros s. simpl. reflexivity. Qed.
Lemma within_get {A} (R : relation PState) `{!Reflexive R} (f : PState -> A) : within R (px_get f).
Proof. intros s. simpl. reflexivity. Qed.
Lemma within_try {A} (R : relation PState) (m : px A) : within R m -> within R (px_try m).
Proof. intros Hm s. specialize (Hm s). unfold px_try. by destruct (m s) as [s' []]. Qed.
Lemma within_keeps {A} (R : relation PState) P (m : px A) : within R m -> (forall s s', R s s' -> P s -> P s') -> keeps P m.
Proof. intros Hm HP s Hs. eapply HP; [apply Hm|done]. Qed.
End lifecycle.

Ltac px_unfold :=
  unfold mbind, px_bind, mret, px_ret, down_of, ctx_of, px_get, px_lift, on_ctx, on_down, on_cache; cbv beta iota.

(** The steps of a straight-line computation, down to its calls. *)
Ltac within :=
  repeat first
    [ apply within_bind; [try apply _|..] | apply within_ret, _ | apply within_lift, _ | apply within_get, _
    | apply within_try | match goal with |- forall _, _ => intro end
    | solve [auto with px] | case_match ].

Section frames.
Context `{RuntimeDeps} `{HttpErrors} `{GeoDb} `{PeerDefaults} `{HashIter} {W : Type} `{!ScpGroups W} `{!ProxyEnv W} `{!GroupSelect}.

Abbreviation px := (@px _ _ _ W _).
Abbreviation PState := (@PState _ _ _ W _).

(** ** Traces *)

Definition requests : list Event -> list (Plugin * result PluginError PluginFlow) :=
  omap (fun e => match e with HookRequest p r => Some (p, r) | _ => None end).
Definition responses : list Event -> list (Plugin * result PluginError PluginFlow) :=
  omap (fun e => match e with HookResponse p r => Some (p, r) | _ => None end).
Definition headers_sent : list Event -> list N := omap (fun e => match e with SentHeader n => Some n | _ => None end).

Lemma hook_requests_app l l' : requests (l ++ l') = requests l ++ requests l'.
Proof. apply omap_app. Qed.
Lemma responses_app l l' : responses (l ++ l') = responses l ++ responses l'.
Proof. apply omap_app. Qed.
Lemma headers_sent_app l l' : headers_sent (l ++ l') = headers_sent l ++ headers_sent l'.
Proof. apply omap_app. Qed.

(** ** Writing a response *)

(** What writing a response may change: the wire, the state of the plugins, and that
    the response hooks have run. *)
Record wire (s s' : PState) : Prop := mkWire {
  wire_cache : px_cache s' = px_cache s;
  wire_counters : px_counters s' = px_counters s;
  wire_scp : px_scp_caches s' = px_scp_caches s;
  wire_ctx : exists st applied, px_ctx s' = set_cx_plugin_state st (set_cx_response_plugins_applied applied (px_ctx s));
  wire_down : exists k f b r, px_down s' = set_ds_keepalive k (set_ds_finished f (set_ds_body b (set_ds_response r (px_down s))));
  wire_requests : requests (px_trace s') = requests (px_trace s)
}.

Lemma wire_same (s s' : PState) :
  px_cache s' = px_cache s -> px_counters s' = px_counters s -> px_scp_caches s' = px_scp_caches s ->
  px_ctx s' = px_ctx s -> px_down s' = px_down s -> requests (px_trace s') = requests (px_trace s) -> wire s s'.
Proof.
  intros ? ? ? Hc Hd ?. split; try done; [exists (cx_plugin_state (px_ctx s)), (cx_response_plugins_applied (px_ctx s))|];
    rewrite ?Hc, ?Hd; [by destruct (px_ctx s)|].
  exists (ds_keepalive (px_down s)), (ds_finished (px_down s)), (ds_body (px_down s)), (ds_response (px_down s)).
  by destruct (px_down s).
Qed.

#[export] Instance wire_refl : Reflexive wire.
Proof. intros s. by apply wire_same. Qed.
#[export] Instance wire_trans : Transitive wire.
Proof.
  intros s1 s2 s3 [? ? ? (? & ? & Hc) (? & ? & ? & ? & Hd) ?] [? ? ? (? & ? & Hc') (? & ? & ? & ? & Hd') ?].
  split; try congruence; rewrite ?Hc', ?Hc, ?Hd', ?Hd; repeat eexists.
Qed.

Lemma wire_down_only (s s' : PState) k f b r :
  px_cache s' = px_cache s -> px_counters s' = px_counters s -> px_scp_caches s' = px_scp_caches s ->
  px_ctx s' = px_ctx s -> px_down s' = set_ds_keepalive k (set_ds_finished f (set_ds_body b (set_ds_response r (px_down s)))) ->
  requests (px_trace s') = requests (px_trace s) -> wire s s'.
Proof.
  intros ? ? ? Hc Hd ?. split; try done; [|by rewrite Hd; repeat eexists].
  exists (cx_plugin_state (px_ctx s)), (cx_response_plugins_applied (px_ctx s)). rewrite Hc. by destruct (px_ctx s).
Qed.

Lemma wire_keepalive v : within wire (set_keepalive v).
Proof.
  intros s. by apply (wire_down_only _ _ v (ds_finished (px_down s)) (ds_body (px_down s)) (ds_response (px_down s))).
Qed.

Lemma wire_header header : within wire (write_response_header header).
Proof.
  intros s. unfold write_response_header. destruct (io_header _) as [w [e|]]; [by apply wire_same|].
  apply (wire_down_only _ _ (ds_keepalive (px_down s)) (ds_finished (px_down s)) (ds_body (px_down s)) (Some header)); try done.
  cbn. by rewrite hook_requests_app, app_nil_r.
Qed.

Lemma wire_body body fin : within wire (write_response_body body fin).
Proof.
  intros s. unfold write_response_body. destruct (io_body _) as [w [e|]]; [by apply wire_same|].
  by apply (wire_down_only _ _ (ds_keepalive (px_down s)) (ds_finished (px_down s) || fin) (ds_body (px_down s) ++ option_list body)
    (ds_response (px_down s))).
Qed.

Lemma response_hooks_wire plugins header : within wire (response_hooks plugins header).
Proof.
  revert header. induction plugins as [|p plugins IH]; intros header s; cbn [response_hooks]; [reflexivity|].
  destruct (on_response _ _ _ _ _) as [[[[w st] status] h] r].
  etrans; [|apply (within_bind wire); [apply within_lift, _|intros flow; within]].
  split; try done; cbn.
  - by exists st, (cx_response_plugins_applied (px_ctx s)); destruct (px_ctx s).
  - exists (ds_keepalive (px_down s)), (ds_finished (px_down s)), (ds_body (px_down s)), (ds_response (px_down s)).
    by destruct (px_down s).
  - by rewrite hook_requests_app, app_nil_r.
Qed.

Lemma wire_on_ctx f :
  (forall c, exists st applied, f c = set_cx_plugin_state st (set_cx_response_plugins_applied applied c)) -> within wire (on_ctx f).
Proof.
  intros Hf s. split; try done; [apply Hf|].
  exists (ds_keepalive (px_down s)), (ds_finished (px_down s)), (ds_body (px_down s)), (ds_response (px_down s)).
  cbn. by destruct (px_down s).
Qed.
End frames.
#[export] Hint Resolve wire_keepalive wire_header wire_body response_hooks_wire : px.

Section answers.
Context `{RuntimeDeps} `{HttpErrors} `{GeoDb} `{PeerDefaults} `{HashIter} {W : Type} `{!ScpGroups W} `{!ProxyEnv W} `{!GroupSelect}.

Abbreviation px := (@px _ _ _ W _).
Abbreviation PState := (@PState _ _ _ W _).

Lemma wire_applied : within wire (on_ctx (set_cx_response_plugins_applied true) : px unit).
Proof. apply wire_on_ctx. intros c. by exists (cx_plugin_state c), true; destruct c. Qed.
Hint Resolve wire_applied : px.

Lemma wire_apply header : within wire (apply_response_plugins header).
Proof. unfold apply_response_plugins. within. Qed.
Hint Resolve wire_apply : px.

Lemma wire_route_response response : within wire (write_route_response response).
Proof. unfold write_route_response. within. Qed.

Lemma wire_cached_response cached : within wire (write_cached_response cached).
Proof. unfold write_cached_response. within. Qed.

Lemma wire_respond_error status : within wire (respond_error status).
Proof. unfold respond_error. within. Qed.
Hint Resolve wire_route_response wire_cached_response wire_respond_error : px.

Lemma wire_refuse response : within wire (refuse response).
Proof. unfold refuse. within. Qed.

Lemma wire_restrict : within wire (restrict_client_max_body_size).
Proof. unfold restrict_client_max_body_size. within. Qed.

Lemma wire_acme : within wire acme_challenge.
Proof. unfold acme_challenge, down_of. within. Qed.

Lemma wire_failure response : within wire (write_failure response).
Proof. unfold write_failure, down_of. within. Qed.

Lemma wire_target selected : within wire (respond_to_selected_target selected).
Proof. unfold respond_to_selected_target, refuse. within. Qed.
End answers.
#[export] Hint Resolve wire_applied wire_apply wire_route_response wire_cached_response wire_respond_error wire_refuse
  wire_restrict wire_acme wire_failure wire_target : px.

Section policy.
Context `{RuntimeDeps} `{HttpErrors} `{GeoDb} `{PeerDefaults} `{HashIter} {W : Type} `{!ScpGroups W} `{!ProxyEnv W} `{!GroupSelect}.

Abbreviation px := (@px _ _ _ W _).
Abbreviation PState := (@PState _ _ _ W _).

(** ** Policy comes first *)

(** Nothing behind the policy has been consulted: the response cache, the counters
    of weighted targets, the SCP discovery caches. *)
Record untouched (s s' : PState) : Prop := mkUntouched {
  un_cache : px_cache s' = px_cache s;
  un_counters : px_counters s' = px_counters s;
  un_scp_caches : px_scp_caches s' = px_scp_caches s;
  un_key : cx_cache_key (px_ctx s') = cx_cache_key (px_ctx s);
  un_hit : cx_cache_hit (px_ctx s') = cx_cache_hit (px_ctx s);
  un_scp : cx_scp (px_ctx s') = cx_scp (px_ctx s)
}.
(** The headers of the request as received, the GeoIP ones aside. *)
Definition as_received (s s' : PState) : Prop :=
  forall n, n ∉ GEOIP_HEADERS -> get_all n (ds_headers (px_down s')) = get_all n (ds_headers (px_down s)).
(** ... and no request hook has run. *)
Definition unasked (s s' : PState) : Prop :=
  untouched s s' /\ requests (px_trace s') = requests (px_trace s) /\ as_received s s'.

#[local] Instance untouched_refl : Reflexive untouched.
Proof. by split. Qed.
#[local] Instance untouched_trans : Transitive untouched.
Proof. intros s1 s2 s3 [] []. split; congruence. Qed.
#[local] Instance unasked_refl : Reflexive unasked.
Proof. done. Qed.
#[local] Instance unasked_trans : Transitive unasked.
Proof. intros s1 s2 s3 (? & ? & Ha) (? & ? & Hb). split_and!; [by etrans|congruence|]. intros n Hn. by rewrite Hb, Ha. Qed.

Lemma wire_unasked s s' : wire s s' -> unasked s s'.
Proof.
  intros [? ? ? (? & ? & Hc) (? & ? & ? & ? & Hd) ?]. split_and!; [split; try done; by rewrite Hc|done|]. intros n _. by rewrite Hd.
Qed.

(** The selected route admits the client and the method, and each of its plugins, in
    order, let the request continue. *)
Definition admitted_by (sel : SelectedRoute) (s s' : PState) : Prop :=
  cx_selected (px_ctx s') = Some sel
    /\ location_allows_client (sl_access_rules sel) (cx_client_ip (px_ctx s')) = true
    /\ (allowed_methods (sl_client_limits sel) = [] \/ ds_method (px_down s') ∈ allowed_methods (sl_client_limits sel))
    /\ requests (px_trace s') = requests (px_trace s) ++ ((fun p => (p, Ok Continue)) <$> sl_plugins sel)
    /\ exists rc s1 s2, as_received s s1 /\ request_hooks (sl_plugins sel) rc s1 = (s2, Ok None).
Definition admitted (s s' : PState) : Prop := exists sel, admitted_by sel s s'.

Lemma wire_admitted sel s0 s s' : wire s s' -> admitted_by sel s0 s -> admitted_by sel s0 s'.
Proof.
  intros [_ _ _ (? & ? & Hc) (? & ? & ? & ? & Hd) Hr] (Hs & Ha & Hm & Hq). unfold admitted_by. rewrite Hc, Hd, Hr. auto.
Qed.

Lemma wire_keeps_admitted {A} sel s0 (m : px A) : within wire m -> keeps (admitted_by sel s0) m.
Proof. intros Hm. eapply within_keeps; [exact Hm|]. intros; by eapply wire_admitted. Qed.

Lemma on_ctx_admitted sel s0 f :
  (forall c, cx_selected (f c) = cx_selected c) -> (forall c, cx_client_ip (f c) = cx_client_ip c) -> keeps (admitted_by sel s0) (on_ctx f : px unit).
Proof. intros Hs Hi s (Hsel & Ha & Hm & Hq). unfold admitted_by. cbn. by rewrite Hs, Hi. Qed.

Lemma get_admitted {A} sel s0 (f : PState -> A) : keeps (admitted_by sel s0) (px_get f).
Proof. by intros s. Qed.
Lemma ret_admitted {A} sel s0 (a : A) : keeps (admitted_by sel s0) (mret a : px A).
Proof. by intros s. Qed.
Lemma lift_admitted {A} sel s0 r : keeps (admitted_by sel s0) (px_lift r : px A).
Proof. by intros s. Qed.

Ltac keep :=
  repeat first
    [ apply keeps_bind | apply ret_admitted | apply lift_admitted | apply get_admitted | match goal with |- forall _, _ => intro end
    | apply on_ctx_admitted; [done|done] | apply wire_keeps_admitted; solve [auto with px] | case_match ].

Lemma prepare_scp_admitted sel s0 snapshot selected : keeps (admitted_by sel s0) (prepare_scp_request snapshot selected).
Proof.
  unfold prepare_scp_request, ctx_of, down_of. keep.
  intros s Hs. cbn. by destruct (scp_route _ _ _ _ _ _) as [[? ?] ?].
Qed.

Lemma try_cache_admitted sel s0 host : keeps (admitted_by sel s0) (try_cache host).
Proof.
  unfold try_cache, ctx_of, down_of. keep.
  intros s1 Hs. cbn. by destruct (CacheBackend_record_miss _ _ _ _).
Qed.

Lemma select_backend_admitted s0 snapshot selected :
  hoare (admitted_by selected s0) (select_backend snapshot selected)
    (fun r s => admitted s0 s).
Proof.
  intros s Ha. unfold select_backend. case_match; try by eexists.
  px_unfold. destruct (select_backend_target snapshot _ _ _ _ _) as [cs [t'|e]]; [|by exists selected].
  destruct Ha as (Hs & Ha & Hm & Hq). by eexists.
Qed.

(** The request hooks: either the request is refused, or each of them continued. *)
Lemma request_hooks_spec plugins rc :
  forall s, let '(s', r) := request_hooks plugins rc s in
    untouched s s' /\ cx_selected (px_ctx s') = cx_selected (px_ctx s) /\ cx_client_ip (px_ctx s') = cx_client_ip (px_ctx s)
    /\ ds_method (px_down s') = ds_method (px_down s)
    /\ (r = Ok None -> requests (px_trace s') = requests (px_trace s) ++ ((fun p => (p, Ok Continue)) <$> plugins)).
Proof.
  induction plugins as [|p plugins IH]; intros s; cbn [request_hooks].
  { cbn. by rewrite app_nil_r. }
  destruct (on_request _ _ _ _ _) as [[[w st] h] r]. set (s1 := set_px_ctx _ _).
  assert (untouched s s1) as Hs1 by by split.
  px_unfold. destruct r as [[|answer]|e]; cbn [map_err]; [|by split_and!..].
  specialize (IH s1). destruct (request_hooks plugins rc s1) as [s' r'].
  destruct IH as (Hu & Hsel & Hip & Hm & Hq). split_and!; [by etrans|done..|].
  intros Hr. rewrite Hq by done. cbn. by rewrite hook_requests_app, <- app_assoc.
Qed.

Lemma refuse_true response s : snd (refuse response s) <> Ok false.
Proof. unfold refuse, set_keepalive. px_unfold. by destruct (write_route_response _ _) as [? []]. Qed.

(** Authorization either leaves the request refused or failed with nothing
    consulted, or admits it. *)
Lemma authorize_spec s0 selected host :
  hoare (fun s => unasked s0 s /\ cx_selected (px_ctx s) = Some selected) (authorize_request selected host)
    (fun r s => untouched s0 s /\ (r = Ok false -> admitted_by selected s0 s)).
Proof.
  intros s [(Hu & Hq & Ho) Hsel]. unfold authorize_request. px_unfold.
  assert (forall response s, untouched s0 s ->
    untouched s0 (fst (refuse response s)) /\ (snd (refuse response s) = Ok false -> admitted_by selected s0 (fst (refuse response s)))) as Hrefuse.
  { intros response s1 Hs. split; [etrans; [exact Hs|apply wire_unasked, wire_refuse]|]. by intros Hr%refuse_true. }
  case_match eqn:Hacc; [by apply Hrefuse|].
  case_match eqn:Hmeth; [by destruct (fail_if _ _); [apply Hrefuse|]|].
  match goal with |- context [request_hooks ?l ?rc s] => pose proof (request_hooks_spec l rc s) as Hh; destruct (request_hooks l rc s) as [s' r] eqn:Erun end.
  destruct Hh as (Hu' & Hsel' & Hip' & Hm' & Hq'). assert (untouched s0 s') by by etrans.
  destruct r as [[response|]|e]; [by apply Hrefuse| |done].
  split; [done|]. intros _. unfold admitted_by. cbn. rewrite Hsel', Hip', Hm', Hq', Hq by done.
  split_and!; [done|by apply negb_false_iff|..|done|by eauto 10].
  apply andb_false_iff in Hmeth as [Hn%negb_false_iff|Hin%negb_false_iff].
  - left. by destruct (allowed_methods _).
  - right. apply existsb_exists in Hin as (x & Hx & ->%String.eqb_eq). by apply list_elem_of_In.
Qed.

(** How a request may leave [request_filter]. *)
Definition policy_outcome (s : PState) (r : result PError bool) (s' : PState) : Prop :=
  (untouched s s' /\ r <> Ok false) \/ (cx_selected (px_ctx s') = None /\ untouched s s') \/ admitted s s'.

(** [if m.await? { return Ok(true) }]. *)
Lemma hoare_guard (R P : PState -> Prop) (m : px bool) (k : px bool) Q :
  hoare P m (fun r s => (r = Ok false -> R s) /\ (r <> Ok false -> Q r s)) -> hoare R k Q ->
  hoare P (answered ← m; if answered : bool then mret true else k) Q.
Proof.
  intros Hm Hk s Hs. destruct (Hm s Hs) as [HR HQ]. unfold mbind, px_bind.
  destruct (m s) as [s' [[]|e]]; cbn in *; [by apply HQ|by apply Hk, HR|by apply HQ].
Qed.

Lemma wire_guard s0 m k :
  within wire m -> hoare (unasked s0) k (policy_outcome s0) ->
  hoare (unasked s0) (answered ← m; if answered : bool then mret true else k) (policy_outcome s0).
Proof.
  intros Hm Hk. apply (hoare_guard (unasked s0)); [|done]. intros s Hs.
  assert (unasked s0 (fst (m s))) as [? ?] by (etrans; [exact Hs|apply wire_unasked, Hm]). split; [by split|by left].
Qed.

Lemma admitted_guard sel s0 m k :
  keeps (admitted_by sel s0) m -> hoare (admitted_by sel s0) k (policy_outcome s0) ->
  hoare (admitted_by sel s0) (answered ← m; if answered : bool then mret true else k) (policy_outcome s0).
Proof.
  intros Hm Hk. apply (hoare_guard (admitted_by sel s0)); [|done]. intros s Hs%Hm.
  split; [done|]. right; right. by exists sel.
Qed.

(** The callback's first steps only set the request up, and cannot fail. *)
Definition staged (s s' : PState) : Prop := unasked s s' /\ cx_selected (px_ctx s') = cx_selected (px_ctx s).
#[local] Instance staged_trans : Transitive staged.
Proof. intros s1 s2 s3 [? ?] [? ?]. split; [by etrans|congruence]. Qed.
Lemma wire_staged s s' : wire s s' -> staged s s'.
Proof. intros Hw. split; [by apply wire_unasked|]. by destruct Hw as [_ _ _ (? & ? & ->) _ _]. Qed.

Definition prepares {A} (m : px A) : Prop := forall s, staged s (fst (m s)) /\ exists a, snd (m s) = Ok a.

Lemma prepares_bind {A B} (m : px A) (f : A -> px B) : prepares m -> (forall a, prepares (f a)) -> prepares (m ≫= f).
Proof.
  intros Hm Hf s. destruct (Hm s) as [Hu [a Ha]]. unfold mbind, px_bind. destruct (m s) as [s1 r]. cbn in *. subst r.
  destruct (Hf a s1) as [Hu' Ha']. split; [by etrans|done].
Qed.
Lemma prepares_first {A B} P (m : px A) (f : A -> px B) Q :
  prepares m -> (forall s s', staged s s' -> P s -> P s') -> (forall a, hoare P (f a) Q) -> hoare P (m ≫= f) Q.
Proof.
  intros Hm HP Hf s Hs. destruct (Hm s) as [Hu [a Ha]]. unfold mbind, px_bind. destruct (m s) as [s1 r]. cbn in *. subst r.
  by eapply Hf, HP.
Qed.

Ltac prepare :=
  repeat first
    [ apply prepares_bind | match goal with |- forall _, _ => intro end | solve [intros ?s; split; [by repeat split|by eexists]] | case_match ].

Lemma prepares_resolve_client real_ip : prepares (resolve_client real_ip).
Proof. unfold resolve_client. prepare. Qed.
Lemma prepares_resolve_geoip real_ip : prepares (resolve_geoip real_ip).
Proof.
  intros s. unfold resolve_geoip. px_unfold. destruct (px_geo s) as [geo|]; [|split; [by repeat split|by eexists]].
  destruct (if is_some real_ip then _ else _) as [geo' record]. cbn. split; [|by eexists]. repeat split.
  intros n Hn. cbn. by apply remove_headers_others.
Qed.
Lemma prepares_timeouts body send : prepares (apply_client_timeouts body send).
Proof. unfold apply_client_timeouts. prepare. Qed.

Lemma admitted_outcome s0 r s : admitted s0 s -> policy_outcome s0 r s.
Proof. by right; right. Qed.

(** The rest of the request, once it is admitted. *)
Lemma after_policy s0 snapshot selected (was_cacheable : bool) host :
  hoare (admitted_by selected s0)
    (answered ← prepare_scp_request snapshot selected;
     if answered : bool then mret true
     else
       answered ← (if was_cacheable : bool then try_cache host else mret false);
       if answered : bool then mret true
       else selected ← select_backend snapshot selected; respond_to_selected_target selected)
    (policy_outcome s0).
Proof.
  apply admitted_guard; [apply prepare_scp_admitted|].
  apply admitted_guard; [destruct was_cacheable; [apply try_cache_admitted|apply ret_admitted]|].
  apply (hoare_bind (fun _ => admitted s0)).
  - eapply hoare_post; [apply select_backend_admitted|]. intros [] s Hs; [done|by apply admitted_outcome].
  - intros sel s [sel' Hs]. apply admitted_outcome. exists sel'. by eapply wire_admitted; [apply wire_target|].
Qed.

(** The request once its route is known: limits, then authorization. *)
Lemma routed_spec s0 snapshot selected host timeouts (limits : px unit) :
  prepares limits -> prepares timeouts ->
  hoare (fun s => unasked s0 s /\ cx_selected (px_ctx s) = Some selected)
    (_ ← limits; _ ← timeouts : px unit;
     answered ← restrict_client_max_body_size;
     if answered : bool then mret true
     else
       was_cacheable ← down_of (fun d => is_cacheable_request (ds_method d) (ds_headers d));
       answered ← authorize_request selected host;
       if answered : bool then mret true
       else
         answered ← prepare_scp_request snapshot selected;
         if answered : bool then mret true
         else
           answered ← (if was_cacheable : bool then try_cache host else mret false);
           if answered : bool then mret true
           else selected ← select_backend snapshot selected; respond_to_selected_target selected)
    (policy_outcome s0).
Proof.
  intros Hl Ht.
  assert (forall s1 s2, staged s1 s2 -> unasked s0 s1 /\ cx_selected (px_ctx s1) = Some selected ->
    unasked s0 s2 /\ cx_selected (px_ctx s2) = Some selected) as Hstep by (intros ? ? [? ?] [? ?]; split; [by etrans|congruence]).
  do 2 (apply prepares_first; [done|done|intros _]).
  apply (hoare_guard (fun s => unasked s0 s /\ cx_selected (px_ctx s) = Some selected)).
  { intros s Hs. pose proof (Hstep _ _ (wire_staged _ _ (wire_restrict s)) Hs) as [[Hu Hq] Hsel]. split; [done|by left]. }
  unfold down_of. apply hoare_get; intros was_cacheable.
  apply (hoare_guard (admitted_by selected s0)); [|apply after_policy].
  eapply hoare_pre; [eapply hoare_post; [apply authorize_spec|]|by intros s []]. intros r s [Hu Ha]. split; [done|by left].
Qed.

Lemma request_filter_policy snapshot generation s :
  let '(s', r) := request_filter snapshot generation s in
  policy_outcome (set_px_cache (advance_generation (px_cache s) generation) s) r s'.
Proof.
  set (s0 := set_px_cache _ s).
  assert (hoare (unasked s) (request_filter snapshot generation) (policy_outcome s0)) as Hf.
  2: { specialize (Hf s (reflexivity s)). by destruct (request_filter snapshot generation s). }
  assert (forall s1 s2, staged s1 s2 -> unasked s s1 -> unasked s s2) as Hstep by (intros ? ? [? _] ?; by etrans).
  unfold request_filter.
  do 5 (apply prepares_first; [auto using prepares_resolve_client, prepares_resolve_geoip, prepares_timeouts; by prepare|done|intros _]).
  apply (hoare_bind (fun _ => unasked s0)); [intros s1 [[Hc] Hq]; split; [split|]; cbn; by rewrite ?Hc|intros _].
  apply wire_guard; [apply wire_acme|].
  unfold down_of. apply hoare_get; intros d.
  apply (hoare_bind (fun _ => unasked s0)).
  { intros s1 [[Hu Hq] _]. cbn. destruct (select_runtime_route _ _); [done|by left]. }
  intros [[selected host]|].
  - apply (hoare_bind (fun _ s1 => unasked s0 s1 /\ cx_selected (px_ctx s1) = Some selected)); [intros s1 ([] & ? & ?); by repeat split|intros _].
    apply routed_spec; [by prepare|apply prepares_timeouts].
  - apply (hoare_bind (fun _ s1 => unasked s0 s1 /\ cx_selected (px_ctx s1) = None)); [intros s1 ([] & ? & ?); by repeat split|intros _].
    intros s1 [Hu Hn]. destruct (wire_staged _ _ (wire_restrict s1)) as [Hw Hs]. right; left.
    split; [congruence|]. by destruct (unasked_trans _ _ _ Hu Hw).
Qed.

(** C2: whatever the plugins, the clock and the network do, a request reaches the
    response cache, the counters of weighted targets, SCP discovery or an upstream only
    after the access rules of its route admitted the client, its methods admitted the
    method, and each plugin of the route, in order, let the request continue, the first
    of them asked about the request as it was received;
    otherwise it is answered or fails with all of these untouched, the cache moved to
    the current generation aside.  A request without a route touches none of them. *)
Theorem policy_before_cache snapshot generation s :
  let '(s', r) := request_filter snapshot generation s in
  policy_outcome (set_px_cache (advance_generation (px_cache s) generation) s) r s'.
Proof. apply request_filter_policy. Qed.
End policy.
