(* ===== verification/Protected.v ===== *)
(** * Protected routes, end to end

    The configuration of a route, the plugins the registry builds from it, and the
    request filter together: what a request must carry to get past the plugins of the
    route it is for, in any state of the process.  The plugins are those of [Registry];
    sockets, the clock and name resolution are the class [ProxyIo]. *)

From S2P Require Import Prelude RustStr NetAddr BTree Crates Headers PluginApi Include Ir Types HttpRoutes Routing Scp Cache.
From S2P Require Import CompileUpstreams CompileRoutes CompileRouter Control Cli Grpc Selection ClientIp RateLimit HeadersPlugin CorsPlugin AuthPlugins.
From S2P Require Import ScpRouting Registry Health Nrf Groups Server Assembly GeoIp Peer ProxyState Proxy Lifecycle.

Open Scope N_scope.

(** ** The route of a request *)

Section selected.
Context `{RuntimeDeps} `{HttpErrors} `{GeoDb} `{PeerDefaults} `{HashIter} {W : Type} `{!ScpGroups W} `{!ProxyEnv W} `{!GroupSelect}.

Abbreviation px := (@px _ _ _ W _).
Abbreviation PState := (@PState _ _ _ W _).

(** A selected route is that of a location, with the chain built for it. *)
Definition route_of (snapshot : RuntimeSnapshot) (sel : SelectedRoute) : Prop :=
  exists l, router_location (sn_router snapshot) l /\ sl_route_id sel = route_id l /\ sl_plugins sel = plugin_chain snapshot (route_id l).
Definition selected_ok (snapshot : RuntimeSnapshot) (s : PState) : Prop :=
  forall sel, cx_selected (px_ctx s) = Some sel -> route_of snapshot sel.

Lemma select_runtime_route_ok snapshot session sel host :
  select_runtime_route snapshot session = Ok (Some (sel, host)) -> route_of snapshot sel.
Proof.
  unfold select_runtime_route. intros Hr. apply bind_Ok_inv in Hr as ([loc|] & Hl & Hr); [|done].
  apply bind_Ok_inv in Hr as (route & Hf & [= -> _]). apply resolve_route_location in Hl. unfold from_resolved in Hf. inv_ok.
  by exists (rl_location loc).
Qed.

Lemma same_selected_ok snapshot {A} (m : px A) :
  (forall s, cx_selected (px_ctx (fst (m s))) = cx_selected (px_ctx s)) -> keeps (selected_ok snapshot) m.
Proof. intros Hm s Hs sel. rewrite Hm. apply Hs. Qed.

Lemma wire_selected_ok snapshot {A} (m : px A) : within wire m -> keeps (selected_ok snapshot) m.
Proof. intros Hm. apply same_selected_ok. intros s. by destruct (Hm s) as [_ _ _ (? & ? & ->) _ _]. Qed.

Lemma prepares_selected_ok snapshot {A} (m : px A) : prepares m -> keeps (selected_ok snapshot) m.
Proof. intros Hm. apply same_selected_ok. intros s. by destruct (Hm s) as [[_ ?] _]. Qed.

Lemma on_ctx_selected_ok snapshot f :
  (forall c, cx_selected (f c) = cx_selected c) -> keeps (selected_ok snapshot) (on_ctx f : px unit).
Proof. intros Hf. apply same_selected_ok. intros s. apply Hf. Qed.

Lemma authorize_selected_ok snapshot selected host : keeps (selected_ok snapshot) (authorize_request selected host).
Proof.
  unfold authorize_request, ctx_of, down_of.
  do 3 (apply keeps_bind; [by apply same_selected_ok|intro]).
  case_match; [apply wire_selected_ok; auto with px|]. case_match.
  { apply keeps_bind; [by apply same_selected_ok|intro]. apply wire_selected_ok; auto with px. }
  apply keeps_bind.
  - apply same_selected_ok. intros s.
    match goal with |- context [request_hooks ?l ?rc s] => pose proof (request_hooks_spec l rc s) as Hh; destruct (request_hooks l rc s) end.
    apply Hh.
  - intros [response|]; [apply wire_selected_ok; auto with px|by apply same_selected_ok].
Qed.

Ltac keep_selected :=
  repeat first
    [ apply keeps_bind | match goal with |- forall _, _ => intro end | solve [apply on_ctx_selected_ok; done]
    | solve [by apply same_selected_ok] | apply wire_selected_ok; solve [auto with px] | case_match ].

Lemma prepare_scp_selected_ok snapshot selected : keeps (selected_ok snapshot) (prepare_scp_request snapshot selected).
Proof.
  unfold prepare_scp_request, ctx_of, down_of. keep_selected.
  apply same_selected_ok. intros s0. by destruct (scp_route _ _ _ _ _ _) as [[? ?] ?].
Qed.

Lemma try_cache_selected_ok snapshot host : keeps (selected_ok snapshot) (try_cache host).
Proof.
  unfold try_cache, ctx_of, down_of. keep_selected.
  apply same_selected_ok. intros s0. cbn. by destruct (CacheBackend_record_miss _ _ _ _).
Qed.

Lemma select_backend_selected_ok snapshot selected :
  route_of snapshot selected -> keeps (selected_ok snapshot) (select_backend snapshot selected).
Proof.
  intros Hr s Hs. unfold select_backend. case_match; try done.
  px_unfold. destruct (select_backend_target snapshot _ _ _ _ _) as [cs [t1|e]]; [|done].
  intros sel [= <-]. exact Hr.
Qed.

(** Whatever happens, the route of a request is a location of its snapshot. *)
Lemma request_filter_selected snapshot generation : keeps (selected_ok snapshot) (request_filter snapshot generation).
Proof.
  unfold request_filter.
  apply keeps_bind; [apply prepares_selected_ok, prepares_resolve_client|intro].
  apply keeps_bind; [apply prepares_selected_ok, prepares_resolve_geoip|intro].
  apply keeps_bind; [apply wire_selected_ok; auto with px|intro].
  apply keeps_bind; [apply prepares_selected_ok, prepares_timeouts|intro].
  do 2 (apply keeps_bind; [by apply same_selected_ok|intro]).
  apply keeps_bind; [apply wire_selected_ok; auto with px|intros [|]; [by apply same_selected_ok|]].
  unfold down_of. apply keeps_bind; [by apply same_selected_ok|intros d].
  apply (hoare_bind (fun route s => selected_ok snapshot s /\ forall sel host, route = Some (sel, host) -> route_of snapshot sel)).
  { intros s Hs. cbn. destruct (select_runtime_route _ _) as [route|] eqn:Er; [|done]. split; [done|]. intros sel host ->.
    by eapply select_runtime_route_ok. }
  intros [[sel host]|].
  - intros s [Hs Hr]. revert s Hs. specialize (Hr sel host eq_refl).
    apply keeps_bind; [by intros s _ sel' [= <-]|intros _].
    apply keeps_bind; [by case_match; apply same_selected_ok|intros _].
    apply keeps_bind; [apply prepares_selected_ok, prepares_timeouts|intros _].
    apply keeps_bind; [apply wire_selected_ok; auto with px|intros [|]; [by apply same_selected_ok|]].
    apply keeps_bind; [by apply same_selected_ok|intros was_cacheable].
    apply keeps_bind; [apply authorize_selected_ok|intros [|]; [by apply same_selected_ok|]].
    apply keeps_bind; [apply prepare_scp_selected_ok|intros [|]; [by apply same_selected_ok|]].
    apply keeps_bind; [destruct was_cacheable; [apply try_cache_selected_ok|by apply same_selected_ok]|intros [|]; [by apply same_selected_ok|]].
    apply keeps_bind; [by apply select_backend_selected_ok|]. intros sel'. apply wire_selected_ok; auto with px.
  - intros s [Hs _]. revert s Hs. apply keeps_bind; [by intros s _ sel'|intros _]. apply wire_selected_ok; auto with px.
Qed.
End selected.

(** ** The built-in plugins at work *)

(** What the proxy needs besides its plugins. *)
Class ProxyIo (W : Type) := {
  pio_header : W -> W * option PError;
  pio_body : W -> W * option PError;
  pio_error_page_headers : N -> HeaderMap;
  pio_clock : W -> N;
  pio_challenge_token : W -> string -> option string;
  pio_trace_headers : W -> HeaderMap;
  pio_lookup_host : W -> string -> N -> N -> W * result PError string
}.

Section protected.
Context `{AuthClient} `{HttpErrors} `{Base64} `{Jwt} `{OpenSsl} `{!NrfDeps} `{!HealthDeps} `{Balancers}.
Context `{!FromValue HeadersPluginConfig} `{!FromValue BasicAuthPluginConfig} `{!FromValue RateLimitPluginConfig}
  `{!FromValue CorsPluginConfig} `{!FromValue ExtAuthzPluginConfig} `{!FromValue JwtAuthPluginConfig}.
Context (utf8 : string -> bool) (built_at : N).
#[local] Existing Instance assembled.
#[local] Instance process_deps : RuntimeDeps := assembled built_at.
Context `{GeoDb} `{PeerDefaults} `{HashIter} {W : Type} `{!ScpGroups W} `{!RateLimiters W} `{!ProxyIo W} `{!GroupSelect}.

#[local] Instance builtin_env : ProxyEnv W := {|
  on_request := plugin_on_request utf8;
  on_upstream_request := plugin_on_upstream_request;
  on_response := plugin_on_response;
  io_header := pio_header; io_body := pio_body; error_page_headers := pio_error_page_headers;
  clock := pio_clock; challenge_token := pio_challenge_token; trace_headers := pio_trace_headers;
  ProxyState.lookup_host := pio_lookup_host
|}.

Abbreviation PState := (@PState _ _ _ W _).

(** Each plugin of a chain that continued was asked about the headers its predecessors
    left; none of those that leave requests alone has changed them. *)
Lemma request_hooks_continue plugins rc (s s' : PState) i p :
  request_hooks plugins rc s = (s', Ok None) -> plugins !! i = Some p ->
  exists w st h, snd (plugin_on_request utf8 p rc w st h) = Ok Continue /\
    (Forall (fun q => edits_requests q = false) (take i plugins) -> h = ds_headers (px_down s)).
Proof.
  revert s i. induction plugins as [|q plugins IH]; intros s i Hr Hp; [done|]. cbn [request_hooks] in Hr.
  pose proof (fun He => plugin_keeps_headers utf8 q rc (px_world s) (cx_plugin_state (px_ctx s)) (ds_headers (px_down s)) He) as Hk.
  cbn [on_request builtin_env] in Hr.
  destruct (plugin_on_request utf8 q rc _ _ _) as [[[w st] h] r] eqn:Eq. revert Hr. px_unfold.
  destruct r as [[|answer]|e]; cbn [map_err]; [|done..]. intros Hr. destruct i as [|i]; cbn in Hp.
  - injection Hp as ->. eexists _, _, _. rewrite Eq. by split.
  - destruct (IH _ i Hr Hp) as (w' & st' & h' & Hc & Hh). exists w', st', h'. split; [done|].
    cbn [take]. intros [He Hes]%Forall_cons. rewrite (Hh Hes). cbn. by apply Hk.
Qed.

Lemma build_plugin_builtin spec p :
  build_plugin spec = Ok p -> exists build, with_builtin_plugins built_at !! plugin_name spec = Some build /\ build spec = Ok p.
Proof.
  change (build_plugin spec) with (match with_builtin_plugins built_at !! plugin_name spec with
    | None => Err (mkPluginBuildError (plugin_name spec) "plugin is not compiled into this binary") | Some build => build spec end).
  destruct (with_builtin_plugins built_at !! plugin_name spec) as [build|]; [eauto|done].
Qed.

(** A plugin built under another name than these two leaves requests alone. *)
Lemma built_leaves_requests spec p :
  build_plugin spec = Ok p -> plugin_name spec <> "headers" -> plugin_name spec <> "ext_authz" -> edits_requests p = false.
Proof.
  intros (build & Eb & Hb)%build_plugin_builtin Hh Hx.
  apply builtin_lookup in Eb as (f & Hf & Hn & <-). apply list_elem_of_In in Hf. simpl in Hf.
  destruct Hf as [<-|[<-|[<-|[<-|[<-|[<-|[]]]]]]]; cbn [pf_name HeadersPluginFactory ExtAuthzPluginFactory] in Hn;
    try congruence; by apply fmap_Ok_inv in Hb as (? & _ & ->).
Qed.

(** The request that reached a route with the plugins [specs] was authenticated by each of
    them; those before which no plugin edits requests have seen it as it was received. *)
Definition authenticated (specs : list PluginSpec) (received : HeaderMap) : Prop :=
  forall i spec, specs !! i = Some spec -> exists h, authenticates spec h /\
    ((forall j other, (j < i)%nat -> specs !! j = Some other -> plugin_name other <> "headers" /\ plugin_name other <> "ext_authz") ->
     forall n, n ∉ GEOIP_HEADERS -> get_all n h = get_all n received).

Lemma chain_authenticates specs chain rc (s s1 s2 : PState) :
  build_chain specs = Ok chain -> as_received s s1 -> request_hooks chain rc s1 = (s2, Ok None) ->
  authenticated specs (ds_headers (px_down s)).
Proof.
  intros Hb Hrec Hh i spec Hi. unfold build_chain in Hb. apply mapM_Ok in Hb.
  destruct (Forall2_lookup_l _ _ _ _ _ Hb Hi) as (p & Hp & Hbp).
  destruct (request_hooks_continue _ _ _ _ _ _ Hh Hp) as (w & st & h & Hc & Hk). exists h. split.
  - apply build_plugin_builtin in Hbp as (build & Eb & Hbs).
    by eapply builtin_authenticates.
  - intros Hno n Hn. rewrite Hk; [by apply Hrec|]. apply Forall_lookup. intros j q [Hq Hj]%lookup_take_Some.
    destruct (Forall2_lookup_r _ _ _ _ _ Hb Hq) as (other & Ho & Hbo). destruct (Hno j other) as [? ?]; [lia|done|].
    by eapply built_leaves_requests.
Qed.

(** C3: authentication, from the configuration to the wire.  In every state of a process
    started from a configuration file, after any reloads and control-plane calls, a
    request is refused or fails with cache, counters, SCP discovery and upstreams
    untouched, or has no route, or is for a location of the active router all of whose
    plugins it satisfied: for basic_auth the credentials of the configured user, for
    jwt_auth a bearer token accepted under the configured key with the required scopes,
    for ext_authz a successful answer of the authorization service.  Plugins that no
    headers or ext_authz plugin precedes have judged the headers as received. *)
Theorem protected_routes fs path s0 s generation (st : PState) :
  boot fs path = Some s0 -> rtc (serve_step path) s0 s -> cx_selected (px_ctx st) = None ->
  let '(st', r) := request_filter (st_current s) generation st in
  let received := set_px_cache (advance_generation (px_cache st) generation) st in
  (untouched received st' /\ r <> Ok false) \/
  (cx_selected (px_ctx st') = None /\ untouched received st') \/
  exists sel l, cx_selected (px_ctx st') = Some sel /\ router_location (sn_router (st_current s)) l /\
    sl_route_id sel = route_id l /\ authenticated (plugins l) (ds_headers (px_down st)).
Proof.
  intros Hb Hr Hsel. pose proof (request_filter_policy (st_current s) generation st) as Hp.
  pose proof (request_filter_selected (st_current s) generation st) as Hs.
  destruct (request_filter (st_current s) generation st) as [st' r]. cbn [fst snd] in Hs.
  destruct Hp as [Hp|[Hp|(sel & Hsl & _ & _ & _ & rc & s1 & s2 & Hrec & Hh)]]; [by left|by right; left|right; right].
  destruct (Hs ltac:(intros sel'; congruence) sel Hsl) as (l & Hl & Hid & Hpl). exists sel, l. split_and!; [done..|].
  assert (rtc (rt_step router_wf) s0 s) as Hrt.
  { clear -Hr. induction Hr as [|x y z Hxy _ IH]; [done|]. etrans; [by eapply serve_rt_step|done]. }
  destruct (boot_serves fs path s0 s Hb Hrt) as [Hlk _]. destruct (lk_plugins _ _ (Hlk l Hl)) as (chain & Hc & Hbc).
  rewrite Hpl in Hh. unfold plugin_chain in Hh. rewrite Hc in Hh. cbn in Hh. by eapply chain_authenticates.
Qed.
End protected.
