(* ===== verification/ProtectedSamples.v ===== *)
(** * A protected route at work

    A process started from a configuration with a basic_auth route, with concrete
    libraries: a request with the credentials proceeds, one without them is refused. *)

From S2P Require Import Prelude RustStr NetAddr BTree Crates Headers PluginApi Include Ir Types HttpRoutes Routing Scp Cache.
From S2P Require Import CompileUpstreams CompileRoutes CompileRouter UpstreamGroup Control Cli Grpc Selection ClientIp RateLimit HeadersPlugin CorsPlugin.
From S2P Require Import AuthPlugins ScpRouting Registry Health Nrf Groups Server Assembly GeoIp Peer ProxyState Proxy Lifecycle Protected.

Open Scope N_scope.

Module ProtectedSample.
#[export] Existing Instances Toy.crates ToyPlugins.http_errors AuthSample.base64 AuthSample.jwt AuthSample.auth_client GroupSample.balancers.
#[export] Existing Instances AuthSample.basic_config AuthSample.jwt_from_value AuthSample.ext_from_value GroupSample.health GeoIpSample.db.
#[export] Instance order : HashIter := iter_forward.
#[export] Instance nrf : @NrfDeps Toy.crates := NrfSample.deps NrfSample.answer.
#[export] Instance openssl : OpenSsl := {|
  tls_file_read path := Ok path; X509 := string; PKey := string; PubKey := string;
  stack_from_pem pem := Ok [pem]; Server.private_key_from_pem pem := Ok pem; x509_public_key c := Ok c;
  public_eq c k := String.eqb c k; Asn1Time := N; days_from_now n := Ok n; not_before _ := 0; not_after _ := 1;
  asn1_compare a b := Ok (N.compare a b); set_proto_version _ := Ok tt; set_ca_file _ := Ok tt
|}.
#[export] Instance headers_config : FromValue HeadersPluginConfig := fun _ => Err "missing field".
#[export] Instance rate_config : FromValue RateLimitPluginConfig := fun _ => Err "missing field".
#[export] Instance cors_config : FromValue CorsPluginConfig := fun _ => Err "missing field".
#[export] Instance deps : RuntimeDeps := process_deps 0.
#[export] Instance no_groups : ScpGroups N := {|
  ScpGroup := unit; scp_group_new w _ _ := (w, Err "none"); scp_group_hash_key _ _ := None; scp_candidates _ _ := [];
  scp_status _ _ := Ok tt; scp_select w _ _ _ := (w, None); scp_refresh w _ _ := (w, true); scp_now w := w; scp_strong_count _ _ := 0
|}.
#[export] Instance limiters : RateLimiters N := fun w _ _ => (w, true).
#[export] Instance io : ProxyIo N := {|
  pio_header w := (w + 1, None); pio_body w := (w + 1, None); pio_error_page_headers _ := []; pio_clock w := w;
  pio_challenge_token _ _ := None; pio_trace_headers _ := []; pio_lookup_host w host _ _ := (w, Ok host)
|}.
#[export] Instance env : ProxyEnv N := builtin_env (fun _ => true) 0.
#[export] Instance select_first : GroupSelect := fun _ _ => Some (mkCompiledUpstreamServer "10.0.0.1" 80 1 None None).

Definition text : string :=
  "http { upstream web { server 10.0.0.1:80; } server { listen *:80; location / { basic_auth { username u; password p; realm r; } proxy_pass http://web; } } }".
Definition fs : FileSystem := {| canonicalize := IncludeSample.canon; read_to_string _ := Ok text |}.
Definition start : option RuntimeState := boot fs "/etc/ngxora.conf".
Lemma process_starts : is_some start = true.
Proof. vm_compute. reflexivity. Qed.
Definition down (h : HeaderMap) : Downstream :=
  @mkDownstream Toy.crates "GET" (Toy.parse_uri "/x") h false (Some (Some (ipv4 127 0 0 1, 80))) false (Some "web.test") (Some (Some "web.test"))
    (Some (ipv4 10 0 0 9)) false false None None None None [] false.
Definition request (h : HeaderMap) : PState (W := N) :=
  @mkPState _ _ _ _ _ (down h) (@ProxyContext_default _ _ _ _) (CacheBackend_new 5000) ∅ ∅ None 100 [].
(** Whether the request is forwarded, the status it is answered with, and whether it has
    a route. *)
Definition run (h : HeaderMap) : option (result PError bool * option N * bool) :=
  s ← start; let '(st, r) := request_filter (st_current s) 1 (request h) in
  Some (r, rh_status <$> ds_response (px_down st), is_some (cx_selected (px_ctx st))).
Lemma good_proceeds : run AuthSample.good = Some (Ok false, None, true).
Proof. vm_compute. reflexivity. Qed.
Lemma bad_refused : run AuthSample.bad = Some (Ok true, Some 401, true).
Proof. vm_compute. reflexivity. Qed.
End ProtectedSample.
Import ProtectedSample.

(** The request with the credentials is for a location whose plugins it satisfied. *)
Lemma protected_routes_witness :
  exists s0 l, start = Some s0 /\ router_location (sn_router (st_current s0)) l /\ authenticated (plugins l) AuthSample.good.
Proof.
  pose proof good_proceeds as Hg. unfold run in Hg. destruct start as [s0|] eqn:Es; [|discriminate].
  pose proof (protected_routes (fun _ => true) 0 fs "/etc/ngxora.conf" s0 s0 1 (request AuthSample.good) Es (rtc_refl _ _) eq_refl) as Hp.
  match type of Hp with match ?x with _ => _ end =>
    change ((let '(st, r) := x in Some (r, rh_status <$> ds_response (px_down st), is_some (cx_selected (px_ctx st)))) =
      Some (Ok false, None, true)) in Hg; destruct x as [st r] end.
  injection Hg as -> _ Hsel. destruct Hp as [[_ Hp]|[[Hp _]|(sel & l & _ & Hl & _ & Ha)]].
  - by destruct Hp.
  - by rewrite Hp in Hsel.
  - exists s0, l. by split_and!.
Defined.
