(* ===== verification/RequestLife.v ===== *)
(** * The life of a request

    The callbacks of [Proxy] in the order Pingora calls them, as a step relation: a
    request is filtered, and then answered, proxied or failed; while it is proxied the
    upstream may be retried, bodies stream in both directions and the response header
    is sent once; other requests change the shared caches at any time.  The invariants
    of every run, and that every request can be completed with one response.

    Informational (1xx) responses are left out: [response_filter] is the callback of the
    final header. *)

From S2P Require Import Prelude RustStr NetAddr Crates Headers PluginApi Ir Types HttpRoutes Routing Scp Cache.
From S2P Require Import CompileUpstreams CompileRoutes CompileRouter Control Selection ClientIp ScpRouting GeoIp Peer ProxyState Proxy Lifecycle.

Open Scope N_scope.

Section life.
Context `{RuntimeDeps} `{HttpErrors} `{GeoDb} `{PeerDefaults} `{HashIter} {W : Type} `{!ScpGroups W} `{!ProxyEnv W} `{!GroupSelect}.

Abbreviation px := (@px _ _ _ W _).
Abbreviation PState := (@PState _ _ _ W _).

Inductive Phase := Waiting | Proxying | Answered | Failing | Failed | Finished.

Definition request_phase (r : result PError bool) : Phase :=
  match r with Ok true => Answered | Ok false => Proxying | Err _ => Failing end.
Definition proxy_phase {A} (r : result PError A) : Phase := match r with Ok _ => Proxying | Err _ => Failing end.
Definition proxied {A} (m : px A) (s : PState) : Phase * PState := (proxy_phase (snd (m s)), fst (m s)).

(** What other requests and the runtime share with this one. *)
Definition interfere (b : CacheBackend) (cs : gmap N N) (scp : gmap string (list (ScpCacheKey * ScpCacheEntry))) (geo : option GeoIp) (w : W) (s : PState) : PState :=
  mkPState (px_down s) (px_ctx s) b cs scp geo w (px_trace s).

Inductive life_step : Phase * PState -> Phase * PState -> Prop :=
  | ls_request snapshot generation s :
      life_step (Waiting, s) (request_phase (snd (request_filter snapshot generation s)), fst (request_filter snapshot generation s))
  | ls_peer pool_hash active s : life_step (Proxying, s) (proxied (upstream_peer pool_hash active) s)
  | ls_connect_failed retry s : life_step (Proxying, s) (proxied (fail_to_connect retry) s)
  | ls_proxy_error retry reused s : life_step (Proxying, s) (proxied (error_while_proxy retry reused) s)
  | ls_request_body body s : life_step (Proxying, s) (proxied (request_body_filter body) s)
  | ls_upstream_request uri headers s : life_step (Proxying, s) (proxied (upstream_request_filter uri headers) s)
  | ls_response header s :
      ds_response (px_down s) = None ->
      life_step (Proxying, s) (proxied (header ← response_filter header; write_response_header header) s)
  | ls_response_body body fin s :
      is_Some (ds_response (px_down s)) ->
      life_step (Proxying, s) (proxied (_ ← response_body_filter body; write_response_body body fin) s)
  | ls_give_up s : life_step (Proxying, s) (Failing, s)
  | ls_fail generation error s : life_step (Failing, s) (Failed, fst (fail_to_proxy generation error s))
  | ls_finish_answered generation s : life_step (Answered, s) (Finished, fst (finish_request generation false s))
  | ls_finish_proxied generation s :
      is_Some (ds_response (px_down s)) -> life_step (Proxying, s) (Finished, fst (finish_request generation false s))
  | ls_finish_failed generation s : life_step (Failed, s) (Finished, fst (finish_request generation true s))
  | ls_interference p b cs scp geo w s : life_step (p, s) (p, interfere b cs scp geo w s).

(** A request before its first callback. *)
Definition fresh (s : PState) : Prop :=
  px_ctx s = ProxyContext_default /\ ds_response (px_down s) = None /\ px_trace s = [].

(** ** Views *)

(** Computations that leave a view of the state as it is. *)
Definition same {X} (f : PState -> X) : relation PState := fun s s' => f s' = f s.
#[local] Instance same_refl {X} (f : PState -> X) : Reflexive (same f).
Proof. done. Qed.
#[local] Instance same_trans {X} (f : PState -> X) : Transitive (same f).
Proof. unfold same. intros s1 s2 s3 H1 H2. congruence. Qed.

(** The response on the wire. *)
Definition wire_view (s : PState) : option ResponseHeader * list N := (ds_response (px_down s), headers_sent (px_trace s)).
(** The response hooks. *)
Definition hook_view (s : PState) : bool * list (Plugin * result PluginError PluginFlow) * option (list Plugin) :=
  (cx_response_plugins_applied (px_ctx s), responses (px_trace s), sl_plugins <$> cx_selected (px_ctx s)).
(** The body collected for the cache. *)
Definition buffer_view (s : PState) : option N * string := (cx_cache_body_limit (px_ctx s), cx_response_body_buf (px_ctx s)).
(** All three. *)
Definition view (s : PState) := (wire_view s, hook_view s, buffer_view s).

Lemma same_view {A} (m : px A) :
  within (same view) m -> within (same wire_view) m /\ within (same hook_view) m /\ within (same buffer_view) m.
Proof. intros Hm. split_and!; intros s; specialize (Hm s); unfold same, view in *; congruence. Qed.

Ltac views :=
  repeat first
    [ solve [auto with px] | apply within_bind; [apply _|..] | apply within_ret, _ | apply within_lift, _ | apply within_get, _
    | apply within_try | match goal with |- forall _, _ => intro end | solve [intros ?s; done]
    | solve [intros ?s; unfold same; cbv beta; repeat case_match; done] | case_match ].

Lemma view_resolve_client real_ip : within (same view) (resolve_client real_ip).
Proof. unfold resolve_client. views. Qed.
Lemma view_resolve_geoip real_ip : within (same view) (resolve_geoip real_ip).
Proof. unfold resolve_geoip. views. Qed.
Lemma view_timeouts body send : within (same view) (apply_client_timeouts body send).
Proof. unfold apply_client_timeouts. views. Qed.
Lemma view_finish_request_body body : within (same view) (request_body_filter body).
Proof. unfold request_body_filter. views. Qed.
Lemma view_fail_to_connect retry : within (same view) (fail_to_connect retry).
Proof. unfold fail_to_connect. views. Qed.
Lemma view_error_while_proxy retry reused : within (same view) (error_while_proxy retry reused).
Proof. unfold error_while_proxy. views. Qed.

Lemma view_request_hooks plugins rc : within (same view) (request_hooks plugins rc).
Proof.
  induction plugins as [|p plugins IH]; intros s; cbn [request_hooks]; [done|].
  destruct (on_request _ _ _ _ _) as [[[w st] h] r].
  etrans; [|apply (within_bind (same view)); [by apply within_lift, _|intros flow; views]].
  unfold same, view, wire_view, hook_view. cbn. by rewrite responses_app, headers_sent_app, !app_nil_r.
Qed.

Lemma view_upstream_hooks plugins headers : within (same view) (upstream_hooks plugins headers).
Proof.
  revert headers. induction plugins as [|p plugins IH]; intros headers s; cbn [upstream_hooks]; [done|].
  destruct (on_upstream_request _ _ _ _) as [[[w st] h] r].
  etrans; [|apply (within_bind (same view)); [by apply within_lift, _|intros flow; views; apply IH]].
  unfold same, view, wire_view, hook_view. cbn. by rewrite responses_app, headers_sent_app, !app_nil_r.
Qed.
Hint Resolve view_upstream_hooks view_request_hooks : px.

Lemma view_upstream_request uri headers : within (same view) (upstream_request_filter uri headers).
Proof. unfold upstream_request_filter. views. Qed.

(** Writing a response touches neither the collected body nor the selected route. *)
Lemma wire_buffer {A} (m : px A) : within wire m -> within (same buffer_view) m.
Proof. intros Hm s. destruct (Hm s) as [_ _ _ (? & ? & Hc) _ _]. unfold same, buffer_view. by rewrite Hc. Qed.

(** ** One response *)

Definition unsent (s : PState) : Prop := wire_view s = (None, []).
Definition sent (s : PState) : Prop := exists header, wire_view s = (Some header, [rh_status header]).
Definition one_header (s : PState) : Prop := unsent s \/ sent s.
(** The outcome of a computation that answers when it succeeds. *)
Definition answers {A} (r : result PError A) (s : PState) : Prop := match r with Ok _ => sent s | Err _ => one_header s end.
(** The outcome of a callback that answers when it returns [true]. *)
Definition may_answer (r : result PError bool) (s : PState) : Prop :=
  match r with Ok true => sent s | Ok false => unsent s | Err _ => one_header s end.

Lemma keeps_same {A X} (f : PState -> X) (P : X -> Prop) (m : px A) : within (same f) m -> keeps (fun s => P (f s)) m.
Proof. intros Hm s Hs. by rewrite (Hm s). Qed.
Lemma keeps_unsent {A} (m : px A) : within (same wire_view) m -> keeps unsent m.
Proof. apply (keeps_same wire_view (fun v => v = (None, []))). Qed.
Lemma keeps_sent {A} (m : px A) : within (same wire_view) m -> keeps sent m.
Proof. apply (keeps_same wire_view (fun v => exists header, v = (Some header, [rh_status header]))). Qed.
Lemma keeps_one_header {A} (m : px A) : within (same wire_view) m -> keeps one_header m.
Proof. intros Hm s [Hs|Hs]; [left; by apply keeps_unsent|right; by apply keeps_sent]. Qed.

Lemma response_hooks_wire_view plugins header : within (same wire_view) (response_hooks plugins header).
Proof.
  revert header. induction plugins as [|p plugins IH]; intros header s; cbn [response_hooks]; [done|].
  destruct (on_response _ _ _ _ _) as [[[[w st] status] h] r].
  etrans; [|apply (within_bind (same wire_view)); [by apply within_lift, _|intros flow; views; apply IH]].
  unfold same, wire_view. cbn. by rewrite headers_sent_app, !app_nil_r.
Qed.
Lemma apply_wire_view header : within (same wire_view) (apply_response_plugins header).
Proof. unfold apply_response_plugins. views. apply response_hooks_wire_view. Qed.
Hint Resolve apply_wire_view : px.
Lemma body_wire_view body fin : within (same wire_view) (write_response_body body fin).
Proof. intros s. unfold write_response_body. by destruct (io_body _) as [w [e|]]. Qed.

(** A header is on the wire once it is written. *)
Lemma header_sent header :
  hoare unsent (write_response_header header) (fun r s => match r with Ok _ => sent s | Err _ => unsent s end).
Proof.
  intros s [= Hn Hl]. unfold write_response_header. destruct (io_header _) as [w [e|]]; cbn.
  - unfold unsent, wire_view. cbn. by rewrite Hn, Hl.
  - exists header. unfold wire_view. cbn. by rewrite headers_sent_app, Hl.
Qed.
Lemma response_sent header body fin :
  hoare unsent (_ ← write_response_header header; write_response_body body fin) answers.
Proof.
  apply (hoare_bind (fun _ => sent)).
  - eapply hoare_post; [apply header_sent|]. intros [] s ?; [done|by left].
  - intros _. eapply hoare_post; [apply keeps_sent, body_wire_view|]. intros [] s Hs; [done|by right].
Qed.

Lemma route_response_sent response : hoare unsent (write_route_response response) answers.
Proof.
  unfold write_route_response. apply keeps_first; [apply keeps_unsent, apply_wire_view|by left|intros header].
  apply hoare_get; intros method. case_match; (eapply hoare_pre; [apply response_sent|by intros s []]).
Qed.
Lemma cached_response_sent cached : hoare unsent (write_cached_response cached) answers.
Proof. apply response_sent. Qed.
Lemma respond_error_sent status : hoare unsent (respond_error status) answers.
Proof. apply response_sent. Qed.

Lemma answers_true {A} (m : px A) : hoare unsent m answers -> hoare unsent (_ ← m; mret true) may_answer.
Proof. intros Hm. apply (hoare_bind (fun _ => sent)); [|by intros _ s]. eapply hoare_post; [exact Hm|]. by intros []. Qed.
Lemma silent_first {A B} (m : px A) (f : A -> px B) Q :
  within (same wire_view) m -> (forall e s, unsent s -> Q (Err e) s) -> (forall a, hoare unsent (f a) Q) ->
  hoare unsent (m ≫= f) Q.
Proof. intros Hm. apply keeps_first, keeps_unsent, Hm. Qed.

Lemma silent_guard (m k : px bool) :
  hoare unsent m may_answer -> hoare unsent k may_answer ->
  hoare unsent (answered ← m; if answered : bool then mret true else k) may_answer.
Proof.
  intros Hm Hk. apply (hoare_guard unsent); [|done]. eapply hoare_post; [exact Hm|].
  intros [[]|e] s Hs; split; try done.
Qed.

Lemma view_wire {A} (m : px A) : within (same view) m -> within (same wire_view) m.
Proof. apply same_view. Qed.

Ltac answer :=
  repeat first
    [ solve [auto with px] | apply silent_guard
    | apply answers_true; solve [apply route_response_sent | apply cached_response_sent | apply respond_error_sent]
    | apply silent_first; [solve [views | apply view_wire; views] | by left | match goal with |- forall _, _ => intro end]
    | solve [apply hoare_ret; done] | case_match ].

Lemma refuse_answers response : hoare unsent (refuse response) may_answer.
Proof. unfold refuse, set_keepalive. answer. Qed.
Lemma restrict_answers : hoare unsent restrict_client_max_body_size may_answer.
Proof. unfold restrict_client_max_body_size, set_keepalive. answer. Qed.
Lemma acme_answers : hoare unsent acme_challenge may_answer.
Proof. unfold acme_challenge, set_keepalive. answer. Qed.
Lemma target_answers selected : hoare unsent (respond_to_selected_target selected) may_answer.
Proof. unfold respond_to_selected_target, refuse, set_keepalive. answer. Qed.
Lemma authorize_answers selected host : hoare unsent (authorize_request selected host) may_answer.
Proof. unfold authorize_request, refuse, set_keepalive. answer. Qed.
Lemma prepare_scp_answers snapshot selected : hoare unsent (prepare_scp_request snapshot selected) may_answer.
Proof. unfold prepare_scp_request. answer.
Qed.
Lemma try_cache_answers host : hoare unsent (try_cache host) may_answer.
Proof. unfold try_cache. answer. Qed.
Lemma select_backend_view snapshot selected : within (same wire_view) (select_backend snapshot selected).
Proof. unfold select_backend. views. Qed.
Hint Resolve refuse_answers restrict_answers acme_answers target_answers authorize_answers prepare_scp_answers try_cache_answers
  select_backend_view : px.

(** A request filter that returns [true] has sent a response; otherwise none. *)
Lemma request_filter_answers snapshot generation : hoare unsent (request_filter snapshot generation) may_answer.
Proof.
  unfold request_filter, set_keepalive.
  do 5 (apply silent_first;
    [solve [views | apply view_wire; auto using view_resolve_client, view_resolve_geoip, view_timeouts] | by left | intros _]).
  answer.
Qed.

(** ** Failures *)

(** Response headers can be written. *)
Definition wire_up : Prop := forall w, snd (io_header w) = None.

Lemma response_sent_up header body fin :
  wire_up -> hoare unsent (_ ← write_response_header header; write_response_body body fin) (fun _ => sent).
Proof.
  intros Hio. apply (hoare_bind (fun _ => sent)); [|intros _; apply keeps_sent, body_wire_view].
  intros s Hs. pose proof (header_sent header s Hs) as Hh. unfold write_response_header in *.
  specialize (Hio (px_world s)). destruct (io_header (px_world s)) as [w r]. cbn in Hio. by subst r.
Qed.

Lemma unsent_sent s : unsent s -> sent s -> False.
Proof. intros Hu [h Hs]. unfold unsent in Hu. congruence. Qed.

(** The answer to a failure: at most one header; one, if the wire is up, even when
    the response hooks fail. *)
Lemma write_failure_spec response s :
  unsent s ->
  snd (write_failure response s) = Ok tt /\ one_header (fst (write_failure response s)) /\ (wire_up -> sent (fst (write_failure response s))).
Proof.
  intros Hs. unfold write_failure, px_try. px_unfold.
  pose proof (route_response_sent response s Hs) as Hr. destruct (write_route_response response s) as [s1 [[]|e]]; cbn in *.
  { split_and!; [done|by right|done]. }
  destruct (is_none _) eqn:Hn; [|by destruct Hr as [[= Hr]|Hr]; [rewrite Hr in Hn|split_and!; [|right|]]].
  assert (unsent s1) as Hu by by destruct Hr as [?|[h [= Hr]]]; [|rewrite Hr in Hn].
  pose proof (respond_error_sent 500 s1 Hu) as He.
  assert (wire_up -> sent (fst (respond_error 500 s1))) as Hup by by intros Hio; eapply response_sent_up.
  destruct (respond_error 500 s1) as [s2 [[]|e2]]; cbn in *; split_and!; try done. by right.
Qed.

Lemma written_status_spec code s : written_status code s = (s, Ok (from_option rh_status code (ds_response (px_down s)))).
Proof. unfold written_status. px_unfold. by destruct (ds_response _). Qed.

Lemma bind_get {A B} (f : PState -> A) (k : A -> px B) s : (px_get f ≫= k) s = k (f s) s.
Proof. done. Qed.
Lemma bind_cache {B} f (k : unit -> px B) s : (on_cache f ≫= k) s = k tt (set_px_cache (f (px_cache s)) s).
Proof. done. Qed.

(** What a failed request is left with. *)
Definition failure_outcome (error : ProxyError) (s : PState) (outcome : PState * result PError FailToProxy) : Prop :=
  exists f, snd outcome = Ok f
    /\ let s' := fst outcome in
       one_header s'
       /\ (wire_up -> sent s')
       /\ (forall header, ds_response (px_down s) = Some header -> px_down s' = px_down s /\ px_trace s' = px_trace s)
       /\ (forall header, ds_response (px_down s') = Some header -> error_code f = rh_status header)
       /\ (can_reuse_downstream f = true ->
           pe_source error = SourceUpstream /\ cx_cache_hit (px_ctx s') = true /\ ds_finished (px_down s') = true).

Lemma page_outcome error response code s :
  unsent s -> failure_outcome error s ((_ ← write_failure response; code ← written_status code; mret (mkFailToProxy false code)) s).
Proof.
  intros Hs. destruct (write_failure_spec response s Hs) as (Hok & Hone & Hup). px_unfold.
  destruct (write_failure response s) as [s' r]. cbn in *. subst r. rewrite written_status_spec.
  eexists; split; [done|]. cbn. split_and!; try done.
  - intros h Hh. injection Hs as Hs. congruence.
  - by intros h ->.
Qed.

Lemma written_outcome error header s :
  sent s -> ds_response (px_down s) = Some header -> failure_outcome error s (s, Ok (mkFailToProxy false (rh_status header))).
Proof. intros Hs Hh. eexists; split; [done|]. cbn. split_and!; try done; [by right|]. intros h Hh'. congruence. Qed.

Lemma stale_outcome error cached s :
  unsent s -> pe_source error = SourceUpstream ->
  failure_outcome error s
    ((_ ← on_ctx (set_cx_cache_hit true); sent ← px_try (write_cached_response cached);
      mret (mkFailToProxy (is_some sent) (cr_status cached))) s).
Proof.
  intros Hs He. pose proof Hs as [= Hn Hl]. unfold px_try, write_cached_response, write_response_header, write_response_body. px_unfold.
  unfold failure_outcome, wire_up. cbn [px_world set_px_ctx]. 
  destruct (io_header (px_world s)) as [w [e|]] eqn:Hw; cbn.
  - eexists; split; [done|]. cbn. split_and!; try done; [by left|intros Hup; specialize (Hup (px_world s)); by rewrite Hw in Hup|..];
      intros ? ?; congruence.
  - destruct (io_body w) as [w' [e|]]; cbn; (eexists; split; [done|]);
      cbn; match goal with |- one_header ?x /\ _ => assert (sent x) as Hsent by (eexists; apply f_equal2; [done|]; etrans; [apply headers_sent_app|]; by rewrite Hl) end;
      cbn in *; split_and!; try done; try (by right); try (intros ? ?; congruence); try (by intros h [= <-]).
    intros _. by rewrite orb_true_r.
Qed.

Lemma fail_to_proxy_outcome generation error s :
  one_header s -> failure_outcome error s (fail_to_proxy generation error s).
Proof.
  intros Hs. set (s1 := set_px_cache (advance_generation (px_cache s) generation) s).
  assert (one_header s1) as Hs1 by exact Hs. change (failure_outcome error s1 (fail_to_proxy generation error s)).
  unfold fail_to_proxy, ctx_of, down_of. rewrite bind_cache. fold s1. clearbody s1. rewrite !bind_get. cbv beta.
  assert (forall h, ds_response (px_down s1) = Some h -> sent s1) as Hsent by (intros h Hh; destruct Hs1 as [[= Hn]|]; [congruence|done]).
  assert (ds_response (px_down s1) = None -> unsent s1) as Hunsent by (intros Hh; destruct Hs1 as [|[h [= Hn]]]; [done|congruence]).
  destruct (cx_scp_profile _), (ds_response (px_down s1)) eqn:Hd;
    [by apply written_outcome; eauto|by apply page_outcome; eauto|by apply written_outcome; eauto|].
  rewrite !bind_get. cbv beta. case_match eqn:Hc; [|by apply page_outcome; eauto].
  apply stale_outcome; [by auto|]. by destruct (pe_source error).
Qed.
(** C15: a failed request gets at most one response.  If one is already on the wire,
    [fail_to_proxy] writes nothing and reports its status; otherwise it sends at most
    one header, and exactly one when headers can be written, whatever the response
    hooks do; the code it reports is the status on the wire; and the connection is
    offered for reuse only after a complete stale response. *)
Theorem failure_answered_once generation error s :
  one_header s -> failure_outcome error s (fail_to_proxy generation error s).
Proof. apply fail_to_proxy_outcome. Qed.

(** ** Response hooks *)

(** The hooks that have run are the last plugins of the route, in reverse order. *)
Definition hooked_view (v : bool * list (Plugin * result PluginError PluginFlow) * option (list Plugin)) : Prop :=
  match v with
  | (true, ran, Some plugins) => ran.*1 `prefix_of` reverse plugins
  | (_, ran, _) => ran = []
  end.
Definition hooked (plugins : option (list Plugin)) (s : PState) : Prop := hooked_view (hook_view s) /\ snd (hook_view s) = plugins.

Lemma keeps_hooked {A} o (m : px A) : within (same hook_view) m -> keeps (hooked o) m.
Proof. apply (keeps_same hook_view (fun v => hooked_view v /\ snd v = o)). Qed.

Lemma response_hooks_ran plugins header s :
  let s' := fst (response_hooks plugins header s) in
  cx_response_plugins_applied (px_ctx s') = cx_response_plugins_applied (px_ctx s)
  /\ cx_selected (px_ctx s') = cx_selected (px_ctx s)
  /\ exists ran, (responses (px_trace s')).*1 = (responses (px_trace s)).*1 ++ ran /\ ran `prefix_of` plugins.
Proof.
  revert header s. induction plugins as [|p plugins IH]; intros header s; cbn [response_hooks].
  { split_and!; try done. exists []. by rewrite app_nil_r. }
  destruct (on_response _ _ _ _ _) as [[[[w st] status] h] r]. set (s1 := set_px_ctx _ _).
  assert ((responses (px_trace s1)).*1 = (responses (px_trace s)).*1 ++ [p]) as Hs1.
  { cbn. by rewrite responses_app, fmap_app. }
  assert (forall e, let s' := fst (s1, Err e : result PError ResponseHeader) in
    cx_response_plugins_applied (px_ctx s') = cx_response_plugins_applied (px_ctx s)
    /\ cx_selected (px_ctx s') = cx_selected (px_ctx s)
    /\ exists ran, (responses (px_trace s')).*1 = (responses (px_trace s)).*1 ++ ran /\ ran `prefix_of` p :: plugins) as Hstop.
  { intros e. split_and!; try done. exists [p]. split; [done|]. by apply prefix_cons, prefix_nil. }
  px_unfold. destruct r as [[|answer]|e]; cbn [map_err respond_from_plugin_flow]; [|apply Hstop..].
  destruct (IH (mkResponseHeader status h) s1) as (Ha & Hsel & ran & Hr & Hp). split_and!; [done..|].
  exists (p :: ran). rewrite Hr, Hs1, <- app_assoc. split; [done|by apply prefix_cons].
Qed.

Lemma apply_hooked o header : keeps (hooked o) (apply_response_plugins header).
Proof.
  intros s [Hs Ho]. unfold apply_response_plugins. px_unfold.
  destruct (cx_response_plugins_applied (px_ctx s)) eqn:Ha; [done|].
  assert (responses (px_trace s) = []) as Hn by (unfold hook_view in Hs; by rewrite Ha in Hs).
  cbn [px_ctx set_px_ctx cx_selected set_cx_response_plugins_applied].
  destruct (cx_selected (px_ctx s)) as [selected|] eqn:Hsel; unfold hooked, hook_view.
  - match goal with |- context [response_hooks ?l ?h ?s] => destruct (response_hooks_ran l h s) as (-> & -> & ran & Hr & Hp) end.
    cbn in *. rewrite Hsel in *. split; [|done]. cbn. rewrite Hr, Hn. by cbn.
  - cbn in *. by rewrite Hsel in *.
Qed.
Lemma header_hook_view header : within (same hook_view) (write_response_header header).
Proof.
  intros s. unfold write_response_header. destruct (io_header _) as [w [e|]]; [done|].
  unfold same, hook_view. cbn. by rewrite responses_app, app_nil_r.
Qed.
Lemma body_hook_view body fin : within (same hook_view) (write_response_body body fin).
Proof. intros s. unfold write_response_body. by destruct (io_body _) as [w [e|]]. Qed.
Lemma keeps_hooked_view {A} o (m : px A) : within (same view) m -> keeps (hooked o) m.
Proof. intros Hm. by apply keeps_hooked, same_view. Qed.
Hint Resolve apply_hooked : px.

Ltac hooks :=
  repeat first
    [ solve [auto with px]
    | apply keeps_bind
    | solve [apply keeps_hooked; first [apply header_hook_view | apply body_hook_view | intros ?s; unfold same; cbv beta; repeat case_match; done]]
    | solve [apply keeps_hooked_view; auto using view_request_hooks, view_upstream_hooks, view_resolve_client, view_resolve_geoip, view_timeouts]
    | match goal with |- forall _, _ => intro end | case_match ].

Lemma route_response_hooked o response : keeps (hooked o) (write_route_response response).
Proof. unfold write_route_response. hooks. Qed.
Lemma cached_response_hooked o cached : keeps (hooked o) (write_cached_response cached).
Proof. unfold write_cached_response. hooks. Qed.
Lemma respond_error_hooked o status : keeps (hooked o) (respond_error status).
Proof. unfold respond_error. hooks. Qed.
Hint Resolve route_response_hooked cached_response_hooked respond_error_hooked : px.
Lemma try_hooked {A} o (m : px A) : keeps (hooked o) m -> keeps (hooked o) (px_try m).
Proof. intros Hm s Hs. specialize (Hm s Hs). unfold px_try. by destruct (m s) as [s' []]. Qed.
Hint Resolve try_hooked : px.

Lemma restrict_hooked o : keeps (hooked o) restrict_client_max_body_size.
Proof. unfold restrict_client_max_body_size, set_keepalive. hooks. Qed.
Lemma acme_hooked o : keeps (hooked o) acme_challenge.
Proof. unfold acme_challenge, set_keepalive. hooks. Qed.
Lemma target_hooked o selected : keeps (hooked o) (respond_to_selected_target selected).
Proof. unfold respond_to_selected_target, refuse, set_keepalive. hooks. Qed.
Lemma authorize_hooked o selected host : keeps (hooked o) (authorize_request selected host).
Proof. unfold authorize_request, refuse, set_keepalive. hooks. Qed.
Lemma prepare_scp_hooked o snapshot selected : keeps (hooked o) (prepare_scp_request snapshot selected).
Proof. unfold prepare_scp_request. hooks. Qed.
Lemma try_cache_hooked o host : keeps (hooked o) (try_cache host).
Proof. unfold try_cache. hooks. Qed.
Lemma failure_hooked o response : keeps (hooked o) (write_failure response).
Proof. unfold write_failure. hooks. Qed.
Hint Resolve restrict_hooked acme_hooked target_hooked authorize_hooked prepare_scp_hooked try_cache_hooked failure_hooked : px.

Lemma select_backend_hooked snapshot selected :
  keeps (hooked (Some (sl_plugins selected))) (select_backend snapshot selected).
Proof.
  intros s Hs. unfold select_backend. case_match; try done.
  px_unfold. destruct (select_backend_target snapshot _ _ _ _ _) as [cs [t'|e]]; [|done].
  destruct Hs as [Hs Ho]. unfold hooked, hook_view in *. cbn in *. by rewrite Ho in Hs.
Qed.
Lemma selected_hooked o selected :
  o = None -> hoare (hooked o) (on_ctx (set_cx_selected (Some selected)) : px unit) (fun _ => hooked (Some (sl_plugins selected))).
Proof.
  intros -> s [Hs Ho]. unfold hooked, hook_view in *. cbn in *. rewrite Ho in Hs. split; [|done].
  destruct (cx_response_plugins_applied _); rewrite Hs; [apply prefix_nil|done].
Qed.

Lemma unselected_hooked : keeps (hooked None) (on_ctx (set_cx_selected None) : px unit).
Proof. intros s [Hs Ho]. unfold hooked, hook_view in *. cbn in *. by rewrite Ho in Hs. Qed.

(** The plugins of the route, once there is one. *)
Definition hooked_some (s : PState) : Prop := exists o, hooked o s.
Lemma keeps_hooked_some {A} (m : px A) : (forall o, keeps (hooked o) m) -> keeps hooked_some m.
Proof. intros Hm s [o Hs]. exists o. by apply Hm. Qed.

Lemma request_filter_hooked snapshot generation : hoare (hooked None) (request_filter snapshot generation) (fun _ => hooked_some).
Proof.
  assert (forall A o (m : px A), keeps (hooked o) m -> hoare (hooked o) m (fun _ => hooked_some)) as Hk.
  { intros A o m Hm s Hs. exists o. by apply Hm. }
  unfold request_filter, set_keepalive.
  do 7 (apply keeps_first; [solve [hooks]|by eexists|intros ?]).
  case_match; [by eexists|].
  apply keeps_first; [solve [hooks]|by eexists|intros ?].
  apply keeps_first; [solve [hooks]|by eexists|intros route].
  destruct route as [[selected host]|]; [|by apply Hk; apply keeps_bind; [apply unselected_hooked|hooks]].
  apply (hoare_bind (fun _ => hooked (Some (sl_plugins selected)))); [|intros _].
  { eapply hoare_post; [by apply selected_hooked|]. intros [] s Hs; [done|by eexists]. }
  apply Hk. hooks. apply select_backend_hooked.
Qed.
Lemma response_filter_hooked o header : keeps (hooked o) (response_filter header).
Proof. unfold response_filter, px_when. hooks. Qed.
Lemma response_body_hooked o body : keeps (hooked o) (response_body_filter body).
Proof. unfold response_body_filter. hooks. Qed.
Lemma finish_hooked o generation failed : keeps (hooked o) (finish_request generation failed).
Proof. unfold finish_request. hooks. Qed.
Lemma fail_hooked o generation error : keeps (hooked o) (fail_to_proxy generation error).
Proof. unfold fail_to_proxy, written_status. hooks. Qed.

Lemma upstream_peer_hooked pool_hash active : keeps hooked_some (upstream_peer pool_hash active).
Proof.
  unfold upstream_peer, ctx_of, down_of. apply hoare_get; intros selected.
  apply (hoare_bind (fun selected => hooked (Some (sl_plugins selected)))).
  - destruct selected as [selected|].
    + intros s [[o Hs] Hsel]. destruct Hs as [Hs Ho]. split; [done|]. cbn in *. by rewrite Hsel.
    + eapply (hoare_pre _ (hooked None)); [|intros s [[o [Hs Ho]] Hn]; split; [done|]; cbn in *; by rewrite Hn].
      do 4 (apply keeps_first; [solve [hooks]|by eexists|intros ?]).
      case_match; [|by eexists]. destruct p as [selected h].
      apply (hoare_bind (fun _ => hooked (Some (sl_plugins selected)))); [|by intros _ s].
      eapply hoare_post; [by apply selected_hooked|]. intros [] s Hs; [done|by eexists].
  - intros selected'. apply (hoare_post _ _ _ (fun _ => hooked (Some (sl_plugins selected')))); [|by intros r s Hs; eexists].
    apply keeps_bind; [solve [hooks]|intros captured]. apply (hoare_bind (fun selected => hooked (Some (sl_plugins selected')))).
    { eapply hoare_post; [apply select_backend_hooked|]. by intros []. }
    intros selected2. hooks.
Qed.
(** ** The collected body *)

(** The collected body, as a [u64] length, is within the limit set for it. *)
Definition buffered_view (v : option N * string) : Prop :=
  match v with (Some limit, buf) => N.min u64_max (str_len buf) <= limit | (None, _) => True end.
Definition buffered (s : PState) : Prop := buffered_view (buffer_view s).
#[local] Arguments buffered : simpl never.
#[local] Arguments buffered_view : simpl never.

Lemma buffered_empty limit : buffered_view (limit, "").
Proof. destruct limit as [l|]; [|done]. change (0 <= l). lia. Qed.

Lemma view_buffer {A} (m : px A) : within (same view) m -> within (same buffer_view) m.
Proof. apply same_view. Qed.

Ltac buffers :=
  repeat first
    [ solve [apply wire_buffer; auto with px] | apply within_bind; [apply _|..] | apply within_try
    | solve [apply view_buffer; auto using view_request_hooks, view_upstream_hooks, view_resolve_client, view_resolve_geoip, view_timeouts]
    | solve [intros ?s; unfold same; cbv beta; repeat case_match; done]
    | match goal with |- forall _, _ => intro end | case_match ].

Lemma request_filter_buffer snapshot generation : within (same buffer_view) (request_filter snapshot generation).
Proof. unfold request_filter, set_keepalive, authorize_request, prepare_scp_request, try_cache, select_backend. buffers. Qed.
Lemma upstream_peer_buffer pool_hash active : within (same buffer_view) (upstream_peer pool_hash active).
Proof. unfold upstream_peer, select_backend. buffers. Qed.
Lemma upstream_peer_wire pool_hash active : within (same wire_view) (upstream_peer pool_hash active).
Proof. unfold upstream_peer, select_backend. views. Qed.
Lemma fail_buffer generation error : within (same buffer_view) (fail_to_proxy generation error).
Proof. unfold fail_to_proxy, written_status. buffers. Qed.

Lemma response_filter_wire header : within (same wire_view) (response_filter header).
Proof. unfold response_filter, px_when. views. Qed.
(** The filter sets a limit, never the body. *)
Lemma apply_buf header : within (same (fun s => cx_response_body_buf (px_ctx s))) (apply_response_plugins header).
Proof. intros s. destruct (wire_apply header s) as [_ _ _ (? & ? & Hc) _ _]. unfold same. by rewrite Hc. Qed.
Hint Resolve apply_buf : px.
Lemma response_filter_buf header : within (same (fun s => cx_response_body_buf (px_ctx s))) (response_filter header).
Proof.
  unfold response_filter, px_when. views.
Qed.

Lemma response_body_view body s :
  let s' := fst (response_body_filter body s) in
  wire_view s' = wire_view s /\ (buffered s -> buffered s').
Proof.
  unfold response_body_filter. px_unfold. destruct (cx_cache_body_limit (px_ctx s)) as [limit|] eqn:Hl, body as [chunk|]; try done.
  destruct (N.ltb_spec limit (saturating_add64 (str_len (cx_response_body_buf (px_ctx s))) (str_len chunk))) as [Hlt|Hle]; [done|].
  split; [done|]. intros _. unfold buffered, buffer_view. cbn. rewrite Hl. unfold buffered_view. unfold saturating_add64 in Hle.
  by rewrite str_len_append.
Qed.

Lemma finish_view generation failed s :
  let s' := fst (finish_request generation failed s) in
  wire_view s' = wire_view s /\ (buffered s -> buffered s')
  /\ (cx_response_body_buf (px_ctx s) = "" -> cx_response_body_buf (px_ctx s') = "").
Proof.
  unfold finish_request. px_unfold. destruct failed; [done|].
  repeat case_match; try done. split_and!; try done. intros Hb. unfold buffered, buffer_view in *. cbn in *.
  apply buffered_empty.
Qed.
(** ** Every run *)

Definition life_inv (l : Phase * PState) : Prop :=
  let '(p, s) := l in
  one_header s /\ hooked_some s /\ buffered s /\ (unsent s -> cx_response_body_buf (px_ctx s) = "")
  /\ match p with Waiting => unsent s /\ hooked None s | Answered => sent s | _ => True end.

Lemma fresh_inv s : fresh s -> life_inv (Waiting, s).
Proof.
  intros (Hc & Hd & Ht).
  assert (unsent s) by (unfold unsent, wire_view; by rewrite Hd, Ht).
  assert (hooked None s) by (unfold hooked, hook_view; by rewrite Hc, Ht).
  split_and!; [by left|by eexists|unfold buffered, buffer_view; by rewrite Hc|by rewrite Hc|done..].
Qed.

(** A callback of a proxied request that leaves the wire and the collected body. *)
Lemma proxied_inv {A} (m : px A) s :
  within (same wire_view) m -> keeps hooked_some m -> within (same buffer_view) m ->
  life_inv (Proxying, s) -> life_inv (proxied m s).
Proof.
  intros Hw Hh Hb (Hone & Hhook & Hbuf & Hunsent & _). unfold proxied. split_and!.
  - by apply keeps_one_header.
  - by apply Hh.
  - unfold buffered. by rewrite (Hb s).
  - intros Hu. unfold unsent in *. rewrite (Hw s) in Hu. specialize (Hb s). unfold same, buffer_view in Hb.
    injection Hb as _ ->. by apply Hunsent.
  - by destruct (snd (m s)).
Qed.

Lemma request_inv snapshot generation s :
  life_inv (Waiting, s) ->
  life_inv (request_phase (snd (request_filter snapshot generation s)), fst (request_filter snapshot generation s)).
Proof.
  intros (_ & _ & Hbuf & Hunsent & Hu & Hh).
  pose proof (request_filter_answers snapshot generation s Hu) as Ha.
  pose proof (request_filter_hooked snapshot generation s Hh) as Hh'.
  pose proof (request_filter_buffer snapshot generation s) as Hb. unfold same in Hb.
  destruct (request_filter snapshot generation s) as [s' r]. cbn in *.
  assert (one_header s') as Hone by (destruct r as [[]|]; [by right|by left|done]).
  split_and!; [done|done| | |by destruct r as [[]|]].
  - unfold buffered. by rewrite Hb.
  - intros _. injection Hb as _ ->. by apply Hunsent.
Qed.

Lemma response_inv header s :
  ds_response (px_down s) = None -> life_inv (Proxying, s) ->
  life_inv (proxied (header ← response_filter header; write_response_header header) s).
Proof.
  intros Hd (Hone & Hh & _ & Hunsent & _).
  assert (unsent s) as Hu by by destruct Hone as [|[h [= Hs]]]; [|congruence].
  specialize (Hunsent Hu). pose proof (response_filter_wire header s) as Hw. pose proof (response_filter_buf header s) as Hb.
  pose proof (keeps_hooked_some _ (fun o => response_filter_hooked o header) s Hh) as Hh'. unfold same in *.
  unfold proxied, mbind, px_bind. destruct (response_filter header s) as [s1 [h|e]]; cbn in *.
  - assert (unsent s1) as Hu1 by by unfold unsent; rewrite Hw.
    pose proof (header_sent h s1 Hu1) as Hs. pose proof (keeps_hooked_some _ (fun o => keeps_hooked o _ (header_hook_view h)) s1 Hh').
    pose proof (wire_buffer _ (wire_header h) s1) as Hb'. unfold same, buffer_view in Hb'.
    destruct (write_response_header h s1) as [s2 r2]. cbn in *. injection Hb' as Hl Hb'.
    assert (cx_response_body_buf (px_ctx s2) = "") as He by congruence.
    split_and!; [by destruct r2; [right|left]|done| |done|by destruct r2].
    unfold buffered, buffer_view. rewrite He. apply buffered_empty.
  - split_and!; [left; unfold unsent; by rewrite Hw|done| |by rewrite Hb|done].
    unfold buffered, buffer_view. rewrite Hb, Hunsent. apply buffered_empty.
Qed.

Lemma response_body_inv body fin s :
  is_Some (ds_response (px_down s)) -> life_inv (Proxying, s) ->
  life_inv (proxied (_ ← response_body_filter body; write_response_body body fin) s).
Proof.
  intros [h Hd] (Hone & Hh & Hb & _).
  assert (sent s) as Hs by by destruct Hone as [[= Hn]|]; [congruence|].
  destruct (response_body_view body s) as [Hw Hb'].
  pose proof (keeps_hooked_some _ (fun o => response_body_hooked o body) s Hh) as Hh'.
  unfold proxied, mbind, px_bind. destruct (response_body_filter body s) as [s1 r1]. cbn in *.
  assert (sent s1) as Hs1 by by unfold sent; rewrite Hw.
  assert (life_inv (Proxying, s1) /\ sent s1) as [Hi Hs1'].
  { split; [|done]. split_and!; [by right|done|by apply Hb'| |done]. intros Hu. by destruct (unsent_sent s1). }
  destruct r1 as [[]|e]; [|by destruct Hi as (? & ? & ? & ? & _)].
  apply proxied_inv; [apply body_wire_view| |apply wire_buffer, wire_body|done].
  apply keeps_hooked_some. intros o. apply keeps_hooked, body_hook_view.
Qed.

Lemma fail_inv generation error s : life_inv (Failing, s) -> life_inv (Failed, fst (fail_to_proxy generation error s)).
Proof.
  intros (Hone & Hh & Hb & Hunsent & _).
  destruct (fail_to_proxy_outcome generation error s Hone) as (f & _ & Hone' & _ & Hkeep & _).
  pose proof (fail_buffer generation error s) as Hb'. unfold same in Hb'.
  split_and!; [done| |unfold buffered; by rewrite Hb'| |done].
  - by apply (keeps_hooked_some _ (fun o => fail_hooked o generation error)).
  - intros Hu. injection Hb' as _ ->. destruct Hone as [|[h Hs]]; [by apply Hunsent|].
    injection Hs as Hd Ht. destruct (Hkeep h Hd) as [Hd' _]. unfold unsent, wire_view in Hu. rewrite Hd', Hd in Hu. done.
Qed.

Lemma finish_inv p generation failed s : life_inv (p, s) -> life_inv (Finished, fst (finish_request generation failed s)).
Proof.
  intros (Hone & Hh & Hb & Hunsent & _). destruct (finish_view generation failed s) as (Hw & Hb' & Hbuf).
  split_and!; [|by apply (keeps_hooked_some _ (fun o => finish_hooked o generation failed))|by apply Hb'| |done].
  - unfold one_header, unsent, sent in *. by rewrite Hw.
  - unfold unsent in *. rewrite Hw. auto.
Qed.

Lemma view_inv {A} (m : px A) s : within (same view) m -> life_inv (Proxying, s) -> life_inv (proxied m s).
Proof.
  intros Hm. apply proxied_inv; [by apply view_wire| |by apply view_buffer]. apply keeps_hooked_some. intros o. by apply keeps_hooked_view.
Qed.

Lemma life_step_inv l l' : life_step l l' -> life_inv l -> life_inv l'.
Proof.
  intros [] Hi; try (by eapply finish_inv).
  - by apply request_inv.
  - apply proxied_inv; [apply upstream_peer_wire|apply upstream_peer_hooked|apply upstream_peer_buffer|done].
  - by apply view_inv, Hi; apply view_fail_to_connect.
  - by apply view_inv, Hi; apply view_error_while_proxy.
  - by apply view_inv, Hi; apply view_finish_request_body.
  - by apply view_inv, Hi; apply view_upstream_request.
  - by apply response_inv.
  - by apply response_body_inv.
  - by destruct Hi as (? & ? & ? & ? & _).
  - by apply fail_inv.
  - exact Hi.
Qed.

Lemma life_reachable_inv s l : fresh s -> rtc life_step (Waiting, s) l -> life_inv l.
Proof.
  intros Hf. apply (rtc_ind_r life_inv); [by apply fresh_inv|]. intros l1 l2 _ Hstep Hi. by eapply life_step_inv.
Qed.

(** C4: over a whole request, whatever order retries, failures and streaming happen in
    and however other requests interfere, the response hooks of its route run at most
    once each, in the reverse of the plugins' order and without a gap; no two response
    headers are sent; and what is collected for the cache never exceeds the limit that
    was set for it. *)
Theorem request_life_safe s p s' :
  fresh s -> rtc life_step (Waiting, s) (p, s') ->
  ((responses (px_trace s')).*1 `prefix_of` from_option (fun sel => reverse (sl_plugins sel)) [] (cx_selected (px_ctx s')))
  /\ headers_sent (px_trace s') = rh_status <$> option_list (ds_response (px_down s'))
  /\ (forall limit, cx_cache_body_limit (px_ctx s') = Some limit -> N.min u64_max (str_len (cx_response_body_buf (px_ctx s'))) <= limit).
Proof.
  intros Hf Hr. destruct (life_reachable_inv _ _ Hf Hr) as (Hone & [o Hh] & Hb & _). split_and!.
  - destruct Hh as [Hh _]. unfold hook_view in Hh.
    destruct (cx_selected (px_ctx s')), (cx_response_plugins_applied (px_ctx s')); cbn in *; try done; rewrite Hh; apply prefix_nil.
  - by destruct Hone as [[= -> ->]|[h [= -> ->]]].
  - intros limit Hl. unfold buffered, buffer_view, buffered_view in Hb. by rewrite Hl in Hb.
Qed.

(** ** Completion *)

(** With the wire up, a request that is over has its response. *)
Definition complete_inv (l : Phase * PState) : Prop :=
  life_inv l /\ match fst l with Answered | Failed | Finished => sent (snd l) | _ => True end.

Lemma finish_sent generation failed s : sent s -> sent (fst (finish_request generation failed s)).
Proof. intros Hs. destruct (finish_view generation failed s) as (Hw & _). unfold sent. by rewrite Hw. Qed.

Lemma complete_step_inv l l' : wire_up -> life_step l l' -> complete_inv l -> complete_inv l'.
Proof.
  intros Hio Hstep [Hi Hc]. pose proof (life_step_inv _ _ Hstep Hi) as Hi'. split; [done|].
  destruct Hstep; unfold proxied in *; cbn [fst snd] in *; try (by destruct (proxy_phase _) eqn:Hp; destruct (snd _)); try done.
  - destruct Hi' as (_ & _ & _ & _ & Hp). by destruct (request_phase _) eqn:Hr; destruct (snd (request_filter _ _ _)) as [[]|].
  - destruct Hi as [Hone _]. destruct (fail_to_proxy_outcome generation error s Hone) as (f & _ & _ & Hup & _). auto.
  - by apply finish_sent.
  - destruct Hi as [[[= Hn]|Hs] _]; [|by apply finish_sent]. destruct H1. congruence.
Qed.

Lemma can_finish (active : RuntimeSnapshot) p s : exists s', rtc life_step (p, s) (Finished, s').
Proof.
  assert (forall s, exists s', rtc life_step (Failing, s) (Finished, s')) as Hfail.
  { intros s1. eexists. eapply rtc_l; [apply (ls_fail 0 (mkProxyError EtOther SourceInternal))|].
    eapply rtc_l; [apply (ls_finish_failed 0)|]. done. }
  assert (forall s, exists s', rtc life_step (Proxying, s) (Finished, s')) as Hproxy.
  { intros s1. destruct (Hfail s1) as [s' Hs]. exists s'. by eapply rtc_l; [apply ls_give_up|]. }
  assert (forall s, exists s', rtc life_step (Answered, s) (Finished, s')) as Hans.
  { intros s1. eexists. by eapply rtc_l; [apply (ls_finish_answered 0)|]. }
  destruct p; [|apply Hproxy|apply Hans|apply Hfail| |by exists s].
  - assert (exists s', rtc life_step (request_phase (snd (request_filter active 0 s)), fst (request_filter active 0 s)) (Finished, s'))
      as [s' Hs'] by (destruct (snd _) as [[]|]; eauto).
    exists s'. eapply rtc_l; [apply ls_request|exact Hs'].
  - eexists. by eapply rtc_l; [apply (ls_finish_failed 0)|].
Qed.

(** C8: with response headers deliverable, every request that ends has sent exactly
    one response, and every request that has not ended can: from any point of any run
    there is a continuation to the end. *)
Theorem request_completes (active : RuntimeSnapshot) s l :
  wire_up -> fresh s -> rtc life_step (Waiting, s) l ->
  (fst l = Finished -> exists header, headers_sent (px_trace (snd l)) = [rh_status header] /\ ds_response (px_down (snd l)) = Some header)
  /\ exists s', rtc life_step l (Finished, s').
Proof.
  intros Hio Hf Hr. split.
  - assert (complete_inv l) as [_ Hs].
    { revert l Hr. apply (rtc_ind_r complete_inv); [by split; [apply fresh_inv|]|].
      intros l1 l2 _ Hstep Hi. by eapply complete_step_inv. }
    intros Hl. rewrite Hl in Hs. destruct Hs as [h [= Hd Ht]]. by exists h.
  - destruct l as [p s1]. apply can_finish, active.
Qed.
End life.
