(* ===== verification/CacheFill.v ===== *)
(** * What a proxied response leaves in the cache

    [response_filter], [response_body_filter] and [finish_request] together, against a
    specification of what is stored: the final response header, and the whole body as
    it was streamed, or nothing. *)

From S2P Require Import Prelude RustStr NetAddr Crates Headers PluginApi Ir Types HttpRoutes Routing Scp Cache.
From S2P Require Import CompileUpstreams CompileRoutes CompileRouter Control Selection ClientIp ScpRouting GeoIp Peer ProxyState Proxy.
From S2P Require Import Lifecycle RequestLife.

Open Scope N_scope.

Section fill.
Context `{RuntimeDeps} `{HttpErrors} `{GeoDb} `{PeerDefaults} `{HashIter} {W : Type} `{!ScpGroups W} `{!ProxyEnv W} `{!GroupSelect}.

Abbreviation px := (@px _ _ _ W _).
Abbreviation PState := (@PState _ _ _ W _).

(** ** Specification *)

(** The room for the body of a response that may be stored. *)
Definition body_room (s : PState) (key : CacheKey) (cfg : CacheConfig) (header : ResponseHeader) : N :=
  max_size (px_cache s) cfg - N.min u64_max (N.min u64_max (estimated_headers_size (rh_headers header) + 128) + key_size key).
Definition length_fits (header : ResponseHeader) (room : N) : bool :=
  match header_get "content-length" (rh_headers header) with
  | Some value => from_option (fun length => length <=? room) false (header_to_str value ≫= parse_uint u64_max)
  | None => true
  end.
(** The key and settings under which a response may be stored, with its room. *)
Definition storable (s : PState) (header : ResponseHeader) : option (CacheKey * CacheConfig * N) :=
  match cx_cache_key (px_ctx s), cx_selected (px_ctx s) ≫= sl_cache with
  | Some key, Some cfg =>
      let room := body_room s key cfg header in
      if cache_store_allowed cfg (cx_cache_store_allowed (px_ctx s)) && is_cacheable (rh_status header) (rh_headers header) cfg
         && length_fits header room
      then Some (key, cfg, room) else None
  | _, _ => None
  end.

Definition body_of (chunks : list (option string)) : string := foldl (fun b c => b +:+ default "" c) "" chunks.

(** The cache after the request, from the cache [b] it finds at its end. *)
Definition cache_after (s : PState) (header : ResponseHeader) (chunks : list (option string)) (failed : bool) (now generation : N)
    (b : CacheBackend) : CacheBackend :=
  let b := advance_generation b generation in
  match storable s header with
  | Some (key, cfg, room) =>
      if negb failed && (N.min u64_max (str_len (body_of chunks)) <=? room)
      then CacheBackend_put now b key (mkCachedResponse (rh_status header) (rh_headers header) (body_of chunks) now) cfg
      else b
  | None => b
  end.

(** ** The callbacks *)

Definition stream (chunks : list (option string)) (s : PState) : PState :=
  foldl (fun s chunk => fst (response_body_filter chunk s)) s chunks.

(** The request has collected nothing yet. *)
Definition nothing_collected (s : PState) : Prop :=
  cx_cache_status (px_ctx s) = None /\ cx_cache_headers (px_ctx s) = None /\ cx_cache_body_limit (px_ctx s) = None
  /\ cx_response_body_buf (px_ctx s) = "".

(** What the context holds for the cache. *)
Definition collected (c : ProxyContext) : option N * option HeaderMap * option N * string :=
  (cx_cache_status c, cx_cache_headers c, cx_cache_body_limit c, cx_response_body_buf c).
(** What it stores under. *)
Definition stored_under (c : ProxyContext) : option CacheKey * option CacheConfig * bool :=
  (cx_cache_key c, cx_selected c ≫= sl_cache, cx_cache_store_allowed c).

Lemma wire_context s s' :
  wire s s' -> stored_under (px_ctx s') = stored_under (px_ctx s) /\ collected (px_ctx s') = collected (px_ctx s)
    /\ px_cache s' = px_cache s /\ cx_selected (px_ctx s') = cx_selected (px_ctx s).
Proof. intros [Hcache _ _ (? & ? & Hc) _ _]. rewrite Hc. done. Qed.

Lemma response_filter_collects header header' s s1 :
  response_filter header s = (s1, Ok header') -> nothing_collected s ->
  stored_under (px_ctx s1) = stored_under (px_ctx s)
  /\ collected (px_ctx s1) =
     match storable s header' with
     | Some (key, cfg, room) => (Some (rh_status header'), Some (rh_headers header'), Some room, "")
     | None => (None, None, None, "")
     end.
Proof.
  intros Hr (Hs & Hh & Hl & Hb). unfold response_filter in Hr. revert Hr. px_unfold.
  destruct (cx_selected (px_ctx s)) as [selected|] eqn:Hsel.
  2: { intros [= <- <-]. unfold storable, collected. rewrite Hsel, Hs, Hh, Hl, Hb. by destruct (cx_cache_key _). }
  pose proof (wire_context _ _ (wire_apply header s)) as (Hu & Hc & Hcache & Hsel').
  destruct (apply_response_plugins header s) as [s0 [h|e]]; [|done]. cbn [fst] in *.
  destruct (match cx_scp (px_ctx s0) with Some _ => _ | None => Ok (rh_headers h) end) as [hs|e]; [|done].
  set (h2 := mkResponseHeader (rh_status h) hs).
  change (rh_status h) with (rh_status h2). change hs with (rh_headers h2). clearbody h2. clear h.
  assert (collected (px_ctx s0) = (None, None, None, "")) as Hn by (rewrite Hc; unfold collected; by rewrite Hs, Hh, Hl, Hb).
  assert (cx_cache_key (px_ctx s0) = cx_cache_key (px_ctx s)) as -> by by injection Hu.
  assert (cx_cache_store_allowed (px_ctx s0) = cx_cache_store_allowed (px_ctx s)) as -> by by injection Hu.
  unfold storable. rewrite Hsel. cbn [mbind option_bind].
  destruct (cx_cache_key (px_ctx s)) as [key|], (sl_cache selected) as [cfg|]; try (by intros [= <- <-]; split).
  destruct (cache_store_allowed _ _ && is_cacheable _ _ _) eqn:Hcond;
    [|intros [= <- <-]; split; [done|]; by rewrite Hcond].
  unfold px_when, body_room. rewrite Hcache. change saturating_sub with N.sub. unfold saturating_add64.
  cbv zeta. set (room := max_size (px_cache s) cfg - _).
  match goal with |- context [if ?b then (fun _ => _) else _] => change b with (length_fits h2 room) end.
  destruct (length_fits h2 room) eqn:Hf; intros [= <- <-]; (split; [done|]); fold room; rewrite Hcond, Hf; cbn; [|done].
  injection Hn as _ _ _ Hbuf. unfold collected. cbn. by rewrite Hbuf.
Qed.

(** Once the room is exceeded, the rest of the body is ignored. *)
Lemma stream_forgotten chunks s : cx_cache_body_limit (px_ctx s) = None -> stream chunks s = s.
Proof.
  intros Hl. unfold stream. induction chunks as [|chunk chunks IH]; cbn [foldl]; [done|].
  assert (fst (response_body_filter chunk s) = s) as ->; [|done]. unfold response_body_filter. px_unfold. by rewrite Hl.
Qed.

Lemma foldl_body b chunks : foldl (fun b c => b +:+ default "" c) b chunks = b +:+ body_of chunks.
Proof.
  unfold body_of. revert b. induction chunks as [|c chunks IH]; intros b; cbn [foldl]; [by rewrite append_nil_r|].
  rewrite IH, (IH ("" +:+ _)). by rewrite <- append_assoc.
Qed.

(** The chunks are collected whole, or everything is dropped. *)
Lemma stream_collects chunks s status headers room buf :
  collected (px_ctx s) = (status, headers, Some room, buf) -> N.min u64_max (str_len buf) <= room ->
  stored_under (px_ctx (stream chunks s)) = stored_under (px_ctx s)
  /\ collected (px_ctx (stream chunks s)) =
     if N.min u64_max (str_len (buf +:+ body_of chunks)) <=? room then (status, headers, Some room, buf +:+ body_of chunks)
     else (None, None, None, "").
Proof.
  revert s buf. induction chunks as [|chunk chunks IH]; intros s buf Hc Hroom.
  { cbn. rewrite append_nil_r. split; [done|]. by destruct (N.leb_spec (N.min u64_max (str_len buf)) room); [|lia]. }
  injection Hc as Hs Hh Hl Hb.
  assert (buf +:+ body_of (chunk :: chunks) = (buf +:+ default "" chunk) +:+ body_of chunks) as ->.
  { unfold body_of at 1. cbn [foldl]. by rewrite foldl_body, <- append_assoc. }
  change (stream (chunk :: chunks) s) with (stream chunks (fst (response_body_filter chunk s))).
  destruct chunk as [chunk|]; cbn [default id].
  - unfold response_body_filter. px_unfold. rewrite Hl, Hb. unfold saturating_add64. rewrite <- str_len_append.
    destruct (N.ltb_spec room (N.min u64_max (str_len (buf +:+ chunk)))) as [Hlt|Hle]; cbn [fst].
    + rewrite stream_forgotten by done. split; [done|].
      rewrite str_len_append. by destruct (N.leb_spec (N.min u64_max (str_len (buf +:+ chunk) + str_len (body_of chunks))) room); [exfalso; lia|].
    + destruct (IH (set_px_ctx (set_cx_response_body_buf (buf +:+ chunk) (px_ctx s)) s) (buf +:+ chunk)) as [Hu Hc]; [|done|].
      { unfold collected. cbn. by rewrite Hs, Hh, Hl. }
      by rewrite Hu, Hc.
  - assert (fst (response_body_filter None s) = s) as -> by (unfold response_body_filter; px_unfold; by rewrite Hl).
    rewrite append_nil_r. apply IH; [|done]. unfold collected. by rewrite Hs, Hh, Hl, Hb.
Qed.

(** The end of the request stores what was collected. *)
Lemma finish_stores generation s key cfg admitted :
  stored_under (px_ctx s) = (key, cfg, admitted) ->
  px_cache (fst (finish_request generation false s)) =
    let b := advance_generation (px_cache s) generation in
    match key, cfg, collected (px_ctx s) with
    | Some key, Some cfg, (Some status, Some headers, _, buf) =>
        if cache_store_allowed cfg admitted
        then CacheBackend_put (clock (px_world s)) b key (mkCachedResponse status headers buf (clock (px_world s))) cfg else b
    | _, _, _ => b
    end.
Proof.
  intros [= Hk Hc Ha]. unfold finish_request, collected. px_unfold. cbn [px_ctx px_cache set_px_cache].
  unfold mbind in Hc. rewrite Hk, Hc, Ha. destruct key, cfg; try done.
  destruct (cache_store_allowed _ _); by destruct (cx_cache_status (px_ctx s)), (cx_cache_headers (px_ctx s)).
Qed.

(** C5: from the response header to the end of the request, however the body is cut
    into chunks and however other requests change the shared state meanwhile, the cache
    is changed exactly as specified: a response is stored only if the request did not
    fail, its key was admitted, the header the client got is cacheable, its declared
    length and its streamed length fit; and what is stored is that header with the
    complete body. *)
Theorem stored_response_exact header header' chunks failed generation b cs scp geo w s s1 :
  response_filter header s = (s1, Ok header') -> nothing_collected s ->
  px_cache (fst (finish_request generation failed (interfere b cs scp geo w (stream chunks s1)))) =
  cache_after s header' chunks failed (clock w) generation b.
Proof.
  intros Hr Hn. destruct (response_filter_collects _ _ _ _ Hr Hn) as [Hu Hc]. unfold cache_after.
  destruct failed; [by destruct (storable s header') as [[[? ?] ?]|]|].
  destruct (storable s header') as [[[key cfg] room]|] eqn:Hst.
  - assert (stored_under (px_ctx s) = (Some key, Some cfg, cx_cache_store_allowed (px_ctx s))
      /\ cache_store_allowed cfg (cx_cache_store_allowed (px_ctx s)) = true) as [Hk Ha].
    { unfold storable, stored_under in *. repeat case_match; simplify_eq. split; [done|].
      match goal with Hb : _ && _ && _ = true |- _ => by apply andb_prop in Hb as [[? ?]%andb_prop ?] end. }
    destruct (stream_collects chunks s1 _ _ _ _ Hc) as [Hu' Hc']; [change (0 <= room); lia|].
    erewrite finish_stores; [|cbn; rewrite Hu', Hu; exact Hk]. cbn [interfere px_ctx px_cache px_world]. rewrite Hc', Ha.
    change ("" +:+ body_of chunks) with (body_of chunks). by destruct (N.min u64_max (str_len (body_of chunks)) <=? room).
  - assert (stream chunks s1 = s1) as -> by (apply stream_forgotten; by injection Hc).
    erewrite finish_stores; [|reflexivity]. cbn [interfere px_ctx px_cache px_world]. rewrite Hc. by repeat case_match.
Qed.
End fill.
