(* ===== verification/Tracing.v ===== *)
(** * The trace exporter (crates/ngxora-runtime/src/tracing.rs)

    The exporter is built lazily, by whichever request thread starts the first span.  The
    threads share the flag [PROVIDER_INIT], the cell [TRACE_CONFIG] and the global
    provider; the program of a thread is cut at its accesses to them, and the steps of
    the threads interleave. *)

From S2P Require Import Prelude.

Open Scope N_scope.

(** ** Threads *)

(** Endpoint and service name. *)
Definition TraceConfig : Type := string * string.

(** Where a thread is in [try_init_provider]: outside; past the swap; building the
    exporter; with an exporter, before [set_tracer_provider]; after a failure, before the
    flag is cleared. *)
Inductive TracePc := TpOut | TpClaimed | TpBuilding (c : TraceConfig) | TpBuilt (c : TraceConfig) | TpFailed.

(** [tr_providers]: the providers set so far, last first. *)
Record Tracing := mkTracing {
  tr_config : option TraceConfig;
  tr_init : bool;
  tr_providers : list TraceConfig;
  tr_threads : list TracePc
}.
Definition tracing_start (threads : nat) : Tracing := mkTracing None false [] (replicate threads TpOut).

(** [OnceLock::set(..).ok()]. *)
Definition configure (endpoint service_name : string) (t : Tracing) : Tracing :=
  mkTracing (option_or (tr_config t) (Some (endpoint, service_name))) (tr_init t) (tr_providers t) (tr_threads t).

(** One access of a thread to the shared state: [built] is how building the exporter ends. *)
Definition try_init_step (built : bool) (pc : TracePc) (config : option TraceConfig) (init : bool) (providers : list TraceConfig)
  : TracePc * bool * list TraceConfig :=
  match pc with
  | TpOut => (if init then TpOut else TpClaimed, true, providers)
  | TpClaimed => (match config with None => TpOut | Some c => TpBuilding c end, init, providers)
  | TpBuilding c => (if built then TpBuilt c else TpFailed, init, providers)
  | TpBuilt c => (TpOut, init, c :: providers)
  | TpFailed => (TpOut, false, providers)
  end.

Definition thread_step (built : bool) (i : nat) (pc : TracePc) (t : Tracing) : Tracing :=
  let '(pc', init, providers) := try_init_step built pc (tr_config t) (tr_init t) (tr_providers t) in
  mkTracing (tr_config t) init providers (<[i := pc']> (tr_threads t)).

Inductive trace_step : Tracing -> Tracing -> Prop :=
| trace_configure endpoint service_name t : trace_step t (configure endpoint service_name t)
| trace_thread built i pc t : tr_threads t !! i = Some pc -> trace_step t (thread_step built i pc t).

(** ** One exporter *)

Definition active (pc : TracePc) : bool := match pc with TpOut => false | _ => true end.
Definition holds (pc : TracePc) (c : TraceConfig) : Prop := pc = TpBuilding c \/ pc = TpBuilt c.

Record trace_inv (t : Tracing) : Prop := {
  ti_one : forall i j p q, tr_threads t !! i = Some p -> tr_threads t !! j = Some q -> active p = true -> active q = true -> i = j;
  ti_claimed : forall i p, tr_threads t !! i = Some p -> active p = true -> tr_init t = true /\ tr_providers t = [];
  ti_held : forall i p c, tr_threads t !! i = Some p -> holds p c -> tr_config t = Some c;
  ti_providers : match tr_providers t with [] => True | [c] => tr_config t = Some c /\ tr_init t = true | _ => False end
}.

Lemma trace_inv_start threads : trace_inv (tracing_start threads).
Proof.
  assert (forall i p, tr_threads (tracing_start threads) !! i = Some p -> p = TpOut) as Hout.
  { intros i p. cbn. rewrite lookup_replicate. naive_solver. }
  constructor; [intros i j p q ->%Hout|intros i p ->%Hout|intros i p c ->%Hout [|]|]; done.
Qed.

Lemma configure_inv endpoint service_name t : trace_inv t -> trace_inv (configure endpoint service_name t).
Proof.
  intros [H1 H2 H3 H4]. constructor; cbn; [done..| |].
  - intros i p c Hp Hc. by rewrite (H3 i p c Hp Hc).
  - destruct (tr_providers t) as [|c []]; [done| |done]. destruct H4 as [-> ?]. done.
Qed.

(** What a thread may do alone. *)
Lemma inv_move t i pc pc' init providers :
  trace_inv t -> tr_threads t !! i = Some pc ->
  (active pc' = true -> active pc = true \/ tr_init t = false) ->
  (active pc' = true -> init = true /\ providers = []) ->
  (active pc = false -> init = true /\ providers = tr_providers t) ->
  (forall c, holds pc' c -> tr_config t = Some c) ->
  match providers with [] => True | [c] => tr_config t = Some c /\ init = true | _ => False end ->
  trace_inv (mkTracing (tr_config t) init providers (<[i := pc']> (tr_threads t))).
Proof.
  intros [H1 H2 H3 H4] Hi Hclaim Hinit Hrest Hheld Hprov.
  assert (forall j p, <[i := pc']> (tr_threads t) !! j = Some p -> (j = i /\ p = pc') \/ (j <> i /\ tr_threads t !! j = Some p)) as Hl.
  { intros j p. destruct (decide (i = j)) as [<-|Hne].
    - rewrite list_lookup_insert_eq by (by eapply lookup_lt_Some). intros [= <-]. by left.
    - rewrite list_lookup_insert_ne by done. intros Hj. right. by split. }
  assert (forall j p, j <> i -> tr_threads t !! j = Some p -> active p = true -> active pc' = true -> False) as Hno.
  { intros j p Hne Hj Ha Ha'. destruct (Hclaim Ha') as [Hpc|Hf]; [by eapply Hne, H1|]. destruct (H2 j p Hj Ha). congruence. }
  constructor; cbn.
  - intros j k p q [[-> ->]|[Hj Hp]]%Hl [[-> ->]|[Hk Hq]]%Hl Ha Hb; [done|exfalso; by eapply Hno..|by eapply H1].
  - intros j p [[-> ->]|[Hj Hp]]%Hl Ha; [auto|]. destruct (H2 j p Hp Ha) as [Hit Hpr].
    destruct (active pc) eqn:Epc; [|by destruct (Hrest eq_refl) as [-> ->]]. by destruct Hj; eapply H1.
  - intros j p c [[-> ->]|[Hj Hp]]%Hl Hc; [by apply Hheld|by eapply H3].
  - done.
Qed.

Ltac alone t i pc := apply (inv_move t i pc); try done; try (by intros ? [|]); try (by left).

Lemma thread_step_inv built i pc t : trace_inv t -> tr_threads t !! i = Some pc -> trace_inv (thread_step built i pc t).
Proof.
  intros Hinv Hi. pose proof (ti_claimed _ Hinv i pc Hi) as Hc. pose proof (fun c => ti_held _ Hinv i pc c Hi) as Hh.
  pose proof (ti_providers _ Hinv) as Hp. unfold thread_step, try_init_step.
  destruct pc as [| |c|c|]; cbn in Hc; try (destruct (Hc eq_refl) as [Hit Hpr]).
  - destruct (tr_init t) eqn:Ei.
    + alone t i TpOut.
    + assert (tr_providers t = []) as Hpr by (destruct (tr_providers t) as [|? []]; [done|by destruct Hp|done]).
      rewrite Hpr. alone t i TpOut. by right.
  - rewrite Hpr. destruct (tr_config t) as [c|] eqn:Ec; rewrite <- Ec; alone t i TpClaimed. intros c' [[= ->]|]; done.
  - rewrite Hpr. destruct built; alone t i (TpBuilding c). intros c' [|[= ->]]; [done|]. apply Hh. by left.
  - rewrite Hpr. alone t i (TpBuilt c). split; [apply Hh; by right|done].
  - rewrite Hpr. alone t i TpFailed.
Qed.

Lemma trace_reach_inv threads t : rtc trace_step (tracing_start threads) t -> trace_inv t.
Proof.
  intros Hr. remember (tracing_start threads) as t0 eqn:E. assert (trace_inv t0) as H0 by (subst; apply trace_inv_start). clear E.
  induction Hr as [|x y z Hxy _ IH]; [done|]. apply IH. destruct Hxy; [by apply configure_inv|by apply thread_step_inv].
Qed.

(** However the requests that start spans interleave, at most one of them builds the
    exporter at a time and at most one provider is ever set, for the endpoint that was
    configured first; once it is set no thread builds another. *)
Theorem exporter_built_once threads t :
  rtc trace_step (tracing_start threads) t ->
  (forall i j p q, tr_threads t !! i = Some p -> tr_threads t !! j = Some q -> active p = true -> active q = true -> i = j) /\
  (length (tr_providers t) <= 1)%nat /\
  (forall c, c ∈ tr_providers t -> tr_config t = Some c /\ Forall (fun p => active p = false) (tr_threads t) /\
    forall t', rtc trace_step t t' -> tr_providers t' = tr_providers t).
Proof.
  intros Hr. pose proof (trace_reach_inv _ _ Hr) as Hinv. split; [apply Hinv|]. pose proof (ti_providers _ Hinv) as Hp.
  destruct (tr_providers t) as [|c []] eqn:Ep; [split; [cbn; lia|set_solver]| |done].
  split; [cbn; lia|]. intros c' ->%list_elem_of_singleton. split; [by apply Hp|].
  assert (forall t', trace_inv t' -> tr_providers t' = [c] -> Forall (fun p => active p = false) (tr_threads t')) as Hidle.
  { intros t' Hinv' Ep'. apply Forall_lookup. intros i p Hi. destruct (active p) eqn:Ea; [|done].
    destruct (ti_claimed _ Hinv' i p Hi Ea) as [_ He]. congruence. }
  split; [by apply Hidle|]. intros t' Hr'. clear Hr Hp. induction Hr' as [|x y z Hxy _ IH]; [done|].
  assert (trace_inv y /\ tr_providers y = [c]) as [Hy Epy]; [|rewrite IH; done].
  destruct Hxy as [endpoint name x|built i pc x Hi]; [split; [by apply configure_inv|done]|]. split; [by apply thread_step_inv|].
  pose proof (Forall_lookup_1 _ _ _ _ (Hidle x Hinv Ep) Hi) as Ha. unfold thread_step. destruct pc; try done.
Qed.

(** A span that starts before [configure] leaves the flag set: tracing then stays off,
    whatever is configured and however many spans follow. *)
Theorem early_span_disables_tracing endpoint service_name :
  exists t, rtc trace_step (tracing_start 1) t /\ tr_config t = Some (endpoint, service_name) /\
    forall t', rtc trace_step t t' -> tr_providers t' = [].
Proof.
  pose (t1 := thread_step true 0 TpOut (tracing_start 1)). pose (t2 := thread_step true 0 TpClaimed t1).
  exists (configure endpoint service_name t2). split_and!; [|done|].
  - eapply rtc_l; [by apply (trace_thread true 0 TpOut)|]. eapply rtc_l; [by apply (trace_thread true 0 TpClaimed t1)|].
    apply rtc_once, trace_configure.
  - intros t' Hr. remember (configure endpoint service_name t2) as t eqn:E.
    assert (tr_providers t = [] /\ tr_init t = true /\ tr_threads t = [TpOut]) as Ht by by subst. clear E t1 t2.
    induction Hr as [|x y z Hxy _ IH]; [apply Ht|]. apply IH. destruct Ht as (Hp & Hi & Ht).
    destruct Hxy as [e n x|built i pc x Hpc]; [done|]. rewrite Ht in Hpc. apply list_lookup_singleton_Some in Hpc as [-> <-].
    unfold thread_step, try_init_step. cbn. rewrite Hi, Hp, Ht. done.
Qed.

(** After [configure]: a set flag means a provider, or a thread on its way to one. *)
Record configured (c : TraceConfig) (t : Tracing) : Prop := {
  cf_inv : trace_inv t;
  cf_config : tr_config t = Some c;
  cf_set : tr_init t = true -> tr_providers t = [c] \/ exists i p, tr_threads t !! i = Some p /\ active p = true
}.

Lemma configured_step c t t' : trace_step t t' -> configured c t -> configured c t'.
Proof.
  intros Hst [Hx Hc Hs]. destruct Hst as [e n t|built i pc t Hi].
  { constructor; [by apply configure_inv| |done]. cbn. by rewrite Hc. }
  constructor; [by apply thread_step_inv|unfold thread_step; by destruct pc|].
  pose proof (fun c => ti_held _ Hx i pc c Hi) as Hh. pose proof (ti_claimed _ Hx i pc Hi) as Hcl.
  assert (forall p, active p = true -> exists j q, <[i := p]> (tr_threads t) !! j = Some q /\ active q = true) as Hact.
  { intros p Hp. exists i, p. split; [|done]. apply list_lookup_insert_eq. by eapply lookup_lt_Some. }
  unfold thread_step, try_init_step. destruct pc as [| |d|d|]; cbn; rewrite ?Hc; try done; try (intros _; right; by apply Hact).
  - destruct (tr_init t) eqn:Ei; [|intros _; right; by apply Hact]. intros _. destruct (Hs eq_refl) as [|(j & q & Hj & Hq)]; [by left|right].
    exists j, q. split; [|done]. destruct (decide (i = j)) as [<-|]; [by simplify_eq|by rewrite list_lookup_insert_ne].
  - intros _. right. apply Hact. by destruct built.
  - intros _. left. destruct (Hcl eq_refl) as [_ ->]. specialize (Hh d ltac:(by right)). rewrite Hc in Hh. by injection Hh as <-.
Qed.

(** A thread that finds the flag clear goes through to the provider. *)
Lemma span_builds c t i :
  tr_threads t !! i = Some TpOut -> tr_config t = Some c -> tr_init t = false -> tr_providers t = [] ->
  exists t', rtc trace_step t t' /\ tr_providers t' = [c].
Proof.
  intros Hp Hc Hi Hpr. assert (i < length (tr_threads t))%nat as Hlt by by eapply lookup_lt_Some.
  pose (at_pc := fun pc provs => mkTracing (Some c) true provs (<[i := pc]> (tr_threads t))).
  assert (forall pc pc' provs provs', try_init_step true pc (Some c) true provs = (pc', true, provs') ->
    trace_step (at_pc pc provs) (at_pc pc' provs')) as Hstep.
  { intros pc pc' provs provs' Hs. assert (tr_threads (at_pc pc provs) !! i = Some pc) as Hat by by apply list_lookup_insert_eq.
    pose proof (trace_thread true i pc (at_pc pc provs) Hat) as Ht.
    unfold thread_step in Ht. cbn -[try_init_step] in Ht. rewrite Hs, list_insert_insert_eq in Ht. exact Ht. }
  exists (at_pc TpOut [c]). split; [|done].
  pose proof (trace_thread true i TpOut t Hp) as H0. unfold thread_step, try_init_step in H0. rewrite Hi, Hc, Hpr in H0.
  eapply rtc_l; [exact H0|]. change (mkTracing _ _ _ _) with (at_pc TpClaimed []).
  eapply rtc_l; [by apply Hstep|]. eapply rtc_l; [by apply Hstep|]. apply rtc_once, Hstep. done.
Qed.

(** In a process that configures tracing before it serves, as [main] does, no thread
    finds the cell empty: when none is building and the flag is set, the exporter is
    there, and a span started while the flag is clear can build it. *)
Theorem configured_exporter_starts threads endpoint service_name t :
  rtc trace_step (configure endpoint service_name (tracing_start threads)) t -> Forall (fun p => active p = false) (tr_threads t) ->
  (tr_init t = true -> tr_providers t = [(endpoint, service_name)]) /\
  (tr_init t = false -> forall i, (i < length (tr_threads t))%nat ->
    exists t', rtc trace_step t t' /\ tr_providers t' = [(endpoint, service_name)]).
Proof.
  intros Hr Hidle. assert (configured (endpoint, service_name) t) as [Hinv Hc Hset].
  { clear Hidle. remember (configure _ _ _) as t0 eqn:E. assert (configured (endpoint, service_name) t0) as H0.
    { subst. constructor; [apply configure_inv, trace_inv_start|done..]. }
    clear E. induction Hr as [|x y z Hxy _ IH]; [done|]. apply IH. by eapply configured_step. }
  split.
  - intros Hi. destruct (Hset Hi) as [|(i & p & Hp & Ha)]; [done|]. by rewrite (Forall_lookup_1 _ _ _ _ Hidle Hp) in Ha.
  - intros Hi i Hlt. destruct (lookup_lt_is_Some_2 _ _ Hlt) as [p Hp].
    pose proof (Forall_lookup_1 _ _ _ _ Hidle Hp) as Ha. destruct p; try done. apply (span_builds _ t i); try done.
    pose proof (ti_providers _ Hinv) as Hq. destruct (tr_providers t) as [|? []]; [done| |done]. destruct Hq. congruence.
Qed.
