(* ===== verification/Telemetry.v ===== *)
(** * What a finished request reports
    (crates/ngxora-runtime/src/upstreams/runtime/completion.rs, metrics.rs, tracing.rs)

    The trace span, the access-log line and the metrics of a finished request, before
    [Proxy.finish_request] commits its cached response; and the header carriers of the
    trace context. *)

From S2P Require Import Prelude RustStr NetAddr Metrics Crates Headers PluginApi Ir Types HttpRoutes Routing Scp Cache.
From S2P Require Import CompileUpstreams CompileRoutes CompileRouter Control Selection ClientIp ScpRouting GeoIp Peer ProxyState Proxy.

Open Scope N_scope.

(** ** Trace context carriers (tracing.rs) *)

Section carriers.
Context `{Crates}.
Definition extractor_get (headers : HeaderMap) (key : string) : option string := header_get key headers ≫= header_to_str.
(** A name or value that is not one is left out. *)
Definition injector_set (headers : HeaderMap) (key value : string) : HeaderMap :=
  match header_name_from key with
  | Some name => if header_value_ok value then header_insert name value headers else headers
  | None => headers
  end.
End carriers.

(** ** Spans *)

Inductive AttrValue := AttrI64 (v : Z) | AttrStr (v : string).
Record Span := mkSpan { sp_name : string; sp_attributes : list (string * AttrValue); sp_error : option string; sp_ended : bool }.
(** Attributes are recorded until the span ends. *)
Definition set_attribute (k : string) (v : AttrValue) (s : Span) : Span :=
  if sp_ended s then s else mkSpan (sp_name s) (sp_attributes s ++ [(k, v)]) (sp_error s) (sp_ended s).
Definition set_error (message : string) (s : Span) : Span :=
  if sp_ended s then s else mkSpan (sp_name s) (sp_attributes s) (Some message) (sp_ended s).
Definition span_end (s : Span) : Span := mkSpan (sp_name s) (sp_attributes s) (sp_error s) true.

Definition start_request_span (method path : string) : Span :=
  set_attribute "http.route" (AttrStr path)
    (set_attribute "http.method" (AttrStr method) (mkSpan (method +:+ " " +:+ path) [] None false)).

Definition should_mark_span_as_error (e : option ProxyError) (status : N) : bool :=
  if 500 <=? status then true
  else match e with
       | Some err => match pe_type err with EtHTTPStatus _ => false | _ => true end
       | None => false
       end.

(** ** The access log *)

Record AccessLogEntry := mkAccessLogEntry {
  al_geoip : GeoIpRecord;
  al_method : string;
  al_path : string;
  al_status : N;
  al_latency : option N;
  al_upstream : option string;
  al_upstream_group : option string;
  al_cache_status : option string;
  al_bytes_sent : option N;
  al_client_ip : option string;
  al_peer_addr : option string;
  al_route_id : option N;
  al_request_id : option string;
  al_nf_instance_id : option string;
  al_nf_service_instance_id : option string
}.

Record AccessLogContext := mkAccessLogContext {
  ac_client_ip : option IpAddr;
  ac_geoip : GeoIpRecord;
  ac_method : string;
  ac_path : string;
  ac_status : N;
  ac_latency : option N;
  ac_upstream : option string;
  ac_upstream_group : option string;
  ac_cache_status : option string;
  ac_route_id : option N;
  ac_nf : option NrfServiceMetadata
}.

Section telemetry.
Context `{RuntimeDeps} `{HttpErrors} `{GeoDb} `{PeerDefaults} `{HashIter} {W : Type} `{!ScpGroups W} `{!ProxyEnv W} `{!GroupSelect}.
(** [serde_json::to_string] of an entry, and the socket address of the client. *)
Context (entry_json : AccessLogEntry -> result string string) (peer_addr : option string).

Definition write_access_log (session : Downstream) (c : AccessLogContext) (log : list string) : list string :=
  let entry := mkAccessLogEntry (ac_geoip c) (ac_method c) (ac_path c) (ac_status c) (ac_latency c) (ac_upstream c) (ac_upstream_group c)
    (ac_cache_status c) None (show_ip <$> ac_client_ip c) peer_addr (ac_route_id c)
    (header_get "x-request-id" (ds_headers session) ≫= header_to_str)
    (nf_instance_id <$> ac_nf c) (service_instance_id <$> ac_nf c) in
  match entry_json entry with Ok json => log ++ [json] | Err _ => log end.

(** ** The request *)

Definition final_status (session : Downstream) (e : option ProxyError) : N :=
  match ds_response session with
  | Some r => rh_status r
  | None => match e with Some err => match pe_type err with EtHTTPStatus code => code | _ => 0 end | None => 0 end
  end.

Definition upstream_of (c : ProxyContext) : option string :=
  selected ← cx_selected c;
  match sl_target selected with
  | StScp _ => (fun x => ApiRoot_value (sx_root x)) <$> cx_scp c
  | StUpstream peer => Some (sp_host peer +:+ ":" +:+ pretty (sp_port peer))
  | StReturn _ _ | StPending _ | StDirectResponse _ => None
  end.

Definition upstream_group_of (c : ProxyContext) : option string :=
  selected ← cx_selected c;
  match sl_target selected with
  | StScp name => Some name
  | StUpstream peer => sp_upstream_group peer
  | StReturn _ _ | StPending _ | StDirectResponse _ => None
  end.

Definition had_upstream (e : option ProxyError) (c : ProxyContext) : bool :=
  match cx_selected c with
  | None => false
  | Some selected => match sl_target selected with StReturn _ _ => false | _ => true end
  end && is_none e.

Definition cache_status_of (e : option ProxyError) (c : ProxyContext) : CacheStatus :=
  if cx_cache_hit c then Hit else if is_some e then Bypass else if is_some (cx_cache_key c) then Miss else Bypass.

Definition finish_span (e : option ProxyError) (status : N) (method path : string) (upstream : option string) (cache : CacheStatus) (s : Span) : Span :=
  let s := set_attribute "http.status_code" (AttrI64 (Z.of_N status)) s in
  let s := set_attribute "http.method" (AttrStr method) s in
  let s := set_attribute "http.route" (AttrStr path) s in
  let s := match upstream with Some u => set_attribute "upstream" (AttrStr u) s | None => s end in
  let s := set_attribute "cache.status" (AttrStr (CacheStatus_as_str cache)) s in
  let s := if should_mark_span_as_error e status then set_error "proxy error" s else s in
  span_end s.

Record Reports := mkReports { rp_registry : Registry; rp_log : list string; rp_span : option Span }.

Definition request_labels (session : Downstream) (e : option ProxyError) (c : ProxyContext) : RequestLabels :=
  mkRequestLabels (ds_method session) (pretty (final_status session e)) (cache_status_of e c) (had_upstream e c)
    (default 0 (sl_route_id <$> cx_selected c)).

(** [finish_request] up to the cache. *)
Definition observe_request (session : Downstream) (e : option ProxyError) (latency : N) (c : ProxyContext) (r : Reports) : Reports :=
  let method := ds_method session in
  let path := uri_path (ds_uri session) in
  let status := final_status session e in
  let upstream := upstream_of c in
  let upstream_group := upstream_group_of c in
  let span := finish_span e status method path upstream (cache_status_of e c) <$> rp_span r in
  let log := if negb (String.eqb method "GET") || negb (String.eqb path "/metrics") then
               write_access_log session
                 (mkAccessLogContext (cx_client_ip c) (cx_geoip c) method path status (Some latency) upstream upstream_group
                    (Some (CacheStatus_as_str (cache_status_of e c))) (sl_route_id <$> cx_selected c)
                    (cx_scp c ≫= fun x => nrf_service (sx_backend x))) (rp_log r)
             else rp_log r in
  let registry := record_metrics (request_labels session e c) latency 0 (str_len (cx_response_body_buf c)) (rp_registry r) in
  let registry := if cx_upstream_attempted c && is_none (cx_scp_profile c) then
                    match upstream_group, upstream with
                    | Some group, Some backend => record_upstream_backend_metrics group backend status latency registry
                    | _, _ => registry
                    end
                  else registry in
  mkReports registry log span.

(** The whole of [finish_request]. *)
Definition finish_request_whole (generation : N) (e : option ProxyError) (latency : N) (s : PState) (r : Reports)
  : Reports * (PState * result PError unit) :=
  (observe_request (px_down s) e latency (px_ctx s) r, finish_request generation (is_some e) s).

(** ** Properties *)

(** Everything that is recorded in the registry: finished requests, SCP and NRF events,
    scrapes. *)
Inductive reported : Registry -> Registry -> Prop :=
| reported_request r session e latency c log span :
    reported r (rp_registry (observe_request session e latency c (mkReports r log span)))
| reported_scp r profile event : reported r (record_scp_event profile event r)
| reported_scp_cache r profile n : reported r (set_scp_cache_entries profile n r)
| reported_nrf r group outcome : reported r (record_nrf_discovery_request group outcome r)
| reported_nrf_snapshot r group age n : reported r (set_nrf_discovery_snapshot group age n r)
| reported_scrape r l previous : reported r (fst (replace_upstream_backend_readiness l previous r)).

(** Neither counters nor histograms change. *)
Definition gauges_only (r r' : Registry) : Prop := counters r' = counters r /\ histograms r' = histograms r.

Lemma scrape_gauges_only l previous r : gauges_only r (fst (replace_upstream_backend_readiness l previous r)).
Proof.
  unfold replace_upstream_backend_readiness.
  assert (forall current r, gauges_only r (fst (scrape_all l current r))) as Hall.
  { induction l as [|[[g b] ready] l IH]; intros current r'; [done|]. cbn [scrape_all scrape_set].
    exact (IH ({[(g, b)]} ∪ current) (set_gauge upstream_backend_ready [g; b] (ready_value ready) r')). }
  specialize (Hall ∅ r). destruct (scrape_all l ∅ r) as [r1 current]. cbn [fst] in *. destruct Hall as [Hct Hhist].
  unfold scrape_swap, gauges_only. cbn [fst]. rewrite <- Hct, <- Hhist.
  induction (elements (previous ∖ current)) as [|x xs IH]; [done|]. by destruct IH.
Qed.

Lemma consistent_gauges r r' l : gauges_only r r' -> series_consistent r l -> series_consistent r' l.
Proof. intros [Hc Hh] [Hhits Hmiss Hdur]. constructor; unfold counter, observations in *; by rewrite ?Hc, ?Hh. Qed.

Lemma consistent_other r f ls l :
  f <> requests_total -> f <> cache_hits_total -> f <> cache_misses_total ->
  series_consistent r l -> series_consistent (inc f ls r) l.
Proof. intros ? ? ? [Hh Hm Hd]. unfold inc. constructor; rewrite ?counter_inc_other, ?observations_inc by (by left); done. Qed.

Lemma consistent_backend r group backend status latency l :
  series_consistent r l -> series_consistent (record_upstream_backend_metrics group backend status latency r) l.
Proof.
  intros Hr. unfold record_upstream_backend_metrics.
  destruct (consistent_other r upstream_backend_requests_total [group; backend; status_class status] l) as [Hh Hm Hd]; try done.
  constructor; rewrite ?counter_observe, ?observations_other by (left; discriminate); done.
Qed.

(** The registry after a finished request: its own counters, then those of its backend. *)
Lemma observe_request_registry session e latency c r :
  let r1 := record_metrics (request_labels session e c) latency 0 (str_len (cx_response_body_buf c)) (rp_registry r) in
  rp_registry (observe_request session e latency c r) = r1 \/
  exists group backend, rp_registry (observe_request session e latency c r) =
    record_upstream_backend_metrics group backend (final_status session e) latency r1.
Proof.
  unfold observe_request. cbn [rp_registry]. destruct (_ && _); [|by left].
  destruct (upstream_group_of c), (upstream_of c); eauto.
Qed.

Lemma reported_consistent r r' l : reported r r' -> series_consistent r l -> series_consistent r' l.
Proof.
  intros Hs Hr. destruct Hs.
  - destruct (observe_request_registry session e latency c (mkReports r log span)) as [->|(g & b & ->)]; [|apply consistent_backend];
      by apply record_metrics_consistent.
  - by apply consistent_other.
  - by apply (consistent_gauges r).
  - by apply consistent_other.
  - by apply (consistent_gauges r).
  - apply (consistent_gauges r); [apply scrape_gauges_only|done].
Qed.

Lemma consistent_empty l : series_consistent Registry_empty l.
Proof. constructor; destruct (rl_cache_status l); reflexivity. Qed.

Lemma reported_requests session e latency c r ls :
  counter (rp_registry (observe_request session e latency c r)) requests_total ls =
  if decide (label_values (request_labels session e c) = ls) then wrapping_add64 (counter (rp_registry r) requests_total ls) 1
  else counter (rp_registry r) requests_total ls.
Proof.
  set (l := request_labels session e c).
  assert (counter (record_metrics l latency 0 (str_len (cx_response_body_buf c)) (rp_registry r)) requests_total ls =
    if decide (label_values l = ls) then wrapping_add64 (counter (rp_registry r) requests_total ls) 1
    else counter (rp_registry r) requests_total ls) as <-.
  { unfold record_metrics, inc. destruct (decide (label_values l = ls)) as [<-|Hne]; destruct (rl_cache_status l); by series. }
  destruct (observe_request_registry session e latency c r) as [->|(g & b & ->)]; [done|].
  unfold record_upstream_backend_metrics, inc. by rewrite counter_observe, counter_inc_other by (left; discriminate).
Qed.

(** C36: the request metrics agree with each other.  A finished request counts once, in
    the series of its method, status, cache outcome and route, and in no other; and
    whatever requests, SCP and NRF events and scrapes have been recorded, for every
    label set the cache hits are the requests answered from the cache, the misses those
    that missed, and there are as many durations as requests (all modulo [2^64]). *)
Theorem request_metrics_consistent r :
  rtc reported Registry_empty r ->
  (forall l, series_consistent r l) /\
  forall session e latency c log span ls,
    counter (rp_registry (observe_request session e latency c (mkReports r log span))) requests_total ls =
    if decide (ls = [ds_method session; pretty (final_status session e);
                     if cx_cache_hit c then "hit" else if is_none e && is_some (cx_cache_key c) then "miss" else "bypass";
                     if had_upstream e c then "true" else "false"; pretty (default 0 (sl_route_id <$> cx_selected c))])
    then wrapping_add64 (counter r requests_total ls) 1 else counter r requests_total ls.
Proof.
  intros Hr. split.
  - intros l. pose proof (consistent_empty l) as He. revert He. induction Hr as [|r1 r2 r3 Hs Hr IH]; [done|].
    intros He. by eapply IH, reported_consistent.
  - intros session e latency c log span ls. rewrite reported_requests. cbn [rp_registry].
    assert (label_values (request_labels session e c) = [ds_method session; pretty (final_status session e);
      if cx_cache_hit c then "hit" else if is_none e && is_some (cx_cache_key c) then "miss" else "bypass";
      if had_upstream e c then "true" else "false"; pretty (default 0 (sl_route_id <$> cx_selected c))]) as <-.
    { unfold label_values, request_labels, cache_status_of. cbn. by destruct (cx_cache_hit c), e, (cx_cache_key c). }
    destruct (decide _) as [->|Hne]; [by rewrite decide_True|]. by rewrite decide_False.
Qed.

(** *** What the metrics do not say *)

(** [ngxora_upstream_request_bytes_total] never counts anything. *)
Theorem upstream_request_bytes_never_count r ls :
  rtc reported Registry_empty r -> counter r upstream_request_bytes_total ls = 0.
Proof.
  intros Hr. cut (forall r0, rtc reported r0 r -> counter r0 upstream_request_bytes_total ls = 0 -> counter r upstream_request_bytes_total ls = 0).
  { intros Hall. by apply (Hall Registry_empty). }
  clear Hr. intros r0 Hr. induction Hr as [|r1 r2 r3 Hs Hr IH]; [done|]. intros Hz. apply IH. clear IH Hr r3.
  destruct Hs; try done.
  - set (l := request_labels session e c).
    assert (counter (record_metrics l latency 0 (str_len (cx_response_body_buf c)) r) upstream_request_bytes_total ls = 0) as Hone.
    { unfold record_metrics, inc. destruct (decide (label_values l = ls)) as [<-|Hne]; destruct (rl_cache_status l); series; by rewrite ?Hz. }
    destruct (observe_request_registry session e latency c (mkReports r log span)) as [->|(g & b & ->)]; [done|].
    unfold record_upstream_backend_metrics, inc. by rewrite counter_observe, counter_inc_other by (left; discriminate).
  - unfold record_scp_event, inc. by rewrite counter_inc_other by (left; discriminate).
  - unfold record_nrf_discovery_request, inc. by rewrite counter_inc_other by (left; discriminate).
  - unfold counter. destruct (scrape_gauges_only l previous r) as [-> _]. done.
Qed.

(** A request answered from the cache is labelled as if an upstream had been used. *)
Theorem cache_hit_labelled_upstream session c selected :
  cx_selected c = Some selected -> cx_cache_hit c = true -> (forall status l, sl_target selected <> StReturn status l) ->
  rl_has_upstream (request_labels session None c) = true /\ rl_cache_status (request_labels session None c) = Hit.
Proof.
  intros Hs Hh Ht. unfold request_labels, had_upstream, cache_status_of. cbn. rewrite Hs, Hh. split; [|done].
  destruct (sl_target selected) as [| | | |st loc]; try done. by destruct (Ht st loc).
Qed.
End telemetry.
