(* ===== verification/ProxySamples.v ===== *)
(** * A request, end to end

    A concrete environment, and a request to a route with two plugins and a cache: it
    is filtered, proxied, streamed and stored.  The lifecycle theorems at these points. *)

From S2P Require Import Prelude RustStr NetAddr Crates Headers PluginApi Ir Types HttpRoutes Routing Scp Cache.
From S2P Require Import CompileUpstreams CompileRoutes CompileRouter Control Selection ClientIp ScpRouting GeoIp Peer ProxyState Proxy.
From S2P Require Import Lifecycle RequestLife CacheFill Metrics Telemetry.

Open Scope N_scope.

Module ProxySample.
Export Toy ToyDeps ToyPlugins GeoIpSample SelectionSample.
#[export] Instance order : HashIter := iter_forward.
#[export] Instance defaults : PeerDefaults :=
  {| peer_http_version := (1, 1); peer_max_h2_streams := 1; peer_timeout := None; peer_verify := true |}.
(** The world is the time. *)
#[export] Instance no_groups : @ScpGroups Toy.crates ToyDeps.deps N := {|
  ScpGroup := unit; scp_group_new w _ _ := (w, Err "none"); scp_group_hash_key _ _ := None; scp_candidates _ _ := [];
  scp_status _ _ := Ok tt; scp_select w _ _ _ := (w, None); scp_refresh w _ _ := (w, true); scp_now w := w; scp_strong_count _ _ := 0
|}.
(** Plugins mark the messages they see. *)
#[export] Instance env : @ProxyEnv Toy.crates ToyDeps.deps N := {|
  on_request p _ w st h := (w + 1, st, header_append "x-seen" p h, Ok Continue);
  on_upstream_request p w st h := (w + 1, st, header_append "x-seen" p h, Ok Continue);
  on_response p w st status h := (w + 1, st, status, header_append "x-out" p h, Ok Continue);
  io_header w := (w + 1, None); io_body w := (w + 1, None); error_page_headers _ := [];
  clock w := w; challenge_token _ _ := None; trace_headers _ := [];
  lookup_host w host _ _ := (w, Ok host)
|}.

Definition cache_config : CacheConfig := CacheConfig_default.
Definition location : @CompiledLocation Toy.crates :=
  mkCompiledLocation ClientLimits_default None 1 (CmPrefix "/") [] (RtProxyPass "10.0.0.1" 80 false "")
    UpstreamTimeouts_default None UpstreamHttp2Options_default UpstreamSslOptions_default [] (Some cache_config).
Definition router : @CompiledRouter Toy.crates :=
  mkCompiledRouter None ∅ ∅ {[ ToyDeps.key := mkVirtualHostRoutes ∅ (Some (mkServerRoutes [location])) ]} ∅ ∅
    (r_http_options RouterSample.router) None.
Definition snapshot : @RuntimeSnapshot Toy.crates ToyDeps.deps :=
  mkRuntimeSnapshot ∅ ∅ 1 "v1" router {[ 1 := ["a"; "b"] ]} ∅ ∅ ∅.
Definition down : @Downstream Toy.crates :=
  @mkDownstream Toy.crates "GET" (parse_uri "/x") [] false (Some (Some (ipv4 127 0 0 1, 443))) true (Some "web.test") (Some (Some "web.test"))
    (Some (ipv4 10 0 0 9)) false false None None None None [] false.
Definition st0 : @PState Toy.crates ToyDeps.deps GeoIpSample.db N no_groups :=
  @mkPState _ _ _ _ _ down (@ProxyContext_default _ _ _ _) (CacheBackend_new 5000) ∅ ∅ None 100 [].
(** The callbacks in turn. *)
Definition st1 := fst (request_filter snapshot 1 st0).
Definition upstream_response : ResponseHeader := mkResponseHeader 200 [("content-length", "5")].
Definition st2 := fst ((header ← response_filter upstream_response; write_response_header header) st1).
Definition st3 := fst ((_ ← response_body_filter (Some "hel"); write_response_body (Some "hel") false) st2).
Definition st4 := fst (finish_request 1 false st3).

Lemma st0_fresh : fresh st0.
Proof. done. Qed.
Lemma wire_is_up : wire_up.
Proof. by intros w. Qed.
(** The header after the response hooks. *)
Definition final_header : ResponseHeader := mkResponseHeader 200 [("content-length", "5"); ("x-out", "b"); ("x-out", "a")].
Lemma filtered : response_filter upstream_response st1 = (fst (response_filter upstream_response st1), Ok final_header).
Proof.
  assert (snd (response_filter upstream_response st1) = Ok final_header) as <- by (vm_compute; reflexivity).
  apply surjective_pairing.
Qed.
Lemma st1_empty : nothing_collected st1.
Proof. vm_compute. by repeat split. Qed.
(** The run of these callbacks. *)
Lemma step_request : life_step (Waiting, st0) (Proxying, st1).
Proof.
  pose proof (ls_request snapshot 1 st0) as Hs.
  by replace (request_phase (snd (request_filter snapshot 1 st0))) with Proxying in Hs by (vm_compute; reflexivity).
Qed.
Lemma proxied_ok (m : @px Toy.crates ToyDeps.deps GeoIpSample.db N no_groups unit) s :
  match snd (m s) with Ok _ => true | Err _ => false end = true -> proxied m s = (Proxying, fst (m s)).
Proof. unfold proxied. by destruct (snd (m s)). Qed.
Lemma step_response : life_step (Proxying, st1) (Proxying, st2).
Proof.
  pose proof (ls_response upstream_response st1 eq_refl) as Hs. by rewrite proxied_ok in Hs by (vm_compute; reflexivity).
Qed.
Lemma step_body : life_step (Proxying, st2) (Proxying, st3).
Proof.
  pose proof (ls_response_body (Some "hel") false st2) as Hs. rewrite proxied_ok in Hs by (vm_compute; reflexivity).
  apply Hs. by eexists.
Qed.
Lemma run_proxying : rtc life_step (Waiting, st0) (Proxying, st3).
Proof.
  apply (rtc_l _ _ _ _ step_request), (rtc_l _ _ _ _ step_response), (rtc_l _ _ _ _ step_body), rtc_refl.
Qed.
Lemma run_finished : rtc life_step (Waiting, st0) (Finished, st4).
Proof. eapply rtc_r; [apply run_proxying|]. apply ls_finish_proxied. by eexists. Qed.
End ProxySample.
Import ProxySample.

(** Both plugins ran on the response, last first, and three bytes are collected. *)
Lemma request_life_safe_witness :
  (responses (px_trace st3)).*1 = ["b"; "a"] /\ headers_sent (px_trace st3) = [200].
Proof.
  split; [reflexivity|].
  destruct (request_life_safe st0 Proxying st3 st0_fresh run_proxying) as (_ & Hh & _).
  exact Hh.
Defined.

Lemma request_completes_witness :
  exists header, headers_sent (px_trace st4) = [rh_status header] /\ ds_response (px_down st4) = Some header.
Proof.
  destruct (request_completes snapshot st0 (Finished, st4) wire_is_up
    st0_fresh run_finished) as [Hd _].
  apply Hd. reflexivity.
Defined.

(** The proxied request fails before its response: it gets one error page. *)
Lemma failure_answered_once_witness :
  failure_outcome (mkProxyError EtOther SourceUpstream) st1
    (fail_to_proxy 1 (mkProxyError EtOther SourceUpstream) st1).
Proof. apply (failure_answered_once 1 (mkProxyError EtOther SourceUpstream) st1). left. reflexivity. Defined.

(** Two chunks and the end of the body: the response is in the cache. *)
Lemma stored_response_exact_witness :
  px_cache (fst (finish_request 1 false (interfere (px_cache st1) ∅ ∅ None 200
    (stream [Some "hel"; None; Some "lo"] (fst (response_filter upstream_response st1)))))) =
  cache_after st1 final_header
    [Some "hel"; None; Some "lo"] false (clock (200 : N)) 1 (px_cache st1).
Proof.
  apply (stored_response_exact upstream_response final_header
    [Some "hel"; None; Some "lo"] false 1 (px_cache st1) ∅ ∅ None 200 st1
    (fst (response_filter upstream_response st1))).
  - exact filtered.
  - exact st1_empty.
Defined.

Example second_request_hits :
  let s := fst (finish_request 1 false (fst (response_body_filter (Some "hello") st2))) in
  let again := set_px_down down (set_px_ctx (@ProxyContext_default _ _ _ _) s) in
  let '(s', r) := request_filter snapshot 1 again in
  (r, cx_cache_hit (px_ctx s'), ds_body (px_down s')) = (Ok true, true, ["hello"]).
Proof. vm_compute. reflexivity. Qed.

(** A header stored with two values is served from the cache with one: the values are
    written back with [insert_header], which replaces. *)
Example cached_repeated_header_lost :
  let cached := mkCachedResponse 200 [("link", "</a>"); ("link", "</b>")] "x" 0 in
  (fun h => get_all "link" (rh_headers h)) <$> ds_response (px_down (fst (write_cached_response cached st0))) = Some ["</b>"].
Proof. vm_compute. reflexivity. Qed.

(** The finished request is the first one counted, as a cache miss. *)
Definition entry_text (e : AccessLogEntry) : result string string := Ok (al_path e).
Definition reports : Reports :=
  observe_request entry_text (Some "10.0.0.9:5000") (px_down st3) None 250 (px_ctx st3) (mkReports Registry_empty [] (Some (start_request_span "GET" "/x"))).
Lemma request_metrics_consistent_witness :
  counter (rp_registry reports) requests_total ["GET"; "200"; "miss"; "true"; "1"] = 1 /\
  counter (rp_registry reports) cache_misses_total ["GET"; "200"; "miss"; "true"; "1"] = 1.
Proof.
  assert (rtc (reported entry_text (Some "10.0.0.9:5000")) Registry_empty (rp_registry reports)) as Hr by (apply rtc_once; constructor).
  destruct (request_metrics_consistent entry_text (Some "10.0.0.9:5000") (rp_registry reports) Hr) as [Hc _].
  split; [vm_compute; reflexivity|].
  destruct (Hc (mkRequestLabels "GET" "200" Miss true 1)) as [_ Hm _]. exact Hm.
Defined.
